(* ===== verification/_CoqProject ===== *)
-Q . S2P
Prelude.v
Encoding.v
NetIP.v
Sha256.v
GoTime.v
GoRFC3339.v
GoSlice.v
GoHttp.v
GoJson.v
Json.v
JsonCodec.v
GoFmt.v
CoordStore.v
CoordConc.v
CoordAuth.v
CoordServer.v
DiscoKeys.v
DiscoEnvelope.v
DiscoClient.v
JsonWire.v
EndToEnd.v
TunnelErrors.v
TunnelValidate.v
TunnelGre.v
PeerFSM.v
Daemon.v
Stun.v
DaemonRun.v
Health.v
ProbePool.v
CmdTunnel.v
CmdHealth.v
CmdMain.v
