(* ===== verification/Prelude.v ===== *)
(** * gretun: a verification development

    gretun builds a mesh of GRE tunnels over UDP (Foo-over-UDP) between hosts
    behind NATs.  A coordinator ([cmd/gretun-coord], [internal/coord]) keeps a
    registry of peers, gives each one a tunnel address, and relays sealed
    messages between them.  On every host a daemon ([internal/daemon]) registers
    with the coordinator through a client ([internal/disco/client.go]), learns
    its public address from STUN servers, polls the peer list, and runs one state
    machine per remote peer, which punches through the NATs with sealed disco
    messages ([internal/disco]) and, when a path is confirmed, creates the tunnel
    through netlink ([internal/tunnel]).  The command [gretun] ([cmd/gretun])
    starts the daemon, manages tunnels by hand, and probes them with ICMP
    ([internal/health]).

    ** Files

    The Go runtime and standard library, as far as the sources use them:
    - [Prelude]: results, fixed-width integers, bytes and strings, tactics and
      the hint databases the other files share;
    - [Encoding]: hex, base64 and decimal conversions, with their round trips;
    - [NetIP]: [net/netip] and [net.IP], parsing and printing of addresses;
    - [Sha256]: an executable SHA-256;
    - [GoTime], [GoRFC3339]: clocks, durations and the calendar, timestamps;
    - [GoSlice], [GoHttp]: slices that share backing arrays and channels that can
      be closed, requests and their targets;
    - [GoJson], [Json], [JsonCodec]: the interface of [encoding/json] to the
      programs that use it, JSON text with its printers and parser, and decoding
      into Go values;
    - [GoFmt]: [float64], durations, number formats and the table writer.

    The coordinator:
    - [CoordStore] ([internal/coord/store.go], [types.go]): the record [MemStore]
      and one function per critical section; a blocking wait returns at once or
      names the channel it parks on;
    - [CoordConc]: the step relation of the goroutines that run those sections
      concurrently, with their deferred channel closes;
    - [CoordAuth] ([auth.go]): signing and verification of requests;
    - [CoordServer] ([server.go]): routing, authentication and the handlers, over
      the interface [Store] of which [MemStore] is the instance.

    The host:
    - [DiscoKeys] ([disco/keys.go]), [DiscoEnvelope] ([envelope.go], [hash.go]),
      [DiscoClient] ([client.go]): keys and their persistence, the wire format,
      and every client method over an arbitrary transport;
    - [JsonWire]: the JSON of every struct of the two sides, of the disco message
      and of the key file, as instances of the interface [GoJson];
    - [EndToEnd]: the client with the coordinator's [ServeHTTP] as transport;
    - [Stun] ([disco/stun.go]): [DiscoverPublic];
    - [TunnelErrors] ([tunnel/errors.go], [errtranslate.go]), [TunnelValidate]
      ([types.go], [validate.go]), [TunnelGre] ([netlink.go], [gre.go],
      [list.go]): tunnel operations over the interface [Netlinker], and the
      instance [DefaultNetlinker] over the netlink library;
    - [PeerFSM] ([daemon/peer.go]): the handlers of one peer, and the step
      relation that interleaves them with timers and with the goroutines that
      feed the bounded event queue;
    - [Daemon] ([daemon/daemon.go]): the table of peers, its reconciliation with
      the coordinator's list, and the delivery of datagrams and signals;
    - [DaemonRun] ([daemon/daemon.go], [metrics.go]): [Run] with its early returns
      and deferred calls, and the step relation of the whole running daemon, in
      which every loop, every state machine and [Run] itself interleave;
    - [Health], [ProbePool] ([health/probe.go]): one probe, a sequence of probes,
      and the pool of goroutines of [ProbeTargets] as a step relation, with a
      history of what every probe met;
    - [CmdTunnel], [CmdHealth] ([cmd/gretun/commands]): the commands with what
      they print; [CmdMain]: the remaining commands, the check before a command
      ([internal/capabilities]), the relation [cli_run] of a whole invocation of
      [gretun] on a host, and the start of the coordinator.

    ** What the theorems show

    - Registry: a new node gets the least free address of the pool or the
      exhaustion error, addresses are unique and stable under every
      interleaving, and the listing is the sorted registry.
    - Relay: the signal queues refine an unbounded mailbox seen through a window
      of 64 envelopes and 30 seconds; no wake-up is lost and no channel is
      closed twice; what a client sends is what the addressee pulls, through
      signing, routing, JSON and the store.
    - Authentication: the accepted requests are characterised exactly, signed
      requests are accepted, signatures bind what they are meant to bind, and a
      request that does not verify has no effect.
    - Messages: values survive printing and parsing of JSON; the two declarations
      of every message fit together; keys and envelopes round-trip through
      their text.
    - Tunnels: validation accepts exactly the stated configurations; [Create] is
      all or nothing up to clean-ups whose failure is logged; [Get], [List] and
      [Delete] agree with it, for every kernel that meets [NetlinkerSpec] and on
      every failing call.
    - Peers: the state machine moves along four edges only; a pong brings the
      tunnel up.  Several theorems state behaviour that differs from the
      comments and documents: the deadline that is not renewed after a lost
      keepalive, the relay state that is never retried, the /30 address that is
      refused, the relayed pong that leaves a peer direct without a tunnel, the
      update that can be lost.
    - Daemon: reconciliation tracks the list, interface names are never shared
      under a pattern of the documented form, datagrams reach only the peer they
      decrypt under, and a list that arrives after [shutdown] panics.  The running daemon changes no link but its own
      and gives back its FOU port, but it may return before its tunnels are
      deleted, and its STUN query can swallow disco messages.
    - Probes: the checksum is that of RFC 1071 and the request is well formed; a
      probe succeeds exactly on an echo reply, of whatever origin; the pool
      always terminates, never exceeds its limit, and returns for every target it
      dispatched the result of the probe it ran.
    - STUN: an endpoint is reported only from an answer to a request that was
      sent, under the name of its server.
    - Commands: the outcome of [create] on every path; the health rows are the
      tunnels, each with the outcome of a probe of its own address that the same
      pass ran, and the time shown is off by at most 5 microseconds; watch mode
      ends only on an interrupt or a failing listing; no sequence of invocations changes a link that is not a
      GRE tunnel; without user id 0 nothing but [version] and [stun] runs.

    ** Interfaces to code outside the repository

    [Ed25519] (sign then verify), [NaclBox] (seal then open), [Netlinker] with
    [NetlinkerSpec] (a failing call changes nothing, a succeeding one does what
    its name says; any call may fail, lookups included) and [LookupSpec] (for the
    theorems that read a tunnel back: a link that is there is found), [FmtVerbs]
    (what [fmt.Sprintf] makes of an interface pattern that is not of the
    documented form, with a single %d), [NetlinkLib] (the netlink library under
    [DefaultNetlinker]), [Icmp] (parsing of ICMP messages; an echo header of eight
    bytes parses), [Stun] (the codec; a message has 20 bytes and the magic cookie), [Growslice]
    (the capacity [append] chooses), [CauseText] and [ErrorText] (texts of library
    errors), [Wire] (what a message shows of the coordinator's time zone and of
    nil slices).  [MarshalJSON], [UnmarshalJSON] and [JSONCompat] stand between the
    programs and [JsonWire].  Each has an instance, used by the witnesses in the
    [..Demo] modules and in [Mock]; [Mock] is a kernel whose calls fail as
    scripted.  Clock readings, random bytes, interface addresses, name
    resolution, sockets and the failures of file operations are arguments of the
    functions that use them.

    ** Fuel

    [alloc_loop] visits addresses until one is free or the pool ends; every
    address it skips is in [byTunnel], so the size of that map plus one suffices,
    and [register_new_peer] shows that it always answers.  [zero_run] and
    [groups6] run over the eight groups of an IPv6 address; [parse_groups] reads
    at most eight groups before the source's loop stops; [blocks] consumes 64
    bytes per unit of fuel and starts with the number of 64-byte blocks of the
    padded input.  [parse_value] gets one unit per byte and one more, and
    [decode_value_fuel] shows that more would read nothing else.  [fold_carry]
    gets three units, which [icmp_checksum_rfc1071] shows to be enough.
    [shortest_from] tries the decimals from [10^22] down to [10^-24], which
    includes the 17 significant digits that tell apart any two numbers in the
    range of the health rows.  Everything else is structural, or a step relation.

    ** Not modelled

    Flag parsing and usage texts of cobra and [flag] (a command starts from the
    values of its flags), log lines except where they are the trace of a failed
    clean-up, response headers, the HTTP server of the metrics and the names
    under which Prometheus knows them, the paths of state directories, and the
    formatting verbs other than [%d] and [%%] in an interface pattern.  The
    addresses in the round trips of JSON messages are IPv4, the only ones that
    the registry and the daemon produce. *)

From stdpp Require Export base gmap strings list vector pretty fin_maps sorting relations.
From Stdlib Require Export ZArith Lia.
From Stdlib Require Export Strings.Byte Strings.Ascii.

Open Scope Z_scope.

(** ** Results of fallible code

    A Go function that returns [(T, error)] becomes a function to
    [result E T].  [E] is the component's own error type. *)

Inductive result (E A : Type) : Type :=
| Ok (a : A)
| Err (e : E).
Arguments Ok {E A} a.
Arguments Err {E A} e.

#[export] Instance result_mret E : MRet (result E) := λ A a, Ok a.
#[export] Instance result_mbind E : MBind (result E) := λ A B f m,
  match m with Ok a => f a | Err e => Err e end.
#[export] Instance result_fmap E : FMap (result E) := λ A B f m,
  match m with Ok a => Ok (f a) | Err e => Err e end.

#[export] Instance result_eq_dec `{EqDecision E, EqDecision A} : EqDecision (result E A).
Proof. solve_decision. Defined.

Definition is_ok {E A} (r : result E A) : bool :=
  match r with Ok _ => true | Err _ => false end.

(** [guard_err b e] is the Go idiom [if !b { return e }]. *)
Definition guard_err {E} (b : bool) (e : E) : result E () :=
  if b then Ok () else Err e.

Lemma bind_Ok {E A B} (f : A → result E B) (m : result E A) (b : B) :
  m ≫= f = Ok b ↔ ∃ a, m = Ok a ∧ f a = Ok b.
Proof. destruct m; simpl; naive_solver. Qed.

Lemma bind_Err {E A B} (f : A → result E B) (m : result E A) (e : E) :
  m ≫= f = Err e ↔ m = Err e ∨ ∃ a, m = Ok a ∧ f a = Err e.
Proof. destruct m; simpl; naive_solver. Qed.

Lemma guard_err_Ok {E} (b : bool) (e : E) u : guard_err b e = Ok u ↔ b = true.
Proof. destruct u, b; simpl; naive_solver. Qed.

(** ** Tactics *)

(** Case analysis on every [match] and [if] of the hypotheses and the goal,
    keeping the equations. *)
Ltac split_matches :=
  repeat (case_match || case_decide); simplify_eq/=.

(** Turns boolean tests of the code into propositions. *)
Ltac bool_to_prop :=
  repeat match goal with
  | H : _ && _ = true |- _ => apply andb_true_iff in H as [??]
  | H : _ || _ = false |- _ => apply orb_false_iff in H as [??]
  | H : negb _ = true |- _ => apply negb_true_iff in H
  | H : negb _ = false |- _ => apply negb_false_iff in H
  | H : bool_decide _ = true |- _ => apply bool_decide_eq_true in H
  | H : bool_decide _ = false |- _ => apply bool_decide_eq_false in H
  | H : (_ =? _)%Z = true |- _ => apply Z.eqb_eq in H
  | H : (_ =? _)%Z = false |- _ => apply Z.eqb_neq in H
  | H : (_ <? _)%Z = true |- _ => apply Z.ltb_lt in H
  | H : (_ <? _)%Z = false |- _ => apply Z.ltb_ge in H
  | H : (_ <=? _)%Z = true |- _ => apply Z.leb_le in H
  | H : (_ <=? _)%Z = false |- _ => apply Z.leb_gt in H
  | H : (_ =? _)%nat = true |- _ => apply Nat.eqb_eq in H
  | H : (_ =? _)%nat = false |- _ => apply Nat.eqb_neq in H
  | H : (_ <? _)%nat = true |- _ => apply Nat.ltb_lt in H
  | H : (_ <? _)%nat = false |- _ => apply Nat.ltb_ge in H
  end.

(** Comparisons of closed integers. *)
Ltac z_compute :=
  repeat split; vm_compute;
  first [reflexivity | let Hx := fresh in intros Hx; discriminate Hx].

(** ** Machine integers

    A [w]-bit unsigned value is a [Z]; [wrapu w] is the reduction every Go
    arithmetic operation applies, [wraps w] the two's-complement one. *)

Definition wrapu (w x : Z) : Z := x mod 2 ^ w.
Definition wraps (w x : Z) : Z := (x + 2 ^ (w - 1)) mod 2 ^ w - 2 ^ (w - 1).

Definition int64_min : Z := - 2 ^ 63.
Definition int64_max : Z := 2 ^ 63 - 1.

Lemma wraps64_id x : int64_min ≤ x ≤ int64_max → wraps 64 x = x.
Proof.
  unfold wraps, int64_min, int64_max. intros H. simpl (64 - 1).
  rewrite Z.mod_small; lia.
Qed.

Lemma wraps64_high x : int64_max < x ≤ 2 ^ 64 + int64_max → wraps 64 x = x - 2 ^ 64.
Proof.
  unfold wraps, int64_min, int64_max. intros H. simpl (64 - 1).
  rewrite <- (Z.mod_add _ (-1)) by lia. rewrite Z.mod_small; lia.
Qed.

Lemma wraps64_low x : int64_min - 2 ^ 64 ≤ x < int64_min → wraps 64 x = x + 2 ^ 64.
Proof.
  unfold wraps, int64_min, int64_max. intros H. simpl (64 - 1).
  rewrite <- (Z.mod_add _ 1) by lia. rewrite Z.mod_small; lia.
Qed.

(** [x<<n | y] for a [y] below the shift is an addition. *)
Lemma lor_shiftl_add x y n : 0 ≤ n → 0 ≤ y < 2 ^ n → Z.lor (Z.shiftl x n) y = x * 2 ^ n + y.
Proof.
  intros Hn Hy. rewrite <- Z.shiftl_mul_pow2 by done.
  assert (Z.land (Z.shiftl x n) y = 0) as Hl; [|by rewrite Z.add_nocarry_lxor, Z.lxor_lor].
  rewrite <- (Z.mod_small y (2 ^ n)), <- Z.land_ones, (Z.land_comm y), Z.land_assoc by done.
  rewrite Z.land_ones, Z.shiftl_mul_pow2, Z_mod_mult by done. apply Z.land_0_l.
Qed.

(** ** Bytes *)

Abbreviation bytes := (list byte).

#[export] Instance byte_eq_dec : EqDecision byte := Byte.byte_eq_dec.
#[export] Instance byte_countable : Countable byte :=
  inj_countable Byte.to_N Byte.of_N Byte.of_to_N.

Definition byte_Z (b : byte) : Z := Z.of_N (Byte.to_N b).
Definition Z_byte (z : Z) : byte :=
  default x00 (Byte.of_N (Z.to_N (wrapu 8 z))).

Lemma byte_Z_range b : 0 ≤ byte_Z b < 256.
Proof. unfold byte_Z. pose proof (Byte.to_N_bounded b). lia. Qed.

Lemma Z_byte_Z b : Z_byte (byte_Z b) = b.
Proof.
  unfold Z_byte, wrapu. pose proof (byte_Z_range b).
  rewrite Z.mod_small by lia. unfold byte_Z. rewrite N2Z.id.
  by rewrite Byte.of_to_N.
Qed.

Lemma byte_Z_byte z : byte_Z (Z_byte z) = z mod 256.
Proof.
  unfold Z_byte, byte_Z, wrapu. change (2 ^ 8) with 256.
  pose proof (Z.mod_pos_bound z 256 ltac:(lia)) as Hb.
  destruct (Byte.of_N _) as [b|] eqn:E; simpl.
  - apply Byte.to_of_N in E. rewrite E. lia.
  - apply Byte.of_N_None_iff in E. lia.
Qed.

#[export] Instance byte_Z_inj : Inj (=) (=) byte_Z.
Proof. intros x y H. rewrite <- (Z_byte_Z x), <- (Z_byte_Z y). by f_equal. Qed.

(** A property of every byte can be checked by running it on all 256. *)
Lemma byte_forall (P : byte → bool) :
  forallb (λ n, match Byte.of_nat n with Some b => P b | None => true end)
    (seq 0 256) = true →
  ∀ b, P b = true.
Proof.
  intros H b. rewrite forallb_forall in H.
  specialize (H (Byte.to_nat b)).
  rewrite Byte.of_to_nat in H. apply H, in_seq.
  pose proof (Byte.to_nat_bounded b). lia.
Qed.

(** *** Go strings are byte sequences *)

Definition to_bytes (s : string) : bytes := String.list_byte_of_string s.
Definition of_bytes (l : bytes) : string := String.string_of_list_byte l.

Lemma of_to_bytes s : of_bytes (to_bytes s) = s.
Proof. apply String.string_of_list_byte_of_string. Qed.
Lemma to_of_bytes l : to_bytes (of_bytes l) = l.
Proof. apply String.list_byte_of_string_of_list_byte. Qed.

#[export] Instance to_bytes_inj : Inj (=) (=) to_bytes.
Proof. intros x y H. rewrite <- (of_to_bytes x), <- (of_to_bytes y). by f_equal. Qed.
#[export] Instance of_bytes_inj : Inj (=) (=) of_bytes.
Proof. intros x y H. rewrite <- (to_of_bytes x), <- (to_of_bytes y). by f_equal. Qed.

Lemma to_bytes_app s t : to_bytes (s +:+ t) = to_bytes s ++ to_bytes t.
Proof.
  unfold to_bytes, String.list_byte_of_string.
  induction s as [|c s IH]; [done|]. simpl. by rewrite IH.
Qed.

Lemma string_app_assoc (s t u : string) : s +:+ (t +:+ u) = (s +:+ t) +:+ u.
Proof.
  rewrite <- (of_to_bytes (s +:+ (t +:+ u))), !to_bytes_app, app_assoc, <- !to_bytes_app.
  apply of_to_bytes.
Qed.

(** *** Fixed-size arrays

    [array_copy n l] is Go's [var a [n]byte; copy(a[:], l)]: the first [n]
    bytes of [l], the rest left zero. *)

Fixpoint array_copy (n : nat) (l : bytes) : vec byte n :=
  match n with
  | O => [#]
  | S n => match l with
           | [] => x00 ::: array_copy n []
           | b :: l => b ::: array_copy n l
           end
  end.

Abbreviation key32 := (vec byte 32).

Lemma array_copy_vec {n} (v : vec byte n) l : array_copy n (vec_to_list v ++ l) = v.
Proof. induction v as [|b n v IH]; simpl; [done|]. by rewrite IH. Qed.

Lemma array_copy_self {n} (v : vec byte n) : array_copy n (vec_to_list v) = v.
Proof. rewrite <- (app_nil_r (vec_to_list v)). apply array_copy_vec. Qed.

(** Transparent, unlike stdpp's instance for vectors, so that maps keyed by
    arrays compute. *)
#[export] Instance byte_vec_countable n : Countable (vec byte n) :=
  inj_countable' vec_to_list (array_copy n) array_copy_self.

Lemma vec_array_copy n l : length l = n → vec_to_list (array_copy n l) = l.
Proof. revert l. induction n; intros [|b l] H; simpl in *; try done. f_equal; auto. Qed.

#[global] Arguments array_copy : simpl never.

(** ** Lists *)

(** A separator that does not occur before it makes the split unique. *)
Lemma sep_inj {A} (x : A) l1 l2 r1 r2 :
  x ∉ l1 → x ∉ l2 → l1 ++ x :: r1 = l2 ++ x :: r2 → l1 = l2 ∧ r1 = r2.
Proof.
  revert l2. induction l1 as [|a l1 IH]; intros [|b l2] H1 H2 Heq; simplify_eq/=.
  - done.
  - exfalso. apply H2. by left.
  - exfalso. apply H1. by left.
  - apply not_elem_of_cons in H1 as [? H1]. apply not_elem_of_cons in H2 as [? H2].
    destruct (IH l2 H1 H2); [done|]. by subst.
Qed.

Lemma filter_all {A} (P : A → Prop) `{∀ x, Decision (P x)} l :
  Forall P l → filter P l = l.
Proof. induction 1; [done|]. rewrite filter_cons_True by done. by f_equal. Qed.

Lemma filter_none {A} (P : A → Prop) `{∀ x, Decision (P x)} l :
  Forall (λ x, ¬ P x) l → filter P l = [].
Proof. induction 1; [done|]. by rewrite filter_cons_False. Qed.

(** Induction two elements at a time. *)
Lemma list_ind2 {A} (P : list A → Prop) :
  P [] → (∀ x, P [x]) → (∀ x y l, P l → P (x :: y :: l)) → ∀ l, P l.
Proof.
  intros H0 H1 H2 l. enough (P l ∧ ∀ x, P (x :: l)) by tauto.
  induction l as [|y l [IH1 IH2]]; split; auto.
Qed.

(** The last [n] elements of a list. *)
Definition lastn {A} (n : nat) (l : list A) : list A := drop (length l - n) l.

Lemma length_lastn {A} n (l : list A) : length (lastn n l) = (n `min` length l)%nat.
Proof. unfold lastn. rewrite length_drop. lia. Qed.

Lemma lastn_all {A} n (l : list A) : (length l ≤ n)%nat → lastn n l = l.
Proof. intros H. unfold lastn. replace (length l - n)%nat with O by lia. apply drop_0. Qed.

(** Dropping the head of a full window and appending is the same window of
    the longer list. *)
Lemma lastn_snoc {A} n (l : list A) x :
  (0 < n)%nat →
  lastn n (l ++ [x]) =
  (if (n <=? length (lastn n l))%nat then drop 1 (lastn n l) else lastn n l) ++ [x].
Proof.
  intros Hn. rewrite length_lastn. unfold lastn. rewrite length_app. simpl.
  destruct (Nat.leb_spec n (n `min` length l)).
  - rewrite drop_app_le by lia. rewrite drop_drop.
    by replace (length l + 1 - n)%nat with (length l - n + 1)%nat by lia.
  - replace (length l - n)%nat with O by lia.
    replace (length l + 1 - n)%nat with O by lia. by rewrite !drop_0.
Qed.

(** ** Automation shared by the components *)

Create HintDb gretun discriminated.
Create Rewrite HintDb gretun_len.
#[export] Hint Resolve byte_Z_range Z_byte_Z : gretun.
