(* ===== verification/Encoding.v ===== *)
(** * Text encodings of the Go standard library that gretun uses

    [hex.EncodeToString] (map keys, etags), [base64.StdEncoding] (keys and
    signatures in HTTP headers and in keys.json) and the decimal conversions
    of [strconv] (timestamps, ports, dotted-decimal addresses).  The round
    trips and injectivity facts proved here are what the store's maps and the
    request authentication rely on. *)

From S2P Require Import Prelude.

(** ** Hexadecimal *)
Module Hex.

Definition digit (n : Z) : byte :=
  if n <? 10 then Z_byte (48 + n) else Z_byte (87 + n).

(** [hex.EncodeToString], as bytes. *)
Fixpoint encode_bytes (l : bytes) : bytes :=
  match l with
  | [] => []
  | b :: l => digit (byte_Z b / 16) :: digit (byte_Z b mod 16) :: encode_bytes l
  end.

Definition EncodeToString (l : bytes) : string := of_bytes (encode_bytes l).

(** The value of one lower-case digit, for the inverse. *)
Definition value (b : byte) : Z :=
  let n := byte_Z b in if n <? 58 then n - 48 else n - 87.

Lemma digit_value b :
  value (digit (byte_Z b / 16)) * 16 + value (digit (byte_Z b mod 16)) = byte_Z b.
Proof.
  apply Z.eqb_eq. revert b. apply byte_forall. vm_compute. reflexivity.
Qed.

Lemma encode_bytes_inj l1 l2 : encode_bytes l1 = encode_bytes l2 → l1 = l2.
Proof.
  revert l2. induction l1 as [|a l1 IH]; intros [|b l2] H; try done.
  cbn [encode_bytes] in H. injection H as H1 H2 H3. f_equal; [|auto].
  apply (inj byte_Z). rewrite <- (digit_value a), <- (digit_value b). congruence.
Qed.

#[export] Instance EncodeToString_inj : Inj (=) (=) EncodeToString.
Proof. intros l1 l2 H. apply encode_bytes_inj. by apply (inj of_bytes). Qed.

Lemma length_encode_bytes l : length (encode_bytes l) = (2 * length l)%nat.
Proof. induction l; simpl; lia. Qed.

End Hex.

(** ** Decimal *)
Module Decimal.

(** [strconv.FormatInt(z, 10)] and [%d]. *)
Definition FormatInt (z : Z) : string := pretty z.

Definition digit_value (c : Ascii.ascii) : option Z :=
  let n := Z.of_N (Ascii.N_of_ascii c) in
  if (48 <=? n) && (n <=? 57) then Some (n - 48) else None.

(** The digits of [s] read after the value [acc]; [None] on any other
    character. *)
Fixpoint digits_value (acc : Z) (s : string) : option Z :=
  match s with
  | EmptyString => Some acc
  | String c s => d ← digit_value c; digits_value (acc * 10 + d) s
  end.

(** [strconv.ParseUint(s, 10, bits)]. *)
Definition ParseUint (bits : Z) (s : string) : option Z :=
  match s with
  | EmptyString => None
  | _ => n ← digits_value 0 s; if n <? 2 ^ bits then Some n else None
  end.

(** [strconv.ParseInt(s, 10, 64)]: an optional sign, then [ParseUint], then
    the cut-off at [2^63]. *)
Definition ParseInt64 (s : string) : option Z :=
  match s with
  | EmptyString => None
  | String "-"%char s => n ← ParseUint 64 s; if 2 ^ 63 <? n then None else Some (- n)
  | String "+"%char s => n ← ParseUint 64 s; if 2 ^ 63 <=? n then None else Some n
  | s => n ← ParseUint 64 s; if 2 ^ 63 <=? n then None else Some n
  end.

Definition is_digit (b : byte) : bool :=
  let n := byte_Z b in (48 <=? n) && (n <=? 57).

Lemma digit_value_pretty n :
  (n < 10)%N → digit_value (pretty_N_char n) = Some (Z.of_N n).
Proof.
  intros H.
  assert (n = 0 ∨ n = 1 ∨ n = 2 ∨ n = 3 ∨ n = 4 ∨ n = 5 ∨ n = 6 ∨ n = 7
    ∨ n = 8 ∨ n = 9)%N by lia.
  by destruct_or!; subst.
Qed.

Lemma digits_value_pretty_go n s :
  digits_value 0 (pretty_N_go n s) = digits_value (Z.of_N n) s.
Proof.
  revert s. induction (N.lt_wf_0 n) as [n _ IH]; intros s.
  assert (n = 0 ∨ 0 < n)%N as [->|Hn] by lia; [done|].
  rewrite pretty_N_go_step by done. rewrite IH by (by apply N.div_lt).
  simpl. rewrite digit_value_pretty by (by apply N.mod_lt). simpl. f_equal.
  pose proof (N.div_mod n 10 ltac:(done)). lia.
Qed.

Lemma digits_value_pretty (n : N) : digits_value 0 (pretty n) = Some (Z.of_N n).
Proof.
  unfold pretty, pretty_N. case_decide; [by subst|].
  by rewrite digits_value_pretty_go.
Qed.

Lemma pretty_N_head (n : N) :
  ∃ c s, pretty n = String c s ∧ digit_value c ≠ None.
Proof.
  pose proof (digits_value_pretty n) as H.
  destruct (pretty n) as [|c s] eqn:E.
  - exfalso. unfold pretty, pretty_N in E. case_decide; [done|].
    rewrite pretty_N_go_step in E by lia.
    assert (∀ m t, pretty_N_go m t = "" → t = "") as Hne.
    { intros m. induction (N.lt_wf_0 m) as [m _ IH]; intros t.
      assert (m = 0 ∨ 0 < m)%N as [->|?] by lia; [done|].
      rewrite pretty_N_go_step by done. intros Ht.
      apply IH in Ht; [done|by apply N.div_lt]. }
    by apply Hne in E.
  - exists c, s. split; [done|]. simpl in H. by destruct (digit_value c).
Qed.

Lemma ParseUint_pretty bits (n : N) :
  Z.of_N n < 2 ^ bits → ParseUint bits (pretty n) = Some (Z.of_N n).
Proof.
  intros Hn. destruct (pretty_N_head n) as (c & s & E & _).
  unfold ParseUint. rewrite E, <- E, digits_value_pretty. simpl.
  by rewrite (proj2 (Z.ltb_lt _ _) Hn).
Qed.

(** [ParseInt] reads back what [FormatInt] wrote, over the whole [int64]
    range. *)
Lemma ParseInt64_FormatInt z :
  int64_min ≤ z ≤ int64_max → ParseInt64 (FormatInt z) = Some z.
Proof.
  unfold int64_min, int64_max, FormatInt. intros Hz.
  destruct z as [|p|p]; [done| |].
  - change (pretty (Z.pos p)) with (pretty (N.pos p)).
    destruct (pretty_N_head (N.pos p)) as (c & s & E & Hc).
    assert (ParseInt64 (pretty (N.pos p)) =
      n ← ParseUint 64 (pretty (N.pos p)); if 2 ^ 63 <=? n then None else Some n) as ->.
    { rewrite E. destruct c as [[] [] [] [] [] [] [] []]; try done; by destruct Hc. }
    rewrite ParseUint_pretty by lia. simpl.
    by rewrite (proj2 (Z.leb_gt _ _)) by lia.
  - change (pretty (Z.neg p)) with (String "-"%char (pretty (N.pos p))).
    unfold ParseInt64. rewrite ParseUint_pretty by lia. simpl.
    by rewrite (proj2 (Z.ltb_ge _ _)) by lia.
Qed.

(** What [FormatInt] prints holds no separator character. *)
Lemma pretty_go_digits n s :
  Forall is_digit (to_bytes s) → Forall is_digit (to_bytes (pretty_N_go n s)).
Proof.
  revert s. induction (N.lt_wf_0 n) as [n _ IH]; intros s Hs.
  assert (n = 0 ∨ 0 < n)%N as [->|Hn] by lia; [done|].
  rewrite pretty_N_go_step by done. apply IH; [by apply N.div_lt|].
  change (to_bytes (String ?c s)) with (Ascii.byte_of_ascii c :: to_bytes s).
  constructor; [|done]. unfold pretty_N_char. by repeat case_match.
Qed.

Lemma pretty_digits (n : N) : Forall is_digit (to_bytes (pretty n)).
Proof.
  unfold pretty, pretty_N. case_decide; [by repeat constructor|].
  apply pretty_go_digits. constructor.
Qed.

Lemma pretty_no_sep (n : N) b : is_digit b = false → b ∉ to_bytes (pretty n).
Proof.
  intros Hb Hin. pose proof (pretty_digits n) as H.
  rewrite Forall_forall in H. specialize (H b Hin). by rewrite Hb in H.
Qed.

End Decimal.

(** ** Base64, [base64.StdEncoding] *)
Module Base64.

(** The standard alphabet: position to character, and the decode map. *)
Definition char (n : Z) : byte :=
  if n <? 26 then Z_byte (65 + n)
  else if n <? 52 then Z_byte (71 + n)
  else if n <? 62 then Z_byte (n - 4)
  else if n =? 62 then "+"%byte else "/"%byte.

Definition value (b : byte) : option Z :=
  let n := byte_Z b in
  if (65 <=? n) && (n <=? 90) then Some (n - 65)
  else if (97 <=? n) && (n <=? 122) then Some (n - 71)
  else if (48 <=? n) && (n <=? 57) then Some (n + 4)
  else if n =? 43 then Some 62
  else if n =? 47 then Some 63
  else None.

Definition pad : byte := "="%byte.

(** Three bytes become four characters; a rest of one or two bytes is padded. *)
Fixpoint encode_bytes (l : bytes) : bytes :=
  match l with
  | a :: b :: c :: l =>
      let v := byte_Z a * 65536 + byte_Z b * 256 + byte_Z c in
      char (v / 2 ^ 18 mod 64) :: char (v / 2 ^ 12 mod 64)
        :: char (v / 2 ^ 6 mod 64) :: char (v mod 64) :: encode_bytes l
  | [a; b] =>
      let v := byte_Z a * 65536 + byte_Z b * 256 in
      [char (v / 2 ^ 18 mod 64); char (v / 2 ^ 12 mod 64);
       char (v / 2 ^ 6 mod 64); pad]
  | [a] =>
      let v := byte_Z a * 65536 in
      [char (v / 2 ^ 18 mod 64); char (v / 2 ^ 12 mod 64); pad; pad]
  | [] => []
  end.

Definition EncodeToString (l : bytes) : string := of_bytes (encode_bytes l).

(** [decodeQuantum] without the line breaks: four characters at a time, the
    padding only at the very end and nothing after it.  The encoding is not
    [Strict]: the unused low bits before the padding are ignored. *)
Fixpoint decode_quanta (l : bytes) : option bytes :=
  match l with
  | [] => Some []
  | c0 :: c1 :: c2 :: c3 :: l =>
      v0 ← value c0; v1 ← value c1;
      if decide (c2 = pad) then
        if decide (c3 = pad ∧ l = []) then
          Some [Z_byte ((v0 * 2 ^ 18 + v1 * 2 ^ 12) / 2 ^ 16)]
        else None
      else
        v2 ← value c2;
        if decide (c3 = pad) then
          if decide (l = []) then
            let v := v0 * 2 ^ 18 + v1 * 2 ^ 12 + v2 * 2 ^ 6 in
            Some [Z_byte (v / 2 ^ 16); Z_byte (v / 2 ^ 8)]
          else None
        else
          v3 ← value c3;
          let v := v0 * 2 ^ 18 + v1 * 2 ^ 12 + v2 * 2 ^ 6 + v3 in
          r ← decode_quanta l;
          Some (Z_byte (v / 2 ^ 16) :: Z_byte (v / 2 ^ 8) :: Z_byte v :: r)
  | _ => None
  end.

Definition is_newline (b : byte) : bool :=
  (byte_Z b =? 10) || (byte_Z b =? 13).

(** [DecodeString]: carriage returns and line feeds are skipped. *)
Definition DecodeString (s : string) : option bytes :=
  decode_quanta (filter (λ b, is_newline b = false) (to_bytes s)).

Lemma char_spec n : 0 ≤ n < 64 →
  value (char n) = Some n ∧ char n ≠ pad ∧ is_newline (char n) = false.
Proof.
  intros Hn.
  assert (forallb (λ k : nat, let c := char (Z.of_nat k) in
    bool_decide (value c = Some (Z.of_nat k)) && bool_decide (c ≠ pad) &&
    negb (is_newline c)) (seq 0 64) = true) as H by (vm_compute; reflexivity).
  rewrite forallb_forall in H. specialize (H (Z.to_nat n)).
  rewrite Z2Nat.id in H by lia. simpl in H.
  assert (In (Z.to_nat n) (seq 0 64)) as Hin by (apply in_seq; lia).
  specialize (H Hin). bool_to_prop. done.
Qed.

(** The decoder's view of one encoded character. *)
Ltac char_step :=
  match goal with
  | |- context [value (char (?e mod 64))] =>
      rewrite (proj1 (char_spec (e mod 64) ltac:(apply Z.mod_pos_bound; lia)))
  | |- context [decide (char (?e mod 64) = pad)] =>
      rewrite (decide_False (P := char (e mod 64) = pad))
        by (apply (char_spec (e mod 64)), Z.mod_pos_bound; lia)
  end.

Lemma Z_byte_eq b z : z mod 256 = byte_Z b → Z_byte z = b.
Proof. intros H. apply (inj byte_Z). by rewrite byte_Z_byte. Qed.

Lemma decode_encode_quanta l : decode_quanta (encode_bytes l) = Some l.
Proof.
  assert (∀ n l, (length l ≤ n)%nat → decode_quanta (encode_bytes l) = Some l) as H;
    [|by eapply H].
  clear l. induction n as [|n IH]; intros l Hl; [by destruct l; [|simpl in Hl; lia]|].
  destruct l as [|a [|b [|c l]]]; [done|..]; cbn [encode_bytes decode_quanta];
    repeat (char_step; cbn [mbind option_bind]).
  - rewrite decide_True by done. rewrite decide_True by done.
    do 2 f_equal. apply Z_byte_eq. pose proof (byte_Z_range a).
    Z.to_euclidean_division_equations; lia.
  - rewrite decide_True by done. rewrite decide_True by done.
    pose proof (byte_Z_range a). pose proof (byte_Z_range b).
    do 2 f_equal; [|f_equal]; apply Z_byte_eq; Z.to_euclidean_division_equations; lia.
  - rewrite IH by (simpl in Hl; lia). cbn [mbind option_bind].
    pose proof (byte_Z_range a). pose proof (byte_Z_range b). pose proof (byte_Z_range c).
    do 2 f_equal; [|f_equal; [|f_equal]]; apply Z_byte_eq;
      Z.to_euclidean_division_equations; lia.
Qed.

Lemma encode_no_newline l : filter (λ b, is_newline b = false) (encode_bytes l) = encode_bytes l.
Proof.
  apply filter_all.
  assert (∀ n l, (length l ≤ n)%nat → Forall (λ b, is_newline b = false) (encode_bytes l)) as H;
    [|by eapply H].
  clear l. induction n as [|n IH]; intros l Hl; [by destruct l; [constructor|simpl in Hl; lia]|].
  destruct l as [|a [|b [|c l]]]; cbn [encode_bytes];
    repeat (constructor; [first [done|apply char_spec, Z.mod_pos_bound; lia]|]);
    try constructor.
  apply IH. simpl in Hl. lia.
Qed.

(** [DecodeString] inverts [EncodeToString]. *)
Lemma DecodeString_EncodeToString l : DecodeString (EncodeToString l) = Some l.
Proof.
  unfold DecodeString, EncodeToString.
  by rewrite to_of_bytes, encode_no_newline, decode_encode_quanta.
Qed.

#[export] Instance EncodeToString_inj : Inj (=) (=) EncodeToString.
Proof.
  intros l1 l2 H. apply (f_equal DecodeString) in H.
  rewrite !DecodeString_EncodeToString in H. by simplify_eq.
Qed.

Lemma EncodeToString_nonempty l : l ≠ [] → EncodeToString l ≠ EmptyString.
Proof.
  intros Hl H. apply (f_equal DecodeString) in H.
  rewrite DecodeString_EncodeToString in H.
  change (DecodeString EmptyString) with (Some (@nil byte)) in H. by simplify_eq.
Qed.

End Base64.
