(* ===== verification/NetIP.v ===== *)
(** * Addresses: [net/netip] and [net.IP] as gretun uses them

    [netip.Addr] is the zero address, an IPv4 address (32 bits) or an IPv6
    address (128 bits and a zone).  [netip.Prefix] is an address with a bit
    count.  The operations below are those the coordinator's allocator, the
    peer state machine and the tunnel validation call. *)

From S2P Require Import Prelude.
From S2P Require Import Encoding.

(** ** [netip.Addr] *)

Inductive Addr :=
| AddrZero
| AddrV4 (a : Z)
| AddrV6 (a : Z) (zone : string).

#[export] Instance Addr_eq_dec : EqDecision Addr.
Proof. solve_decision. Defined.

#[export] Instance Addr_countable : Countable Addr.
Proof.
  refine (inj_countable'
    (λ a, match a with
          | AddrZero => inl ()
          | AddrV4 x => inr (inl x)
          | AddrV6 x z => inr (inr (x, z)) end)
    (λ s, match s with
          | inl _ => AddrZero
          | inr (inl x) => AddrV4 x
          | inr (inr (x, z)) => AddrV6 x z end) _).
  by intros [].
Defined.

(** Values the constructors really hold. *)
Definition addr_wf (a : Addr) : Prop :=
  match a with
  | AddrZero => True
  | AddrV4 x => 0 ≤ x < 2 ^ 32
  | AddrV6 x _ => 0 ≤ x < 2 ^ 128
  end.

Definition IsValid (a : Addr) : bool :=
  match a with AddrZero => false | _ => true end.
Definition Is4 (a : Addr) : bool :=
  match a with AddrV4 _ => true | _ => false end.
Definition BitLen (a : Addr) : Z :=
  match a with AddrZero => 0 | AddrV4 _ => 32 | AddrV6 _ _ => 128 end.
Definition Zone (a : Addr) : string :=
  match a with AddrV6 _ z => z | _ => "" end.

(** [Addr.Next]: the address after [a], or the zero address on overflow. *)
Definition Next (a : Addr) : Addr :=
  match a with
  | AddrZero => AddrZero
  | AddrV4 x => let y := wrapu 32 (x + 1) in if y =? 0 then AddrZero else AddrV4 y
  | AddrV6 x z => let y := wrapu 128 (x + 1) in if y =? 0 then AddrZero else AddrV6 y z
  end.

(** [Addr.Compare]: by bit length, then by value, then by zone. *)
Definition Compare (a b : Addr) : comparison :=
  match Z.compare (BitLen a) (BitLen b) with
  | Eq =>
      match a, b with
      | AddrV4 x, AddrV4 y => Z.compare x y
      | AddrV6 x z, AddrV6 y w =>
          match Z.compare x y with Eq => String.compare z w | c => c end
      | _, _ => Eq
      end
  | c => c
  end.

Definition Less (a b : Addr) : bool :=
  match Compare a b with Lt => true | _ => false end.

(** *** Printing *)

(** Octet [i] of an IPv4 address, most significant first. *)
Definition octet (x i : Z) : Z := x / 2 ^ (8 * (3 - i)) mod 256.
Definition string4 (x : Z) : string :=
  pretty (Z.to_N (octet x 0)) +:+ "." +:+ pretty (Z.to_N (octet x 1)) +:+ "." +:+
  pretty (Z.to_N (octet x 2)) +:+ "." +:+ pretty (Z.to_N (octet x 3)).

(** [appendHex]: a 16-bit group without leading zeros. *)
Definition hex_group (x : Z) : string :=
  let d k := of_bytes [Hex.digit (x / 16 ^ k mod 16)] in
  (if 4096 <=? x then d 3 else "") +:+ (if 256 <=? x then d 2 else "") +:+
  (if 16 <=? x then d 1 else "") +:+ d 0.

Definition v6u16 (x : Z) (i : nat) : Z := x / 2 ^ (16 * (7 - Z.of_nat i)) mod 2 ^ 16.

(** Length of the run of zero groups starting at group [i]; at most eight
    groups are looked at. *)
Fixpoint zero_run (fuel : nat) (x : Z) (i : nat) : nat :=
  match fuel with
  | O => O
  | S f => if (i <? 8)%nat && (v6u16 x i =? 0) then S (zero_run f x (S i)) else O
  end.

(** The first longest run of at least two zero groups, as (start, end);
    (255, 255) when there is none. *)
Definition zero_span (x : Z) : nat * nat :=
  foldl (λ '(s, e) i, let l := zero_run 8 x i in
         if (2 <=? l)%nat && (e - s <? l)%nat then (i, i + l)%nat else (s, e))
    (255, 255)%nat (seq 0 8).

Fixpoint groups6 (fuel : nat) (x : Z) (zs ze i : nat) : string :=
  match fuel with
  | O => ""
  | S f =>
      if (8 <=? i)%nat then ""
      else if (i =? zs)%nat then
        if (8 <=? ze)%nat then "::"
        else "::" +:+ hex_group (v6u16 x ze) +:+ groups6 f x zs ze (S ze)
      else (if (0 <? i)%nat then ":" else "") +:+ hex_group (v6u16 x i) +:+
           groups6 f x zs ze (S i)
  end.

Definition zone_suffix (z : string) : string :=
  if decide (z = "") then "" else "%" +:+ z.

(** [Addr.String]. *)
Definition Addr_String (a : Addr) : string :=
  match a with
  | AddrZero => "invalid IP"
  | AddrV4 x => string4 x
  | AddrV6 x z =>
      if x / 2 ^ 32 =? 65535 then "::ffff:" +:+ string4 (x mod 2 ^ 32) +:+ zone_suffix z
      else let '(zs, ze) := zero_span x in groups6 9 x zs ze 0 +:+ zone_suffix z
  end.

Example string4_ex : Addr_String (AddrV4 0x64400005) = "100.64.0.5".
Proof. vm_compute. reflexivity. Qed.
Example string6_ex : Addr_String (AddrV6 (0xfe80 * 2 ^ 112 + 1) "eth0") = "fe80::1%eth0".
Proof. vm_compute. reflexivity. Qed.
Example string6_ex2 : Addr_String (AddrV6 (0x20010db8 * 2 ^ 96 + 2 ^ 48 * 5) "") = "2001:db8:0:0:5::".
Proof. vm_compute. reflexivity. Qed.

Lemma octets_value x : 0 ≤ x < 2 ^ 32 →
  octet x 0 * 2 ^ 24 + octet x 1 * 2 ^ 16 + octet x 2 * 2 ^ 8 + octet x 3 = x.
Proof.
  intros H. unfold octet. simpl (8 * (3 - _)).
  Z.to_euclidean_division_equations; lia.
Qed.

Lemma octet_range x i : 0 ≤ octet x i < 256.
Proof. unfold octet. apply Z.mod_pos_bound. lia. Qed.

Lemma pretty_sep_inj (m n : N) s t :
  pretty m +:+ "." +:+ s = pretty n +:+ "." +:+ t → m = n ∧ s = t.
Proof.
  intros H. apply (f_equal to_bytes) in H. rewrite !to_bytes_app in H.
  change (to_bytes ".") with ["."%byte] in H. simpl in H.
  apply sep_inj in H as [H1 H2]; [|by apply Decimal.pretty_no_sep..].
  split; [by do 2 apply (inj _) in H1|by apply (inj to_bytes)].
Qed.

(** Dotted decimal is injective: two IPv4 addresses with the same [String]
    are the same address.  The allocator's [byTunnel] map is keyed by it. *)
Lemma string4_inj x y :
  0 ≤ x < 2 ^ 32 → 0 ≤ y < 2 ^ 32 → string4 x = string4 y → x = y.
Proof.
  intros Hx Hy H. unfold string4 in H.
  apply pretty_sep_inj in H as [H0 H]. apply pretty_sep_inj in H as [H1 H].
  apply pretty_sep_inj in H as [H2 H3]. apply (inj _) in H3.
  pose proof (octet_range x). pose proof (octet_range y).
  apply Z2N.inj in H0, H1, H2, H3; try (apply octet_range).
  rewrite <- (octets_value x), <- (octets_value y) by done. congruence.
Qed.

(** ** [netip.Prefix] *)

Record Prefix := { pfx_addr : Addr; pfx_bits : Z }.

#[export] Instance Prefix_eq_dec : EqDecision Prefix.
Proof. solve_decision. Defined.

Definition Prefix_IsValid (p : Prefix) : bool :=
  IsValid (pfx_addr p) && (0 <=? pfx_bits p) && (pfx_bits p <=? BitLen (pfx_addr p)).

(** [Prefix.Contains]: the addresses are xored and the host bits shifted
    away. *)
Definition Contains (p : Prefix) (a : Addr) : bool :=
  Prefix_IsValid p && bool_decide (Zone a = "") &&
  match pfx_addr p, a with
  | AddrV4 x, AddrV4 y => Z.shiftr (Z.lxor y x) (32 - pfx_bits p) =? 0
  | AddrV6 x _, AddrV6 y _ => Z.shiftr (Z.lxor y x) (128 - pfx_bits p) =? 0
  | _, _ => false
  end.

(** The IPv4 pools the coordinator documents. *)
Definition prefix4 (p : Prefix) (base bits : Z) : Prop :=
  p = {| pfx_addr := AddrV4 base; pfx_bits := bits |} ∧ 0 ≤ base < 2 ^ 32 ∧ 0 ≤ bits ≤ 32.

Lemma Contains4 p base bits y :
  prefix4 p base bits →
  Contains p (AddrV4 y) = true ↔ y / 2 ^ (32 - bits) = base / 2 ^ (32 - bits).
Proof.
  intros (-> & Hb & Hn). unfold Contains, Prefix_IsValid. simpl.
  rewrite (proj2 (Z.leb_le _ _)), (proj2 (Z.leb_le _ _)) by lia. simpl.
  rewrite Z.eqb_eq, Z.shiftr_lxor, Z.lxor_eq_0_iff, !Z.shiftr_div_pow2 by lia. done.
Qed.

Lemma Contains_zero p : Contains p AddrZero = false.
Proof. unfold Contains. destruct (pfx_addr p); by rewrite andb_false_r. Qed.

(** The addresses of an IPv4 prefix are an interval. *)
Definition first4 (base bits : Z) : Z := base / 2 ^ (32 - bits) * 2 ^ (32 - bits).
Definition last4 (base bits : Z) : Z := first4 base bits + 2 ^ (32 - bits) - 1.

Lemma Contains4_interval p base bits y :
  prefix4 p base bits →
  Contains p (AddrV4 y) = true ↔ first4 base bits ≤ y ≤ last4 base bits.
Proof.
  intros Hp. rewrite Contains4 by done. destruct Hp as (_ & Hb & Hn).
  unfold last4, first4.
  assert (0 < 2 ^ (32 - bits)) as Hpos by (apply Z.pow_pos_nonneg; lia).
  generalize dependent (2 ^ (32 - bits)). intros m Hm. split.
  - intros <-. pose proof (Z.div_mod y m). pose proof (Z.mod_pos_bound y m). lia.
  - intros H. symmetry. apply (Z.div_unique_pos _ _ _ (y - base / m * m)); lia.
Qed.

Lemma prefix4_bounds p base bits :
  prefix4 p base bits → 0 ≤ first4 base bits ≤ base ∧ base ≤ last4 base bits < 2 ^ 32.
Proof.
  intros (_ & Hb & Hn). unfold last4, first4.
  assert (0 < 2 ^ (32 - bits)) as Hm by (apply Z.pow_pos_nonneg; lia).
  assert (2 ^ 32 = 2 ^ bits * 2 ^ (32 - bits)) as Hpow.
  { rewrite <- Z.pow_add_r by lia. f_equal. lia. }
  assert (base / 2 ^ (32 - bits) < 2 ^ bits) as Hlt.
  { apply Z.div_lt_upper_bound; lia. }
  pose proof (Z.div_pos base (2 ^ (32 - bits)) ltac:(lia) Hm).
  pose proof (Z.div_mod base (2 ^ (32 - bits))).
  pose proof (Z.mod_pos_bound base (2 ^ (32 - bits)) Hm). nia.
Qed.

Lemma Next4 x : 0 ≤ x < 2 ^ 32 - 1 → Next (AddrV4 x) = AddrV4 (x + 1).
Proof.
  intros H. unfold Next, wrapu. rewrite Z.mod_small by lia.
  by rewrite (proj2 (Z.eqb_neq _ _)) by lia.
Qed.

Lemma Next4_max : Next (AddrV4 (2 ^ 32 - 1)) = AddrZero.
Proof. reflexivity. Qed.

(** ** Parsing *)

(** The fields of [l] between occurrences of [c]. *)
Fixpoint split_byte (c : byte) (l : bytes) : list bytes :=
  match l with
  | [] => [[]]
  | b :: l => if decide (b = c) then [] :: split_byte c l
              else match split_byte c l with
                   | f :: fs => (b :: f) :: fs
                   | [] => [[b]]
                   end
  end.

Lemma split_byte_no c l : c ∉ l → split_byte c l = [l].
Proof.
  induction l as [|b l IH]; intros H; [done|]. apply not_elem_of_cons in H as [? H].
  simpl. rewrite decide_False by done. by rewrite IH.
Qed.

Lemma split_byte_app c l r : c ∉ l → split_byte c (l ++ c :: r) = l :: split_byte c r.
Proof.
  induction l as [|b l IH]; intros H; simpl.
  - by rewrite decide_True.
  - apply not_elem_of_cons in H as [? H]. rewrite decide_False by done. by rewrite IH.
Qed.

(** One field of [parseIPv4Fields]: digits, no leading zero, at most 255. *)
Definition parse_octet (f : bytes) : option Z :=
  match f with
  | [] => None
  | "0"%byte :: _ :: _ => None
  | _ => n ← Decimal.digits_value 0 (of_bytes f); if n <=? 255 then Some n else None
  end.

(** [parseIPv4Fields]: exactly four fields separated by dots. *)
Definition parse_ipv4_fields (l : bytes) : option Z :=
  match split_byte "."%byte l with
  | [a; b; c; d] =>
      a ← parse_octet a; b ← parse_octet b; c ← parse_octet c; d ← parse_octet d;
      Some (a * 2 ^ 24 + b * 2 ^ 16 + c * 2 ^ 8 + d)
  | _ => None
  end.

Definition hex_value (b : byte) : option Z :=
  let n := byte_Z b in
  if (48 <=? n) && (n <=? 57) then Some (n - 48)
  else if (97 <=? n) && (n <=? 102) then Some (n - 87)
  else if (65 <=? n) && (n <=? 70) then Some (n - 55)
  else None.

(** The leading hex digits of [l]: their number, their value, the rest. *)
Fixpoint take_hex (l : bytes) (n : nat) (acc : Z) : nat * Z * bytes :=
  match l with
  | b :: l' => match hex_value b with
               | Some d => take_hex l' (S n) (acc * 16 + d)
               | None => (n, acc, l)
               end
  | [] => (n, acc, [])
  end.

(** The group loop of [parseIPv6].  [gs] are the 16-bit groups read so far, in
    reverse; [ell] is the number of groups before the [::].  The result is
    the groups, and the position of the [::] if any. *)
Fixpoint parse_groups (fuel : nat) (l : bytes) (gs : list Z) (ell : option nat)
  : option (list Z * option nat) :=
  match fuel with
  | O => None
  | S fuel =>
      if (8 <=? length gs)%nat then
        match l with [] => Some (gs, ell) | _ => None end
      else
        let '(n, acc, rest) := take_hex l 0 0 in
        if (n =? 0)%nat || (4 <? n)%nat then None
        else match rest with
             | "."%byte :: _ =>
                 if (bool_decide (ell = None) && negb (length gs =? 6)%nat)
                    || (6 <? length gs)%nat then None
                 else v ← parse_ipv4_fields l;
                      Some (v mod 2 ^ 16 :: v / 2 ^ 16 :: gs, ell)
             | [] => Some (acc :: gs, ell)
             | ":"%byte :: [] => None
             | ":"%byte :: ":"%byte :: rest' =>
                 match ell with
                 | Some _ => None
                 | None =>
                     match rest' with
                     | [] => Some (acc :: gs, Some (S (length gs)))
                     | _ => parse_groups fuel rest' (acc :: gs) (Some (S (length gs)))
                     end
                 end
             | ":"%byte :: rest' => parse_groups fuel rest' (acc :: gs) ell
             | _ => None
             end
  end.

Definition groups_value (gs : list Z) : Z := foldl (λ a g, a * 2 ^ 16 + g) 0 gs.

(** The groups with the [::] expanded to at least one zero group. *)
Definition expand_groups (gs : list Z) (ell : option nat) : option (list Z) :=
  match ell with
  | None => if (length gs =? 8)%nat then Some gs else None
  | Some e => if (length gs <? 8)%nat
              then Some (take e gs ++ replicate (8 - length gs) 0 ++ drop e gs)
              else None
  end.

(** The text before the first [%], and the zone after it. *)
Definition split_zone (l : bytes) : option (bytes * string) :=
  match split_byte "%"%byte l with
  | [l] => Some (l, "")
  | f :: _ => let z := drop (S (length f)) l in
              if decide (z = []) then None else Some (f, of_bytes z)
  | [] => None
  end.

Definition parseIPv6 (l : bytes) : option Addr :=
  '(l, zone) ← split_zone l;
  '(gs, ell) ← match l with
               | ":"%byte :: ":"%byte :: [] => Some ([], Some 0%nat)
               | ":"%byte :: ":"%byte :: l' => parse_groups 9 l' [] (Some 0%nat)
               | _ => parse_groups 9 l [] None
               end;
  gs ← expand_groups (rev gs) ell;
  Some (AddrV6 (groups_value gs) zone).

(** [netip.ParseAddr]: the first of ['.'], [':'] and ['%'] decides. *)
Fixpoint first_of (cs l : bytes) : option byte :=
  match l with
  | [] => None
  | b :: l => if decide (b ∈ cs) then Some b else first_of cs l
  end.

Definition ParseAddr (s : string) : option Addr :=
  let l := to_bytes s in
  match first_of ["."; ":"; "%"]%byte l with
  | Some "."%byte => AddrV4 <$> parse_ipv4_fields l
  | Some ":"%byte => parseIPv6 l
  | _ => None
  end.

Example ParseAddr_ex1 : ParseAddr "fe80::1%eth0" = Some (AddrV6 (0xfe80 * 2 ^ 112 + 1) "eth0").
Proof. vm_compute. reflexivity. Qed.
Example ParseAddr_ex2 : ParseAddr "::ffff:1.2.3.4" = Some (AddrV6 0xffff01020304 "").
Proof. vm_compute. reflexivity. Qed.
Example ParseAddr_ex3 : ParseAddr "1:2:3:4:5:6:7::8" = None.
Proof. vm_compute. reflexivity. Qed.
Example ParseAddr_ex4 : ParseAddr "1.2.3.04" = None.
Proof. vm_compute. reflexivity. Qed.

(** ** [netip.AddrPort] *)

Record AddrPort := { ap_Addr : Addr; ap_Port : Z }.

#[export] Instance AddrPort_eq_dec : EqDecision AddrPort.
Proof. solve_decision. Defined.
#[export] Instance AddrPort_countable : Countable AddrPort.
Proof.
  by refine (inj_countable' (λ p, (ap_Addr p, ap_Port p))
    (λ '(a, n), {| ap_Addr := a; ap_Port := n |}) _); intros [].
Defined.

Definition AddrPort_zero : AddrPort := {| ap_Addr := AddrZero; ap_Port := 0 |}.

(** [AddrPort.String]. *)
Definition AddrPort_String (p : AddrPort) : string :=
  match ap_Addr p with
  | AddrZero => "invalid AddrPort"
  | AddrV4 _ => Addr_String (ap_Addr p) +:+ ":" +:+ pretty (ap_Port p)
  | AddrV6 _ _ => "[" +:+ Addr_String (ap_Addr p) +:+ "]:" +:+ pretty (ap_Port p)
  end.

(** [splitAddrPort] at the last colon: address text, port text, bracketed? *)
Definition splitAddrPort (l : bytes) : option (bytes * bytes * bool) :=
  match rev (split_byte ":"%byte l) with
  | port :: _ :: _ =>
      let ip := take (length l - length port - 1) l in
      if decide (ip = [] ∨ port = []) then None
      else match ip with
           | "["%byte :: ip' =>
               match rev ip' with
               | "]"%byte :: r => Some (rev r, port, true)
               | _ => None
               end
           | _ => Some (ip, port, false)
           end
  | _ => None
  end.

Definition ParseAddrPort (s : string) : option AddrPort :=
  '(ip, port, v6) ← splitAddrPort (to_bytes s);
  n ← Decimal.ParseUint 16 (of_bytes port);
  a ← ParseAddr (of_bytes ip);
  match a, v6 with
  | AddrV4 _, true => None
  | AddrV6 _ _, false => None
  | _, _ => Some {| ap_Addr := a; ap_Port := n |}
  end.

Example ParseAddrPort_ex1 :
  ParseAddrPort "[::1]:80" = Some {| ap_Addr := AddrV6 1 ""; ap_Port := 80 |}.
Proof. vm_compute. reflexivity. Qed.
Example ParseAddrPort_ex2 : ParseAddrPort "::1:80" = None.
Proof. vm_compute. reflexivity. Qed.

(** *** Round trip of IPv4 endpoints *)

Lemma parse_octet_pretty n : 0 ≤ n < 256 → parse_octet (to_bytes (pretty (Z.to_N n))) = Some n.
Proof.
  intros Hn.
  assert (forallb (λ k : nat, bool_decide (parse_octet (to_bytes (pretty (N.of_nat k)))
    = Some (Z.of_nat k))) (seq 0 256) = true) as H by (vm_compute; reflexivity).
  rewrite forallb_forall in H. specialize (H (Z.to_nat n)).
  rewrite Z2Nat.id, Z_nat_N in H by lia.
  apply bool_decide_eq_true in H; [done|]. apply in_seq. lia.
Qed.

Lemma to_bytes_string4 x :
  to_bytes (string4 x) =
  to_bytes (pretty (Z.to_N (octet x 0))) ++ "."%byte ::
  to_bytes (pretty (Z.to_N (octet x 1))) ++ "."%byte ::
  to_bytes (pretty (Z.to_N (octet x 2))) ++ "."%byte ::
  to_bytes (pretty (Z.to_N (octet x 3))).
Proof. unfold string4. by rewrite !to_bytes_app. Qed.

Lemma parse_ipv4_string4 x :
  0 ≤ x < 2 ^ 32 → parse_ipv4_fields (to_bytes (string4 x)) = Some x.
Proof.
  intros Hx. unfold parse_ipv4_fields. rewrite to_bytes_string4.
  rewrite !split_byte_app by (by apply Decimal.pretty_no_sep).
  rewrite split_byte_no by (by apply Decimal.pretty_no_sep).
  rewrite !parse_octet_pretty by apply octet_range. cbn [mbind option_bind].
  by rewrite octets_value.
Qed.

Lemma first_of_app cs l b r :
  Forall (λ c, c ∉ cs) l → b ∈ cs → first_of cs (l ++ b :: r) = Some b.
Proof.
  intros Hl Hb. induction Hl; simpl; [by rewrite decide_True|]. by rewrite decide_False.
Qed.

Lemma ParseAddr_string4 x :
  0 ≤ x < 2 ^ 32 → ParseAddr (string4 x) = Some (AddrV4 x).
Proof.
  intros Hx. unfold ParseAddr.
  assert (first_of ["."; ":"; "%"]%byte (to_bytes (string4 x)) = Some "."%byte) as ->.
  { rewrite to_bytes_string4. apply first_of_app; [|by left].
    eapply Forall_impl; [apply Decimal.pretty_digits|]. intros b Hb Hin.
    set_unfold in Hin. destruct_or!; subst; by vm_compute in Hb. }
  by rewrite parse_ipv4_string4.
Qed.

Lemma string4_no_colon x : ":"%byte ∉ to_bytes (string4 x).
Proof.
  rewrite to_bytes_string4.
  repeat first [rewrite not_elem_of_app | rewrite not_elem_of_cons].
  repeat split; try done; by apply Decimal.pretty_no_sep.
Qed.

Lemma splitAddrPort_app ip port :
  ":"%byte ∉ ip → ":"%byte ∉ port → head ip ≠ Some "["%byte → ip ≠ [] → port ≠ [] →
  splitAddrPort (ip ++ ":"%byte :: port) = Some (ip, port, false).
Proof.
  intros H1 H2 Hh Hi Hp. unfold splitAddrPort.
  rewrite split_byte_app, split_byte_no by done. simpl.
  rewrite length_app. simpl.
  replace (length ip + S (length port) - length port - 1)%nat with (length ip) by lia.
  rewrite take_app_length. rewrite decide_False by naive_solver.
  destruct ip as [|b ip]; [done|]. by destruct b.
Qed.

Lemma string4_head x : ∃ b l, to_bytes (string4 x) = b :: l ∧ Decimal.is_digit b = true.
Proof.
  rewrite to_bytes_string4.
  destruct (Decimal.pretty_N_head (Z.to_N (octet x 0))) as (c & s & E & _).
  pose proof (Decimal.pretty_digits (Z.to_N (octet x 0))) as Hd. rewrite E in Hd |- *.
  change (to_bytes (String c s)) with (Ascii.byte_of_ascii c :: to_bytes s) in *.
  inversion Hd as [|?? Hc]; simplify_eq. eexists _, _. split; [done|]. by destruct (Decimal.is_digit _).
Qed.

(** [ParseAddrPort] reads back what [AddrPort.String] printed. *)
Lemma ParseAddrPort_String4 x p :
  0 ≤ x < 2 ^ 32 → 0 ≤ p < 2 ^ 16 →
  ParseAddrPort (AddrPort_String {| ap_Addr := AddrV4 x; ap_Port := p |})
  = Some {| ap_Addr := AddrV4 x; ap_Port := p |}.
Proof.
  intros Hx Hp. unfold ParseAddrPort, AddrPort_String. simpl.
  rewrite !to_bytes_app. change (to_bytes ":") with [":"%byte]. simpl.
  assert (pretty p = pretty (Z.to_N p)) as -> by (destruct p; [done|done|lia]).
  destruct (string4_head x) as (b & l & E & Hb).
  rewrite splitAddrPort_app; try first [apply string4_no_colon|by apply Decimal.pretty_no_sep].
  - cbn [mbind option_bind]. rewrite !of_to_bytes.
    rewrite Decimal.ParseUint_pretty by lia. cbn [mbind option_bind].
    rewrite ParseAddr_string4 by done. cbn [mbind option_bind].
    by rewrite Z2N.id by lia.
  - rewrite E. simpl. intros [= ->]. done.
  - rewrite E. done.
  - destruct (Decimal.pretty_N_head (Z.to_N p)) as (c & s & E' & _). by rewrite E'.
Qed.

(** ** [net.IP]: a byte slice, [None] being the nil slice *)
Module IP.

Definition t : Type := option bytes.

Definition len (ip : t) : nat := match ip with Some l => length l | None => 0 end.
Definition raw (ip : t) : bytes := default [] ip.

(** Big-endian bytes of an address. *)
Fixpoint be_bytes (n : nat) (x : Z) : bytes :=
  match n with
  | O => []
  | S n => be_bytes n (x / 256) ++ [Z_byte x]
  end.

Lemma length_be_bytes n x : length (be_bytes n x) = n.
Proof. revert x. induction n; intros x; simpl; [done|]. rewrite length_app, IHn. simpl. lia. Qed.

Definition v4InV6Prefix : bytes := replicate 10 x00 ++ [xff; xff].

(** [Addr.AsSlice] and [Addr.As16]. *)
Definition AsSlice (a : Addr) : t :=
  match a with
  | AddrZero => None
  | AddrV4 x => Some (be_bytes 4 x)
  | AddrV6 x _ => Some (be_bytes 16 x)
  end.
Definition As16 (a : Addr) : bytes :=
  match a with
  | AddrZero => replicate 16 x00
  | AddrV4 x => v4InV6Prefix ++ be_bytes 4 x
  | AddrV6 x _ => be_bytes 16 x
  end.

Definition To4 (ip : t) : t :=
  match ip with
  | None => None
  | Some l =>
      if decide (length l = 4%nat) then Some l
      else if decide (length l = 16%nat ∧ take 12 l = v4InV6Prefix) then Some (drop 12 l)
      else None
  end.

(** Big-endian value, and [netip.AddrFromSlice]. *)
Definition be_value (l : bytes) : Z := foldl (λ a b, a * 256 + byte_Z b) 0 l.
Definition AddrFromSlice (ip : t) : option Addr :=
  match len ip with
  | 4%nat => Some (AddrV4 (be_value (raw ip)))
  | 16%nat => Some (AddrV6 (be_value (raw ip)) "")
  | _ => None
  end.

Definition Equal (a b : t) : bool :=
  let x := raw a in let y := raw b in
  if decide (length x = length y) then bool_decide (x = y)
  else if decide (length x = 4 ∧ length y = 16)%nat then
    bool_decide (take 12 y = v4InV6Prefix) && bool_decide (x = drop 12 y)
  else if decide (length x = 16 ∧ length y = 4)%nat then
    bool_decide (take 12 x = v4InV6Prefix) && bool_decide (drop 12 x = y)
  else false.

Definition IPv4 (a b c d : Z) : t := Some (v4InV6Prefix ++ [Z_byte a; Z_byte b; Z_byte c; Z_byte d]).
Definition IPv6unspecified : t := Some (replicate 16 x00).
Definition IPv6loopback : t := Some (replicate 15 x00 ++ [x01]).

Definition first_byte (ip : t) : Z := byte_Z (default x00 (head (raw ip))).

Definition IsUnspecified (ip : t) : bool :=
  Equal ip (IPv4 0 0 0 0) || Equal ip IPv6unspecified.

Definition IsLoopback (ip : t) : bool :=
  match To4 ip with
  | Some l => first_byte (Some l) =? 127
  | None => Equal ip IPv6loopback
  end.

Definition IsMulticast (ip : t) : bool :=
  match To4 ip with
  | Some l => Z.land (first_byte (Some l)) 0xf0 =? 0xe0
  | None => (len ip =? 16)%nat && (first_byte ip =? 0xff)
  end.

Definition IsLinkLocalUnicast (ip : t) : bool :=
  match To4 ip with
  | Some l => (first_byte (Some l) =? 169) && (first_byte (Some (drop 1 l)) =? 254)
  | None => (len ip =? 16)%nat && (first_byte ip =? 0xfe)
            && (Z.land (first_byte (Some (drop 1 (raw ip)))) 0xc0 =? 0x80)
  end.

Definition IsGlobalUnicast (ip : t) : bool :=
  ((len ip =? 4)%nat || (len ip =? 16)%nat) && negb (Equal ip (IPv4 255 255 255 255))
  && negb (IsUnspecified ip) && negb (IsLoopback ip) && negb (IsMulticast ip)
  && negb (IsLinkLocalUnicast ip).

(** [IP.String]. *)
Definition String (ip : t) : string :=
  match ip with
  | None => "<nil>"
  | Some [] => "<nil>"
  | Some l =>
      match To4 ip with
      | Some l4 => string4 (be_value l4)
      | None => if decide (length l = 16%nat) then Addr_String (AddrV6 (be_value l) "")
                else "?" +:+ Hex.EncodeToString l
      end
  end.

(** [CIDRMask(n, 8 * len)]: [len] bytes whose first [n] bits are set. *)
Definition mask_byte (n : Z) : byte :=
  Z_byte (if 8 <=? n then 255 else if n <=? 0 then 0 else 256 - 2 ^ (8 - n)).
Fixpoint CIDRMask (n : Z) (len : nat) : bytes :=
  match len with
  | O => []
  | S k => mask_byte n :: CIDRMask (n - 8) k
  end.

Definition byte_and (a b : byte) : byte := Z_byte (Z.land (byte_Z a) (byte_Z b)).
Definition byte_or (a b : byte) : byte := Z_byte (Z.lor (byte_Z a) (byte_Z b)).
Definition byte_not (a : byte) : byte := Z_byte (255 - byte_Z a).

(** [IP.Mask] on the lengths [ParseCIDR] produces. *)
Definition Mask (ip mask : bytes) : t :=
  let ip := if decide (length mask = 4 ∧ length ip = 16 ∧ take 12 ip = v4InV6Prefix)%nat
            then drop 12 ip else ip in
  if decide (length ip = length mask) then Some (zip_with byte_and ip mask) else None.

Record IPNet := { net_IP : t; net_Mask : bytes }.

(** [net.ParseCIDR]: the 16-byte address and its network. *)
Definition ParseCIDR (s : string) : option (t * IPNet * Z) :=
  match split_byte "/"%byte (to_bytes s) with
  | a :: _ :: _ =>
      let mask := drop (S (length a)) (to_bytes s) in
      ip ← ParseAddr (of_bytes a);
      if decide (Zone ip = "" ∧ mask ≠ []) then
        n ← Decimal.digits_value 0 (of_bytes mask);
        if (n <=? BitLen ip) then
          let m := CIDRMask n (Z.to_nat (BitLen ip / 8)) in
          Some (Some (As16 ip), {| net_IP := Mask (As16 ip) m; net_Mask := m |}, n)
        else None
      else None
  | _ => None
  end.

(** [netip.ParsePrefix]: no zone, no sign or leading zero in the bits. *)
Definition ParsePrefix (s : string) : option Prefix :=
  let l := to_bytes s in
  match rev (split_byte "/"%byte l) with
  | bits :: _ :: _ =>
      ip ← ParseAddr (of_bytes (take (length l - length bits - 1) l));
      if decide (Zone ip = "" ∧ bits ≠ [] ∧ ((length bits = 1)%nat ∨ head bits ≠ Some "0"%byte)) then
        n ← Decimal.digits_value 0 (of_bytes bits);
        if (n <=? BitLen ip) then Some {| pfx_addr := ip; pfx_bits := n |} else None
      else None
  | _ => None
  end.

(** *** Network and broadcast addresses *)

Definition mask_table (k : nat) (b : byte) : bool :=
  let m := mask_byte (Z.of_nat k) in
  let h := 2 ^ (8 - Z.of_nat k) in
  Bool.eqb (bool_decide (byte_and b m = b)) (byte_Z b mod h =? 0) &&
  Bool.eqb (bool_decide (byte_or (byte_and b m) (byte_not m) = b)) (byte_Z b mod h =? h - 1).

Lemma mask_table_holds (k : nat) (b : byte) : (k ≤ 8)%nat → mask_table k b = true.
Proof.
  intros Hk. revert b.
  do 9 (destruct k as [|k]; [apply byte_forall; vm_compute; reflexivity|]). lia.
Qed.

Lemma mask_byte_clamp n : mask_byte n = mask_byte (Z.of_nat (Z.to_nat (Z.min 8 n))).
Proof.
  unfold mask_byte. f_equal.
  destruct (Z.leb_spec 8 n), (Z.leb_spec n 0).
  - lia.
  - rewrite (proj2 (Z.leb_le _ _)) by lia. done.
  - rewrite (proj2 (Z.leb_gt _ _)), (proj2 (Z.leb_le _ _)) by lia. done.
  - rewrite (proj2 (Z.leb_gt _ _)), (proj2 (Z.leb_gt _ _)) by lia. do 3 f_equal. lia.
Qed.

(** Masking keeps a byte exactly when its host bits are zero; filling the host
    bits keeps it exactly when they are all one. *)
Lemma byte_mask n b :
  let h := 2 ^ (8 - Z.max 0 (Z.min 8 n)) in
  (byte_and b (mask_byte n) = b ↔ byte_Z b mod h = 0) ∧
  (byte_or (byte_and b (mask_byte n)) (byte_not (mask_byte n)) = b
     ↔ byte_Z b mod h = h - 1).
Proof.
  intros h. unfold h. rewrite mask_byte_clamp.
  pose proof (mask_table_holds (Z.to_nat (Z.min 8 n)) b ltac:(lia)) as Ht.
  apply andb_true_iff in Ht as [H1%Bool.eqb_prop H2%Bool.eqb_prop].
  rewrite <- (bool_decide_eq_true (byte_and _ _ = _)), H1.
  rewrite <- (bool_decide_eq_true (byte_or _ _ = _)), H2.
  rewrite !Z.eqb_eq. replace (Z.of_nat (Z.to_nat (Z.min 8 n))) with (Z.max 0 (Z.min 8 n)) by lia. done.
Qed.

(** The host bits of [256 * hi + lo] are those of [lo] and, beyond eight, of
    [hi]. *)
Lemma host_step x H :
  0 ≤ H → 
  let a := Z.max 0 (H - 8) in let l := Z.min 8 H in
  (x mod 2 ^ H = 0 ↔ (x / 256) mod 2 ^ a = 0 ∧ (x mod 256) mod 2 ^ l = 0) ∧
  (x mod 2 ^ H = 2 ^ H - 1 ↔ (x / 256) mod 2 ^ a = 2 ^ a - 1 ∧ (x mod 256) mod 2 ^ l = 2 ^ l - 1).
Proof.
  intros HH a l.
  pose proof (Z.pow_pos_nonneg 2 a ltac:(lia) ltac:(lia)) as Pa.
  pose proof (Z.pow_pos_nonneg 2 l ltac:(lia) ltac:(lia)) as Pl.
  pose proof (Z.mod_pos_bound (x / 256) (2 ^ a) Pa) as Ba.
  pose proof (Z.mod_pos_bound (x mod 256) (2 ^ l) Pl) as Bl.
  assert (x mod 2 ^ H = (x / 256) mod 2 ^ a * 256 + (x mod 256) mod 2 ^ l ∧
          (a = 0 ∧ 2 ^ H = 2 ^ l ∨ l = 8 ∧ 2 ^ H = 2 ^ a * 256)) as [E C].
  { destruct (Z.le_gt_cases 8 H).
    - replace l with 8 by lia. replace a with (H - 8) in * by lia.
      assert (2 ^ H = 2 ^ (H - 8) * 256) as EH.
      { change 256 with (2 ^ 8). rewrite <- Z.pow_add_r by lia. f_equal. lia. }
      split; [|by right]. rewrite EH, Z.mul_comm, Z.rem_mul_r by lia.
      change (2 ^ 8) with 256. rewrite Z.mod_mod by lia. lia.
    - replace l with H in * by lia. replace a with 0 in * by lia. split; [|by left].
      rewrite Z.mod_1_r. simpl.
      assert (256 = 2 ^ H * 2 ^ (8 - H)) as E8.
      { rewrite <- Z.pow_add_r by lia. by replace (H + (8 - H)) with 8 by lia. }
      rewrite E8, Z.rem_mul_r by lia.
      rewrite Z.mul_0_l, Z.add_0_l, (Z.mul_comm (2 ^ H)), Z.mod_add by lia. by rewrite Z.mod_mod by lia. }
  rewrite E. destruct C as [[Ea C]|[El C]]; rewrite C.
  - rewrite Ea in *. change (2 ^ 0) with 1 in *. rewrite Z.mod_1_r in *. lia.
  - rewrite El in *. change (2 ^ 8) with 256 in *. lia.
Qed.

Definition host_width (n i : Z) : Z := 8 - Z.max 0 (Z.min 8 (n - i)).

Lemma host_octets x n :
  0 ≤ x < 2 ^ 32 → 0 ≤ n ≤ 32 →
  (x mod 2 ^ (32 - n) = 0 ↔
   ((x / 256 / 256 / 256) mod 256) mod 2 ^ host_width n 0 = 0 ∧
   ((x / 256 / 256) mod 256) mod 2 ^ host_width n 8 = 0 ∧
   ((x / 256) mod 256) mod 2 ^ host_width n 16 = 0 ∧ (x mod 256) mod 2 ^ host_width n 24 = 0) ∧
  (x mod 2 ^ (32 - n) = 2 ^ (32 - n) - 1 ↔
   ((x / 256 / 256 / 256) mod 256) mod 2 ^ host_width n 0 = 2 ^ host_width n 0 - 1 ∧
   ((x / 256 / 256) mod 256) mod 2 ^ host_width n 8 = 2 ^ host_width n 8 - 1 ∧
   ((x / 256) mod 256) mod 2 ^ host_width n 16 = 2 ^ host_width n 16 - 1 ∧
   (x mod 256) mod 2 ^ host_width n 24 = 2 ^ host_width n 24 - 1).
Proof.
  intros Hx Hn. unfold host_width. clear Hx.
  assert (Z.max 0 (32 - n - 8) = Z.max 0 (24 - n)) as E1 by lia.
  assert (Z.max 0 (Z.max 0 (24 - n) - 8) = Z.max 0 (16 - n)) as E2 by lia.
  assert (Z.max 0 (Z.max 0 (16 - n) - 8) = Z.max 0 (8 - n)) as E3 by lia.
  assert (Z.max 0 (Z.max 0 (8 - n) - 8) = 0) as E4 by lia.
  assert (8 - Z.max 0 (Z.min 8 (n - 24)) = Z.min 8 (32 - n)) as -> by lia.
  assert (8 - Z.max 0 (Z.min 8 (n - 16)) = Z.min 8 (Z.max 0 (24 - n))) as -> by lia.
  assert (8 - Z.max 0 (Z.min 8 (n - 8)) = Z.min 8 (Z.max 0 (16 - n))) as -> by lia.
  assert (8 - Z.max 0 (Z.min 8 (n - 0)) = Z.min 8 (Z.max 0 (8 - n))) as -> by lia.
  destruct (host_step x (32 - n) ltac:(lia)) as [Z0 O0].
  destruct (host_step (x / 256) (Z.max 0 (24 - n)) ltac:(clear; lia)) as [Z1 O1].
  destruct (host_step (x / 256 / 256) (Z.max 0 (16 - n)) ltac:(clear; lia)) as [Z2 O2].
  destruct (host_step (x / 256 / 256 / 256) (Z.max 0 (8 - n)) ltac:(clear; lia)) as [Z3 O3].
  rewrite E1 in Z0, O0. rewrite E2 in Z1, O1. rewrite E3 in Z2, O2. rewrite E4 in Z3, O3.
  rewrite Z.mod_1_r in Z3, O3. change (2 ^ 0 - 1) with 0 in O3.
  rewrite Z0, Z1, Z2, Z3, O0, O1, O2, O3. clear. tauto.
Qed.

(** On a 4-byte network, masking and filling the host bits keep the address
    exactly when it is the first or the last of the network. *)
Lemma mask_be_bytes x n :
  0 ≤ x < 2 ^ 32 → 0 ≤ n ≤ 32 →
  let net := zip_with byte_and (be_bytes 4 x) (CIDRMask n 4) in
  (be_bytes 4 x = net ↔ x = first4 x n) ∧
  (be_bytes 4 x = zip_with (λ b m, byte_or b (byte_not m)) net (CIDRMask n 4) ↔ x = last4 x n).
Proof.
  intros Hx Hn net. subst net. destruct (host_octets x n Hx Hn) as [HZ HO].
  unfold last4, first4.
  assert (0 < 2 ^ (32 - n)) as Hp by (apply Z.pow_pos_nonneg; lia).
  pose proof (Z.div_mod x (2 ^ (32 - n)) ltac:(lia)) as Hdm.
  assert (x = x / 2 ^ (32 - n) * 2 ^ (32 - n) ↔ x mod 2 ^ (32 - n) = 0) as -> by (clear HZ HO; lia).
  assert (x = x / 2 ^ (32 - n) * 2 ^ (32 - n) + 2 ^ (32 - n) - 1 ↔
          x mod 2 ^ (32 - n) = 2 ^ (32 - n) - 1) as -> by (clear HZ HO; lia).
  rewrite HZ, HO. unfold host_width. simpl be_bytes. simpl zip_with.
  rewrite <- !byte_Z_byte. split.
  - rewrite <- !(λ n b, proj1 (byte_mask n b)). rewrite Z.sub_0_r.
    replace (n - 8 - 8) with (n - 16) by lia. replace (n - 16 - 8) with (n - 24) by lia.
    split; [intros [= ? ? ? ?]; split_and!; congruence|intros (-> & -> & -> & ->); done].
  - rewrite <- !(λ n b, proj2 (byte_mask n b)). rewrite Z.sub_0_r.
    replace (n - 8 - 8) with (n - 16) by lia. replace (n - 16 - 8) with (n - 24) by lia.
    split; [intros [= ? ? ? ?]; split_and!; congruence|intros (-> & -> & -> & ->); done].
Qed.

Lemma length_CIDRMask n k : length (CIDRMask n k) = k.
Proof. revert n. induction k; intros n; simpl; [done|]. by rewrite IHk. Qed.

Lemma Equal_As16 x l : length l = 4%nat →
  Equal (Some (As16 (AddrV4 x))) (Some l) = bool_decide (be_bytes 4 x = l).
Proof.
  intros Hl. unfold Equal. change (raw (Some (As16 (AddrV4 x)))) with (v4InV6Prefix ++ be_bytes 4 x).
  change (raw (Some l)) with l. rewrite length_app, length_be_bytes, Hl.
  change (drop 12 (v4InV6Prefix ++ be_bytes 4 x)) with (be_bytes 4 x). done.
Qed.

Lemma ParseCIDR_string4 x n :
  0 ≤ x < 2 ^ 32 → 0 ≤ n ≤ 32 →
  ParseCIDR (string4 x +:+ "/" +:+ pretty n) =
  Some (Some (As16 (AddrV4 x)),
        {| net_IP := Some (zip_with byte_and (be_bytes 4 x) (CIDRMask n 4));
           net_Mask := CIDRMask n 4 |}, n).
Proof.
  intros Hx Hn. unfold ParseCIDR. rewrite !to_bytes_app.
  change (to_bytes "/") with ["/"%byte]. cbn [app].
  assert (pretty n = pretty (Z.to_N n)) as -> by (destruct n; [done|done|lia]).
  rewrite split_byte_app, split_byte_no; [|by apply Decimal.pretty_no_sep|]; last first.
  { rewrite to_bytes_string4. repeat first [rewrite not_elem_of_app | rewrite not_elem_of_cons].
    repeat split; try done; by apply Decimal.pretty_no_sep. }
  rewrite of_to_bytes, ParseAddr_string4 by done. cbn [mbind option_bind Zone].
  rewrite drop_app_ge by lia. replace (S _ - _)%nat with 1%nat by lia. simpl drop.
  destruct (Decimal.pretty_N_head (Z.to_N n)) as (c & s & E & _).
  rewrite decide_True by (rewrite E; done).
  rewrite drop_0, of_to_bytes, Decimal.digits_value_pretty. cbn [mbind option_bind].
  rewrite Z2N.id by lia. cbn [BitLen]. rewrite (proj2 (Z.leb_le _ _)) by lia.
  done.
Qed.

(** *** Four-byte addresses *)

Lemma To4_Some ip l : To4 ip = Some l →
  length l = 4%nat ∧ (ip = Some l ∨ ip = Some (v4InV6Prefix ++ l)).
Proof.
  unfold To4. destruct ip as [l'|]; [|done]. case_decide as H4; [intros [= <-]; eauto|].
  case_decide as H16; [|done]. intros [= <-]. destruct H16 as [Hl Ht].
  rewrite length_drop, Hl. split; [done|]. right. by rewrite <- Ht, take_drop.
Qed.

(** [Equal] on two IPv4 addresses compares their four bytes. *)
Lemma Equal_To4 a b la lb :
  To4 a = Some la → To4 b = Some lb → Equal a b = bool_decide (la = lb).
Proof.
  intros [La Ha]%To4_Some [Lb Hb]%To4_Some.
  destruct la as [|a0 [|a1 [|a2 [|a3 [|]]]]]; try done.
  destruct lb as [|b0 [|b1 [|b2 [|b3 [|]]]]]; try done.
  destruct Ha as [-> | ->], Hb as [-> | ->]; unfold Equal, raw; cbn -[bool_decide]; try done.
  apply bool_decide_ext. by split; intros [= -> -> -> ->].
Qed.

Lemma Equal_unspecified6 a la : To4 a = Some la → Equal a IPv6unspecified = false.
Proof.
  intros [La Ha]%To4_Some. destruct la as [|a0 [|a1 [|a2 [|a3 [|]]]]]; try done.
  by destruct Ha as [-> | ->].
Qed.

(** The bytes of an IPv4 address are those of its value. *)
Lemma be_bytes_value l : length l = 4%nat →
  l = be_bytes 4 (be_value l) ∧ 0 ≤ be_value l < 2 ^ 32 ∧
  first_byte (Some l) = be_value l / 2 ^ 24.
Proof.
  destruct l as [|a [|b [|c [|d [|]]]]]; try done. intros _. unfold be_value, first_byte. simpl.
  pose proof (byte_Z_range a). pose proof (byte_Z_range b). pose proof (byte_Z_range c).
  pose proof (byte_Z_range d).
  set (x := ((0 * 256 + byte_Z a) * 256 + byte_Z b) * 256 + byte_Z c).
  assert (x * 256 + byte_Z d = byte_Z a * 2 ^ 24 + byte_Z b * 2 ^ 16 + byte_Z c * 2 ^ 8 + byte_Z d)
    as -> by lia.
  split_and!; [|lia|lia|Z.div_mod_to_equations; lia].
  repeat f_equal; symmetry; apply Base64.Z_byte_eq; Z.div_mod_to_equations; lia.
Qed.

Lemma be_bytes_inj x y : 0 ≤ x < 2 ^ 32 → 0 ≤ y < 2 ^ 32 → be_bytes 4 x = be_bytes 4 y → x = y.
Proof.
  intros Hx Hy. simpl. intros [= H1 H2 H3 H4]. apply (f_equal byte_Z) in H1, H2, H3, H4.
  rewrite !byte_Z_byte in *. Z.div_mod_to_equations. lia.
Qed.

Example ParsePrefix_ex : ParsePrefix "100.64.0.0/24" =
  Some {| pfx_addr := AddrV4 0x64400000; pfx_bits := 24 |}.
Proof. vm_compute. reflexivity. Qed.
Example To4_ex : To4 (AsSlice (AddrV4 0x01020304)) = Some [x01; x02; x03; x04].
Proof. vm_compute. reflexivity. Qed.

End IP.
