(* ===== verification/Sha256.v ===== *)
(** * SHA-256 ([crypto/sha256])

    An executable SHA-256 on byte lists, used where the source calls
    [sha256.Sum256]: the etag of the peer list and the body hash in the signed
    request material.  The only fact the rest of the development needs is the
    length of the digest; the test vectors pin the definition. *)

From S2P Require Import Prelude.

Module Sha256.

Definition add32 (x y : Z) : Z := wrapu 32 (x + y).
Definition rotr (n x : Z) : Z :=
  Z.lor (Z.shiftr x n) (wrapu 32 (Z.shiftl x (32 - n))).
Definition not32 (x : Z) : Z := 2 ^ 32 - 1 - x.

Definition Ch (x y z : Z) : Z := Z.lxor (Z.land x y) (Z.land (not32 x) z).
Definition Maj (x y z : Z) : Z :=
  Z.lxor (Z.lxor (Z.land x y) (Z.land x z)) (Z.land y z).
Definition BSig0 (x : Z) : Z := Z.lxor (Z.lxor (rotr 2 x) (rotr 13 x)) (rotr 22 x).
Definition BSig1 (x : Z) : Z := Z.lxor (Z.lxor (rotr 6 x) (rotr 11 x)) (rotr 25 x).
Definition SSig0 (x : Z) : Z := Z.lxor (Z.lxor (rotr 7 x) (rotr 18 x)) (Z.shiftr x 3).
Definition SSig1 (x : Z) : Z := Z.lxor (Z.lxor (rotr 17 x) (rotr 19 x)) (Z.shiftr x 10).

(** The constants are the first 32 bits of the fractional parts of the cube
    roots (rounds) and square roots (initial value) of the first primes. *)
Definition primes : list Z :=
  filter (λ n, forallb (λ d, negb (n mod d =? 0)) (Z.of_nat <$> seq 2 (Z.to_nat n - 2)) = true)
    (Z.of_nat <$> seq 2 310).

(** Integer cube root, from bit [n - 1] of the result down. *)
Fixpoint cbrt (n : nat) (acc x : Z) : Z :=
  match n with
  | O => acc
  | S n => let c := acc + 2 ^ Z.of_nat n in
           cbrt n (if c * c * c <=? x then c else acc) x
  end.

Definition K : list Z :=
  Eval vm_compute in (λ p, wrapu 32 (cbrt 36 0 (p * 2 ^ 96))) <$> primes.

(** The eight words of the chaining value. *)
Record state := St { sa : Z; sb : Z; sc : Z; sd : Z; se : Z; sf : Z; sg : Z; sh : Z }.

Definition init : state :=
  Eval vm_compute in
  let h i := wrapu 32 (Z.sqrt (nth i primes 0 * 2 ^ 64)) in
  St (h 0%nat) (h 1%nat) (h 2%nat) (h 3%nat) (h 4%nat) (h 5%nat) (h 6%nat) (h 7%nat).

Definition round (s : state) (kw : Z * Z) : state :=
  let '(k, w) := kw in
  let t1 := add32 (sh s) (add32 (BSig1 (se s))
              (add32 (Ch (se s) (sf s) (sg s)) (add32 k w))) in
  let t2 := add32 (BSig0 (sa s)) (Maj (sa s) (sb s) (sc s)) in
  St (add32 t1 t2) (sa s) (sb s) (sc s) (add32 (sd s) t1) (se s) (sf s) (sg s).

(** The message schedule, newest word first. *)
Fixpoint extend (n : nat) (ws : list Z) : list Z :=
  match n with
  | O => ws
  | S n =>
      let w k := nth k ws 0 in
      extend n (add32 (add32 (SSig1 (w 1%nat)) (w 6%nat))
                      (add32 (SSig0 (w 14%nat)) (w 15%nat)) :: ws)
  end.

Fixpoint words (l : bytes) : list Z :=
  match l with
  | a :: b :: c :: d :: l =>
      (byte_Z a * 2 ^ 24 + byte_Z b * 2 ^ 16 + byte_Z c * 2 ^ 8 + byte_Z d) :: words l
  | _ => []
  end.

Definition compress (s : state) (block : bytes) : state :=
  let ws := rev (extend 48 (rev (words block))) in
  let r := foldl round s (zip K ws) in
  St (add32 (sa s) (sa r)) (add32 (sb s) (sb r)) (add32 (sc s) (sc r)) (add32 (sd s) (sd r))
     (add32 (se s) (se r)) (add32 (sf s) (sf r)) (add32 (sg s) (sg r)) (add32 (sh s) (sh r)).

Fixpoint blocks (fuel : nat) (s : state) (l : bytes) : state :=
  match fuel with
  | O => s
  | S f => match l with [] => s | _ => blocks f (compress s (take 64 l)) (drop 64 l) end
  end.

Fixpoint be (n : nat) (x : Z) : bytes :=
  match n with O => [] | S n => be n (x / 256) ++ [Z_byte x] end.

(** Padding: a one bit, zeros, and the bit length as 64 bits. *)
Definition pad (l : bytes) : bytes :=
  let n := length l in
  let z := ((119 - n mod 64) mod 64)%nat in
  l ++ x80 :: replicate z x00 ++ be 8 (8 * Z.of_nat n).

Definition Sum256 (l : bytes) : bytes :=
  let p := pad l in
  let s := blocks (length p / 64) init p in
  be 4 (sa s) ++ be 4 (sb s) ++ be 4 (sc s) ++ be 4 (sd s) ++
  be 4 (se s) ++ be 4 (sf s) ++ be 4 (sg s) ++ be 4 (sh s).

Lemma length_be n x : length (be n x) = n.
Proof. revert x. induction n; intros x; simpl; [done|]. rewrite length_app, IHn. simpl. lia. Qed.

Lemma length_Sum256 l : length (Sum256 l) = 32%nat.
Proof. unfold Sum256. by rewrite !length_app, !length_be. Qed.

Example Sum256_abc : Sum256 (to_bytes "abc") =
  [xba;x78;x16;xbf;x8f;x01;xcf;xea;x41;x41;x40;xde;x5d;xae;x22;x23;
   xb0;x03;x61;xa3;x96;x17;x7a;x9c;xb4;x10;xff;x61;xf2;x00;x15;xad].
Proof. vm_compute. reflexivity. Qed.

Example Sum256_empty : Sum256 [] =
  [xe3;xb0;xc4;x42;x98;xfc;x1c;x14;x9a;xfb;xf4;xc8;x99;x6f;xb9;x24;
   x27;xae;x41;xe4;x64;x9b;x93;x4c;xa4;x95;x99;x1b;x78;x52;xb8;x55].
Proof. vm_compute. reflexivity. Qed.

(** A two-block message. *)
Example Sum256_long :
  Sum256 (to_bytes "abcdbcdecdefdefgefghfghighijhijkijkljklmklmnlmnomnopnopq") =
  [x24;x8d;x6a;x61;xd2;x06;x38;xb8;xe5;xc0;x26;x93;x0c;x3e;x60;x39;
   xa3;x3c;xe4;x59;x64;xff;x21;x67;xf6;xec;xed;xd4;x19;xdb;x06;xc1].
Proof. vm_compute. reflexivity. Qed.

End Sha256.

#[export] Hint Rewrite Sha256.length_Sum256 : gretun_len.
#[global] Opaque Sha256.Sum256.
