(* ===== verification/GoTime.v ===== *)
(** * Go's [time]

    A [time.Time] is the number of nanoseconds since January 1, year 1, UTC,
    so that the zero [Time] is [0] and every clock reading is positive; a
    [time.Duration] is a signed 64-bit count of nanoseconds.  Monotonic
    readings are not modelled: both clocks are the same parameter. *)

From S2P Require Import Prelude.

Module GoTime.

Definition Nanosecond : Z := 1.
Definition Millisecond : Z := 1000000.
Definition Second : Z := 1000000000.

Definition IsZero (t : Z) : bool := t =? 0.
Definition Add (t d : Z) : Z := t + d.
Definition After (t u : Z) : bool := u <? t.
Definition Before (t u : Z) : bool := t <? u.

(** [Time.Sub] saturates at the extreme durations. *)
Definition Sub (t u : Z) : Z := Z.max int64_min (Z.min int64_max (t - u)).
Definition Since (now t : Z) : Z := Sub now t.

(** Seconds between year 1 and 1970. *)
Definition unixToInternal : Z := 62135596800.
Definition Unix (t : Z) : Z := t / Second - unixToInternal.

Lemma Sub_small t u : int64_min ≤ t - u ≤ int64_max → Sub t u = t - u.
Proof. unfold Sub. lia. Qed.

Lemma Since_gt now t d : int64_min ≤ d < int64_max → d < Since now t ↔ d < now - t.
Proof. unfold Since, Sub. lia. Qed.

(** Year, month and day of a day number (day 0 is January 1, year 1). *)
Definition civil (days : Z) : Z * Z * Z :=
  let z := days + 306 in
  let era := z / 146097 in
  let doe := z mod 146097 in
  let yoe := (doe - doe / 1460 + doe / 36524 - doe / 146096) / 365 in
  let doy := doe - (365 * yoe + yoe / 4 - yoe / 100) in
  let mp := (5 * doy + 2) / 153 in
  let d := doy - (153 * mp + 2) / 5 + 1 in
  let m := if mp <? 10 then mp + 3 else mp - 9 in
  (yoe + era * 400 + (if m <=? 2 then 1 else 0), m, d).

(** [n] with at least [k] digits. *)
Fixpoint zeros (k : nat) : string :=
  match k with O => "" | S k => "0" +:+ zeros k end.
Definition padded (k : nat) (n : Z) : string :=
  let s := pretty n in zeros (k - String.length s) +:+ s.

(** The fraction of [".999999999"]: trailing zeros removed, nothing for 0. *)
Fixpoint trim_zeros (l : bytes) : bytes :=
  match l with
  | "0"%byte :: l => trim_zeros l
  | l => l
  end.
Definition fraction (ns : Z) : string :=
  if ns =? 0 then ""
  else "." +:+ of_bytes (rev (trim_zeros (rev (to_bytes (padded 9 ns))))).

(** [t.UTC().Format(time.RFC3339Nano)]. *)
Definition FormatRFC3339Nano (t : Z) : string :=
  let secs := t / Second in
  let '(y, m, d) := civil (secs / 86400) in
  let s := secs mod 86400 in
  padded 4 y +:+ "-" +:+ padded 2 m +:+ "-" +:+ padded 2 d +:+ "T" +:+
  padded 2 (s / 3600) +:+ ":" +:+ padded 2 (s / 60 mod 60) +:+ ":" +:+ padded 2 (s mod 60) +:+
  fraction (t mod Second) +:+ "Z".

Example Format_epoch : FormatRFC3339Nano (unixToInternal * Second) = "1970-01-01T00:00:00Z".
Proof. vm_compute. reflexivity. Qed.
Example Format_leap :
  FormatRFC3339Nano ((unixToInternal + 1709210096) * Second + 120000000) = "2024-02-29T12:34:56.12Z".
Proof. vm_compute. reflexivity. Qed.

End GoTime.
