(* ===== verification/GoRFC3339.v ===== *)
(** * RFC 3339 timestamps ([time.Time] in [encoding/json])

    [MarshalJSON] prints a time in the time zone it carries, [UnmarshalJSON]
    reads it back.  Times are nanoseconds since January 1, year 1, UTC, as in
    [GoTime]; the offset of the zone in minutes is an argument of printing. *)

From S2P Require Import Prelude.
From S2P Require Import Encoding.
From S2P Require Import GoTime.

(** ** The calendar *)

Definition leap (y : Z) : bool := (y mod 4 =? 0) && (negb (y mod 100 =? 0) || (y mod 400 =? 0)).

Definition daysIn (m y : Z) : Z :=
  if m =? 2 then (if leap y then 29 else 28)
  else if (m =? 4) || (m =? 6) || (m =? 9) || (m =? 11) then 30 else 31.

(** The day number of a date, the inverse of [GoTime.civil]. *)
Definition day_number (y m d : Z) : Z :=
  let y' := if m <=? 2 then y - 1 else y in
  let yoe := y' mod 400 in
  let doy := (153 * ((m + 9) mod 12) + 2) / 5 + d - 1 in
  y' / 400 * 146097 + (yoe * 365 + yoe / 4 - yoe / 100 + doy) - 306.

(** *** Dates and day numbers are inverse

    [civil] splits a day number into eras of 400 years that start in March.  The
    years of an era and the days of a year are checked one by one. *)

(** The first day of year [y] of an era, which has 146097 days. *)
Definition year_start (y : Z) : Z := 365 * y + y / 4 - y / 100 + y / 400.

(** The year of the day [doe] of an era, as [civil] computes it. *)
Definition year_of_era (doe : Z) : Z := (doe - doe / 1460 + doe / 36524 - doe / 146096) / 365.

Lemma year_of_era_mono a b : 0 ≤ a → a ≤ b → year_of_era a ≤ year_of_era b.
Proof.
  intros Ha Hab. unfold year_of_era. apply Z.div_le_mono; [lia|].
  assert (∀ x, x / 146096 = x / 36524 / 4) as Hd by (intros x; by rewrite Z.div_div).
  rewrite !Hd. assert (a / 36524 ≤ b / 36524) by (apply Z.div_le_mono; lia).
  clear Hd. generalize dependent (a / 36524). generalize dependent (b / 36524). intros r' r Hr.
  assert (r - r / 4 ≤ r' - r' / 4) by (Z.to_euclidean_division_equations; lia).
  assert (a - a / 1460 ≤ b - b / 1460) by (Z.to_euclidean_division_equations; lia). lia.
Qed.

Definition all_below (n : nat) (P : Z → bool) : bool := forallb (λ i, P (Z.of_nat i)) (seq 0 n).

Lemma all_below_spec n P : all_below n P = true → ∀ i, 0 ≤ i < Z.of_nat n → P i = true.
Proof.
  unfold all_below. rewrite forallb_forall. intros Hf i Hi. replace i with (Z.of_nat (Z.to_nat i)) by lia.
  apply Hf. apply in_seq. lia.
Qed.

(** First and last day, and the length, of year [y]. *)
Definition year_ok (y : Z) : bool :=
  (year_of_era (year_start y) =? y) && (year_of_era (year_start (y + 1) - 1) =? y) &&
  (year_start (y + 1) - year_start y =? (if leap (y + 1) then 366 else 365)).

Lemma years_ok y : 0 ≤ y < 400 → year_ok y = true.
Proof. intros Hy. apply (all_below_spec 400 year_ok); [vm_compute; reflexivity|lia]. Qed.

Lemma year_of_era_spec doe : 0 ≤ doe < 146097 →
  let y := year_of_era doe in
  0 ≤ y < 400 ∧ year_start y ≤ doe < year_start y + (if leap (y + 1) then 366 else 365).
Proof.
  intros Hd y.
  assert (0 ≤ y < 400) as Hy.
  { pose proof (year_of_era_mono 0 doe ltac:(lia) ltac:(lia)) as H0.
    pose proof (year_of_era_mono doe 146096 ltac:(lia) ltac:(lia)) as H1.
    change (year_of_era 0) with 0 in H0. change (year_of_era 146096) with 399 in H1. unfold y. lia. }
  split; [done|]. pose proof (years_ok y Hy) as Hok. unfold year_ok in Hok. bool_to_prop.
  assert (year_start (y + 1) = year_start y + (if leap (y + 1) then 366 else 365)) as Elen by lia.
  rewrite <- Elen. split.
  - destruct (Z.le_gt_cases (year_start y) doe) as [?|Hlt]; [done|].
    destruct (decide (y = 0)) as [E|Hy0]; [rewrite E in Hlt; change (year_start 0) with 0 in Hlt; lia|].
    pose proof (years_ok (y - 1) ltac:(lia)) as Hp. unfold year_ok in Hp. bool_to_prop.
    replace (y - 1 + 1) with y in * by lia.
    pose proof (year_of_era_mono doe (year_start y - 1) ltac:(lia) ltac:(lia)). unfold y in *. lia.
  - destruct (Z.le_gt_cases (year_start (y + 1)) doe) as [Hge|?]; [|done].
    destruct (decide (y = 399)) as [E|Hy0]; [rewrite E in Hge; change (year_start (399 + 1)) with 146097 in Hge; lia|].
    pose proof (years_ok (y + 1) ltac:(lia)) as Hp. unfold year_ok in Hp. bool_to_prop.
    assert (0 ≤ year_start (y + 1)) by (unfold year_start; Z.to_euclidean_division_equations; lia).
    pose proof (year_of_era_mono (year_start (y + 1)) doe ltac:(lia) ltac:(lia)). unfold y in *. lia.
Qed.

(** Month and day of the day [doy] of a year that starts in March. *)
Definition month_of (doy : Z) : Z :=
  let mp := (5 * doy + 2) / 153 in if mp <? 10 then mp + 3 else mp - 9.
Definition day_of (doy : Z) : Z := doy - (153 * ((5 * doy + 2) / 153) + 2) / 5 + 1.

Definition day_ok (doy : Z) : bool :=
  let m := month_of doy in
  let d := day_of doy in
  (1 <=? m) && (m <=? 12) && (1 <=? d) && ((153 * ((m + 9) mod 12) + 2) / 5 + d - 1 =? doy) &&
  (d <=? (if m =? 2 then (if doy =? 365 then 29 else 28) else daysIn m 1)).

Lemma days_ok doy : 0 ≤ doy < 366 → day_ok doy = true.
Proof. intros Hd. apply (all_below_spec 366 day_ok); [vm_compute; reflexivity|lia]. Qed.

Lemma leap_era y e : leap (y + e * 400) = leap y.
Proof.
  unfold leap. replace (y + e * 400) with (y + e * 100 * 4) at 1 by lia.
  replace (y + e * 400) with (y + e * 4 * 100) at 1 by lia. by rewrite !Z.mod_add.
Qed.

Lemma civil_spec days y m d : GoTime.civil days = (y, m, d) →
  1 ≤ m ≤ 12 ∧ 1 ≤ d ≤ daysIn m y ∧ day_number y m d = days.
Proof.
  unfold GoTime.civil. set (e := (days + 306) / 146097). set (doe := (days + 306) mod 146097).
  assert (0 ≤ doe < 146097) as Hdoe by (apply Z.mod_pos_bound; lia).
  pose proof (Z.div_mod (days + 306) 146097 ltac:(lia)) as Hdm. fold e doe in Hdm.
  change ((doe - doe / 1460 + doe / 36524 - doe / 146096) / 365) with (year_of_era doe).
  pose proof (year_of_era_spec doe Hdoe) as [Hy Hr]. set (yoe := year_of_era doe) in *. cbv zeta.
  assert (year_start yoe = 365 * yoe + yoe / 4 - yoe / 100) as Hys by (unfold year_start; rewrite (Z.div_small yoe 400); lia).
  rewrite <- Hys. set (doy := doe - year_start yoe). fold (day_of doy). change (if _ <? 10 then _ else _) with (month_of doy).
  pose proof (days_ok doy ltac:(unfold doy; destruct (leap _); lia)) as Hok. unfold day_ok in Hok. bool_to_prop.
  intros [= <- <- <-]. set (mo := month_of doy) in *. set (da := day_of doy) in *.
  set (yr := yoe + e * 400 + (if mo <=? 2 then 1 else 0)).
  assert ((if mo <=? 2 then yr - 1 else yr) = yoe + e * 400) as Ey by (unfold yr; destruct (mo <=? 2); lia).
  split; [lia|]. split.
  - split; [lia|]. unfold daysIn in *. destruct (Z.eqb_spec mo 2) as [E|]; [|lia].
    assert (leap yr = leap (yoe + 1)) as ->.
    { unfold yr. rewrite E. simpl. replace (yoe + e * 400 + 1) with (yoe + 1 + e * 400) by lia. apply leap_era. }
    destruct (Z.eqb_spec doy 365); [|destruct (leap (yoe + 1)); lia].
    unfold doy in *. destruct (leap (yoe + 1)); lia.
  - unfold day_number. rewrite Ey. rewrite Z.div_add, Z.mod_add by lia.
    rewrite (Z.div_small yoe 400), (Z.mod_small yoe 400) by lia. unfold doy in *. lia.
Qed.

(** ** Printing *)

(** [t.Format(time.RFC3339Nano)] in a zone [off] minutes east of Greenwich. *)
Definition zone_suffix (off : Z) : string :=
  if off =? 0 then "Z"
  else (if off <? 0 then "-" else "+") +:+
       GoTime.padded 2 (Z.abs off / 60) +:+ ":" +:+ GoTime.padded 2 (Z.abs off mod 60).

Definition FormatTime (off t : Z) : string :=
  let local := t + off * (60 * GoTime.Second) in
  let secs := local / GoTime.Second in
  let '(y, m, d) := GoTime.civil (secs / 86400) in
  let s := secs mod 86400 in
  GoTime.padded 4 y +:+ "-" +:+ GoTime.padded 2 m +:+ "-" +:+ GoTime.padded 2 d +:+ "T" +:+
  GoTime.padded 2 (s / 3600) +:+ ":" +:+ GoTime.padded 2 (s / 60 mod 60) +:+ ":" +:+
  GoTime.padded 2 (s mod 60) +:+ GoTime.fraction (local mod GoTime.Second) +:+ zone_suffix off.

(** [MarshalJSON] refuses a year of more than four digits and an offset of a day
    or more. *)
Definition time_year (off t : Z) : Z :=
  (GoTime.civil ((t + off * (60 * GoTime.Second)) / GoTime.Second / 86400)).1.1.
Definition time_marshals (off t : Z) : bool :=
  (0 <=? time_year off t) && (time_year off t <=? 9999) && (Z.abs off <? 1440).

(** ** Parsing ([parseRFC3339]) *)

Definition dec_value (l : bytes) : option Z := Decimal.digits_value 0 (of_bytes l).

Definition parse_field (l : bytes) (lo hi : Z) : option Z :=
  x ← dec_value l; if (lo <=? x) && (x <=? hi) then Some x else None.

(** [s[i:i+n]]. *)
Definition sub (i n : nat) (l : bytes) : bytes := take n (drop i l).

Fixpoint span_digits (l : bytes) : bytes * bytes :=
  match l with
  | b :: l' => if Decimal.is_digit b then let '(a, r) := span_digits l' in (b :: a, r) else ([], l)
  | [] => ([], [])
  end.

(** The fraction, cut off after nine digits, and what follows. *)
Definition parse_fraction (l : bytes) : Z * bytes :=
  match l with
  | b :: l' =>
      if Byte.eqb b "."%byte then
        match span_digits l' with
        | ([], _) => (0, l)
        | (ds, r) => let ds := take 9 ds in
                     (default 0 (dec_value ds) * 10 ^ (9 - Z.of_nat (length ds)), r)
        end
      else (0, l)
  | [] => (0, [])
  end.

Definition parse_zone (l : bytes) : option Z :=
  if decide (l = ["Z"%byte]) then Some 0
  else match l with
  | sg :: r =>
      if negb (length l =? 6)%nat then None
      else
        hr ← parse_field (sub 0 2 r) 0 23;
        mm ← parse_field (sub 3 2 r) 0 59;
        if (Byte.eqb sg "+"%byte || Byte.eqb sg "-"%byte) && bool_decide (r !! 2%nat = Some ":"%byte)
        then Some ((if Byte.eqb sg "-"%byte then -1 else 1) * (hr * 60 + mm)) else None
  | [] => None
  end.

Definition parse_time (l : bytes) : option Z :=
  if (length l <? 19)%nat then None
  else
    y ← parse_field (sub 0 4 l) 0 9999;
    m ← parse_field (sub 5 2 l) 1 12;
    d ← parse_field (sub 8 2 l) 1 (daysIn m y);
    hh ← parse_field (sub 11 2 l) 0 23;
    mi ← parse_field (sub 14 2 l) 0 59;
    ss ← parse_field (sub 17 2 l) 0 59;
    if bool_decide (l !! 4%nat = Some "-"%byte ∧ l !! 7%nat = Some "-"%byte ∧ l !! 10%nat = Some "T"%byte ∧
                    l !! 13%nat = Some ":"%byte ∧ l !! 16%nat = Some ":"%byte) then
      let '(ns, r) := parse_fraction (drop 19 l) in
      off ← parse_zone r;
      Some ((day_number y m d * 86400 + hh * 3600 + mi * 60 + ss) * GoTime.Second + ns
            - off * (60 * GoTime.Second))
    else None.

Example parse_leap : parse_time (to_bytes "2024-02-29T12:34:56.12Z") =
  Some ((GoTime.unixToInternal + 1709210096) * GoTime.Second + 120000000).
Proof. vm_compute. reflexivity. Qed.
Example parse_offset : parse_time (to_bytes "2024-02-29T14:34:56+02:00") =
  Some ((GoTime.unixToInternal + 1709210096) * GoTime.Second).
Proof. vm_compute. reflexivity. Qed.
Example parse_no_leap : parse_time (to_bytes "2023-02-29T12:34:56Z") = None.
Proof. vm_compute. reflexivity. Qed.

(** ** What is printed is read back *)

Lemma length_pretty_go k n s : (n < 10 ^ N.of_nat k)%N →
  (String.length (pretty_N_go n s) ≤ k + String.length s)%nat.
Proof.
  revert n s. induction k as [|k IH]; intros n s Hn.
  - by assert (n = 0)%N as -> by (change (10 ^ N.of_nat 0)%N with 1%N in Hn; lia).
  - assert (n = 0 ∨ 0 < n)%N as [->|Hp] by lia; [rewrite pretty_N_go_0; lia|].
    rewrite pretty_N_go_step by done. etrans; [apply IH|simpl; lia]. apply N.Div0.div_lt_upper_bound.
    rewrite Nnat.Nat2N.inj_succ, N.pow_succ_r' in Hn. done.
Qed.

Lemma length_pretty k n : (0 < k)%nat → 0 ≤ n < 10 ^ Z.of_nat k → (String.length (pretty n) ≤ k)%nat.
Proof.
  intros Hk Hn. destruct n as [|p|p]; [simpl; lia| |lia]. change (pretty (Z.pos p)) with (pretty (N.pos p)).
  unfold pretty, pretty_N. rewrite decide_False by done.
  etrans; [apply (length_pretty_go k)|simpl; lia].
  apply N2Z.inj_lt. rewrite N2Z.inj_pow, nat_N_Z. lia.
Qed.

Lemma digits_value_app acc s t :
  Decimal.digits_value acc (s +:+ t) = Decimal.digits_value acc s ≫= λ a, Decimal.digits_value a t.
Proof.
  revert acc. induction s as [|c s IH]; intros acc; simpl; [done|].
  destruct (Decimal.digit_value c); simpl; [apply IH|done].
Qed.

Lemma digits_value_zeros k : Decimal.digits_value 0 (GoTime.zeros k) = Some 0.
Proof. induction k; simpl; done. Qed.

Lemma length_zeros k : String.length (GoTime.zeros k) = k.
Proof. induction k; simpl; [done|by f_equal]. Qed.

Lemma length_to_bytes s : length (to_bytes s) = String.length s.
Proof. induction s; simpl; [done|]. by f_equal. Qed.

Lemma string_length_app s t : String.length (s +:+ t) = (String.length s + String.length t)%nat.
Proof. rewrite <- !length_to_bytes. by rewrite to_bytes_app, length_app. Qed.

(** [padded] prints a field of fixed width. *)
Lemma padded_spec k n : (0 < k)%nat → 0 ≤ n < 10 ^ Z.of_nat k →
  length (to_bytes (GoTime.padded k n)) = k ∧ dec_value (to_bytes (GoTime.padded k n)) = Some n.
Proof.
  intros Hk Hn. pose proof (length_pretty k n Hk Hn) as Hl. unfold dec_value. rewrite of_to_bytes. unfold GoTime.padded.
  split.
  - rewrite length_to_bytes, string_length_app, length_zeros. lia.
  - rewrite digits_value_app, digits_value_zeros. simpl.
    destruct n as [|p|p]; [done| |lia]. change (pretty (Z.pos p)) with (pretty (N.pos p)).
    by rewrite Decimal.digits_value_pretty.
Qed.

Lemma parse_field_padded k n lo hi : (0 < k)%nat → 0 ≤ n < 10 ^ Z.of_nat k → lo ≤ n ≤ hi →
  parse_field (to_bytes (GoTime.padded k n)) lo hi = Some n.
Proof.
  intros Hk Hn Hr. unfold parse_field. destruct (padded_spec k n Hk Hn) as [_ ->]. simpl.
  by rewrite (proj2 (Z.leb_le lo n)), (proj2 (Z.leb_le n hi)) by lia.
Qed.

(** *** The fraction *)

Lemma trim_zeros_split m : ∃ j, m = replicate j "0"%byte ++ GoTime.trim_zeros m.
Proof.
  induction m as [|b m [j IH]]; [by exists 0%nat|].
  destruct (decide (b = "0"%byte)) as [->|Hb].
  - exists (S j). simpl. by f_equal.
  - exists 0%nat. destruct b; try reflexivity. done.
Qed.

Lemma trim_split l : ∃ j, l = rev (GoTime.trim_zeros (rev l)) ++ replicate j "0"%byte.
Proof.
  destruct (trim_zeros_split (rev l)) as [j Hj]. exists j.
  apply (f_equal (@rev byte)) in Hj. rewrite rev_involutive, rev_app_distr in Hj.
  rewrite Hj at 1. f_equal. rewrite rev_alt. apply reverse_replicate.
Qed.

Lemma dec_value_digits acc l v : Decimal.digits_value acc (of_bytes l) = Some v → Forall (λ b, Decimal.is_digit b = true) l.
Proof.
  revert acc. induction l as [|b l IH]; intros acc Hv; [constructor|]. simpl in Hv.
  destruct (Decimal.digit_value (Ascii.ascii_of_byte b)) as [d|] eqn:Ed; [|done].
  constructor; [|by eapply IH]. clear -Ed. by destruct b.
Qed.

Lemma of_bytes_app l1 l2 : of_bytes (l1 ++ l2) = of_bytes l1 +:+ of_bytes l2.
Proof. apply (inj to_bytes). by rewrite to_bytes_app, !to_of_bytes. Qed.

Lemma digits_value_trailing a j : Decimal.digits_value a (of_bytes (replicate j "0"%byte)) = Some (a * 10 ^ Z.of_nat j).
Proof.
  revert a. induction j as [|j IH]; intros a; [simpl; f_equal; lia|].
  change (of_bytes (replicate (S j) "0"%byte)) with (String "0" (of_bytes (replicate j "0"%byte))).
  change (Decimal.digits_value (a * 10 + 0) (of_bytes (replicate j "0"%byte)) = Some (a * 10 ^ Z.of_nat (S j))).
  rewrite IH. f_equal. rewrite Nat2Z.inj_succ, Z.pow_succ_r by lia. lia.
Qed.

Lemma span_digits_app ds x : Forall (λ b, Decimal.is_digit b = true) ds →
  match x with [] => True | b :: _ => Decimal.is_digit b = false end → span_digits (ds ++ x) = (ds, x).
Proof.
  intros Hd Hx. induction Hd as [|b ds Hb _ IH]; simpl.
  - destruct x as [|b x]; [done|]. simpl. by rewrite Hx.
  - by rewrite Hb, IH.
Qed.

(** What follows the fraction starts neither with a digit nor with a point. *)
Definition fraction_end (x : bytes) : Prop :=
  match x with [] => True | b :: _ => Decimal.is_digit b = false ∧ Byte.eqb b "."%byte = false end.

Lemma parse_fraction_back ns x : 0 ≤ ns < 10 ^ 9 → fraction_end x →
  parse_fraction (to_bytes (GoTime.fraction ns) ++ x) = (ns, x).
Proof.
  intros Hns Hx. unfold GoTime.fraction. destruct (Z.eqb_spec ns 0) as [->|Hne].
  { simpl. destruct x as [|b x]; [done|]. simpl in *. by destruct Hx as [_ ->]. }
  destruct (padded_spec 9 ns) as [Hlen Hval]; [lia|done|].
  set (l := to_bytes (GoTime.padded 9 ns)) in *. destruct (trim_split l) as [j Hj].
  set (tr := rev (GoTime.trim_zeros (rev l))) in *.
  assert (∃ v, dec_value tr = Some v ∧ v * 10 ^ Z.of_nat j = ns) as (v & Hv & Hvj).
  { rewrite Hj in Hval. unfold dec_value in *. rewrite of_bytes_app, digits_value_app in Hval.
    destruct (Decimal.digits_value 0 (of_bytes tr)) as [v|]; [|done]. simpl in Hval.
    rewrite digits_value_trailing in Hval. exists v. split; [done|]. congruence. }
  assert (length tr + j = 9)%nat as Hl by (rewrite <- Hlen, Hj, length_app, length_replicate; done).
  rewrite to_bytes_app, to_of_bytes. change (to_bytes ".") with ["."%byte]. cbn [app].
  unfold parse_fraction. change (Byte.eqb "."%byte "."%byte) with true. cbv iota.
  rewrite span_digits_app; [|by eapply dec_value_digits|by destruct x; [|apply Hx]].
  destruct tr as [|b tr'] eqn:Etr; [unfold dec_value in Hv; simpl in Hv; simplify_eq; lia|]. rewrite <- Etr in *.
  rewrite take_ge by lia. rewrite Hv. simpl default. f_equal. rewrite <- Hvj. f_equal. f_equal. lia.
Qed.

(** *** The zone, for every offset of less than a day *)

Definition zone_back (i : Z) : bool :=
  let off := i - 1439 in
  bool_decide (parse_zone (to_bytes (zone_suffix off)) = Some off) &&
  match to_bytes (zone_suffix off) with
  | b :: _ => negb (Decimal.is_digit b) && negb (Byte.eqb b "."%byte)
  | [] => false
  end.

Lemma zones_back : all_below 2879 zone_back = true.
Proof. vm_compute. reflexivity. Qed.

Lemma parse_zone_back off : Z.abs off < 1440 →
  parse_zone (to_bytes (zone_suffix off)) = Some off ∧ fraction_end (to_bytes (zone_suffix off)).
Proof.
  intros Ho. pose proof (all_below_spec _ _ zones_back (off + 1439) ltac:(lia)) as Hb. unfold zone_back in Hb.
  replace (off + 1439 - 1439) with off in Hb by lia. apply andb_true_iff in Hb as [Hz Hh].
  apply bool_decide_eq_true in Hz. split; [done|]. unfold fraction_end. destruct (to_bytes _) as [|b x]; [done|].
  apply andb_true_iff in Hh as [H1 H2]. by apply negb_true_iff in H1, H2.
Qed.

(** *** The whole text *)

Lemma parse_time_text (A B C D E F x r : bytes) (y m d hh mi ss ns off : Z) :
  length A = 4%nat → length B = 2%nat → length C = 2%nat → length D = 2%nat → length E = 2%nat → length F = 2%nat →
  parse_field A 0 9999 = Some y → parse_field B 1 12 = Some m → parse_field C 1 (daysIn m y) = Some d →
  parse_field D 0 23 = Some hh → parse_field E 0 59 = Some mi → parse_field F 0 59 = Some ss →
  parse_fraction x = (ns, r) → parse_zone r = Some off →
  parse_time (A ++ "-"%byte :: B ++ "-"%byte :: C ++ "T"%byte :: D ++ ":"%byte :: E ++ ":"%byte :: F ++ x) =
  Some ((day_number y m d * 86400 + hh * 3600 + mi * 60 + ss) * GoTime.Second + ns - off * (60 * GoTime.Second)).
Proof.
  intros HA HB HC HD HE HF Hy Hm Hd Hh Hi Hs Hx Hz.
  destruct A as [|a0 [|a1 [|a2 [|a3 [|]]]]]; try discriminate HA.
  destruct B as [|b0 [|b1 [|]]]; try discriminate HB. destruct C as [|c0 [|c1 [|]]]; try discriminate HC.
  destruct D as [|d0 [|d1 [|]]]; try discriminate HD. destruct E as [|e0 [|e1 [|]]]; try discriminate HE.
  destruct F as [|f0 [|f1 [|]]]; try discriminate HF.
  unfold parse_time, sub. cbn [app length drop take lookup list_lookup].
  change ((S ?n <? 19)%nat) with ((S n <? 19)%nat). rewrite (proj2 (Nat.ltb_ge _ 19)) by lia.
  rewrite Hy. cbn [mbind option_bind]. rewrite Hm. cbn [mbind option_bind]. rewrite Hd. cbn [mbind option_bind].
  rewrite Hh. cbn [mbind option_bind]. rewrite Hi. cbn [mbind option_bind]. change (take 0 x) with (@nil byte). rewrite Hs. cbn [mbind option_bind].
  rewrite bool_decide_true by done. change (drop 0 x) with x. rewrite Hx. cbn [mbind option_bind]. rewrite Hz. done.
Qed.

(** Reading a printed time gives it back. *)
Lemma parse_FormatTime off t : time_marshals off t = true → parse_time (to_bytes (FormatTime off t)) = Some t.
Proof.
  unfold time_marshals, time_year, FormatTime. set (local := t + off * (60 * GoTime.Second)).
  set (secs := local / GoTime.Second). destruct (GoTime.civil (secs / 86400)) as [[y m] d] eqn:Ec.
  simpl fst. intros Hr. bool_to_prop. destruct (civil_spec _ _ _ _ Ec) as (Hm & Hd & Hdays).
  assert (daysIn m y ≤ 31) by (unfold daysIn; repeat case_match; lia).
  set (s := secs mod 86400). assert (0 ≤ s < 86400) as Hs by (apply Z.mod_pos_bound; lia).
  assert (0 ≤ s / 3600 < 24 ∧ 0 ≤ s / 60 mod 60 < 60 ∧ 0 ≤ s mod 60 < 60 ∧
          s = s / 3600 * 3600 + s / 60 mod 60 * 60 + s mod 60) as (Q1 & Q2 & Q3 & Q4)
    by (clear -Hs; Z.to_euclidean_division_equations; lia).
  destruct (parse_zone_back off ltac:(lia)) as [Hz He].
  assert (0 ≤ local mod GoTime.Second < 10 ^ 9) as Hn by (apply Z.mod_pos_bound; done).
  pose proof (parse_fraction_back (local mod GoTime.Second) _ Hn He) as Hf.
  rewrite !to_bytes_app. change (to_bytes "-") with ["-"%byte]. change (to_bytes "T") with ["T"%byte].
  change (to_bytes ":") with [":"%byte]. cbn [app].
  erewrite (parse_time_text _ _ _ _ _ _ _ _ y m d (s / 3600) (s / 60 mod 60) (s mod 60)); try done.
  2-7: apply padded_spec; simpl; lia.
  2-7: apply parse_field_padded; simpl; lia.
  f_equal. rewrite Hdays.
  pose proof (Z.div_mod local GoTime.Second ltac:(done)) as E1. fold secs in E1.
  pose proof (Z.div_mod secs 86400 ltac:(lia)) as E2. fold s in E2.
  replace ((secs / 86400 * 86400 + s / 3600 * 3600 + s / 60 mod 60 * 60 + s mod 60)) with secs by lia.
  unfold local in *. lia.
Qed.
