(* ===== verification/GoSlice.v ===== *)
(** * Slices, channels and contexts of the Go runtime

    A slice is a pointer to a backing array with a length and a capacity.  The
    arrays live in a [Heap], so that two slices of one array alias as they do
    in Go: [append(s[:0], xs...)] overwrites the array when it is large
    enough.  Channels are identities; [Chans] records which are closed, and
    whether a closed channel was ever closed again, which panics. *)

From S2P Require Import Prelude.

(** ** Slices *)

(** How much capacity [append] allocates is up to the runtime: at least what
    is needed. *)
Class Growslice := {
  growslice : nat → nat → nat;
  growslice_ge : ∀ old needed, (needed ≤ growslice old needed)%nat
}.

(** A runtime that allocates exactly what is needed. *)
Definition exact_growslice : Growslice :=
  {| growslice := λ _ n, n; growslice_ge := λ _ n, le_n n |}.

(** All slices of the modelled code start at the beginning of their array. *)
Record slice := Slice { s_arr : option nat; s_len : nat; s_cap : nat }.

Definition nil_slice : slice := Slice None 0 0.

#[export] Instance slice_eq_dec : EqDecision slice.
Proof. solve_decision. Defined.

Record Heap (A : Type) := MkHeap { arrays : gmap nat (list A); next_arr : nat }.
Arguments MkHeap {A} arrays next_arr.
Arguments arrays {A} h.
Arguments next_arr {A} h.

Definition empty_heap {A} : Heap A := MkHeap ∅ 0.

Section Slices.
Context {A : Type} (zero : A).

(** The elements a slice shows. *)
Definition slice_read (h : Heap A) (s : slice) : list A :=
  match s_arr s with
  | Some i => take (s_len s) (default [] (arrays h !! i))
  | None => []
  end.

(** [append(s[:0], xs...)]. *)
Definition slice_overwrite `{Growslice} (h : Heap A) (s : slice) (xs : list A) : slice * Heap A :=
  if (length xs <=? s_cap s)%nat then
    match s_arr s with
    | Some i =>
        (Slice (Some i) (length xs) (s_cap s),
         MkHeap (<[i := xs ++ drop (length xs) (default [] (arrays h !! i))]> (arrays h))
                (next_arr h))
    | None => (s, h)
    end
  else
    let c := growslice (s_cap s) (length xs) in
    (Slice (Some (next_arr h)) (length xs) c,
     MkHeap (<[next_arr h := xs ++ replicate (c - length xs) zero]> (arrays h))
            (S (next_arr h))).

(** A slice fits its array. *)
Definition slice_ok (h : Heap A) (s : slice) : Prop :=
  match s_arr s with
  | Some i => (i < next_arr h)%nat ∧ (s_len s ≤ s_cap s)%nat ∧
      ∃ l, arrays h !! i = Some l ∧ length l = s_cap s
  | None => s_len s = 0%nat ∧ s_cap s = 0%nat
  end.

Lemma slice_overwrite_ok `{Growslice} h s xs s' h' :
  slice_ok h s → slice_overwrite h s xs = (s', h') → slice_ok h' s' ∧ slice_read h' s' = xs.
Proof.
  unfold slice_overwrite, slice_ok, slice_read. intros Hok Heq.
  destruct (Nat.leb_spec (length xs) (s_cap s)) as [Hle|Hgt].
  - destruct (s_arr s) as [i|] eqn:Ei; simplify_eq/=.
    + destruct Hok as (Hi & Hl & l & Hlk & Hlen). rewrite Hlk. simpl.
      rewrite lookup_insert_eq. simpl. rewrite take_app_length. split; [|done].
      split_and!; try lia. eexists; split; [done|]. rewrite length_app, length_drop. lia.
    + rewrite Ei. destruct Hok as [Hl Hc].
      split; [done|]. destruct xs; [done|simpl in *; lia].
  - simplify_eq/=. rewrite lookup_insert_eq. simpl. rewrite take_app_length.
    pose proof (growslice_ge (s_cap s) (length xs)). split; [|done].
    split_and!; try lia. eexists; split; [done|]. rewrite length_app, length_replicate. lia.
Qed.

(** The write touches the slice's own array or a fresh one: another array's
    slices read the same and stay valid. *)
Lemma slice_overwrite_frame `{Growslice} h s xs s' h' t :
  slice_overwrite h s xs = (s', h') → slice_ok h t →
  (s_arr t = None ∨ s_arr t ≠ s_arr s) →
  slice_ok h' t ∧ slice_read h' t = slice_read h t.
Proof.
  unfold slice_overwrite, slice_ok, slice_read. intros Heq Hok Hne.
  destruct (Nat.leb_spec (length xs) (s_cap s)) as [Hle|Hgt].
  - destruct (s_arr s) as [i|] eqn:Ei; simplify_eq/=; [|done].
    destruct (s_arr t) as [j|]; [|done].
    rewrite lookup_insert_ne by naive_solver. done.
  - simplify_eq/=. destruct (s_arr t) as [j|]; [|done].
    destruct Hok as (Hj & ? & l & Hlk & ?). rewrite lookup_insert_ne by lia.
    split; [|done]. split_and!; [lia|done|]. by exists l.
Qed.

Lemma slice_overwrite_arr `{Growslice} h s xs s' h' :
  slice_overwrite h s xs = (s', h') → s_arr s' = s_arr s ∨ s_arr s' = Some (next_arr h).
Proof.
  unfold slice_overwrite. intros. repeat case_match; simplify_eq/=; eauto.
Qed.

Lemma slice_overwrite_next `{Growslice} h s xs s' h' :
  slice_overwrite h s xs = (s', h') → (next_arr h ≤ next_arr h')%nat.
Proof. unfold slice_overwrite. intros. repeat case_match; simplify_eq/=; lia. Qed.

End Slices.

(** ** Channels *)

Record Chans := MkChans { closed : gset nat; next_chan : nat; panicked : bool }.

Definition no_chans : Chans := MkChans ∅ 0 false.

Definition make_chan (c : Chans) : nat * Chans :=
  (next_chan c, MkChans (closed c) (S (next_chan c)) (panicked c)).

(** [close(ch)]: closing a closed channel panics. *)
Definition close_chan (ch : nat) (c : Chans) : Chans :=
  MkChans ({[ch]} ∪ closed c) (next_chan c) (panicked c || bool_decide (ch ∈ closed c)).

(** Receiving from a channel nobody sends on succeeds once it is closed. *)
Definition can_recv (ch : nat) (c : Chans) : bool := bool_decide (ch ∈ closed c).

(** ** Contexts: [ctx.Err()] *)

Inductive CtxErr := Canceled | DeadlineExceeded.

#[export] Instance CtxErr_eq_dec : EqDecision CtxErr.
Proof. solve_decision. Defined.

(** A live context is [None]. *)
Abbreviation Ctx := (option CtxErr).

Definition CtxErr_Error (e : CtxErr) : string :=
  match e with
  | Canceled => "context canceled"
  | DeadlineExceeded => "context deadline exceeded"
  end.
