(* ===== verification/GoHttp.v ===== *)
(** * HTTP requests as the coordinator and its client see them

    The parts of [net/http] and [net/url] that decide what a handler reads:
    header fields, the split of a request target into path and query,
    percent-decoding, the query parameters, and how the multiplexer compares a
    path with a pattern. *)

From S2P Require Import Prelude.
From S2P Require Import Encoding.

(** ** Header fields

    All the names used in the sources are in canonical form already, so
    canonicalisation is the identity on them. *)

Abbreviation Header := (gmap string (list string)).

Definition Header_Set (k v : string) (h : Header) : Header := <[k := [v]]> h.

(** The first value, or the empty string. *)
Definition Header_Get (k : string) (h : Header) : string :=
  match h !! k with
  | Some (v :: _) => v
  | _ => ""
  end.

Lemma Header_Get_Set k v h : Header_Get k (Header_Set k v h) = v.
Proof. unfold Header_Get, Header_Set. by rewrite lookup_insert_eq. Qed.

Lemma Header_Get_Set_ne k k' v h :
  k ≠ k' → Header_Get k (Header_Set k' v h) = Header_Get k h.
Proof. intros. unfold Header_Get, Header_Set. by rewrite lookup_insert_ne by done. Qed.

(** ** Strings *)

(** [strings.HasPrefix] and [strings.TrimPrefix], on the bytes. *)
Fixpoint strip_prefix (p s : bytes) : option bytes :=
  match p, s with
  | [], _ => Some s
  | a :: p, b :: s => if decide (a = b) then strip_prefix p s else None
  | _ :: _, [] => None
  end.

Definition HasPrefix (s p : string) : bool :=
  match strip_prefix (to_bytes p) (to_bytes s) with Some _ => true | None => false end.
Definition TrimPrefix (s p : string) : string :=
  match strip_prefix (to_bytes p) (to_bytes s) with Some r => of_bytes r | None => s end.

Lemma strip_prefix_Some p s r : strip_prefix p s = Some r ↔ s = p ++ r.
Proof.
  revert s. induction p as [|a p IH]; intros s; simpl; [naive_solver|].
  destruct s as [|b s]; [naive_solver|]. case_decide; naive_solver.
Qed.

Lemma HasPrefix_app p r : HasPrefix (p +:+ r) p = true.
Proof.
  unfold HasPrefix. rewrite to_bytes_app.
  by rewrite (proj2 (strip_prefix_Some _ _ _) eq_refl).
Qed.

Lemma TrimPrefix_app p r : TrimPrefix (p +:+ r) p = r.
Proof.
  unfold TrimPrefix. rewrite to_bytes_app.
  rewrite (proj2 (strip_prefix_Some _ _ _) eq_refl). apply of_to_bytes.
Qed.

Lemma HasPrefix_true s p : HasPrefix s p = true ↔ s = p +:+ TrimPrefix s p.
Proof.
  unfold HasPrefix, TrimPrefix. destruct (strip_prefix _ _) as [r|] eqn:E.
  - apply strip_prefix_Some in E. split; [intros _|done].
    apply (inj to_bytes). by rewrite to_bytes_app, to_of_bytes.
  - split; [done|]. intros Hs.
    enough (strip_prefix (to_bytes p) (to_bytes s) = Some (to_bytes s)) by congruence.
    apply strip_prefix_Some. by rewrite <- to_bytes_app, <- Hs.
Qed.

(** [strings.Cut] at a one-byte separator: what is before it and, if it
    occurs, what is after. *)
Fixpoint cut (sep : byte) (l : bytes) : bytes * option bytes :=
  match l with
  | [] => ([], None)
  | b :: l =>
      if decide (b = sep) then ([], Some l)
      else let '(x, y) := cut sep l in (b :: x, y)
  end.

Lemma cut_app sep l r : sep ∉ l → cut sep (l ++ sep :: r) = (l, Some r).
Proof.
  induction l as [|b l IH]; intros H; simpl.
  - by rewrite decide_True by done.
  - apply not_elem_of_cons in H as [? H]. rewrite decide_False by done.
    by rewrite IH.
Qed.

Lemma cut_prefix sep l r :
  sep ∉ l → cut sep (l ++ r) = (l ++ (cut sep r).1, (cut sep r).2).
Proof.
  induction l as [|b l IH]; intros H; simpl; [by destruct (cut sep r)|].
  apply not_elem_of_cons in H as [? H]. rewrite decide_False by done. by rewrite IH.
Qed.

Lemma cut_concat sep l :
  l = (cut sep l).1 ++ match (cut sep l).2 with Some r => sep :: r | None => [] end.
Proof.
  induction l as [|b l IH]; simpl; [done|]. case_decide; simpl; [by subst|].
  destruct (cut sep l) as [x y]; simpl in *. by f_equal.
Qed.

Lemma cut_none sep l : sep ∉ l → cut sep l = (l, None).
Proof.
  induction l as [|b l IH]; intros H; simpl; [done|].
  apply not_elem_of_cons in H as [? H]. rewrite decide_False by done. by rewrite IH.
Qed.

Lemma cut_fst_not_in sep l : sep ∉ (cut sep l).1.
Proof.
  induction l as [|b l IH]; simpl; [apply not_elem_of_nil|].
  case_decide; simpl; [apply not_elem_of_nil|].
  destruct (cut sep l); simpl in *. by apply not_elem_of_cons.
Qed.

(** [strings.Split] at a one-byte separator; never empty. *)
Fixpoint split (sep : byte) (l : bytes) : list bytes :=
  match l with
  | [] => [[]]
  | b :: l =>
      if decide (b = sep) then [] :: split sep l
      else match split sep l with
           | [] => [[b]]
           | x :: r => (b :: x) :: r
           end
  end.

(** ** Percent-encoding *)

Definition unhex (b : byte) : option Z :=
  let n := byte_Z b in
  if (48 <=? n) && (n <=? 57) then Some (n - 48)
  else if (97 <=? n) && (n <=? 102) then Some (n - 87)
  else if (65 <=? n) && (n <=? 70) then Some (n - 55)
  else None.

(** [url.PathUnescape], and [url.QueryUnescape] when [plus] is set. *)
Fixpoint unescape (plus : bool) (l : bytes) : option bytes :=
  match l with
  | [] => Some []
  | "%"%byte :: l =>
      match l with
      | h :: k :: l =>
          a ← unhex h; b ← unhex k; r ← unescape plus l; Some (Z_byte (a * 16 + b) :: r)
      | _ => None
      end
  | "+"%byte :: l =>
      r ← unescape plus l; Some ((if plus then " "%byte else "+"%byte) :: r)
  | b :: l => r ← unescape plus l; Some (b :: r)
  end.

(** Bytes that percent-decoding leaves alone. *)
Definition plain (b : byte) : bool :=
  negb (bool_decide (b ∈ ["%"; "+"; "&"; "="; ";"; "?"; "#"]%byte))
  && (32 <? byte_Z b) && (byte_Z b <? 127).

Lemma unescape_cons plus b l :
  b ≠ "%"%byte → b ≠ "+"%byte →
  unescape plus (b :: l) = (r ← unescape plus l; Some (b :: r)).
Proof. intros ??. destruct b; done. Qed.

Lemma plain_not_in b c :
  plain c = false → plain b = true → b ≠ c.
Proof. intros ?? ->. congruence. Qed.

Lemma plain_not_elem c l :
  plain c = false → Forall (λ b, plain b = true) l → c ∉ l.
Proof.
  intros Hc Hl Hin. rewrite Forall_forall in Hl. apply Hl in Hin. congruence.
Qed.

Lemma unescape_plain plus l :
  Forall (λ b, plain b = true) l → unescape plus l = Some l.
Proof.
  induction 1 as [|b l Hb Hl IH]; [done|].
  rewrite unescape_cons by (eapply plain_not_in; [|done]; vm_compute; reflexivity).
  by rewrite IH.
Qed.

(** ** Request targets *)

(** What [url.Parse] makes of the part of an absolute URL after the
    authority. *)
Record Target := { t_EscapedPath : bytes; t_RawQuery : bytes }.

Definition is_ctl (b : byte) : bool := (byte_Z b <? 32) || (byte_Z b =? 127).

(** [url.Parse] drops the fragment, refuses control bytes, splits at the first
    ['?'] and refuses a path with a malformed escape. *)
Definition parse_target (s : bytes) : option Target :=
  let '(u, _) := cut "#"%byte s in
  if existsb is_ctl u then None
  else
    let '(path, q) := cut "?"%byte u in
    _ ← unescape false path;
    Some {| t_EscapedPath := path; t_RawQuery := default [] q |}.

(** [r.URL.Path]. *)
Definition URL_Path (t : Target) : string :=
  of_bytes (default [] (unescape false (t_EscapedPath t))).

(** The path's segments as the multiplexer matches them: split at ['/'] first,
    decoded afterwards (left as they are when malformed). *)
Definition segments (t : Target) : list string :=
  match t_EscapedPath t with
  | "/"%byte :: p => (λ s, of_bytes (default s (unescape false s))) <$> split "/"%byte p
  | _ => []
  end.

(** One [key=value] pair of a query; [None] when [url.ParseQuery] skips it. *)
Definition query_pair (kv : bytes) : option (bytes * bytes) :=
  if bool_decide (";"%byte ∈ kv) || bool_decide (kv = []) then None
  else
    let '(k, v) := cut "="%byte kv in
    k ← unescape true k; v ← unescape true (default [] v); Some (k, v).

(** [r.URL.Query().Get(key)]. *)
Definition Query_Get (key : string) (t : Target) : string :=
  match filter (λ kv, kv.1 = to_bytes key) (omap query_pair (split "&"%byte (t_RawQuery t))) with
  | (_, v) :: _ => of_bytes v
  | [] => ""
  end.

Lemma split_none sep l : sep ∉ l → split sep l = [l].
Proof.
  induction l as [|b l IH]; intros H; [done|].
  apply not_elem_of_cons in H as [? H]. simpl. rewrite decide_False by done.
  by rewrite IH.
Qed.

(** ** Requests and responses *)

Record Request := {
  r_Method : string;
  r_URL : Target;
  r_Header : Header;
  (** [None] is a failing read. *)
  r_Body : option bytes
}.

Record Response := { StatusCode : Z; resp_Body : bytes }.

Definition StatusOK : Z := 200.
Definition StatusBadRequest : Z := 400.
Definition StatusUnauthorized : Z := 401.
Definition StatusNotFound : Z := 404.
Definition StatusInternalServerError : Z := 500.

(** The texts of the library errors that handlers wrap: of a base64 decoder and
    of [strconv.ParseInt] for the refused input, of a failed body read and of
    [json.Marshal]. *)
Class CauseText := {
  base64_cause : string → string;
  ParseInt_cause : string → string;
  read_cause : string;
  marshal_cause : string
}.
Definition no_cause : CauseText :=
  {| base64_cause _ := ""; ParseInt_cause _ := ""; read_cause := ""; marshal_cause := "" |}.

(** [http.Error]: the text and a newline. *)
Definition http_Error (msg : string) (code : Z) : Response :=
  {| StatusCode := code; resp_Body := to_bytes msg ++ [x0a] |}.

(** A query that holds one pair of plain strings reads back. *)
Lemma Query_Get_single k v path :
  Forall (λ b, plain b = true) (to_bytes k) → Forall (λ b, plain b = true) (to_bytes v) →
  Query_Get k {| t_EscapedPath := path; t_RawQuery := to_bytes k ++ "="%byte :: to_bytes v |} = v.
Proof.
  intros Hk Hv. unfold Query_Get. cbn [t_RawQuery].
  assert (∀ c, plain c = false → c ≠ "="%byte → c ∉ to_bytes k ++ "="%byte :: to_bytes v) as Hno.
  { intros c Hc ?. rewrite elem_of_app, elem_of_cons.
    intros [Hin|[Heq|Hin]]; [|done|]; revert Hin; by apply plain_not_elem. }
  rewrite split_none by (apply Hno; done). simpl omap. unfold query_pair.
  rewrite bool_decide_eq_false_2 by (apply Hno; done).
  rewrite bool_decide_eq_false_2 by (by destruct (to_bytes k)). simpl.
  rewrite cut_app by (eapply plain_not_elem; [|done]; done).
  simpl. rewrite !unescape_plain by done. simpl.
  rewrite filter_cons_True by done. apply of_to_bytes.
Qed.
