(* ===== verification/GoJson.v ===== *)
(** * What the sources rely on from [encoding/json]

    The coordinator and its client declare the messages twice, as structs with
    the same JSON tags.  [MarshalJSON A] writes a struct of type [A],
    [UnmarshalJSON B] reads one of type [B] ([Unmarshal] takes the whole
    input, [Decode] the first value of a stream), and [JSONCompat f ok] says
    that a value [a] with [ok a] written as an [A] is read back as [f a]:
    [encoding/json] matches fields by tag.  [ok] leaves out what JSON cannot
    carry, such as strings that are not UTF-8.  The instances are in [JsonWire]. *)

From S2P Require Import Prelude.

Class MarshalJSON (A : Type) := Marshal : A → option bytes.

Class UnmarshalJSON (B : Type) := {
  Unmarshal : bytes → option B;
  Decode : bytes → option B
}.

Class JSONCompat {A B} `{MarshalJSON A, UnmarshalJSON B} (f : A → B) (ok : A → Prop) := {
  compat_marshal a : ok a → is_Some (Marshal a);
  compat_unmarshal a b : ok a → Marshal a = Some b → Unmarshal b = Some (f a);
  compat_decode a b : ok a → Marshal a = Some b → Decode b = Some (f a)
}.

(** One message, written as a fixed text: enough to inhabit the classes. *)
Definition one_marshal {A} (b : bytes) : MarshalJSON A := λ _, Some b.
Definition one_unmarshal {B} (b : bytes) (v : B) : UnmarshalJSON B :=
  let rd x := if decide (x = b) then Some v else None in
  {| Unmarshal := rd; Decode := rd |}.

Lemma one_compat {A B} (b : bytes) (v : B) (f : A → B) :
  @JSONCompat A B (one_marshal b) (one_unmarshal b v) f (λ a, f a = v).
Proof.
  split; unfold Marshal, one_marshal; simpl.
  - intros a _. eauto.
  - intros a b' Ha [= <-]. rewrite decide_True by done. by rewrite Ha.
  - intros a b' Ha [= <-]. rewrite decide_True by done. by rewrite Ha.
Qed.
