(* ===== verification/Json.v ===== *)
(** * JSON text ([encoding/json])

    Values, the compact and the indented printer with Go's string escaping, and
    the parser with its UTF-8 repair, number grammar and nesting limit.  What a
    value of a struct type looks like as JSON is in [JsonWire]. *)

From S2P Require Import Prelude.
From S2P Require Import Encoding.

(** Numbers are kept as their literal, strings as the bytes they denote; an
    object keeps the order and the repetitions of its keys. *)
Inductive json :=
| JNull
| JBool (b : bool)
| JNum (lit : bytes)
| JStr (s : bytes)
| JArr (l : list json)
| JObj (l : list (bytes * json)).

(** ** UTF-8 *)

Definition between (lo hi : Z) (b : byte) : bool := (lo <=? byte_Z b) && (byte_Z b <=? hi).
Definition is_cont (b : byte) : bool := between 0x80 0xbf b.

(** The length of the well-formed multi-byte sequence at the head, as
    [utf8.DecodeRune] accepts it. *)
Definition rune_len (l : bytes) : option nat :=
  match l with
  | b0 :: b1 :: l =>
      if between 0xc2 0xdf b0 then if is_cont b1 then Some 2%nat else None
      else if between 0xe0 0xef b0 then
        if between (if byte_Z b0 =? 0xe0 then 0xa0 else 0x80) (if byte_Z b0 =? 0xed then 0x9f else 0xbf) b1 then
          match l with b2 :: _ => if is_cont b2 then Some 3%nat else None | [] => None end
        else None
      else if between 0xf0 0xf4 b0 then
        if between (if byte_Z b0 =? 0xf0 then 0x90 else 0x80) (if byte_Z b0 =? 0xf4 then 0x8f else 0xbf) b1 then
          match l with
          | b2 :: b3 :: _ => if is_cont b2 && is_cont b3 then Some 4%nat else None
          | _ => None
          end
        else None
      else None
  | _ => None
  end.

(** [utf8.ValidString]; [m] bytes of a sequence are still to come. *)
Fixpoint valid_utf8 (m : nat) (l : bytes) : bool :=
  match l with
  | [] => (m =? 0)%nat
  | c :: l' =>
      match m with
      | S m => valid_utf8 m l'
      | O => if byte_Z c <? 0x80 then valid_utf8 0 l'
             else match rune_len l with Some n => valid_utf8 (n - 1) l' | None => false end
      end
  end.

(** [utf8.AppendRune]; surrogates and values above 0x10ffff become U+FFFD. *)
Definition encode_rune (r : Z) : bytes :=
  if r <? 0x80 then [Z_byte r]
  else if r <? 0x800 then [Z_byte (0xc0 + r / 64); Z_byte (0x80 + r mod 64)]
  else if ((0xd800 <=? r) && (r <? 0xe000)) || (0x10ffff <? r) then [xef; xbf; xbd]
  else if r <? 0x10000 then [Z_byte (0xe0 + r / 4096); Z_byte (0x80 + r / 64 mod 64); Z_byte (0x80 + r mod 64)]
  else [Z_byte (0xf0 + r / 262144); Z_byte (0x80 + r / 4096 mod 64); Z_byte (0x80 + r / 64 mod 64);
        Z_byte (0x80 + r mod 64)].

Definition RuneError : bytes := [xef; xbf; xbd].

(** ** Strings *)

Definition hex_digit (n : Z) : byte := Hex.digit n.

(** The escape of an ASCII byte, HTML-safe as [json.Marshal] does it. *)
Definition escape_ascii (c : byte) : bytes :=
  match c with
  | x22 => [x5c; x22]
  | x5c => [x5c; x5c]
  | x08 => [x5c; "b"%byte]
  | x0c => [x5c; "f"%byte]
  | x0a => [x5c; "n"%byte]
  | x0d => [x5c; "r"%byte]
  | x09 => [x5c; "t"%byte]
  | _ =>
      if (byte_Z c <? 0x20) || (byte_Z c =? 0x3c) || (byte_Z c =? 0x3e) || (byte_Z c =? 0x26) then
        [x5c; "u"%byte; "0"%byte; "0"%byte; hex_digit (byte_Z c / 16); hex_digit (byte_Z c mod 16)]
      else [c]
  end.

(** U+2028 and U+2029, which are escaped too. *)
Definition line_sep (l : bytes) : bool :=
  match l with
  | b0 :: b1 :: b2 :: _ => Byte.eqb b0 xe2 && Byte.eqb b1 x80 && (Byte.eqb b2 xa8 || Byte.eqb b2 xa9)
  | _ => false
  end.
Definition line_sep_escape (l : bytes) : bytes :=
  match l with
  | _ :: _ :: b2 :: _ => to_bytes (if Byte.eqb b2 xa8 then "\u2028" else "\u2029")
  | _ => []
  end.

(** [appendString] without the quotes; [m] bytes of a sequence are still to be
    copied, or skipped after a line separator. *)
Fixpoint escape (copy : bool) (m : nat) (l : bytes) : bytes :=
  match l with
  | [] => []
  | c :: l' =>
      match m with
      | S m => if copy then c :: escape copy m l' else escape copy m l'
      | O =>
          if byte_Z c <? 0x80 then escape_ascii c ++ escape true 0 l'
          else match rune_len l with
               | None => to_bytes "\ufffd" ++ escape true 0 l'
               | Some n =>
                   if line_sep l then line_sep_escape l ++ escape false (n - 1) l'
                   else c :: escape true (n - 1) l'
               end
      end
  end.

Definition quote (s : bytes) : bytes := x22 :: escape true 0 s ++ [x22].

Definition hex_val (b : byte) : option Z :=
  if between 0x30 0x39 b then Some (byte_Z b - 0x30)
  else if between 0x61 0x66 b then Some (byte_Z b - 0x61 + 10)
  else if between 0x41 0x46 b then Some (byte_Z b - 0x41 + 10)
  else None.
Definition hex4 (a b c d : byte) : option Z :=
  a ← hex_val a; b ← hex_val b; c ← hex_val c; d ← hex_val d;
  Some (((a * 16 + b) * 16 + c) * 16 + d).

Definition simple_escape (c : byte) : option byte :=
  match c with
  | x22 => Some x22
  | x5c => Some x5c
  | x2f => Some x2f
  | "b"%byte => Some x08
  | "f"%byte => Some x0c
  | "n"%byte => Some x0a
  | "r"%byte => Some x0d
  | "t"%byte => Some x09
  | _ => None
  end.

Definition prepend (b : bytes) (r : option (bytes * bytes)) : option (bytes * bytes) :=
  match r with Some (s, rest) => Some (b ++ s, rest) | None => None end.

(** The string after its opening quote, and the input behind it; [m] bytes of
    a sequence are copied. *)
Fixpoint unquote (m : nat) (l : bytes) : option (bytes * bytes) :=
  match l with
  | [] => None
  | c :: l' =>
      match m with
      | S m => prepend [c] (unquote m l')
      | O =>
          if Byte.eqb c x22 then Some ([], l')
          else if Byte.eqb c x5c then
            match l' with
            | [] => None
            | e :: l1 =>
                if Byte.eqb e "u"%byte then
                  match l1 with
                  | h1 :: h2 :: h3 :: h4 :: l2 =>
                      match hex4 h1 h2 h3 h4 with
                      | None => None
                      | Some r =>
                          if (0xd800 <=? r) && (r <? 0xe000) then
                            match l2 with
                            | s :: u :: g1 :: g2 :: g3 :: g4 :: l3 =>
                                let r2 := if Byte.eqb s x5c && Byte.eqb u "u"%byte
                                          then default 0 (hex4 g1 g2 g3 g4) else 0 in
                                if (r <? 0xdc00) && (0xdc00 <=? r2) && (r2 <? 0xe000) then
                                  prepend (encode_rune (0x10000 + (r - 0xd800) * 1024 + (r2 - 0xdc00)))
                                    (unquote 0 l3)
                                else prepend RuneError (unquote 0 l2)
                            | _ => prepend RuneError (unquote 0 l2)
                            end
                          else prepend (encode_rune r) (unquote 0 l2)
                      end
                  | _ => None
                  end
                else match simple_escape e with
                     | Some b => prepend [b] (unquote 0 l1)
                     | None => None
                     end
            end
          else if byte_Z c <? 0x20 then None
          else if byte_Z c <? 0x80 then prepend [c] (unquote 0 l')
          else match rune_len l with
               | Some n => prepend [c] (unquote (n - 1) l')
               | None => prepend RuneError (unquote 0 l')
               end
      end
  end.

(** ** Round trip of strings *)

Lemma byte_high_eqb c (b : byte) : byte_Z c <? 0x80 = false → byte_Z b <? 0x80 = true → Byte.eqb c b = false.
Proof. intros Hc Hb. destruct (Byte.eqb c b) eqn:E; [|done]. apply Byte.byte_dec_bl in E as ->. congruence. Qed.

Lemma unquote_ascii c l : byte_Z c <? 0x80 = true →
  unquote 0 (escape_ascii c ++ l) = prepend [c] (unquote 0 l).
Proof. destruct c; intros Hc; first [discriminate Hc|reflexivity]. Qed.

Lemma unquote_high c l n : byte_Z c <? 0x80 = false → rune_len (c :: l) = Some n →
  unquote 0 (c :: l) = prepend [c] (unquote (n - 1) l).
Proof.
  intros Hc Hr. cbn [unquote]. rewrite !byte_high_eqb, Hc, Hr by done.
  by replace (byte_Z c <? 0x20) with false by (symmetry; apply Z.ltb_ge in Hc; apply Z.ltb_ge; lia).
Qed.

Lemma prepend_prepend a b r : prepend a (prepend b r) = prepend (a ++ b) r.
Proof. destruct r as [[s rest]|]; [|done]. simpl. by rewrite app_assoc. Qed.

(** A sequence is recognised by its own bytes. *)
Lemma rune_len_inv l n : rune_len l = Some n →
  ∃ pre, length pre = n ∧ l = pre ++ drop n l ∧ (2 ≤ n ≤ 4)%nat ∧ ∀ x, rune_len (pre ++ x) = Some n.
Proof.
  intros Hr. destruct l as [|b0 [|b1 l]]; [done..|]. unfold rune_len in Hr.
  destruct (between 0xc2 0xdf b0) eqn:E1.
  { destruct (is_cont b1) eqn:E2; [|done]. injection Hr as <-. exists [b0; b1]. split_and!; try done; [lia..|].
    intros x. simpl. by rewrite E1, E2. }
  destruct (between 0xe0 0xef b0) eqn:E3.
  { destruct (between _ _ b1) eqn:E4; [|done]. destruct l as [|b2 l]; [done|].
    destruct (is_cont b2) eqn:E5; [|done]. injection Hr as <-. exists [b0; b1; b2].
    split_and!; try done; [lia..|]. intros x. simpl. by rewrite E1, E3, E4, E5. }
  destruct (between 0xf0 0xf4 b0) eqn:E6; [|done]. destruct (between _ _ b1) eqn:E4; [|done].
  destruct l as [|b2 [|b3 l]]; [done..|]. destruct (is_cont b2 && is_cont b3) eqn:E5; [|done].
  injection Hr as <-. exists [b0; b1; b2; b3]. split_and!; try done; [lia..|].
  intros x. simpl. by rewrite E1, E3, E6, E4, E5.
Qed.

Lemma escape_copy p l : escape true (length p) (p ++ l) = p ++ escape true 0 l.
Proof. induction p as [|c p IH]; [done|]. simpl. by rewrite IH. Qed.
Lemma escape_skip p l : escape false (length p) (p ++ l) = escape false 0 l.
Proof. induction p as [|c p IH]; [done|]. simpl. by rewrite IH. Qed.
Lemma escape_mode l : escape false 0 l = escape true 0 l.
Proof. by destruct l. Qed.
Lemma unquote_copy p l : unquote (length p) (p ++ l) = prepend p (unquote 0 l).
Proof.
  induction p as [|c p IH]; cbn [length app]; [by destruct (unquote 0 l) as [[]|]|].
  cbn [unquote]. by rewrite IH, prepend_prepend.
Qed.
Lemma valid_utf8_copy p l : valid_utf8 (length p) (p ++ l) = valid_utf8 0 l.
Proof. induction p as [|c p IH]; [done|]. done. Qed.

(** The text of a line separator denotes it. *)
Lemma line_sep_inv l : line_sep l = true →
  ∃ b l', l = [xe2; x80; b] ++ l' ∧ rune_len l = Some 3%nat ∧
    ∀ x, unquote 0 (line_sep_escape l ++ x) = prepend [xe2; x80; b] (unquote 0 x).
Proof.
  destruct l as [|b0 [|b1 [|b2 l]]]; try done. simpl. intros Hl.
  apply andb_true_iff in Hl as [[H0 H1]%andb_true_iff [H2|H2]%orb_true_iff];
    apply Byte.byte_dec_bl in H0 as ->, H1 as ->, H2 as ->; eexists _, l; split_and!; reflexivity.
Qed.

(** One step of both loops over a valid string. *)
Lemma quote_step c l : valid_utf8 0 (c :: l) = true →
  ∃ pre suf, c :: l = pre ++ suf ∧ pre ≠ [] ∧ valid_utf8 0 suf = true ∧
    ∀ x, unquote 0 (escape true 0 (c :: l) ++ x) = prepend pre (unquote 0 (escape true 0 suf ++ x)).
Proof.
  cbn [valid_utf8 escape]. destruct (byte_Z c <? 0x80) eqn:Hc.
  { intros Hv. exists [c], l. split_and!; try done. intros x. rewrite <- app_assoc. by apply unquote_ascii. }
  destruct (rune_len (c :: l)) as [n|] eqn:Hr; [|done]. intros Hv.
  destruct (line_sep (c :: l)) eqn:Hls.
  - destruct (line_sep_inv _ Hls) as (b & l' & E & Hr' & Hq). rewrite Hr in Hr'. injection Hr' as ->.
    exists [xe2; x80; b], l'. injection E as -> ->. split_and!; [done|done|exact Hv|].
    intros x. rewrite <- app_assoc, Hq. f_equal. f_equal. f_equal. rewrite <- escape_mode.
    apply (escape_skip [x80; b] l').
  - destruct (rune_len_inv _ _ Hr) as ([|c' p] & Hn & E & Hb & Hx); [simpl in Hn; lia|].
    injection E as <- E. simpl in Hn. assert (n - 1 = length p)%nat as Hp by lia.
    set (suf := drop n (c :: l)) in *. clearbody suf. subst l. rewrite Hp in *. rewrite valid_utf8_copy in Hv.
    exists (c :: p), suf. split_and!; try done. intros x. rewrite escape_copy.
    change ((c :: p ++ escape true 0 suf) ++ x) with (c :: (p ++ escape true 0 suf) ++ x). rewrite <- app_assoc.
    rewrite (unquote_high c _ n Hc (Hx _)), Hp, unquote_copy. by rewrite prepend_prepend.
Qed.

Lemma unquote_escape s x : valid_utf8 0 s = true → unquote 0 (escape true 0 s ++ x22 :: x) = Some (s, x).
Proof.
  induction s as [[|c s] IH] using (induction_ltof1 _ length); unfold ltof in IH; intros Hv; [done|].
  destruct (quote_step c s Hv) as (pre & suf & E & Hne & Hs & Hq). rewrite Hq, IH; [|rewrite E, length_app|done].
  - simpl. by rewrite E.
  - destruct pre; [done|]. simpl. lia.
Qed.

(** ** Numbers *)

Fixpoint digits (l : bytes) : bytes * bytes :=
  match l with
  | c :: l' => if Decimal.is_digit c then let '(d, r) := digits l' in (c :: d, r) else ([], l)
  | [] => ([], [])
  end.

(** At least one digit. *)
Definition digits1 (l : bytes) : option (bytes * bytes) :=
  match digits l with ([], _) => None | dr => Some dr end.

Definition scan_sign (l : bytes) : bytes * bytes :=
  match l with c :: l' => if Byte.eqb c "-"%byte then ([c], l') else ([], l) | [] => ([], []) end.
Definition scan_int (l : bytes) : option (bytes * bytes) :=
  match l with
  | c :: l' => if Byte.eqb c "0"%byte then Some ([c], l') else digits1 l
  | [] => None
  end.
Definition scan_frac (l : bytes) : option (bytes * bytes) :=
  match l with
  | c :: l' => if Byte.eqb c "."%byte then prepend [c] (digits1 l') else Some ([], l)
  | [] => Some ([], [])
  end.
Definition scan_exp (l : bytes) : option (bytes * bytes) :=
  match l with
  | c :: l' =>
      if Byte.eqb c "e"%byte || Byte.eqb c "E"%byte then
        match l' with
        | s :: l'' => if Byte.eqb s "+"%byte || Byte.eqb s "-"%byte then prepend [c; s] (digits1 l'')
                      else prepend [c] (digits1 l')
        | [] => None
        end
      else Some ([], l)
  | [] => Some ([], [])
  end.

(** The number literal at the head of the input. *)
Definition scan_number (l : bytes) : option (bytes * bytes) :=
  let '(sg, l) := scan_sign l in
  '(i, l) ← scan_int l;
  '(f, l) ← scan_frac l;
  '(e, l) ← scan_exp l;
  Some (sg ++ i ++ f ++ e, l).

(** What cannot continue a number. *)
Definition num_stop (x : bytes) : bool :=
  match x with
  | c :: _ => negb (Decimal.is_digit c || Byte.eqb c "."%byte || Byte.eqb c "e"%byte || Byte.eqb c "E"%byte)
  | [] => true
  end.

Lemma digits_app l d r x : digits l = (d, r) → (r = [] → num_stop x = true) → digits (l ++ x) = (d, r ++ x).
Proof.
  revert d r. induction l as [|c l IH]; intros d r; simpl.
  - intros [= <- <-] Hx. specialize (Hx eq_refl). destruct x as [|c x]; [done|]. simpl in *. bool_to_prop.
    by destruct (Decimal.is_digit c).
  - destruct (Decimal.is_digit c); [|by intros [= <- <-]].
    destruct (digits l) as [d' r'] eqn:E. intros [= <- <-] Hx. by rewrite (IH d' r').
Qed.

Lemma digits1_app l d r x : digits1 l = Some (d, r) → (r = [] → num_stop x = true) → digits1 (l ++ x) = Some (d, r ++ x).
Proof.
  unfold digits1. destruct (digits l) as [d' r'] eqn:E. destruct d' as [|c d']; [done|]. intros [= <- <-] Hx.
  by rewrite (digits_app _ _ _ _ E Hx).
Qed.

Lemma scan_number_app lit x : scan_number lit = Some (lit, []) → num_stop x = true →
  scan_number (lit ++ x) = Some (lit, x).
Proof.
  intros Hl Hx. unfold scan_number in *.
  assert (∀ l, l ≠ [] → scan_sign (l ++ x) = ((scan_sign l).1, (scan_sign l).2 ++ x)) as Hsg.
  { intros [|c l]; [done|]. simpl. by destruct (Byte.eqb c "-"%byte). }
  destruct (decide (lit = [])) as [->|Hne]; [done|]. rewrite (Hsg lit Hne).
  destruct (scan_sign lit) as [sg l]. simpl in *.
  apply bind_Some in Hl as ([i l1] & Hi & Hl). apply bind_Some in Hl as ([f l2] & Hf & Hl).
  apply bind_Some in Hl as ([e l3] & He & Hl). injection Hl as Hlit ->.
  assert (∀ y, scan_int (l ++ y) = Some (i, l1 ++ y) ∨ (l1 = [] ∧ num_stop y = false)) as Hi'.
  { intros y. destruct l as [|c l]; [done|]. simpl in *. case_match.
    - injection Hi as <- <-. by left.
    - destruct (decide (l1 = [] ∧ num_stop y = false)) as [?|Hn]; [by right|left].
      apply (digits1_app (c :: l)); [done|]. intros ->. destruct (num_stop y); naive_solver. }
  destruct (Hi' x) as [-> |[_ ?]]; [|congruence]. simpl.
  assert (scan_frac (l1 ++ x) = Some (f, l2 ++ x)) as ->.
  { destruct l1 as [|c l1]; simpl in *.
    - injection Hf as <- <-. destruct x as [|c x]; [done|]. simpl in *. bool_to_prop.
      by destruct (Byte.eqb c "."%byte).
    - case_match; [|by injection Hf as <- <-]. unfold prepend in *.
      destruct (digits1 l1) as [[d r]|] eqn:E; [|done]. injection Hf as <- <-.
      by rewrite (digits1_app _ _ _ x E). }
  simpl. assert (scan_exp (l2 ++ x) = Some (e, x)) as ->; [|by rewrite <- Hlit].
  destruct l2 as [|c l2]; simpl in *.
  - injection He as <-. destruct x as [|c x]; [done|]. simpl in *. bool_to_prop.
    by destruct (Byte.eqb c "e"%byte), (Byte.eqb c "E"%byte).
  - destruct (_ || _); [|done]. destruct l2 as [|s l2]; [done|]. simpl. destruct (_ || _).
    + destruct (digits1 l2) as [[d r]|] eqn:E; [|done]. injection He as <- ->.
      by rewrite (digits1_app _ _ _ x E).
    + destruct (digits1 (s :: l2)) as [[d r]|] eqn:E; [|done]. injection He as <- ->.
      pose proof (digits1_app _ _ _ x E) as E'. simpl in E'. by rewrite E'.
Qed.

(** ** Values *)

Fixpoint spaces (n : nat) : bytes := match n with O => [] | S n => x20 :: spaces n end.

(** The layout: compact ([json.Marshal]), or indented by two spaces per level
    ([json.MarshalIndent] and [Encoder.SetIndent], the value being at level
    [n]). *)
Definition sep_pre (ind : option nat) : bytes :=
  match ind with None => [] | Some n => x0a :: spaces (2 * S n) end.
Definition sep_post (ind : option nat) : bytes :=
  match ind with None => [] | Some n => x0a :: spaces (2 * n) end.
Definition colon (ind : option nat) : bytes := match ind with None => [":"%byte] | Some _ => [":"%byte; x20] end.

(** What follows the first element of an array or object. *)
Definition tail_text (ind : option nat) (cl : byte) (l : list bytes) : bytes :=
  concat (map (λ b, ","%byte :: sep_pre ind ++ b) l) ++ sep_post ind ++ [cl].

Definition block (ind : option nat) (op cl : byte) (l : list bytes) : bytes :=
  match l with
  | [] => [op; cl]
  | a :: l => op :: sep_pre ind ++ a ++ tail_text ind cl l
  end.

Fixpoint print_at (ind : option nat) (v : json) : bytes :=
  match v with
  | JNull => to_bytes "null"
  | JBool b => to_bytes (if b then "true" else "false")
  | JNum lit => lit
  | JStr s => quote s
  | JArr l => block ind "["%byte "]"%byte (map (print_at (S <$> ind)) l)
  | JObj l => block ind "{"%byte "}"%byte (map (λ kv, quote kv.1 ++ colon ind ++ print_at (S <$> ind) kv.2) l)
  end.

Definition print : json → bytes := print_at None.
Definition print_indent (n : nat) : json → bytes := print_at (Some n).

Definition is_ws (c : byte) : bool :=
  Byte.eqb c x20 || Byte.eqb c x09 || Byte.eqb c x0a || Byte.eqb c x0d.
Fixpoint skip_ws (l : bytes) : bytes :=
  match l with c :: l' => if is_ws c then skip_ws l' else l | [] => [] end.

Fixpoint expect (p l : bytes) : option bytes :=
  match p, l with
  | [], _ => Some l
  | a :: p, b :: l => if Byte.eqb a b then expect p l else None
  | _, [] => None
  end.

Definition maxNestingDepth : Z := 10000.

(** The value at the head of the input.  Every call of the three functions
    uses one unit of fuel. *)
Fixpoint parse_value (fuel : nat) (depth : Z) (l : bytes) : option (json * bytes) :=
  match fuel with
  | O => None
  | S fuel =>
      match skip_ws l with
      | [] => None
      | c :: l =>
          if Byte.eqb c x22 then '(s, r) ← unquote 0 l; Some (JStr s, r)
          else if Byte.eqb c "["%byte then
            if maxNestingDepth <? depth + 1 then None
            else match expect ["]"%byte] (skip_ws l) with
                 | Some r => Some (JArr [], r)
                 | None => '(vs, r) ← parse_elems fuel (depth + 1) l; Some (JArr vs, r)
                 end
          else if Byte.eqb c "{"%byte then
            if maxNestingDepth <? depth + 1 then None
            else match expect ["}"%byte] (skip_ws l) with
                 | Some r => Some (JObj [], r)
                 | None => '(kvs, r) ← parse_members fuel (depth + 1) l; Some (JObj kvs, r)
                 end
          else if Byte.eqb c "t"%byte then r ← expect (to_bytes "rue") l; Some (JBool true, r)
          else if Byte.eqb c "f"%byte then r ← expect (to_bytes "alse") l; Some (JBool false, r)
          else if Byte.eqb c "n"%byte then r ← expect (to_bytes "ull") l; Some (JNull, r)
          else '(lit, r) ← scan_number (c :: l); Some (JNum lit, r)
      end
  end
with parse_elems (fuel : nat) (depth : Z) (l : bytes) : option (list json * bytes) :=
  match fuel with
  | O => None
  | S fuel =>
      '(v, r) ← parse_value fuel depth l;
      match skip_ws r with
      | c :: r =>
          if Byte.eqb c ","%byte then '(vs, r) ← parse_elems fuel depth r; Some (v :: vs, r)
          else if Byte.eqb c "]"%byte then Some ([v], r) else None
      | [] => None
      end
  end
with parse_members (fuel : nat) (depth : Z) (l : bytes) : option (list (bytes * json) * bytes) :=
  match fuel with
  | O => None
  | S fuel =>
      r ← expect [x22] (skip_ws l);
      '(k, r) ← unquote 0 r;
      r ← expect [":"%byte] (skip_ws r);
      '(v, r) ← parse_value fuel depth r;
      match skip_ws r with
      | c :: r =>
          if Byte.eqb c ","%byte then '(kvs, r) ← parse_members fuel depth r; Some ((k, v) :: kvs, r)
          else if Byte.eqb c "}"%byte then Some ([(k, v)], r) else None
      | [] => None
      end
  end.

(** The first value of a stream, and an input that is one value. *)
Definition decode_value (l : bytes) : option json := fst <$> parse_value (S (length l)) 0 l.
Definition unmarshal_value (l : bytes) : option json :=
  '(v, r) ← parse_value (S (length l)) 0 l;
  match skip_ws r with [] => Some v | _ => None end.

(** *** The fuel is enough

    [eats l r]: [r] is what is left of [l], of which something was consumed. *)

Definition eats (l r : bytes) : Prop := (length r < length l)%nat.

Lemma skip_ws_length l : (length (skip_ws l) ≤ length l)%nat.
Proof. induction l as [|c l IH]; simpl; [done|]. case_match; simpl; lia. Qed.

Lemma expect_length p l r : expect p l = Some r → length l = (length p + length r)%nat.
Proof.
  revert l. induction p as [|a p IH]; intros [|b l] He; simpl in *; simplify_eq; try done.
  case_match; [|done]. by rewrite (IH l).
Qed.

Lemma digits_length l : (length (digits l).2 ≤ length l)%nat.
Proof. induction l as [|c l IH]; simpl; [done|]. repeat case_match; simplify_eq/=; lia. Qed.

Lemma digits1_length l d r : digits1 l = Some (d, r) → eats l r.
Proof.
  unfold digits1, eats. destruct l as [|c l]; simpl; [done|]. pose proof (digits_length l).
  repeat case_match; intros; simplify_eq/=; lia.
Qed.

Lemma scan_number_length l d r : scan_number l = Some (d, r) → eats l r.
Proof.
  unfold scan_number, eats. destruct (scan_sign l) as [sg l1] eqn:Hs. intros H.
  assert (length l1 ≤ length l)%nat by (unfold scan_sign in Hs; repeat case_match; simplify_eq/=; lia).
  apply bind_Some in H as ([i l2] & Hi & H). apply bind_Some in H as ([f l3] & Hf & H).
  apply bind_Some in H as ([e l4] & He & H). simplify_eq.
  assert (length l2 < length l1)%nat.
  { unfold scan_int in Hi. repeat case_match; simplify_eq/=; [lia|]. by apply digits1_length in Hi. }
  assert (length l3 ≤ length l2)%nat.
  { unfold scan_frac, prepend in Hf. repeat case_match; simplify_eq/=; try lia.
    match goal with Hd : digits1 _ = _ |- _ => apply digits1_length in Hd end. unfold eats in *. lia. }
  assert (length r ≤ length l3)%nat; [|lia].
  unfold scan_exp, prepend in He. repeat case_match; simplify_eq/=; try lia.
  all: match goal with Hd : digits1 _ = _ |- _ => apply digits1_length in Hd end; unfold eats in *; simpl in *; lia.
Qed.

Lemma prepend_Some b o s r : prepend b o = Some (s, r) → ∃ s', o = Some (s', r).
Proof. destruct o as [[s' r']|]; simpl; naive_solver. Qed.

Lemma unquote_length m l s r : unquote m l = Some (s, r) → eats l r.
Proof.
  unfold eats. remember (length l) as n eqn:En. revert l m s En.
  induction n as [n IH] using lt_wf_ind. intros l m s -> H.
  assert (∀ l' m' s', (length l' < length l)%nat → unquote m' l' = Some (s', r) → (length r < length l)%nat) as IH'.
  { intros l' m' s' Hl H'. pose proof (IH _ Hl l' m' s' eq_refl H'). lia. }
  clear IH. destruct l as [|c l]; [done|]. cbn [unquote] in H.
  repeat (case_match; try discriminate H);
    first [apply prepend_Some in H as [s' H]; eapply IH'; [|exact H]; subst; cbn [length]; lia
          |injection H as _ <-; cbn [length]; lia].
Qed.

(** A value that some fuel reads needs no more fuel than the bytes it takes. *)
Definition fuel_ok {A} (parse : nat → Z → bytes → option (A * bytes)) (fuel : nat) : Prop :=
  ∀ depth l v r, parse fuel depth l = Some (v, r) → eats l r ∧
    ∀ fuel', (length l - length r ≤ fuel')%nat → parse fuel' depth l = Some (v, r).

Ltac eaten := unfold eats in *; simpl in *; lia.

(** With no fuel nothing is read, so the fuel is a successor. *)
Lemma fuel_ok_S {A} (parse : nat → Z → bytes → option (A * bytes)) depth l v r :
  eats l r → (∀ fuel', (length l - length r ≤ S fuel')%nat → parse (S fuel') depth l = Some (v, r)) →
  eats l r ∧ ∀ fuel', (length l - length r ≤ fuel')%nat → parse fuel' depth l = Some (v, r).
Proof. intros He Hf. split; [done|]. intros [|fuel'] Hle; [eaten|]. by apply Hf. Qed.

Lemma parse_value_fuel fuel :
  fuel_ok parse_elems fuel → fuel_ok parse_members fuel → fuel_ok parse_value (S fuel).
Proof.
  intros He Hm depth l v r H. pose proof (skip_ws_length l) as Hw. cbn [parse_value] in H.
  destruct (skip_ws l) as [|c l'] eqn:Hs; [done|]. simpl in Hw.
  cut (eats (c :: l') r ∧ ∀ fuel', (length l - length r ≤ S fuel')%nat → parse_value (S fuel') depth l = Some (v, r)).
  { intros [? ?]. apply fuel_ok_S; [eaten|done]. }
  cbn [parse_value]. rewrite Hs.
  destruct (Byte.eqb c x22).
  { apply bind_Some in H as ([s r'] & Hu & H). simplify_eq. rewrite Hu. apply unquote_length in Hu. split; [eaten|done]. }
  destruct (Byte.eqb c "["%byte).
  { destruct (_ <? _); [done|]. pose proof (skip_ws_length l'). destruct (expect _ (skip_ws l')) eqn:Hx.
    - simplify_eq. apply expect_length in Hx. split; [eaten|done].
    - apply bind_Some in H as ([vs r'] & Hv & H). simplify_eq. apply He in Hv as [Hr Hf]. split; [eaten|].
      intros fuel' Hle. by rewrite Hf by eaten. }
  destruct (Byte.eqb c "{"%byte).
  { destruct (_ <? _); [done|]. pose proof (skip_ws_length l'). destruct (expect _ (skip_ws l')) eqn:Hx.
    - simplify_eq. apply expect_length in Hx. split; [eaten|done].
    - apply bind_Some in H as ([vs r'] & Hv & H). simplify_eq. apply Hm in Hv as [Hr Hf]. split; [eaten|].
      intros fuel' Hle. by rewrite Hf by eaten. }
  repeat (case_match; [apply bind_Some in H as (r' & Hx & H); simplify_eq; rewrite Hx; apply expect_length in Hx; split; [eaten|done]|]).
  apply bind_Some in H as ([lit r'] & Hn & H). simplify_eq. rewrite Hn. apply scan_number_length in Hn. split; [eaten|done].
Qed.

(** What follows a value inside brackets: the rest of the list, or its end. *)
Lemma parse_elems_fuel fuel :
  fuel_ok parse_value fuel → fuel_ok parse_elems fuel → fuel_ok parse_elems (S fuel).
Proof.
  intros Hv He depth l vs r H. cbn [parse_elems] in H. apply bind_Some in H as ([v r1] & Hp & H).
  apply Hv in Hp as [Hr1 Hf1]. pose proof (skip_ws_length r1) as Hw.
  destruct (skip_ws r1) as [|c r2] eqn:Hs; [done|]. destruct (Byte.eqb c ","%byte) eqn:Hc.
  - apply bind_Some in H as ([vs' r3] & Hp & H). simplify_eq. apply He in Hp as [Hr2 Hf2].
    apply fuel_ok_S; [eaten|]. intros fuel' Hle. cbn [parse_elems].
    rewrite Hf1 by eaten. cbn. rewrite Hs, Hc. by rewrite Hf2 by eaten.
  - destruct (Byte.eqb c "]"%byte) eqn:Hd; simplify_eq. apply fuel_ok_S; [eaten|]. intros fuel' Hle.
    cbn [parse_elems]. rewrite Hf1 by eaten. cbn. by rewrite Hs, Hc, Hd.
Qed.

Lemma parse_members_fuel fuel :
  fuel_ok parse_value fuel → fuel_ok parse_members fuel → fuel_ok parse_members (S fuel).
Proof.
  intros Hv He depth l vs r H. cbn [parse_members] in H.
  apply bind_Some in H as (l1 & H1 & H). apply bind_Some in H as ([k l2] & H2 & H).
  apply bind_Some in H as (l3 & H3 & H). apply bind_Some in H as ([v r1] & Hp & H).
  pose proof (skip_ws_length l). pose proof (skip_ws_length l2).
  pose proof (expect_length _ _ _ H1). pose proof (unquote_length _ _ _ _ H2). pose proof (expect_length _ _ _ H3).
  apply Hv in Hp as [Hr1 Hf1]. pose proof (skip_ws_length r1) as Hw.
  destruct (skip_ws r1) as [|c r2] eqn:Hs; [done|].
  assert (∀ fuel', (length l - length r2 ≤ S fuel')%nat → parse_members (S fuel') depth l =
    if Byte.eqb c ","%byte then '(kvs, r) ← parse_members fuel' depth r2; Some ((k, v) :: kvs, r)
    else if Byte.eqb c "}"%byte then Some ([(k, v)], r2) else None) as Hstep.
  { intros fuel' Hle. cbn [parse_members]. rewrite H1. cbn [mbind option_bind]. rewrite H2. cbn [mbind option_bind].
    rewrite H3. cbn [mbind option_bind]. rewrite Hf1 by eaten. cbn [mbind option_bind]. by rewrite Hs. }
  destruct (Byte.eqb c ","%byte).
  - apply bind_Some in H as ([vs' r3] & Hp & H). simplify_eq. apply He in Hp as [Hr2 Hf2].
    apply fuel_ok_S; [eaten|]. intros fuel' Hle. rewrite Hstep by eaten. by rewrite Hf2 by eaten.
  - destruct (Byte.eqb c "}"%byte); simplify_eq. apply fuel_ok_S; [eaten|]. intros fuel' Hle.
    by rewrite Hstep by eaten.
Qed.

Lemma parse_fuel fuel : fuel_ok parse_value fuel ∧ fuel_ok parse_elems fuel ∧ fuel_ok parse_members fuel.
Proof.
  induction fuel as [|fuel (IH1 & IH2 & IH3)]; [split_and!; intros ????; done|].
  split_and!; [by apply parse_value_fuel|by apply parse_elems_fuel|by apply parse_members_fuel].
Qed.

(** No text is refused for want of fuel: what [decode_value] does not read, no
    fuel reads. *)
Lemma decode_value_fuel l v r fuel : parse_value fuel 0 l = Some (v, r) → decode_value l = Some v.
Proof.
  intros H. apply (proj1 (parse_fuel fuel)) in H as [_ Hf]. unfold decode_value. by rewrite Hf by lia.
Qed.

(** ** Round trip of values *)

(** Induction over the elements of arrays and objects. *)
Lemma json_ind' (P : json → Prop) :
  P JNull → (∀ b, P (JBool b)) → (∀ lit, P (JNum lit)) → (∀ s, P (JStr s)) →
  (∀ l, Forall P l → P (JArr l)) → (∀ l, Forall (λ kv, P kv.2) l → P (JObj l)) → ∀ v, P v.
Proof.
  intros H1 H2 H3 H4 H5 H6. fix IH 1.
  intros [|b|lit|s|l|l]; [apply H1|apply H2|apply H3|apply H4|apply H5|apply H6].
  - induction l as [|v l IHl]; constructor; [apply IH|apply IHl].
  - induction l as [|[k v] l IHl]; constructor; [apply IH|apply IHl].
Qed.

(** Values that text can carry: valid strings and number literals. *)
Fixpoint wf_json (v : json) : bool :=
  match v with
  | JNull | JBool _ => true
  | JNum lit => bool_decide (scan_number lit = Some (lit, []))
  | JStr s => valid_utf8 0 s
  | JArr l => forallb wf_json l
  | JObj l => forallb (λ kv, valid_utf8 0 kv.1 && wf_json kv.2) l
  end.

Fixpoint jdepth (v : json) : Z :=
  match v with
  | JArr l => 1 + foldr Z.max 0 (map jdepth l)
  | JObj l => 1 + foldr Z.max 0 (map (λ kv, jdepth kv.2) l)
  | _ => 0
  end.

(** Fuel that is enough to read the text of a value. *)
Fixpoint need (v : json) : nat :=
  match v with
  | JArr l => S (foldr (λ v n, S (need v + n)) 0%nat l)
  | JObj l => S (foldr (λ kv n, S (need kv.2 + n)) 0%nat l)
  | _ => 1%nat
  end.

(** A separator or the end follows. *)
Definition value_end (x : bytes) : Prop :=
  x = [] ∨ ∃ c x', x = c :: x' ∧ c ∈ [","%byte; "]"%byte; "}"%byte; x0a].

Lemma value_end_stop x : value_end x → num_stop x = true.
Proof.
  intros [->|(c & x' & -> & Hc)]; [done|].
  repeat (apply elem_of_cons in Hc as [->|Hc]; [done|]). by apply elem_of_nil in Hc.
Qed.

Definition reads_back (ind : option nat) (v : json) : Prop := ∀ fuel depth x,
  (need v ≤ fuel)%nat → depth + jdepth v ≤ maxNestingDepth → value_end x →
  parse_value fuel depth (print_at ind v ++ x) = Some (v, x).

Lemma reads_back_num ind lit : scan_number lit = Some (lit, []) → reads_back ind (JNum lit).
Proof.
  intros Hl [|fuel] depth x Hf _ Hx; [simpl in Hf; lia|]. apply value_end_stop in Hx.
  pose proof (scan_number_app lit x Hl Hx) as Hs. cbn [print_at].
  destruct lit as [|c lit]; [done|].
  assert (skip_ws ((c :: lit) ++ x) = (c :: lit) ++ x ∧ Byte.eqb c x22 = false ∧ Byte.eqb c "["%byte = false ∧
    Byte.eqb c "{"%byte = false ∧ Byte.eqb c "t"%byte = false ∧ Byte.eqb c "f"%byte = false ∧
    Byte.eqb c "n"%byte = false) as (E1 & E2 & E3 & E4 & E5 & E6 & E7).
  { clear -Hl. unfold scan_number, scan_sign, scan_int, digits1 in Hl. simpl in Hl.
    destruct c; first [done|discriminate Hl]. }
  cbn [parse_value]. rewrite E1. cbn [app]. rewrite E2, E3, E4, E5, E6, E7.
  change (c :: lit ++ x) with ((c :: lit) ++ x). by rewrite Hs.
Qed.

(** A value starts with a byte that is neither blank nor a closing bracket. *)
Lemma print_head ind v : wf_json v = true →
  ∃ c t, print_at ind v = c :: t ∧ is_ws c = false ∧ Byte.eqb "]"%byte c = false.
Proof.
  destruct v as [|[]|lit|s|l|l]; simpl; intros Hw; try (by eexists _, _).
  - apply bool_decide_eq_true in Hw. destruct lit as [|c lit]; [done|]. exists c, lit. split; [done|].
    unfold scan_number, scan_sign, scan_int, digits1 in Hw. simpl in Hw. clear -Hw.
    destruct c; first [done|discriminate Hw].
  - destruct l; by eexists _, _.
  - destruct l; by eexists _, _.
Qed.

Lemma skip_ws_head c l : is_ws c = false → skip_ws (c :: l) = c :: l.
Proof. simpl. by intros ->. Qed.

(** *** Blanks between the tokens *)

Definition blank (w : bytes) : Prop := ∀ l, skip_ws (w ++ l) = skip_ws l.

Lemma blank_spaces n : blank (spaces n).
Proof. intros l. by induction n. Qed.
Lemma blank_pre ind : blank (sep_pre ind).
Proof. destruct ind; [|done]. intros l. apply (blank_spaces _ l). Qed.
Lemma blank_post ind : blank (sep_post ind).
Proof. destruct ind; [|done]. intros l. apply (blank_spaces _ l). Qed.

Lemma parse_value_blank fuel depth w l : blank w → parse_value fuel depth (w ++ l) = parse_value fuel depth l.
Proof. intros Hw. destruct fuel; [done|]. cbn [parse_value]. by rewrite Hw. Qed.

Lemma value_end_sep c x : c ∈ [","%byte; "]"%byte; "}"%byte; x0a] → value_end (c :: x).
Proof. intros Hc. right. eauto. Qed.

Lemma tail_end ind cl l x : cl ∈ ["]"%byte; "}"%byte] → value_end (tail_text ind cl l ++ x).
Proof.
  intros Hc. unfold tail_text. destruct l as [|a l]; simpl.
  - destruct ind; simpl; apply value_end_sep; set_solver.
  - apply value_end_sep. set_solver.
Qed.

(** After an element comes a comma and the next one, or the bracket. *)
Lemma skip_tail_nil ind cl x : is_ws cl = false → skip_ws (tail_text ind cl [] ++ x) = cl :: x.
Proof.
  intros Hc. unfold tail_text. cbn [map concat app]. rewrite <- app_assoc. rewrite blank_post. by apply skip_ws_head.
Qed.
Lemma skip_tail_cons ind cl a l x :
  skip_ws (tail_text ind cl (a :: l) ++ x) = ","%byte :: sep_pre ind ++ a ++ tail_text ind cl l ++ x.
Proof. unfold tail_text. cbn [map concat app]. rewrite skip_ws_head by done. by rewrite <- !app_assoc. Qed.

(** The elements of an array, and the members of an object, up to the bracket. *)
Lemma parse_elems_back ind ind' v l depth : Forall (reads_back ind') (v :: l) →
  (∀ u, u ∈ v :: l → depth + jdepth u ≤ maxNestingDepth) →
  ∀ fuel x, (foldr (λ v n, S (need v + n)) 0 (v :: l) ≤ fuel)%nat →
  parse_elems fuel depth (sep_pre ind ++ print_at ind' v ++ tail_text ind "]"%byte (map (print_at ind') l) ++ x) =
  Some (v :: l, x).
Proof.
  revert v. induction l as [|v' l IH]; intros v Hl Hd [|fuel] x Hf; try (simpl in Hf; lia).
  all: apply Forall_cons in Hl as [Hv Hl].
  all: assert (depth + jdepth v ≤ maxNestingDepth) as Hdv by (apply Hd; left).
  all: cbn [parse_elems]; rewrite parse_value_blank by apply blank_pre.
  all: rewrite Hv; [|simpl in Hf; lia|done|apply tail_end; set_solver]; cbn [mbind option_bind map].
  - by rewrite skip_tail_nil.
  - rewrite skip_tail_cons. cbn [Byte.eqb]. rewrite IH; [done|done|..].
    + intros u Hu. apply Hd. by right.
    + cbn [foldr] in *. lia.
Qed.

(** One member, and what is left after its value. *)
Lemma parse_member_step ind ind' k v fuel depth y : valid_utf8 0 k = true →
  parse_members (S fuel) depth (sep_pre ind ++ (quote k ++ colon ind ++ print_at ind' v) ++ y) =
    ('(v, r) ← parse_value fuel depth (print_at ind' v ++ y);
     match skip_ws r with
      | c :: r =>
          if Byte.eqb c ","%byte then '(kvs, r) ← parse_members fuel depth r; Some ((k, v) :: kvs, r)
          else if Byte.eqb c "}"%byte then Some ([(k, v)], r) else None
      | [] => None
      end).
Proof.
  intros Hk.
  replace ((quote k ++ _) ++ y) with (x22 :: escape true 0 k ++ x22 :: colon ind ++ print_at ind' v ++ y)
    by (unfold quote; simpl; by rewrite <- !app_assoc).
  cbn [parse_members]. rewrite blank_pre, skip_ws_head by done.
  change (expect [x22] (x22 :: ?z)) with (Some z). cbn [mbind option_bind]. rewrite unquote_escape by done.
  cbn [mbind option_bind]. destruct ind; [|done].
  change (expect [":"%byte] (skip_ws (colon (Some n) ++ ?z))) with (Some ([x20] ++ z)). cbn [mbind option_bind].
  by rewrite parse_value_blank.
Qed.

Lemma parse_members_back ind ind' k v l depth : Forall (λ kv, reads_back ind' kv.2) ((k, v) :: l) →
  Forall (λ kv, valid_utf8 0 kv.1 = true) ((k, v) :: l) →
  (∀ kv, kv ∈ (k, v) :: l → depth + jdepth kv.2 ≤ maxNestingDepth) →
  ∀ fuel x, (foldr (λ kv n, S (need kv.2 + n)) 0 ((k, v) :: l) ≤ fuel)%nat →
  parse_members fuel depth
    (sep_pre ind ++ (quote k ++ colon ind ++ print_at ind' v) ++
     tail_text ind "}"%byte (map (λ kv, quote kv.1 ++ colon ind ++ print_at ind' kv.2) l) ++ x) =
  Some ((k, v) :: l, x).
Proof.
  revert k v. induction l as [|[k' v'] l IH]; intros k v Hl Hk Hd [|fuel] x Hf; try (simpl in Hf; lia).
  all: apply Forall_cons in Hl as [Hv Hl]; apply Forall_cons in Hk as [Hkv Hk]; simpl in Hv, Hkv.
  all: assert (depth + jdepth v ≤ maxNestingDepth) as Hdv by (apply (Hd (k, v)); left).
  all: rewrite parse_member_step by done.
  all: rewrite Hv; [|simpl in Hf; lia|done|apply tail_end; set_solver]; cbn [mbind option_bind map fst snd].
  - by rewrite skip_tail_nil.
  - rewrite skip_tail_cons. cbn [Byte.eqb]. rewrite IH; [done|done|done|..].
    + intros u Hu. apply Hd. by right.
    + cbn [foldr] in *. lia.
Qed.

Lemma foldr_max_in zs z : z ∈ zs → z ≤ foldr Z.max 0 zs.
Proof. induction 1; simpl; lia. Qed.
Lemma foldr_max_nonneg zs : 0 ≤ foldr Z.max 0 zs.
Proof. induction zs; simpl; lia. Qed.

Lemma wf_reads_back v ind : wf_json v = true → reads_back ind v.
Proof.
  revert ind. induction v as [|b|lit|s|l IH|l IH] using json_ind'; intros ind Hw.
  - intros [|fuel] depth x Hf _ _; [simpl in Hf; lia|]. done.
  - intros [|fuel] depth x Hf _ _; [simpl in Hf; lia|]. by destruct b.
  - apply reads_back_num. simpl in Hw. by apply bool_decide_eq_true in Hw.
  - intros [|fuel] depth x Hf _ _; [simpl in Hf; lia|]. cbn [print_at parse_value]. unfold quote. cbn [app].
    rewrite skip_ws_head by done. cbn [Byte.eqb]. rewrite <- app_assoc. cbn [app].
    by rewrite unquote_escape.
  - simpl in Hw. rewrite forallb_forall in Hw.
    intros [|fuel] depth x Hf Hd Hx; [simpl in Hf; lia|]. cbn [jdepth need] in Hd, Hf.
    pose proof (foldr_max_nonneg (map jdepth l)).
    assert (∀ u, u ∈ l → depth + 1 + jdepth u ≤ maxNestingDepth) as Hin.
    { intros u Hu. assert (jdepth u ≤ foldr Z.max 0 (map jdepth l)); [|lia].
      apply foldr_max_in, list_elem_of_In, in_map, list_elem_of_In, Hu. }
    destruct l as [|v l]; cbn [print_at parse_value map block app];
      rewrite skip_ws_head by done; cbn [Byte.eqb]; (destruct (Z.ltb_spec maxNestingDepth (depth + 1)); [lia|]); [done|].
    rewrite <- !app_assoc.
    destruct (print_head (S <$> ind) v) as (c & t & Hp & Hws & Hcl); [apply Hw; by left|].
    match goal with |- context [expect ?p (skip_ws ?z)] => assert (expect p (skip_ws z) = None) as -> end.
    { rewrite blank_pre, Hp. cbn [app]. rewrite skip_ws_head by done. cbn [expect]. by rewrite Hcl. }
    rewrite parse_elems_back; [done| |done|cbn [foldr] in *; lia].
    apply Forall_forall. intros u Hu. rewrite Forall_forall in IH. apply IH; [done|]. by apply Hw, list_elem_of_In.
  - simpl in Hw. rewrite forallb_forall in Hw.
    intros [|fuel] depth x Hf Hd Hx; [simpl in Hf; lia|]. cbn [jdepth need] in Hd, Hf.
    pose proof (foldr_max_nonneg (map (λ kv, jdepth kv.2) l)).
    assert (∀ kv, kv ∈ l → depth + 1 + jdepth kv.2 ≤ maxNestingDepth) as Hin.
    { intros kv Hv. assert (jdepth kv.2 ≤ foldr Z.max 0 (map (λ kv, jdepth kv.2) l)); [|lia].
      apply foldr_max_in, list_elem_of_In, (in_map (λ kv, jdepth kv.2)), list_elem_of_In, Hv. }
    destruct l as [|[k v] l]; cbn [print_at parse_value map block app];
      rewrite skip_ws_head by done; change (Byte.eqb "{"%byte x22) with false;
      change (Byte.eqb "{"%byte "["%byte) with false; change (Byte.eqb "{"%byte "{"%byte) with true; cbv iota;
      (destruct (Z.ltb_spec maxNestingDepth (depth + 1)); [lia|]); [done|].
    rewrite <- (app_assoc (sep_pre ind)), <- (app_assoc (quote _ ++ _)).
    match goal with |- context [expect ?p (skip_ws ?z)] => assert (expect p (skip_ws z) = None) as -> end.
    { rewrite blank_pre. cbn [fst app quote]. by rewrite skip_ws_head. }
    cbn [fst snd]. rewrite parse_members_back; [done| | |done|cbn [foldr] in *; lia].
    + apply Forall_forall. intros u Hu. rewrite Forall_forall in IH. apply IH; [done|].
      apply list_elem_of_In, Hw in Hu. by apply andb_true_iff in Hu as [_ ?].
    + apply Forall_forall. intros u Hu. apply list_elem_of_In, Hw in Hu. by apply andb_true_iff in Hu as [? _].
Qed.

Lemma length_block ind op cl l :
  (S (sum_list_with (λ b, S (length b)) l) ≤ length (block ind op cl l))%nat.
Proof.
  destruct l as [|a l]; simpl; [lia|]. apply le_n_S. unfold tail_text. rewrite !length_app. simpl.
  assert (sum_list_with (λ b, S (length b)) l ≤ length (concat (map (λ b, ","%byte :: sep_pre ind ++ b) l)))%nat; [|lia].
  induction l as [|b l IH]; simpl; [lia|]. rewrite !length_app. lia.
Qed.

(** The fuel of [decode_value] and [unmarshal_value] is enough. *)
Lemma need_length v ind : wf_json v = true → (need v ≤ length (print_at ind v))%nat.
Proof.
  revert ind. induction v as [|[]|lit|s|l IH|l IH] using json_ind'; simpl; intros ind Hw; try lia.
  - apply bool_decide_eq_true in Hw. destruct lit; [done|]. simpl. lia.
  - etrans; [|apply length_block]. apply le_n_S. rewrite forallb_forall in Hw.
    induction IH as [|v l Hv _ IHl]; simpl; [lia|].
    specialize (Hv (S <$> ind) ltac:(apply Hw; by left)).
    specialize (IHl ltac:(intros u Hu; apply Hw; by right)). lia.
  - etrans; [|apply length_block]. apply le_n_S. rewrite forallb_forall in Hw.
    induction IH as [|[k v] l Hv _ IHl]; simpl; [lia|].
    specialize (Hw (k, v) ltac:(by left)) as Hkv. apply andb_true_iff in Hkv as [_ Hkv].
    specialize (Hv (S <$> ind) Hkv). simpl in Hv.
    specialize (IHl ltac:(intros u Hu; apply Hw; by right)). rewrite !length_app. simpl. lia.
Qed.

(** What is printed, compact or indented, is read back as the same value, both by
    [Unmarshal] and as the first value of a stream, for every value of valid
    strings and number literals nested no deeper than the decoder's limit. *)
Lemma json_roundtrip ind v : wf_json v = true → jdepth v ≤ maxNestingDepth →
  unmarshal_value (print_at ind v) = Some v ∧ decode_value (print_at ind v) = Some v ∧
  unmarshal_value (print_at ind v ++ [x0a]) = Some v ∧ decode_value (print_at ind v ++ [x0a]) = Some v.
Proof.
  intros Hwf Hdepth. pose proof (wf_reads_back v ind Hwf) as Hb. pose proof (need_length v ind Hwf) as Hn.
  assert (∀ x, value_end x → parse_value (S (length (print_at ind v ++ x))) 0 (print_at ind v ++ x) = Some (v, x)) as Hp.
  { intros x Hx. apply Hb; [rewrite length_app; lia|lia|done]. }
  pose proof (Hp [] ltac:(by left)) as H1. rewrite app_nil_r in H1.
  unfold unmarshal_value, decode_value. rewrite H1, Hp by (apply value_end_sep; set_solver). done.
Qed.

Example json_roundtrip_text :
  print (JObj [(to_bytes "a<", JArr [JNum (to_bytes "-1.5e3"); JNull]); (to_bytes "b", JStr [x09; xe2; x80; xa8])]) =
  [x7b; x22] ++ to_bytes "a\u003c" ++ [x22; x3a] ++ to_bytes "[-1.5e3,null]," ++
  [x22; x62; x22; x3a; x22] ++ to_bytes "\t\u2028" ++ [x22; x7d].
Proof. reflexivity. Qed.

Example json_indent_text :
  of_bytes (print_indent 0 (JObj [(to_bytes "a", JArr [JNum (to_bytes "1"); JNull]); (to_bytes "b", JArr [])])) =
  of_bytes ([x7b; x0a; x20; x20; x22; x61; x22; x3a; x20; x5b; x0a; x20; x20; x20; x20; x31; x2c; x0a; x20; x20; x20;
             x20] ++ to_bytes "null" ++ [x0a; x20; x20; x5d; x2c; x0a; x20; x20; x22; x62; x22; x3a; x20; x5b; x5d; x0a; x7d]).
Proof. vm_compute. reflexivity. Qed.
