(* ===== verification/JsonCodec.v ===== *)
(** * Decoding JSON into Go values ([encoding/json])

    A decoder takes a value and what the target holds so far; [None] is an
    error.  As in Go, [null] leaves a target alone and empties a slice, a key
    selects the field with that tag exactly or else up to case, unknown keys are
    skipped, and an element decodes onto the element that is already there.
    Slices are lists, so a nil slice and an empty one are the same here; which of
    the two an encoder meets is one of its arguments. *)

From S2P Require Import Prelude.
From S2P Require Import Encoding.
From S2P Require Import NetIP.
From S2P Require Import GoTime.
From S2P Require Import GoRFC3339.
From S2P Require Import GoJson.
From S2P Require Import Json.

Definition dec (A : Type) : Type := json → A → option A.

(** ** Fields *)

Definition upper (b : byte) : byte :=
  if (97 <=? byte_Z b) && (byte_Z b <=? 122) then Z_byte (byte_Z b - 32) else b.

(** [foldName]: ASCII letters in upper case, and the two other characters that
    fold to an ASCII letter, the long s and the Kelvin sign. *)
Fixpoint fold_name (l : bytes) : bytes :=
  match l with
  | [] => []
  | a :: l1 =>
      match l1 with
      | b :: l2 =>
          if Byte.eqb a xc5 && Byte.eqb b xbf then "S"%byte :: fold_name l2
          else match l2 with
               | c :: l3 =>
                   if Byte.eqb a xe2 && Byte.eqb b x84 && Byte.eqb c xaa then "K"%byte :: fold_name l3
                   else upper a :: fold_name l1
               | [] => upper a :: fold_name l1
               end
      | [] => [upper a]
      end
  end.

Record field (A : Type) := Field { fd_name : string; fd_dec : dec A }.
Arguments Field {A}. Arguments fd_name {A} f. Arguments fd_dec {A} f.

Fixpoint find_by {A} (p : bytes → bool) (fs : list (field A)) : option (dec A) :=
  match fs with
  | [] => None
  | f :: fs => if p (to_bytes (fd_name f)) then Some (fd_dec f) else find_by p fs
  end.

Definition find_field {A} (fs : list (field A)) (key : bytes) : option (dec A) :=
  match find_by (λ n, bool_decide (n = key)) fs with
  | Some d => Some d
  | None => find_by (λ n, bool_decide (fold_name n = fold_name key)) fs
  end.

Fixpoint dec_members {A} (fs : list (field A)) (kvs : list (bytes * json)) (cur : A) : option A :=
  match kvs with
  | [] => Some cur
  | (k, v) :: kvs =>
      cur ← match find_field fs k with Some d => d v cur | None => Some cur end;
      dec_members fs kvs cur
  end.

Definition dec_struct {A} (fs : list (field A)) : dec A := λ v cur,
  match v with
  | JObj kvs => dec_members fs kvs cur
  | JNull => Some cur
  | _ => None
  end.

(** ** Scalars *)

Definition dec_string : dec string := λ v cur,
  match v with JStr s => Some (of_bytes s) | JNull => Some cur | _ => None end.

(** A number into a [uint8]. *)
Definition dec_uint8 : dec byte := λ v cur,
  match v with
  | JNum lit => n ← Decimal.ParseUint 64 (of_bytes lit); if n <? 256 then Some (Z_byte n) else None
  | JNull => Some cur
  | _ => None
  end.

(** [time.Time]; the texts are those of [parseRFC3339]. *)
Definition dec_time : dec Z := λ v cur,
  match v with JStr s => parse_time s | JNull => Some cur | _ => None end.

(** [netip.Addr] and [netip.AddrPort] as text; the zero value is the empty
    string. *)
Definition dec_addr : dec Addr := λ v cur,
  match v with
  | JStr s => if decide (s = []) then Some AddrZero else ParseAddr (of_bytes s)
  | JNull => Some cur
  | _ => None
  end.
Definition dec_addrport : dec AddrPort := λ v cur,
  match v with
  | JStr s => if decide (s = []) then Some AddrPort_zero else ParseAddrPort (of_bytes s)
  | JNull => Some cur
  | _ => None
  end.

(** ** Slices and arrays *)

Section Slices.
Context {A : Type} (zero : A) (d : dec A).

Fixpoint dec_elems (l : list json) (cur : list A) : option (list A) :=
  match l with
  | [] => Some []
  | v :: l =>
      a ← d v (default zero (head cur));
      r ← dec_elems l (tail cur);
      Some (a :: r)
  end.

Definition dec_slice : dec (list A) := λ v cur,
  match v with JArr l => dec_elems l cur | JNull => Some [] | _ => None end.

(** An array keeps its length: what is missing is zero, what is left over is
    skipped. *)
Fixpoint dec_array (l : list json) (cur : list A) : option (list A) :=
  match cur, l with
  | [], _ => Some []
  | _ :: cur, [] => r ← dec_array [] cur; Some (zero :: r)
  | c :: cur, v :: l =>
      a ← d v c;
      r ← dec_array l cur;
      Some (a :: r)
  end.
End Slices.

(** [[]byte]: base64 text, or an array of numbers. *)
Definition dec_bytes : dec bytes := λ v cur,
  match v with
  | JStr s => Base64.DecodeString (of_bytes s)
  | _ => dec_slice x00 dec_uint8 v cur
  end.

(** [[32]byte]: only an array of numbers. *)
Definition dec_key32 : dec (vec byte 32) := λ v cur,
  match v with
  | JArr l => array_copy 32 <$> dec_array x00 dec_uint8 l cur
  | JNull => Some cur
  | _ => None
  end.

(** ** Encoders *)

Definition enc_string (s : string) : json := JStr (to_bytes s).
Definition enc_num (z : Z) : json := JNum (to_bytes (pretty z)).
Definition enc_uint8 (b : byte) : json := enc_num (byte_Z b).
Definition enc_slice {A} (nil : bool) (e : A → json) (l : list A) : json :=
  if nil && (length l =? 0)%nat then JNull else JArr (map e l).
Definition enc_bytes (nil : bool) (b : bytes) : json :=
  if nil && (length b =? 0)%nat then JNull else enc_string (Base64.EncodeToString b).
Definition enc_key32 (k : vec byte 32) : json := JArr (map enc_uint8 k).
Definition enc_addr (a : Addr) : json :=
  enc_string (if IsValid a then Addr_String a else "").
Definition enc_addrport (a : AddrPort) : json :=
  enc_string (if IsValid (ap_Addr a) then AddrPort_String a else "").
Definition enc_time (off t : Z) : json := enc_string (FormatTime off t).
Definition member (k : string) (v : json) : bytes * json := (to_bytes k, v).

(** A field tagged [omitempty]. *)
Definition member_if (present : bool) (k : string) (v : json) : list (bytes * json) :=
  if present then [member k v] else [].

(** ** From values to texts *)

(** [json.Marshal] and [json.MarshalIndent(_, "", "  ")]; [e] gives [None] for a
    value that does not marshal. *)
Definition marshal_with {A} (ind : option nat) (e : A → option json) : MarshalJSON A :=
  λ a, print_at ind <$> e a.
Definition unmarshal_with {B} (zero : B) (d : dec B) : UnmarshalJSON B :=
  {| Unmarshal b := unmarshal_value b ≫= λ v, d v zero;
     Decode b := decode_value b ≫= λ v, d v zero |}.

(** ** What is written is read back *)

(** A value that survives the text, nested at most [n] deep. *)
Definition carried (n : Z) (v : json) : Prop := wf_json v = true ∧ jdepth v ≤ n.

Lemma marshal_compat {A B} ind (e : A → option json) (zero : B) (d : dec B) (f : A → B) (ok : A → Prop) n :
  n ≤ maxNestingDepth →
  (∀ a, ok a → ∃ v, e a = Some v ∧ carried n v ∧ d v zero = Some (f a)) →
  @JSONCompat A B (marshal_with ind e) (unmarshal_with zero d) f ok.
Proof.
  intros Hn Hall.
  assert (∀ a b, ok a → print_at ind <$> e a = Some b →
    unmarshal_value b ≫= (λ v, d v zero) = Some (f a) ∧ decode_value b ≫= (λ v, d v zero) = Some (f a)) as Hback.
  { intros a b Hok Hb. destruct (Hall a Hok) as (v & He & [Hw Hd] & Hdec). rewrite He in Hb. simplify_eq/=.
    destruct (json_roundtrip ind v Hw ltac:(lia)) as (-> & -> & _). done. }
  split; unfold Marshal, marshal_with; simpl.
  - intros a Hok. destruct (Hall a Hok) as (v & -> & _). simpl. eauto.
  - intros a b Hok Hb. by apply Hback.
  - intros a b Hok Hb. by apply Hback.
Qed.

Definition utf8 (s : string) : Prop := valid_utf8 0 (to_bytes s) = true.

Lemma carried_string n s : 0 ≤ n → utf8 s → carried n (enc_string s).
Proof. by split. Qed.
Lemma dec_enc_string s cur : dec_string (enc_string s) cur = Some s.
Proof. simpl. by rewrite of_to_bytes. Qed.

Lemma carried_obj n l : 0 ≤ n →
  Forall (λ kv, valid_utf8 0 kv.1 = true ∧ carried n kv.2) l → carried (n + 1) (JObj l).
Proof.
  intros Hn Hl. split; simpl.
  - apply forallb_forall. intros kv Hin. rewrite Forall_forall in Hl.
    apply list_elem_of_In, Hl in Hin as [Hk [Hw _]]. by rewrite Hk, Hw.
  - assert (foldr Z.max 0 (map (λ kv, jdepth kv.2) l) ≤ n); [|lia].
    induction Hl as [|kv l [_ [_ Hd]] _ IH]; simpl; lia.
Qed.

Lemma carried_arr n l : 0 ≤ n → Forall (carried n) l → carried (n + 1) (JArr l).
Proof.
  intros Hn Hl. split; simpl.
  - apply forallb_forall. intros v Hin. rewrite Forall_forall in Hl. by apply list_elem_of_In, Hl in Hin as [Hw _].
  - assert (foldr Z.max 0 (map jdepth l) ≤ n); [|lia]. induction Hl as [|v l [_ Hd] _ IH]; simpl; lia.
Qed.

Lemma carried_mono n m v : n ≤ m → carried n v → carried m v.
Proof. intros Hnm [Hw Hd]. split; [done|lia]. Qed.

(** *** ASCII texts *)

Definition ascii (b : byte) : bool := byte_Z b <? 128.

Lemma ascii_utf8 l : forallb ascii l = true → valid_utf8 0 l = true.
Proof.
  induction l as [|b l IH]; [done|]. cbn [forallb valid_utf8]. intros [Hb Hl]%andb_true_iff.
  unfold ascii in Hb. rewrite Hb. by apply IH.
Qed.

Lemma carried_ascii n s : 0 ≤ n → forallb ascii (to_bytes s) = true → carried n (enc_string s).
Proof. intros Hn Ha. apply carried_string; [done|]. by apply ascii_utf8. Qed.

Lemma forallb_app_true {A} (p : A → bool) l1 l2 :
  forallb p l1 = true → forallb p l2 = true → forallb p (l1 ++ l2) = true.
Proof. intros H1 H2. by rewrite forallb_app, H1, H2. Qed.

Lemma ascii_pretty_N (n : N) : forallb ascii (to_bytes (pretty n)) = true.
Proof.
  apply forallb_forall. intros b Hb. pose proof (Decimal.pretty_digits n) as Hd. rewrite Forall_forall in Hd.
  apply list_elem_of_In, Hd in Hb. unfold Decimal.is_digit in Hb. unfold ascii.
  apply andb_prop_elim in Hb as [_ Hb]. apply Is_true_true in Hb. apply Z.leb_le in Hb. apply Z.ltb_lt. lia.
Qed.

Lemma ascii_pretty (z : Z) : forallb ascii (to_bytes (pretty z)) = true.
Proof.
  destruct z as [|p|p]; [done|apply (ascii_pretty_N (N.pos p))|].
  change (pretty (Z.neg p)) with ("-" +:+ pretty (N.pos p)). rewrite to_bytes_app.
  apply forallb_app_true; [done|apply ascii_pretty_N].
Qed.

Lemma ascii_base64 b : forallb ascii (Base64.encode_bytes b) = true.
Proof.
  assert (∀ n, 0 ≤ n → ascii (Base64.char n) = true) as Hc.
  { intros n Hn. unfold Base64.char, ascii.
    repeat (case_match; [first [done|rewrite byte_Z_byte, Z.mod_small by lia; apply Z.ltb_lt; lia]|]). done. }
  assert (∀ n, ascii (Base64.char (n mod 64)) = true) as Hm.
  { intros n. apply Hc. apply Z.mod_pos_bound. lia. }
  revert b. fix IH 1. intros [|x [|y [|z b]]]; cbn [Base64.encode_bytes forallb]; rewrite ?Hm; try done.
  simpl. apply IH.
Qed.

(** *** Each codec *)

Lemma carried_bytes n nil b : 0 ≤ n → carried n (enc_bytes nil b).
Proof.
  intros Hn. unfold enc_bytes. case_match; [done|]. apply carried_ascii; [done|].
  unfold Base64.EncodeToString. rewrite to_of_bytes. apply ascii_base64.
Qed.
Lemma dec_enc_bytes nil b cur : dec_bytes (enc_bytes nil b) cur = Some b.
Proof.
  unfold enc_bytes. destruct (nil && _) eqn:E.
  - apply andb_true_iff in E as [_ E]. apply Nat.eqb_eq in E. by destruct b.
  - simpl. rewrite of_to_bytes. apply Base64.DecodeString_EncodeToString.
Qed.

Lemma uint8_back b : carried 0 (enc_uint8 b) ∧ ∀ cur, dec_uint8 (enc_uint8 b) cur = Some b.
Proof.
  assert (bool_decide (scan_number (to_bytes (pretty (byte_Z b))) = Some (to_bytes (pretty (byte_Z b)), [])) = true) as Hw.
  { revert b. apply byte_forall. vm_compute. reflexivity. }
  split; [by split|]. intros cur. simpl. rewrite of_to_bytes. pose proof (byte_Z_range b).
  assert (pretty (byte_Z b) = pretty (Z.to_N (byte_Z b))) as -> by (destruct (byte_Z b); [done|done|lia]).
  rewrite Decimal.ParseUint_pretty by lia. simpl. rewrite Z2N.id by lia.
  rewrite (proj2 (Z.ltb_lt _ 256)) by lia. by rewrite Z_byte_Z.
Qed.

Lemma dec_array_back l cur : length cur = length l → dec_array x00 dec_uint8 (map enc_uint8 l) cur = Some l.
Proof.
  revert cur. induction l as [|b l IH]; intros [|c cur] Hl; try done. cbn [map dec_array].
  destruct (uint8_back b) as [_ ->]. cbn [mbind option_bind]. rewrite IH by (simpl in Hl; lia). done.
Qed.

Lemma carried_key32 n k : 1 ≤ n → carried n (enc_key32 k).
Proof.
  intros Hn. apply (carried_mono (0 + 1)); [lia|]. apply carried_arr; [lia|].
  apply Forall_forall. intros v Hv. apply list_elem_of_In, in_map_iff in Hv as (b & <- & _). apply uint8_back.
Qed.
Lemma dec_enc_key32 k cur : dec_key32 (enc_key32 k) cur = Some k.
Proof.
  simpl. rewrite dec_array_back by (by rewrite !length_vec_to_list). simpl. by rewrite array_copy_self.
Qed.

(** A base64 string is not accepted where an array of bytes is expected. *)
Lemma dec_key32_string s cur : dec_key32 (JStr s) cur = None.
Proof. done. Qed.

Lemma carried_slice {A} n nil (e : A → json) l : 0 ≤ n → (∀ a, a ∈ l → carried n (e a)) →
  carried (n + 1) (enc_slice nil e l).
Proof.
  intros Hn He. unfold enc_slice. case_match; [split; [done|simpl; lia]|]. apply carried_arr; [done|].
  apply Forall_forall. intros v Hv. apply list_elem_of_In, in_map_iff in Hv as (a & <- & Ha).
  by apply He, list_elem_of_In.
Qed.
Lemma dec_enc_slice {A B} nil (e : A → json) (zero : B) (d : dec B) (f : A → B) l :
  (∀ a, a ∈ l → d (e a) zero = Some (f a)) → dec_slice zero d (enc_slice nil e l) [] = Some (f <$> l).
Proof.
  intros Hd. unfold enc_slice. destruct (nil && _) eqn:E.
  - apply andb_true_iff in E as [_ E]. apply Nat.eqb_eq in E. by destruct l.
  - cbn [dec_slice]. clear E. induction l as [|a l IH]; [done|]. cbn [map dec_elems head].
    simpl default. rewrite Hd by left. cbn [mbind option_bind tail]. rewrite IH by (intros u Hu; apply Hd; by right).
    done.
Qed.

(** Addresses of version 4, and the zero value. *)
Definition wire_addr (a : Addr) : Prop := a = AddrZero ∨ ∃ x, 0 ≤ x < 2 ^ 32 ∧ a = AddrV4 x.
Definition wire_addrport (a : AddrPort) : Prop :=
  a = AddrPort_zero ∨ ∃ x, 0 ≤ x < 2 ^ 32 ∧ ap_Addr a = AddrV4 x ∧ 0 ≤ ap_Port a < 2 ^ 16.

Lemma ascii_string4 x : forallb ascii (to_bytes (string4 x)) = true.
Proof.
  rewrite to_bytes_string4. repeat (apply forallb_app_true; [apply ascii_pretty_N|]; cbn [forallb]; try done).
  apply ascii_pretty_N.
Qed.

Lemma string4_nonempty x : to_bytes (string4 x) ≠ [].
Proof. destruct (string4_head x) as (b & l & -> & _). done. Qed.

Lemma carried_addr n a : 0 ≤ n → wire_addr a → carried n (enc_addr a).
Proof. intros Hn [->|(x & _ & ->)]; apply carried_ascii; try done. apply ascii_string4. Qed.
Lemma dec_enc_addr a cur : wire_addr a → dec_addr (enc_addr a) cur = Some a.
Proof.
  intros [->|(x & Hx & ->)]; [done|]. unfold enc_addr. cbn [IsValid Addr_String enc_string dec_addr].
  rewrite decide_False by apply string4_nonempty. rewrite of_to_bytes. by apply ParseAddr_string4.
Qed.

Lemma carried_addrport n a : 0 ≤ n → wire_addrport a → carried n (enc_addrport a).
Proof.
  intros Hn [->|(x & _ & Ha & _)]; [by apply carried_ascii|]. unfold enc_addrport. rewrite Ha.
  apply carried_ascii; [done|]. unfold AddrPort_String. rewrite Ha. cbn [IsValid]. simpl Addr_String.
  rewrite !to_bytes_app. apply forallb_app_true; [apply ascii_string4|]. apply forallb_app_true; [done|apply ascii_pretty].
Qed.
Lemma dec_enc_addrport a cur : wire_addrport a → dec_addrport (enc_addrport a) cur = Some a.
Proof.
  intros [->|(x & Hx & Ha & Hp)]; [done|]. destruct a as [a p]. simpl in Ha, Hp. subst a.
  unfold enc_addrport. cbn [ap_Addr IsValid enc_string dec_addrport].
  rewrite decide_False; [rewrite of_to_bytes; by apply ParseAddrPort_String4|].
  unfold AddrPort_String. simpl. rewrite to_bytes_app. intros [Hn _]%app_nil. by apply string4_nonempty in Hn.
Qed.

Lemma ascii_padded k n : forallb ascii (to_bytes (GoTime.padded k n)) = true.
Proof.
  unfold GoTime.padded. rewrite to_bytes_app. apply forallb_app_true; [|apply ascii_pretty].
  induction (k - String.length (pretty n))%nat as [|j IH]; [done|]. simpl GoTime.zeros.
  rewrite to_bytes_app. by apply forallb_app_true.
Qed.

Lemma ascii_fraction ns : forallb ascii (to_bytes (GoTime.fraction ns)) = true.
Proof.
  unfold GoTime.fraction. case_match; [done|]. rewrite to_bytes_app, to_of_bytes. apply forallb_app_true; [done|].
  pose proof (ascii_padded 9 ns) as Ha. destruct (trim_split (to_bytes (GoTime.padded 9 ns))) as [j Hj].
  rewrite Hj, forallb_app in Ha. by apply andb_true_iff in Ha as [Ha _].
Qed.

Lemma ascii_time off t : forallb ascii (to_bytes (FormatTime off t)) = true.
Proof.
  unfold FormatTime, zone_suffix. destruct (GoTime.civil _) as [[y m] d]. rewrite !to_bytes_app.
  repeat (apply forallb_app_true; [first [done|apply ascii_padded|apply ascii_fraction]|]).
  case_match; [done|]. rewrite !to_bytes_app.
  repeat (apply forallb_app_true; [first [done|apply ascii_padded|by case_match]|]). apply ascii_padded.
Qed.

Lemma carried_time n off t : 0 ≤ n → carried n (enc_time off t).
Proof. intros Hn. apply carried_ascii; [done|]. apply ascii_time. Qed.
Lemma dec_enc_time off t cur : time_marshals off t = true → dec_time (enc_time off t) cur = Some t.
Proof. intros Ht. by apply parse_FormatTime. Qed.

(** *** Members *)

Lemma dec_members_field {A} (fs : list (field A)) k v kvs cur d cur' :
  find_field fs (to_bytes k) = Some d → d v cur = Some cur' →
  dec_members fs (member k v :: kvs) cur = dec_members fs kvs cur'.
Proof. intros Hf Hd. unfold member. cbn [dec_members]. by rewrite Hf, Hd. Qed.

Lemma dec_members_skip {A} (fs : list (field A)) k v kvs cur :
  find_field fs (to_bytes k) = None → dec_members fs (member k v :: kvs) cur = dec_members fs kvs cur.
Proof. intros Hf. unfold member. cbn [dec_members]. by rewrite Hf. Qed.
