(* ===== verification/GoFmt.v ===== *)
(** * Formatting ([fmt], [strconv], [time.Duration], [text/tabwriter])

    Floating-point numbers as far as the health table needs them: conversion
    from an integer, division, and printing, all rounded to nearest with ties to
    even as IEEE 754 prescribes.  The numbers that occur, round-trip times in
    milliseconds, lie between [10^-6] and [10^13], far from overflow and from
    the subnormal range. *)

From S2P Require Import Prelude.
From S2P Require Import Encoding.
From S2P Require Import NetIP.
From S2P Require Import GoTime.
From S2P Require Import Json.

(** ** [float64] *)

(** [n / d] rounded to an integer, ties to even. *)
Definition round_half_even (n d : Z) : Z :=
  let q := n / d in
  match 2 * (n mod d) ?= d with
  | Lt => q
  | Gt => q + 1
  | Eq => if Z.even q then q else q + 1
  end.

(** The number [f_m * 2 ^ f_e], negated when [f_neg]; a number other than zero
    has a mantissa of 53 bits. *)
Record float64 := { f_neg : bool; f_m : Z; f_e : Z }.

(** [num / den] with the factor [2 ^ e] moved to where it is an integer. *)
Definition scale_num (e num : Z) : Z := num * 2 ^ Z.max 0 (- e).
Definition scale_den (e den : Z) : Z := den * 2 ^ Z.max 0 e.

(** The largest [g] with [2 ^ g <= num / den]. *)
Definition ilog2 (num den : Z) : Z :=
  let g := Z.log2 num - Z.log2 den in
  if scale_den g den <=? scale_num g num then g else g - 1.

(** [num / den] rounded to 53 bits. *)
Definition round64 (neg : bool) (num den : Z) : float64 :=
  if num =? 0 then {| f_neg := neg; f_m := 0; f_e := 0 |}
  else
    let e := ilog2 num den - 52 in
    let m := round_half_even (scale_num e num) (scale_den e den) in
    if m =? 2 ^ 53 then {| f_neg := neg; f_m := 2 ^ 52; f_e := e + 1 |}
    else {| f_neg := neg; f_m := m; f_e := e |}.

(** [float64(x)] of an integer. *)
Definition of_int (x : Z) : float64 := round64 (x <? 0) (Z.abs x) 1.

(** [x / y] for a [y] other than zero. *)
Definition fdiv (x y : float64) : float64 :=
  let e := f_e x - f_e y in
  round64 (xorb (f_neg x) (f_neg y)) (scale_den e (f_m x)) (scale_num e (f_m y)).

(** [|x|] in units of [10 ^ - prec], rounded. *)
Definition fixed (prec : Z) (x : float64) : Z :=
  round_half_even (scale_den (f_e x) (f_m x * 10 ^ prec)) (scale_num (f_e x) 1).

Definition sign_string (neg : bool) : string := if neg then "-" else "".

(** [n] in units of [10 ^ - prec], in decimal. *)
Definition decimal_string (prec : nat) (n : Z) : string :=
  pretty (n / 10 ^ Z.of_nat prec) +:+
  match prec with
  | O => ""
  | _ => "." +:+ GoTime.padded prec (n mod 10 ^ Z.of_nat prec)
  end.

(** [fmt.Sprintf("%.2f", x)]. *)
Definition sprintf_2f (x : float64) : string := sign_string (f_neg x) +:+ decimal_string 2 (fixed 2 x).

(** *** The shortest decimal

    [strconv.FormatFloat(x, 'f', -1, 64)], the form [encoding/json] prints: the
    decimal with the fewest digits that still rounds to [x], and of those the
    one closest to [x].  Everything is counted in units of [2 ^ (f_e - 2)], so
    that the two rounding boundaries are integers. *)

(** Half way to the neighbours of [x], as multiples of [2 ^ (f_e - 2)]. *)
Definition upper_bound (x : float64) : Z := 4 * f_m x + 2.
Definition lower_bound (x : float64) : Z := if f_m x =? 2 ^ 52 then 4 * f_m x - 1 else 4 * f_m x - 2.

(** Try the decimals with [k] digits after the point, then [k + 1], and so on. *)
Fixpoint shortest_from (fuel : nat) (k : Z) (x : float64) : option (Z * Z) :=
  match fuel with
  | O => None
  | S fuel =>
      (* a number [n] of units of [10 ^ - k] against [b] units of [2 ^ (f_e - 2)] *)
      let units n := scale_num (f_e x - 2) (n * 10 ^ Z.max 0 (- k)) in
      let bin b := scale_den (f_e x - 2) (b * 10 ^ Z.max 0 k) in
      let down := bin (4 * f_m x) / units 1 in
      let up := down + 1 in
      let even := Z.even (f_m x) in
      let okdown := (bin (lower_bound x) <? units down) || (even && (bin (lower_bound x) =? units down)) in
      let okup := (units up <? bin (upper_bound x)) || (even && (units up =? bin (upper_bound x))) in
      if okdown && okup then Some (round_half_even (bin (4 * f_m x)) (units 1), k)
      else if okdown then Some (down, k)
      else if okup then Some (up, k)
      else shortest_from fuel (k + 1) x
  end.

(** From [10 ^ 22] down to [10 ^ -24]: 17 significant digits always suffice. *)
Definition shortest (x : float64) : Z * Z := default (0, 0) (shortest_from 47 (-22) x).

(** A number as [encoding/json] prints it, between [10^-6] and [10^21]. *)
Definition json_float (x : float64) : string :=
  if f_m x =? 0 then sign_string (f_neg x) +:+ "0"
  else let '(n, k) := shortest x in
       sign_string (f_neg x) +:+
       (if k <=? 0 then pretty (n * 10 ^ (- k)) else decimal_string (Z.to_nat k) n).

Example fmt_1 : sprintf_2f (fdiv (of_int 1234567) (of_int 1000000)) = "1.23".
Proof. vm_compute. reflexivity. Qed.
Example fmt_2 : json_float (fdiv (of_int 1234567) (of_int 1000000)) = "1.234567".
Proof. vm_compute. reflexivity. Qed.
Example fmt_3 : json_float (fdiv (of_int 1) (of_int 1000000)) = "0.000001".
Proof. vm_compute. reflexivity. Qed.
Example fmt_4 : json_float (fdiv (of_int 2000000) (of_int 1000000)) = "2".
Proof. vm_compute. reflexivity. Qed.
Example fmt_5 : json_float (fdiv (of_int 120000000000) (of_int 1000000)) = "120000".
Proof. vm_compute. reflexivity. Qed.
Example fmt_6 : json_float (fdiv (of_int 9223372036854775807) (of_int 1000000)) = "9223372036854.775".
Proof. vm_compute. reflexivity. Qed.

(** *** Accuracy *)

Lemma round_half_even_near n d : 0 < d → 2 * Z.abs (round_half_even n d * d - n) ≤ d.
Proof.
  intros Hd. unfold round_half_even. pose proof (Z.div_mod n d ltac:(lia)). pose proof (Z.mod_pos_bound n d Hd).
  destruct (Z.compare_spec (2 * (n mod d)) d); [destruct (Z.even _)|..]; nia.
Qed.

Lemma round_half_even_1 n : round_half_even n 1 = n.
Proof. unfold round_half_even. by rewrite Z.mod_1_r, Z.div_1_r. Qed.

Lemma scale_split g j : 0 ≤ j →
  2 ^ Z.max 0 g * 2 ^ Z.max 0 (- (g - j)) = 2 ^ j * (2 ^ Z.max 0 (g - j) * 2 ^ Z.max 0 (- g)).
Proof. intros Hj. rewrite <- !Z.pow_add_r by lia. f_equal. lia. Qed.

Lemma scale_pos e x : 0 < x → 0 < scale_num e x ∧ 0 < scale_den e x.
Proof. intros. unfold scale_num, scale_den. split; apply Z.mul_pos_pos; try done; apply Z.pow_pos_nonneg; lia. Qed.

Lemma ilog2_le num den : 0 < num → 0 < den →
  scale_den (ilog2 num den) den ≤ scale_num (ilog2 num den) num.
Proof.
  intros Hn Hd. unfold ilog2. set (g := Z.log2 num - Z.log2 den).
  destruct (Z.leb_spec (scale_den g den) (scale_num g num)); [done|]. unfold scale_den, scale_num.
  pose proof (Z.log2_spec num Hn) as [Hl _]. pose proof (Z.log2_spec den Hd) as [_ Hu].
  pose proof (Z.log2_nonneg num). pose proof (Z.log2_nonneg den).
  assert (0 < 2 ^ Z.max 0 (g - 1)) by (apply Z.pow_pos_nonneg; lia).
  assert (0 < 2 ^ Z.max 0 (- (g - 1))) by (apply Z.pow_pos_nonneg; lia).
  transitivity (2 ^ Z.succ (Z.log2 den) * 2 ^ Z.max 0 (g - 1)); [nia|].
  transitivity (2 ^ Z.log2 num * 2 ^ Z.max 0 (- (g - 1))); [|nia].
  rewrite <- !Z.pow_add_r by lia. apply Z.pow_le_mono_r; lia.
Qed.

(** The quotient that [round64] rounds has at least 53 bits before the point. *)
Lemma round64_digits num den : 0 < num → 0 < den →
  let e := ilog2 num den - 52 in 2 ^ 52 * scale_den e den ≤ scale_num e num.
Proof.
  intros Hn Hd e. pose proof (ilog2_le num den Hn Hd) as Hle. unfold scale_den, scale_num in *.
  pose proof (scale_split (ilog2 num den) 52 ltac:(lia)) as Hs. fold e in Hs.
  set (a := 2 ^ Z.max 0 (ilog2 num den)) in *. set (b := 2 ^ Z.max 0 (- ilog2 num den)) in *.
  assert (0 < b) by (apply Z.pow_pos_nonneg; lia).
  set (p := 2 ^ Z.max 0 (- e)) in *. set (q := 2 ^ Z.max 0 e) in *.
  assert (0 < p) by (apply Z.pow_pos_nonneg; lia).
  set (c := 2 ^ 52) in *. apply (Zmult_le_reg_r _ _ b); [lia|].
  replace (c * (den * q) * b) with (den * (c * (q * b))) by ring. rewrite <- Hs.
  replace (den * (a * p)) with (den * a * p) by ring. replace (num * p * b) with (num * b * p) by ring.
  by apply Zmult_le_compat_r; [|lia].
Qed.

(** Rounding to 53 bits is accurate to one part in [2 ^ 53]. *)
Lemma round64_near neg num den : 0 < num → 0 < den →
  let f := round64 neg num den in
  2 ^ 53 * Z.abs (scale_den (f_e f) (f_m f * den) - scale_num (f_e f) num) ≤ scale_num (f_e f) num.
Proof.
  intros Hn Hd. unfold round64. destruct (Z.eqb_spec num 0); [lia|].
  pose proof (round64_digits num den Hn Hd) as Hdig. set (e := ilog2 num den - 52) in *. cbv zeta in Hdig.
  pose proof (round_half_even_near (scale_num e num) (scale_den e den)) as Hr.
  destruct (scale_pos e den Hd) as [_ Hp]. specialize (Hr Hp).
  set (m := round_half_even _ _) in *.
  assert (2 ^ 53 * Z.abs (m * scale_den e den - scale_num e num) ≤ scale_num e num) as Hm
    by (change (2 ^ 53) with (2 ^ 52 * 2); lia).
  replace (m * scale_den e den) with (scale_den e (m * den)) in Hm by (unfold scale_den; ring).
  destruct (Z.eqb_spec m (2 ^ 53)) as [Em|]; [|done]. cbn [f_m f_e].
  rewrite Em in Hm. unfold scale_den, scale_num in *.
  destruct (decide (0 ≤ e)).
  - replace (Z.max 0 (- (e + 1))) with 0 by lia. replace (Z.max 0 (- e)) with 0 in Hm by lia.
    replace (Z.max 0 (e + 1)) with (e + 1) by lia. replace (Z.max 0 e) with e in Hm by lia.
    replace (2 ^ 52 * den * 2 ^ (e + 1)) with (2 ^ 53 * den * 2 ^ e); [exact Hm|].
    rewrite (Z.pow_add_r 2 e 1) by lia. change (2 ^ 53) with (2 ^ 52 * 2). ring.
  - replace (Z.max 0 (e + 1)) with 0 by lia. replace (Z.max 0 e) with 0 in Hm by lia.
    replace (Z.max 0 (- e)) with (Z.max 0 (- (e + 1)) + 1) in Hm by lia.
    rewrite Z.pow_add_r in Hm by lia. set (p := 2 ^ Z.max 0 (- (e + 1))) in *.
    change (2 ^ 1) with 2 in Hm. change (2 ^ 53) with (2 ^ 52 * 2) in *. lia.
Qed.

(** Integers of at most 53 bits are represented exactly. *)
Lemma of_int_exact x : 0 < x < 2 ^ 53 →
  of_int x = {| f_neg := false; f_m := x * 2 ^ (52 - Z.log2 x); f_e := Z.log2 x - 52 |}.
Proof.
  intros Hx. unfold of_int, round64. rewrite Z.abs_eq by lia.
  destruct (Z.eqb_spec x 0); [lia|]. destruct (Z.ltb_spec x 0); [lia|].
  pose proof (Z.log2_spec x ltac:(lia)) as [Hlo Hhi]. pose proof (Z.log2_nonneg x).
  assert (Z.log2 x < 53) by (apply Z.log2_lt_pow2; lia).
  assert (ilog2 x 1 = Z.log2 x) as ->.
  { unfold ilog2. change (Z.log2 1) with 0. rewrite Z.sub_0_r. unfold scale_den, scale_num.
    replace (Z.max 0 (Z.log2 x)) with (Z.log2 x) by lia. replace (Z.max 0 (- Z.log2 x)) with 0 by lia.
    rewrite Z.mul_1_l, Z.mul_1_r. destruct (Z.leb_spec (2 ^ Z.log2 x) x); lia. }
  unfold scale_den, scale_num. replace (Z.max 0 (Z.log2 x - 52)) with 0 by lia.
  replace (Z.max 0 (- (Z.log2 x - 52))) with (52 - Z.log2 x) by lia. cbv zeta.
  rewrite Z.mul_1_l. change (2 ^ 0) with 1. rewrite round_half_even_1.
  destruct (Z.eqb_spec (x * 2 ^ (52 - Z.log2 x)) (2 ^ 53)) as [E|]; [|done].
  exfalso. assert (x * 2 ^ (52 - Z.log2 x) < 2 ^ Z.succ (Z.log2 x) * 2 ^ (52 - Z.log2 x)) as Hlt.
  { apply Z.mul_lt_mono_pos_r; [apply Z.pow_pos_nonneg; lia|done]. }
  rewrite <- Z.pow_add_r in Hlt by lia. replace (Z.succ (Z.log2 x) + (52 - Z.log2 x)) with 53 in Hlt by lia. lia.
Qed.

(** Two roundings after one another: to a binary fraction [m * A / B] and then
    to [N] hundredths. *)
Lemma two_roundings (N m A B num den x : Z) :
  0 ≤ x < 2 ^ 53 → 0 < B → 0 < den → num * 1000000 = x * den →
  2 * Z.abs (N * B - m * 100 * A) ≤ B →
  2 ^ 53 * Z.abs (m * den * A - num * B) ≤ num * B →
  Z.abs (10000 * N - x) ≤ 5000.
Proof.
  intros Hx Hp Hden Hnd Hf Hr.
  set (c := 2 ^ 53) in *. assert (c = 9007199254740992) as Hc by reflexivity.
  assert (c * Z.abs (10000 * N - x) ≤ 5000 * c + x); [|lia].
  assert (2 * Z.abs (10000 * N * B - 1000000 * m * A) ≤ 10000 * B) as H1 by lia.
  assert (c * Z.abs (1000000 * m * den * A - x * den * B) ≤ x * den * B) as H2.
  { replace (x * den * B) with (1000000 * (num * B)) by (rewrite <- Hnd; ring).
    replace (1000000 * m * den * A) with (1000000 * (m * den * A)) by ring. lia. }
  apply (Zmult_le_reg_r _ _ (den * B)); [nia|].
  replace (c * Z.abs (10000 * N - x) * (den * B)) with (c * Z.abs (10000 * N * B * den - x * den * B)).
  2: { replace (10000 * N * B * den - x * den * B) with ((10000 * N - x) * (den * B)) by ring.
       rewrite Z.abs_mul, (Z.abs_eq (den * B)) by nia. ring. }
  assert (2 * Z.abs (10000 * N * B * den - 1000000 * m * A * den) ≤ 10000 * B * den) as H3.
  { replace (10000 * N * B * den - 1000000 * m * A * den) with ((10000 * N * B - 1000000 * m * A) * den) by ring.
    rewrite Z.abs_mul, (Z.abs_eq den) by lia. nia. }
  replace (1000000 * m * den * A) with (1000000 * m * A * den) in H2 by ring.
  set (u := 10000 * N * B * den) in *. set (v := 1000000 * m * A * den) in *. set (w := x * den * B) in *.
  replace ((5000 * c + x) * (den * B)) with (c * (5000 * B * den) + w) by (unfold w; ring).
  replace (10000 * B * den) with (2 * (5000 * B * den)) in H3 by ring.
  assert (Z.abs (u - w) ≤ Z.abs (u - v) + Z.abs (v - w)) by lia. nia.
Qed.

(** [x] nanoseconds, converted to milliseconds and printed with two decimals,
    are off by at most half a unit of the last digit, 5000 ns. *)
Lemma fixed2_ms x : 0 ≤ x < 2 ^ 53 →
  let f := fdiv (of_int x) (of_int 1000000) in
  f_neg f = false ∧ Z.abs (10000 * fixed 2 f - x) ≤ 5000.
Proof.
  intros Hx. destruct (decide (x = 0)) as [->|Hx0]; [vm_compute; split; [done|intros ?; done]|].
  rewrite (of_int_exact x), (of_int_exact 1000000) by lia. set (l := Z.log2 x).
  change (Z.log2 1000000) with 19. change (52 - 19) with 33. change (19 - 52) with (-33).
  unfold fdiv. cbn [f_neg f_m f_e xorb]. set (E := l - 52 - -33).
  set (num := scale_den E (x * 2 ^ (52 - l))). set (den := scale_num E (1000000 * 2 ^ 33)).
  pose proof (Z.log2_nonneg x). assert (l < 53) by (apply Z.log2_lt_pow2; lia).
  assert (0 < num) as Hnum.
  { apply scale_pos. apply Z.mul_pos_pos; [lia|]. apply Z.pow_pos_nonneg; lia. }
  assert (0 < den) as Hden by (by apply scale_pos).
  assert (num * 1000000 = x * den) as Hnd.
  { unfold num, den, scale_den, scale_num.
    assert (2 ^ (52 - l) * 2 ^ Z.max 0 E = 2 ^ 33 * 2 ^ Z.max 0 (- E)) as He
      by (rewrite <- !Z.pow_add_r by lia; f_equal; lia).
    replace (x * 2 ^ (52 - l) * 2 ^ Z.max 0 E * 1000000)
      with (x * 1000000 * (2 ^ (52 - l) * 2 ^ Z.max 0 E)) by ring. rewrite He. ring. }
  pose proof (round64_near false num den Hnum Hden) as Hr. cbv zeta in Hr.
  split; [by unfold round64; repeat case_match|]. set (f := round64 false num den) in *.
  unfold fixed. pose proof (round_half_even_near (scale_den (f_e f) (f_m f * 10 ^ 2)) (scale_num (f_e f) 1)) as Hf.
  destruct (scale_pos (f_e f) 1 ltac:(lia)) as [Hp _]. specialize (Hf Hp).
  set (N := round_half_even _ _) in *. unfold scale_den, scale_num in *. rewrite Z.mul_1_l in *.
  set (A := 2 ^ Z.max 0 (f_e f)) in *. set (B := 2 ^ Z.max 0 (- f_e f)) in *. set (m := f_m f) in *.
  change (10 ^ 2) with 100 in *. by apply (two_roundings N m A B num den x).
Qed.

(** ** [time.Duration] *)

Definition Microsecond : Z := 1000.

(** [lessThanHalf], on values below [2 ^ 63]. *)
Definition lessThanHalf (x y : Z) : bool := x + x <? y.

(** [d.Round(m)], ties away from zero, clamped to the range of the type. *)
Definition Duration_Round (d m : Z) : Z :=
  if m <=? 0 then d
  else
    let r := Z.rem d m in
    if d <? 0 then
      let r := - r in
      if lessThanHalf r m then d + r
      else if int64_min <=? d - m + r then d - m + r else int64_min
    else if lessThanHalf r m then d - r
    else if d + m - r <=? int64_max then d + m - r else int64_max.

(** [fmtFrac]: the last [prec] digits of [v] as a fraction, without trailing
    zeros. *)
Definition fmtFrac (prec : nat) (v : Z) : string :=
  let f := v mod 10 ^ Z.of_nat prec in
  if f =? 0 then ""
  else "." +:+ of_bytes (rev (GoTime.trim_zeros (rev (to_bytes (GoTime.padded prec f))))).

(** The magnitude of a duration in units of [10 ^ prec] ns, and the unit. *)
Definition with_unit (prec : nat) (u : Z) (unit : string) : string :=
  pretty (u / 10 ^ Z.of_nat prec) +:+ fmtFrac prec u +:+ unit.

Definition Duration_String (d : Z) : string :=
  let u := Z.abs d in
  sign_string (d <? 0) +:+
  if u <? GoTime.Second then
    if u =? 0 then "0s"
    else if u <? Microsecond then with_unit 0 u "ns"
    else if u <? GoTime.Millisecond then with_unit 3 u (of_bytes [xc2; xb5] +:+ "s")
    else with_unit 6 u "ms"
  else
    let secs := u / GoTime.Second in
    let s := pretty (secs mod 60) +:+ fmtFrac 9 u +:+ "s" in
    let mins := secs / 60 in
    if mins =? 0 then s
    else if mins / 60 =? 0 then pretty (mins mod 60) +:+ "m" +:+ s
    else pretty (mins / 60) +:+ "h" +:+ pretty (mins mod 60) +:+ "m" +:+ s.

Example duration_1 : Duration_String (Duration_Round 1234567 Microsecond) = "1.235ms".
Proof. vm_compute. reflexivity. Qed.
Example duration_2 : Duration_String 5400500000000 = "1h30m0.5s".
Proof. vm_compute. reflexivity. Qed.
Example duration_3 : Duration_String (Duration_Round 499 Microsecond) = "0s".
Proof. vm_compute. reflexivity. Qed.

(** ** [text/tabwriter]

    [NewWriter(w, 0, 0, 2, ' ', 0)] on text without vertical tabs and form
    feeds.  A line is a list of cells; all but the last are terminated by a tab
    and padded.  Neighbouring lines with a terminated cell in column [j] form a
    block, and the column is as wide as the widest cell of its block, plus
    two. *)

(** [utf8.RuneCount]: a byte outside a valid sequence counts as one. *)
Fixpoint rune_count (m : nat) (l : bytes) : nat :=
  match l with
  | [] => 0
  | _ :: l' =>
      match m with
      | S m => rune_count m l'
      | O => S (rune_count (match rune_len l with Some n => n - 1 | None => 0 end) l')
      end
  end%nat.

Definition cell_width (c : bytes) : nat := rune_count 0 c.

(** The terminated cell of a line in column [j]. *)
Definition terminated (j : nat) (line : list bytes) : option bytes :=
  if (S j <? length line)%nat then line !! j else None.

(** For every line, the width of column [j] over the rest of its block. *)
Fixpoint block_widths (j : nat) (lines : list (list bytes)) : list nat :=
  match lines with
  | [] => []
  | line :: lines =>
      let ws := block_widths j lines in
      match terminated j line with
      | Some c => Nat.max (cell_width c) (default 0%nat (head ws)) :: ws
      | None => 0%nat :: ws
      end
  end.

(** The width of column [j] in line [i]. *)
Definition column_width (lines : list (list bytes)) (i j : nat) : nat :=
  Nat.max (default 0%nat (block_widths j lines !! i))
          (default 0%nat (rev (block_widths j (rev lines)) !! i)) + 2.

Fixpoint write_cells (width : nat → nat) (j : nat) (line : list bytes) : bytes :=
  match line with
  | [] => []
  | [c] => c
  | c :: line => c ++ spaces (width j - cell_width c) ++ write_cells width (S j) line
  end.

(** The last line has no newline of its own. *)
Fixpoint write_lines (lines : list (list bytes)) (i : nat) (l : list (list bytes)) : bytes :=
  match l with
  | [] => []
  | [line] => write_cells (column_width lines i) 0 line
  | line :: l => write_cells (column_width lines i) 0 line ++ [x0a] ++ write_lines lines (S i) l
  end.

Definition tabwriter (text : bytes) : bytes :=
  let lines := split_byte x09 <$> split_byte x0a text in
  write_lines lines 0 lines.

Definition tab : string := of_bytes [x09].
Definition newline : string := of_bytes [x0a].

Example tabwriter_1 :
  of_bytes (tabwriter (to_bytes ("A" +:+ tab +:+ "LONG" +:+ tab +:+ "C" +:+ newline +:+
                                 "abc" +:+ tab +:+ "d" +:+ tab +:+ "e" +:+ newline)))
  = "A    LONG  C" +:+ newline +:+ "abc  d     e" +:+ newline.
Proof. vm_compute. reflexivity. Qed.
