(* ===== verification/CoordStore.v ===== *)
(** * The coordinator's in-memory store ([internal/coord/store.go], [types.go])

    [MemStore] holds the peer registry (guarded by [mu] in the source) and the
    per-recipient signal queues (guarded by [signalMu]).  Each critical section
    is one function on the record; the clock readings and the context are
    arguments.  The blocking waits are split at the point where the source
    releases the lock: a wait either returns at once or parks on a channel. *)

From S2P Require Import Prelude.
From S2P Require Import Encoding.
From S2P Require Import NetIP.
From S2P Require Import Sha256.
From S2P Require Import GoTime.
From S2P Require Import GoSlice.

(** ** Data ([types.go]) *)

(** [EndpointSource] is a string type with two named values. *)
Abbreviation EndpointSource := string (only parsing).
Definition SourceLocal : EndpointSource := "local".
Definition SourceSTUN : EndpointSource := "stun".

Record Endpoint := { ep_Addr : AddrPort; ep_Source : EndpointSource }.

#[export] Instance Endpoint_eq_dec : EqDecision Endpoint.
Proof. solve_decision. Defined.

Definition Endpoint_zero : Endpoint := {| ep_Addr := AddrPort_zero; ep_Source := "" |}.

Record Peer := {
  NodeKey : bytes;
  DiscoKey : key32;
  Name : string;
  TunnelIP : Addr;
  Endpoints : slice;
  UpdatedAt : Z
}.

Record Envelope := { From : key32; Sealed : bytes; Enqueue : Z }.

#[export] Instance Envelope_eq_dec : EqDecision Envelope.
Proof. solve_decision. Defined.

(** The errors the store returns. *)
Inductive StoreError :=
| ErrCtx (e : CtxErr)
| ErrNodeKeyLength (n : nat)
| ErrPoolExhausted
| ErrUnknownPeer
| ErrAllocFuel.

#[export] Instance StoreError_eq_dec : EqDecision StoreError.
Proof. solve_decision. Defined.

Definition StoreError_Error (e : StoreError) : string :=
  match e with
  | ErrCtx c => CtxErr_Error c
  | ErrNodeKeyLength n => "invalid node key length " +:+ pretty n
  | ErrPoolExhausted => "tunnel IP pool exhausted"
  | ErrUnknownPeer => "unknown peer"
  | ErrAllocFuel => ""
  end.

(** ** State *)

Record MemStore := MkStore {
  pool : Prefix;
  peers : gmap string Peer;
  byTunnel : gmap string string;
  peersEtag : string;
  peersBroad : nat;
  signals : gmap key32 (list Envelope);
  signalWakes : gmap key32 nat;
  maxQueueDepth : nat;
  maxAge : Z;
  eps_heap : Heap Endpoint;
  chans : Chans
}.

(** The fields behind [mu] and behind [signalMu], replaced together. *)
Definition set_registry (s : MemStore) (ps : gmap string Peer) (bt : gmap string string) : MemStore :=
  MkStore (pool s) ps bt (peersEtag s) (peersBroad s) (signals s) (signalWakes s)
    (maxQueueDepth s) (maxAge s) (eps_heap s) (chans s).
Definition set_heap (s : MemStore) (h : Heap Endpoint) : MemStore :=
  MkStore (pool s) (peers s) (byTunnel s) (peersEtag s) (peersBroad s) (signals s) (signalWakes s)
    (maxQueueDepth s) (maxAge s) h (chans s).
Definition set_mail (s : MemStore) (q : gmap key32 (list Envelope)) (w : gmap key32 nat)
  (c : Chans) : MemStore :=
  MkStore (pool s) (peers s) (byTunnel s) (peersEtag s) (peersBroad s) q w
    (maxQueueDepth s) (maxAge s) (eps_heap s) c.

Definition newEtag (now : Z) : string :=
  Hex.EncodeToString (take 8 (Sha256.Sum256 (to_bytes (GoTime.FormatRFC3339Nano now)))).

Definition NewMemStore (p : Prefix) (now : Z) : MemStore :=
  let '(ch, c) := make_chan no_chans in
  MkStore p ∅ ∅ (newEtag now) ch ∅ ∅ 64 (30 * GoTime.Second) empty_heap c.

(** The peer map's key.  The function is called [base64Encode] but prints
    hexadecimal. *)
Definition base64Encode (b : bytes) : string := Hex.EncodeToString b.

#[export] Instance base64Encode_inj : Inj (=) (=) base64Encode.
Proof. exact Hex.EncodeToString_inj. Qed.

(** ** Registry *)

Definition bumpEtagLocked (now : Z) (s : MemStore) : MemStore :=
  let etag := newEtag now in
  let old := peersBroad s in
  let '(ch, c) := make_chan (chans s) in
  MkStore (pool s) (peers s) (byTunnel s) etag ch (signals s) (signalWakes s)
    (maxQueueDepth s) (maxAge s) (eps_heap s) (close_chan old c).

(** The loop of [allocateIPLocked] from the candidate [next]; [None] is out of
    fuel. *)
Fixpoint alloc_loop (fuel : nat) (p : Prefix) (bt : gmap string string) (next : Addr)
  : option (result StoreError Addr) :=
  match fuel with
  | O => None
  | S f =>
      if Contains p next then
        match bt !! Addr_String next with
        | None => if Contains p (Next next) then Some (Ok next) else Some (Err ErrPoolExhausted)
        | Some _ => alloc_loop f p bt (Next next)
        end
      else Some (Err ErrPoolExhausted)
  end.

(** Every iteration but the last meets another entry of [byTunnel]. *)
Definition allocateIPLocked (s : MemStore) : result StoreError Addr :=
  default (Err ErrAllocFuel)
    (alloc_loop (S (size (byTunnel s))) (pool s) (byTunnel s) (Next (pfx_addr (pool s)))).

(** [now] stamps the peer, [now'] makes the etag. *)
Definition Register (ctx : Ctx) (p : Peer) (now now' : Z) (s : MemStore)
  : result StoreError Addr * MemStore :=
  match ctx with
  | Some e => (Err (ErrCtx e), s)
  | None =>
      if negb (length (NodeKey p) =? 32)%nat then (Err (ErrNodeKeyLength (length (NodeKey p))), s)
      else
        let key := base64Encode (NodeKey p) in
        match peers s !! key with
        | Some existing =>
            let existing' :=
              {| NodeKey := NodeKey existing; DiscoKey := DiscoKey p; Name := Name p;
                 TunnelIP := TunnelIP existing; Endpoints := Endpoints existing;
                 UpdatedAt := now |} in
            (Ok (TunnelIP existing),
             bumpEtagLocked now' (set_registry s (<[key := existing']> (peers s)) (byTunnel s)))
        | None =>
            match allocateIPLocked s with
            | Err e => (Err e, s)
            | Ok ip =>
                let peer :=
                  {| NodeKey := NodeKey p; DiscoKey := DiscoKey p; Name := Name p;
                     TunnelIP := ip; Endpoints := Endpoints p; UpdatedAt := now |} in
                (Ok ip,
                 bumpEtagLocked now'
                   (set_registry s (<[key := peer]> (peers s))
                                   (<[Addr_String ip := key]> (byTunnel s))))
            end
        end
  end.

Definition SetEndpoints `{Growslice} (ctx : Ctx) (nodeKey : bytes) (eps : list Endpoint)
  (now now' : Z) (s : MemStore) : result StoreError () * MemStore :=
  match ctx with
  | Some e => (Err (ErrCtx e), s)
  | None =>
      let key := base64Encode nodeKey in
      match peers s !! key with
      | None => (Err ErrUnknownPeer, s)
      | Some peer =>
          let '(sl, h) := slice_overwrite Endpoint_zero (eps_heap s) (Endpoints peer) eps in
          let peer' :=
            {| NodeKey := NodeKey peer; DiscoKey := DiscoKey peer; Name := Name peer;
               TunnelIP := TunnelIP peer; Endpoints := sl; UpdatedAt := now |} in
          (Ok (),
           bumpEtagLocked now'
             (set_heap (set_registry s (<[key := peer']> (peers s)) (byTunnel s)) h))
      end
  end.

(** [sort.Slice] by [TunnelIP.Less]; the relation for stdpp's [merge_sort]. *)
Definition tunnel_le (p q : Peer) : Prop := Less (TunnelIP q) (TunnelIP p) = false.
#[export] Instance tunnel_le_dec : RelDecision tunnel_le.
Proof. intros p q. unfold tunnel_le. apply _. Defined.

(** The copied structs; their [Endpoints] still point into the store's
    arrays. *)
Definition Peers (ctx : Ctx) (s : MemStore) : result StoreError (list Peer * string) :=
  match ctx with
  | Some e => Err (ErrCtx e)
  | None => Ok (merge_sort tunnel_le (map_to_list (peers s)).*2, peersEtag s)
  end.

(** What a wait does up to releasing the lock. *)
Inductive Wait := WaitDone | WaitOn (ch : nat).

Definition WaitForPeersChange (since : string) (s : MemStore) : Wait :=
  if decide (peersEtag s ≠ since) then WaitDone else WaitOn (peersBroad s).

(** ** Signal queues *)

(** The critical section of [EnqueueSignal]; the channel returned, if any, is
    closed after the lock is released. *)
Definition EnqueueSignal_locked (to : key32) (env : Envelope) (s : MemStore)
  : option nat * MemStore :=
  let q := default [] (signals s !! to) in
  let q := if (maxQueueDepth s <=? length q)%nat then drop 1 q else q in
  let q := q ++ [env] in
  let wake := signalWakes s !! to in
  (wake, set_mail s (<[to := q]> (signals s)) (delete to (signalWakes s)) (chans s)).

Definition close_wake (wake : option nat) (s : MemStore) : MemStore :=
  match wake with
  | Some ch => set_mail s (signals s) (signalWakes s) (close_chan ch (chans s))
  | None => s
  end.

Definition EnqueueSignal (ctx : Ctx) (to : key32) (env : Envelope) (s : MemStore)
  : result StoreError () * MemStore :=
  match ctx with
  | Some e => (Err (ErrCtx e), s)
  | None => let '(wake, s) := EnqueueSignal_locked to env s in (Ok (), close_wake wake s)
  end.

Definition PopSignals (ctx : Ctx) (to : key32) (now : Z) (s : MemStore)
  : result StoreError (list Envelope) * MemStore :=
  match ctx with
  | Some e => (Err (ErrCtx e), s)
  | None =>
      let queue := default [] (signals s !! to) in
      let s := set_mail s (delete to (signals s)) (signalWakes s) (chans s) in
      let cutoff := GoTime.Add now (- maxAge s) in
      (Ok (filter (λ e, GoTime.After (Enqueue e) cutoff = true) queue), s)
  end.

Definition WaitForSignal (to : key32) (s : MemStore) : Wait * MemStore :=
  if (0 <? length (default [] (signals s !! to)))%nat then (WaitDone, s)
  else match signalWakes s !! to with
       | Some ch => (WaitOn ch, s)
       | None =>
           let '(ch, c) := make_chan (chans s) in
           (WaitOn ch, set_mail s (signals s) (<[to := ch]> (signalWakes s)) c)
       end.

(** ** Address allocation *)
Section Alloc.
Context (p : Prefix) (base bits : Z) (Hp : prefix4 p base bits).

Definition taken (bt : gmap string string) (x : Z) : Prop := is_Some (bt !! string4 x).

(** What the loop may answer from candidate [x]: the least free address below
    the last one, or exhaustion when there is none. *)
Definition alloc_answer (bt : gmap string string) (x : Z) (r : result StoreError Addr) : Prop :=
  match r with
  | Ok a => ∃ y, a = AddrV4 y ∧ x ≤ y < last4 base bits ∧ ¬ taken bt y ∧
                 ∀ z, x ≤ z < y → taken bt z
  | Err e => e = ErrPoolExhausted ∧ ∀ z, x ≤ z < last4 base bits → taken bt z
  end.

Lemma Contains_Next x :
  first4 base bits ≤ x ≤ last4 base bits →
  Contains p (Next (AddrV4 x)) = bool_decide (x < last4 base bits).
Proof.
  intros Hx. destruct (prefix4_bounds _ _ _ Hp).
  destruct (decide (x = 2 ^ 32 - 1)) as [->|Hne].
  - rewrite Next4_max, Contains_zero. symmetry. apply bool_decide_eq_false. lia.
  - rewrite Next4 by lia. apply eq_true_iff_eq.
    rewrite (Contains4_interval _ _ _ _ Hp), bool_decide_eq_true. lia.
Qed.

(** With more fuel than entries that can still be met, the loop answers. [bt']
    is [bt] without the entries already passed. *)
Lemma alloc_loop_answers n (bt bt' : gmap string string) x :
  first4 base bits ≤ x ≤ last4 base bits →
  (size bt' < n)%nat →
  (∀ z, x ≤ z ≤ last4 base bits → bt' !! string4 z = bt !! string4 z) →
  ∃ r, alloc_loop n p bt (AddrV4 x) = Some r ∧ alloc_answer bt x r.
Proof.
  destruct (prefix4_bounds _ _ _ Hp) as [Hf Hl].
  revert bt' x. induction n as [|n IH]; intros bt' x Hx Hn Hagree; [lia|].
  cbn [alloc_loop].
  rewrite (proj2 (Contains4_interval _ _ _ x Hp)) by lia.
  change (Addr_String (AddrV4 x)) with (string4 x).
  rewrite Contains_Next by lia.
  destruct (bt !! string4 x) as [k|] eqn:Hk.
  - assert (bt' ≠ ∅) as Hne.
    { intros ->. specialize (Hagree x ltac:(lia)). by rewrite lookup_empty, Hk in Hagree. }
    apply map_size_non_empty_iff in Hne.
    destruct (decide (x < last4 base bits)) as [Hlt|Hge].
    + rewrite Next4 by lia.
      destruct (IH (delete (string4 x) bt') (x + 1)) as (r & Hr & Ha); [lia|..].
      { rewrite map_size_delete_Some by (rewrite Hagree by lia; eauto). lia. }
      { intros z Hz. rewrite lookup_delete_ne; [apply Hagree; lia|].
        intros E. apply string4_inj in E; lia. }
      exists r. split; [done|]. destruct r as [a|e]; simpl in *.
      * destruct Ha as (y & -> & Hy & Hfree & Hbelow). exists y. split_and!; try done; try lia.
        intros z Hz. destruct (decide (z = x)) as [->|]; [by eexists|]. apply Hbelow. lia.
      * destruct Ha as [-> Hall]. split; [done|]. intros z Hz.
        destruct (decide (z = x)) as [->|]; [by eexists|]. apply Hall. lia.
    + (* the last address is taken *)
      destruct n as [|n]; [lia|]. cbn [alloc_loop].
      rewrite Contains_Next by lia. rewrite bool_decide_eq_false_2 by done.
      eexists. split; [done|]. split; [done|]. intros z Hz. lia.
  - destruct (decide (x < last4 base bits)) as [Hlt|Hge].
    + rewrite bool_decide_eq_true_2 by done. eexists. split; [done|].
      exists x. split_and!; try done; try lia. unfold taken. rewrite Hk. by intros [??].
    + rewrite bool_decide_eq_false_2 by done. eexists. split; [done|].
      split; [done|]. intros z Hz. lia.
Qed.

End Alloc.

Lemma allocate_answer s base bits :
  prefix4 (pool s) base bits →
  alloc_answer base bits (byTunnel s) (base + 1) (allocateIPLocked s).
Proof.
  intros Hp. unfold allocateIPLocked. destruct (prefix4_bounds _ _ _ Hp) as [Hf Hl].
  assert (pfx_addr (pool s) = AddrV4 base) as -> by (by destruct Hp as (-> & _)).
  destruct (decide (base < last4 base bits)) as [Hlt|Hge].
  - rewrite Next4 by lia.
    destruct (alloc_loop_answers _ _ _ Hp (S (size (byTunnel s))) (byTunnel s) (byTunnel s) (base + 1))
      as (r & -> & Ha); [lia|lia|done|done].
  - cbn [alloc_loop]. rewrite (Contains_Next _ _ _ Hp) by lia.
    rewrite bool_decide_eq_false_2 by done. simpl. split; [done|]. intros z Hz. lia.
Qed.

(** ** The registry invariant

    Every peer is filed under the key of its own node key, holds an IPv4
    address strictly inside the pool, and [byTunnel] is exactly the inverse of
    the tunnel addresses. *)
Record reg_wf (base bits : Z) (s : MemStore) : Prop := {
  rw_pool : prefix4 (pool s) base bits;
  rw_key k p : peers s !! k = Some p →
    k = base64Encode (NodeKey p) ∧ length (NodeKey p) = 32%nat;
  rw_ip k p : peers s !! k = Some p →
    ∃ x, TunnelIP p = AddrV4 x ∧ base < x < last4 base bits ∧ byTunnel s !! string4 x = Some k;
  rw_by t k : byTunnel s !! t = Some k →
    ∃ p, peers s !! k = Some p ∧ Addr_String (TunnelIP p) = t
}.

(** Distinct peers' endpoint slices live in distinct arrays. *)
Record heap_wf (s : MemStore) : Prop := {
  hw_ok k p : peers s !! k = Some p → slice_ok (eps_heap s) (Endpoints p);
  hw_disj k1 k2 p1 p2 i : peers s !! k1 = Some p1 → peers s !! k2 = Some p2 →
    s_arr (Endpoints p1) = Some i → s_arr (Endpoints p2) = Some i → k1 = k2
}.

(** The channels in use are open and distinct; [pend] are the wake channels
    that an [EnqueueSignal] has taken out of the map and not closed yet. *)
Record chan_wf (pend : list nat) (s : MemStore) : Prop := {
  cw_panic : panicked (chans s) = false;
  cw_fresh ch : ch ∈ closed (chans s) → (ch < next_chan (chans s))%nat;
  cw_broad : peersBroad s ∉ closed (chans s) ∧ (peersBroad s < next_chan (chans s))%nat;
  cw_wakes to ch : signalWakes s !! to = Some ch →
    ch ∉ closed (chans s) ∧ (ch < next_chan (chans s))%nat ∧ ch ≠ peersBroad s ∧ ch ∉ pend;
  cw_inj to1 to2 ch : signalWakes s !! to1 = Some ch → signalWakes s !! to2 = Some ch → to1 = to2;
  cw_pend ch : ch ∈ pend →
    ch ∉ closed (chans s) ∧ (ch < next_chan (chans s))%nat ∧ ch ≠ peersBroad s;
  cw_nodup : NoDup pend
}.

(** A recipient somebody waits for has an empty queue; queues hold at most
    [maxQueueDepth] envelopes. *)
Record queue_wf (s : MemStore) : Prop := {
  qw_depth : (0 < maxQueueDepth s)%nat;
  qw_len to q : signals s !! to = Some q → q ≠ [] ∧ (length q ≤ maxQueueDepth s)%nat;
  qw_wake to ch : signalWakes s !! to = Some ch → signals s !! to = None
}.

(** Fields a bump leaves alone. *)
Lemma bump_fields now s :
  let s' := bumpEtagLocked now s in
  pool s' = pool s ∧ peers s' = peers s ∧ byTunnel s' = byTunnel s ∧
  eps_heap s' = eps_heap s ∧ signals s' = signals s ∧ signalWakes s' = signalWakes s ∧
  maxQueueDepth s' = maxQueueDepth s ∧ maxAge s' = maxAge s ∧ peersEtag s' = newEtag now.
Proof. done. Qed.

Lemma bump_chan_wf pend now s : chan_wf pend s → chan_wf pend (bumpEtagLocked now s).
Proof.
  intros [Hpan Hfresh [Hb1 Hb2] Hw Hi Hpe Hnd]. split; simpl.
  - rewrite Hpan. simpl. by apply bool_decide_eq_false.
  - intros ch [->%elem_of_singleton|H%Hfresh]%elem_of_union; lia.
  - split; [|lia]. apply not_elem_of_union. split; [|intros ?%Hfresh; lia].
    apply not_elem_of_singleton. lia.
  - intros to ch Hch. destruct (Hw to ch Hch) as (H1 & H2 & H3 & H4).
    split_and!; [set_solver|lia|lia|done].
  - done.
  - intros ch Hch. destruct (Hpe ch Hch) as (H1 & H2 & H3). split_and!; [set_solver|lia|lia].
  - done.
Qed.

(** Renaming the registry's fields does not touch the channels or queues. *)
Lemma chan_wf_ext pend s s' :
  chans s' = chans s → peersBroad s' = peersBroad s → signalWakes s' = signalWakes s →
  chan_wf pend s → chan_wf pend s'.
Proof. intros E1 E2 E3 []. split; rewrite ?E1, ?E2, ?E3; done. Qed.

Lemma queue_wf_ext s s' :
  maxQueueDepth s' = maxQueueDepth s → signals s' = signals s → signalWakes s' = signalWakes s →
  queue_wf s → queue_wf s'.
Proof. intros E1 E2 E3 []. split; rewrite ?E1, ?E2, ?E3; done. Qed.

Lemma reg_wf_ext base bits s s' :
  pool s' = pool s → peers s' = peers s → byTunnel s' = byTunnel s →
  reg_wf base bits s → reg_wf base bits s'.
Proof. intros E1 E2 E3 []. split; rewrite ?E1, ?E2, ?E3; done. Qed.

Lemma heap_wf_ext s s' :
  peers s' = peers s → eps_heap s' = eps_heap s → heap_wf s → heap_wf s'.
Proof. intros E1 E2 []. split; rewrite ?E1, ?E2; done. Qed.

(** *** The initial state *)

Lemma NewMemStore_wf p base bits now :
  prefix4 p base bits →
  let s := NewMemStore p now in
  reg_wf base bits s ∧ heap_wf s ∧ chan_wf [] s ∧ queue_wf s.
Proof.
  intros Hp. split_and!.
  - by split.
  - by split.
  - split; simpl; try done; try set_solver; try constructor.
  - split; simpl; [lia|done..].
Qed.

(** *** [Register] *)

(** The three ways [Register] goes, as one case analysis for the proofs. *)
Lemma Register_cases (P : result StoreError Addr * MemStore → Prop) ctx p now now' s :
  (∀ e, P (Err e, s)) →
  (∀ old, ctx = None → length (NodeKey p) = 32%nat →
    peers s !! base64Encode (NodeKey p) = Some old →
    P (Ok (TunnelIP old),
       bumpEtagLocked now' (set_registry s
         (<[base64Encode (NodeKey p) :=
            {| NodeKey := NodeKey old; DiscoKey := DiscoKey p; Name := Name p;
               TunnelIP := TunnelIP old; Endpoints := Endpoints old; UpdatedAt := now |}]> (peers s))
         (byTunnel s)))) →
  (∀ ip, ctx = None → length (NodeKey p) = 32%nat →
    peers s !! base64Encode (NodeKey p) = None → allocateIPLocked s = Ok ip →
    P (Ok ip,
       bumpEtagLocked now' (set_registry s
         (<[base64Encode (NodeKey p) :=
            {| NodeKey := NodeKey p; DiscoKey := DiscoKey p; Name := Name p;
               TunnelIP := ip; Endpoints := Endpoints p; UpdatedAt := now |}]> (peers s))
         (<[Addr_String ip := base64Encode (NodeKey p)]> (byTunnel s))))) →
  P (Register ctx p now now' s).
Proof.
  intros Herr Hold Hnew. unfold Register. destruct ctx; [done|].
  destruct (Nat.eqb_spec (length (NodeKey p)) 32); simpl; [|done].
  destruct (peers s !! _) eqn:E; [by apply Hold|].
  destruct (allocateIPLocked s) eqn:Ea; [by apply Hnew|done].
Qed.

Lemma Register_reg_wf base bits ctx p now now' s :
  reg_wf base bits s → reg_wf base bits (Register ctx p now now' s).2.
Proof.
  intros [Hpool Hkey Hip Hby].
  apply (Register_cases (λ r, reg_wf base bits r.2)); simpl; [by split| |].
  - intros old _ Hlen Hold. split; simpl; [done|..].
    + intros k q [[<- <-]|[? Hq]]%lookup_insert_Some; [|by apply Hkey]. exact (Hkey _ _ Hold).
    + intros k q [[<- <-]|[? Hq]]%lookup_insert_Some; [|by apply Hip]. exact (Hip _ _ Hold).
    + intros t k Ht. destruct (Hby t k Ht) as (q & Hq & Hs).
      destruct (decide (k = base64Encode (NodeKey p))) as [->|Hne]; simplify_map_eq; eauto.
  - intros ip _ Hlen Hnone Ha. pose proof (allocate_answer _ _ _ Hpool) as Hans.
    rewrite Ha in Hans. destruct Hans as (y & -> & Hy & Hfree & _). unfold taken in Hfree.
    apply eq_None_not_Some in Hfree. change (Addr_String (AddrV4 y)) with (string4 y).
    split; simpl; [done|..].
    + intros k q [[<- <-]|[? Hq]]%lookup_insert_Some; [done|]. by apply Hkey.
    + intros k q [[<- <-]|[? Hq]]%lookup_insert_Some.
      { exists y. split_and!; [done|lia|lia|]. apply lookup_insert_eq. }
      destruct (Hip k q Hq) as (x & Hx & Hr & Hb). exists x. split_and!; try done; try lia.
      rewrite lookup_insert_ne; [done|]. congruence.
    + intros t k [[<- <-]|[? Ht]]%lookup_insert_Some.
      { eexists. split; [apply lookup_insert_eq|done]. }
      destruct (Hby t k Ht) as (q & Hq & Hs). exists q. split; [|done].
      rewrite lookup_insert_ne; [done|]. congruence.
Qed.

Lemma Register_heap_wf ctx p now now' s :
  Endpoints p = nil_slice → heap_wf s → heap_wf (Register ctx p now now' s).2.
Proof.
  intros Hnil [Hok Hdisj].
  apply (Register_cases (λ r, heap_wf r.2)); simpl; [by split|..].
  - intros old _ _ Hold. split; simpl.
    + intros k q [[<- <-]|[? Hq]]%lookup_insert_Some; [|by eapply Hok]. exact (Hok _ _ Hold).
    + intros k1 k2 p1 p2 i [[<- <-]|[? H1]]%lookup_insert_Some [[<- <-]|[? H2]]%lookup_insert_Some;
        simpl; eauto.
  - intros ip _ _ Hnone _. rewrite Hnil. split; simpl.
    + intros k q [[<- <-]|[? Hq]]%lookup_insert_Some; [done|]. by eapply Hok.
    + intros k1 k2 p1 p2 i [[<- <-]|[? H1]]%lookup_insert_Some [[<- <-]|[? H2]]%lookup_insert_Some;
        simpl; eauto; done.
Qed.

Lemma Register_chan_wf pend ctx p now now' s :
  chan_wf pend s → chan_wf pend (Register ctx p now now' s).2.
Proof.
  intros H. apply (Register_cases (λ r, chan_wf pend r.2)); simpl; [done|..];
    intros; apply bump_chan_wf; by apply (chan_wf_ext _ s).
Qed.

Lemma Register_mail ctx p now now' s :
  let s' := (Register ctx p now now' s).2 in
  signals s' = signals s ∧ signalWakes s' = signalWakes s ∧ maxQueueDepth s' = maxQueueDepth s ∧
  maxAge s' = maxAge s ∧ pool s' = pool s.
Proof.
  by apply (Register_cases (λ r, signals r.2 = signals s ∧ signalWakes r.2 = signalWakes s ∧
    maxQueueDepth r.2 = maxQueueDepth s ∧ maxAge r.2 = maxAge s ∧ pool r.2 = pool s)).
Qed.

(** *** [SetEndpoints] *)

Lemma SetEndpoints_cases `{Growslice} (P : result StoreError () * MemStore → Prop)
  ctx nodeKey eps now now' s :
  (∀ e, P (Err e, s)) →
  (∀ old sl h, ctx = None → peers s !! base64Encode nodeKey = Some old →
    slice_overwrite Endpoint_zero (eps_heap s) (Endpoints old) eps = (sl, h) →
    P (Ok (),
       bumpEtagLocked now' (set_heap (set_registry s
         (<[base64Encode nodeKey :=
            {| NodeKey := NodeKey old; DiscoKey := DiscoKey old; Name := Name old;
               TunnelIP := TunnelIP old; Endpoints := sl; UpdatedAt := now |}]> (peers s))
         (byTunnel s)) h))) →
  P (SetEndpoints ctx nodeKey eps now now' s).
Proof.
  intros Herr Hok. unfold SetEndpoints. destruct ctx; [done|].
  destruct (peers s !! _) eqn:E; [|done].
  destruct (slice_overwrite _ _ _ _) as [sl h] eqn:Es. by apply Hok.
Qed.

Lemma SetEndpoints_reg_wf `{Growslice} base bits ctx k eps now now' s :
  reg_wf base bits s → reg_wf base bits (SetEndpoints ctx k eps now now' s).2.
Proof.
  intros [Hpool Hkey Hip Hby].
  apply (SetEndpoints_cases (λ r, reg_wf base bits r.2)); simpl; [by split|].
  intros old sl h _ Hold _. split; simpl; [done|..].
  - intros k' q [[<- <-]|[? Hq]]%lookup_insert_Some; [|by apply Hkey]. exact (Hkey _ _ Hold).
  - intros k' q [[<- <-]|[? Hq]]%lookup_insert_Some; [|by apply Hip]. exact (Hip _ _ Hold).
  - intros t k' Ht. destruct (Hby t k' Ht) as (q & Hq & Hs).
    destruct (decide (k' = base64Encode k)) as [->|Hne]; simplify_map_eq; eauto.
Qed.

Lemma SetEndpoints_heap_wf `{Growslice} ctx k eps now now' s :
  heap_wf s → heap_wf (SetEndpoints ctx k eps now now' s).2.
Proof.
  intros [Hok Hdisj].
  apply (SetEndpoints_cases (λ r, heap_wf r.2)); simpl; [by split|].
  intros old sl h _ Hold Hw.
  assert (∀ k' q i, peers s !! k' = Some q → s_arr (Endpoints q) = Some i → (i < next_arr (eps_heap s))%nat)
    as Hbound.
  { intros k' q i Hq Hi. specialize (Hok k' q Hq). unfold slice_ok in Hok. rewrite Hi in Hok. naive_solver. }
  assert (∀ k' q, k' ≠ base64Encode k → peers s !! k' = Some q →
    s_arr (Endpoints q) = None ∨ s_arr (Endpoints q) ≠ s_arr (Endpoints old)) as Hne.
  { intros k' q Hk Hq. destruct (s_arr (Endpoints q)) as [i|] eqn:Ei; [right|by left].
    intros E. symmetry in E. apply Hk. by eapply Hdisj. }
  split; simpl.
  - intros k' q [[<- <-]|[? Hq]]%lookup_insert_Some; simpl.
    + eapply slice_overwrite_ok; [|done]. by eapply Hok.
    + eapply slice_overwrite_frame; [done|by eapply Hok|]. by eapply Hne.
  - pose proof (slice_overwrite_arr _ _ _ _ _ _ Hw) as Harr.
    intros k1 k2 p1 p2 i [[<- <-]|[? H1]]%lookup_insert_Some [[<- <-]|[? H2]]%lookup_insert_Some;
      simpl; intros E1 E2; [done|..].
    + destruct Harr as [E|E]; rewrite E1 in E.
      * by eapply Hdisj.
      * simplify_eq. specialize (Hbound k2 p2 _ H2 E2). lia.
    + destruct Harr as [E|E]; rewrite E2 in E.
      * by eapply Hdisj.
      * simplify_eq. specialize (Hbound k1 p1 _ H1 E1). lia.
    + by eapply Hdisj.
Qed.

Lemma SetEndpoints_chan_wf `{Growslice} pend ctx k eps now now' s :
  chan_wf pend s → chan_wf pend (SetEndpoints ctx k eps now now' s).2.
Proof.
  intros Hc. apply (SetEndpoints_cases (λ r, chan_wf pend r.2)); simpl; [done|].
  intros. apply bump_chan_wf. by apply (chan_wf_ext _ s).
Qed.

Lemma SetEndpoints_mail `{Growslice} ctx k eps now now' s :
  let s' := (SetEndpoints ctx k eps now now' s).2 in
  signals s' = signals s ∧ signalWakes s' = signalWakes s ∧ maxQueueDepth s' = maxQueueDepth s ∧
  maxAge s' = maxAge s ∧ pool s' = pool s.
Proof.
  by apply (SetEndpoints_cases (λ r, signals r.2 = signals s ∧ signalWakes r.2 = signalWakes s ∧
    maxQueueDepth r.2 = maxQueueDepth s ∧ maxAge r.2 = maxAge s ∧ pool r.2 = pool s)).
Qed.

(** *** The signal queues *)

Lemma Enqueue_chan_wf pend to env s wake s' :
  EnqueueSignal_locked to env s = (wake, s') → chan_wf pend s →
  chan_wf (option_list wake ++ pend) s'.
Proof.
  unfold EnqueueSignal_locked. intros [= <- <-] [Hpan Hfresh Hb Hw Hi Hpe Hnd].
  destruct (signalWakes s !! to) as [ch|] eqn:Ech; simpl.
  - destruct (Hw to ch Ech) as (H1 & H2 & H3 & H4). split; simpl; try done.
    + intros to' ch' [Hne Hch]%lookup_delete_Some.
      destruct (Hw to' ch' Hch) as (? & ? & ? & ?). split_and!; try done.
      apply not_elem_of_cons. split; [|done]. intros ->. apply Hne. by eapply Hi.
    + intros to1 to2 ch' [_ E1]%lookup_delete_Some [_ E2]%lookup_delete_Some. by eapply Hi.
    + intros ch' [->|Hch]%elem_of_cons; [done|]. by apply Hpe.
    + by constructor.
  - rewrite delete_id by done. by split.
Qed.

Lemma close_chan_wf pend1 ch pend2 s :
  chan_wf (pend1 ++ ch :: pend2) s → chan_wf (pend1 ++ pend2) (close_wake (Some ch) s).
Proof.
  intros [Hpan Hfresh Hb Hw Hi Hpe Hnd].
  assert (ch ∈ pend1 ++ ch :: pend2) as Hin by set_solver.
  destruct (Hpe ch Hin) as (H1 & H2 & H3).
  assert (ch ∉ pend1 ++ pend2) as Hnin.
  { apply NoDup_app in Hnd as (_ & Hd & Hc%NoDup_cons). destruct Hc as [Hc _].
    intros [Hx|Hx]%elem_of_app; [|done]. apply (Hd ch Hx). set_solver. }
  split; simpl.
  - rewrite Hpan. simpl. by apply bool_decide_eq_false.
  - intros c [->%elem_of_singleton|?%Hfresh]%elem_of_union; lia.
  - split; [|apply Hb]. apply not_elem_of_union. split; [set_solver|apply Hb].
  - intros to c Hc. destruct (Hw to c Hc) as (? & ? & ? & Hni).
    split_and!; try done; set_solver.
  - done.
  - intros c Hc. destruct (Hpe c) as (? & ? & ?); [set_solver|].
    split_and!; try done. apply not_elem_of_union. split; [|done].
    apply not_elem_of_singleton. congruence.
  - apply NoDup_app in Hnd as (N1 & Hd & [_ N2]%NoDup_cons).
    apply NoDup_app. split_and!; [done| |done]. intros c Hc. specialize (Hd c Hc). set_solver.
Qed.

Lemma Enqueue_queue_wf to env s :
  queue_wf s → queue_wf (EnqueueSignal_locked to env s).2.
Proof.
  intros [Hd Hl Hw]. split; simpl; [done|..].
  - intros to' q [[<- <-]|[Hne Hq]]%lookup_insert_Some; [|by eapply Hl].
    split; [by intros []%app_nil|]. rewrite length_app. simpl.
    assert (length (default [] (signals s !! to)) ≤ maxQueueDepth s)%nat.
    { destruct (signals s !! to) as [q|] eqn:E; simpl; [by eapply Hl|lia]. }
    destruct (Nat.leb_spec (maxQueueDepth s) (length (default [] (signals s !! to))));
      rewrite ?length_drop; lia.
  - intros to' ch [Hne Hch]%lookup_delete_Some. rewrite lookup_insert_ne by done. by eapply Hw.
Qed.

Lemma close_wake_queue_wf wake s : queue_wf s → queue_wf (close_wake wake s).
Proof. destruct wake; [|done]. by apply queue_wf_ext. Qed.

Lemma Pop_queue_wf ctx to now s : queue_wf s → queue_wf (PopSignals ctx to now s).2.
Proof.
  intros [Hd Hl Hw]. destruct ctx; simpl; [by split|]. split; simpl; [done|..].
  - intros to' q [_ Hq]%lookup_delete_Some. by eapply Hl.
  - intros to' ch Hch. apply lookup_delete_None. right. by eapply Hw.
Qed.

Lemma Pop_chan_wf pend ctx to now s : chan_wf pend s → chan_wf pend (PopSignals ctx to now s).2.
Proof. destruct ctx; simpl; [done|]. by apply chan_wf_ext. Qed.

Lemma Wait_chan_wf pend to s : chan_wf pend s → chan_wf pend (WaitForSignal to s).2.
Proof.
  intros Hs. unfold WaitForSignal. case_match; [done|]. destruct (signalWakes s !! to) eqn:E; [done|].
  destruct Hs as [Hpan Hfresh [Hb1 Hb2] Hw Hi Hpe Hnd]. split; simpl; try done.
  - intros ch ?%Hfresh. lia.
  - split; [done|lia].
  - intros to' ch [[<- <-]|[Hne Hch]]%lookup_insert_Some.
    + split_and!; [by intros ?%Hfresh; lia|lia|lia|]. intros (?&?&?)%Hpe. lia.
    + destruct (Hw to' ch Hch) as (? & ? & ? & ?). split_and!; try done; lia.
  - intros to1 to2 ch [[<- <-]|[? H1]]%lookup_insert_Some [[<- E2]|[? H2]]%lookup_insert_Some; try done.
    + apply Hw in H2 as (? & ? & _). lia.
    + subst ch. apply Hw in H1 as (? & ? & _). lia.
    + by eapply Hi.
  - intros ch (?&?&?)%Hpe. split_and!; try done. lia.
Qed.

Lemma Wait_queue_wf to s : queue_wf s → queue_wf (WaitForSignal to s).2.
Proof.
  intros Hs. unfold WaitForSignal. destruct (Nat.ltb_spec 0 (length (default [] (signals s !! to)))); [done|].
  destruct (signalWakes s !! to) eqn:E; [done|]. destruct Hs as [Hd Hl Hw].
  split; simpl; [done|done|].
  intros to' ch [[<- <-]|[Hne Hch]]%lookup_insert_Some; [|by eapply Hw].
  destruct (signals s !! to) as [q|] eqn:Eq; [|done].
  destruct (Hl to q Eq) as [Hne _]. destruct q; [done|]. simpl in *. lia.
Qed.

#[export] Hint Resolve Register_reg_wf Register_heap_wf Register_chan_wf SetEndpoints_reg_wf
  SetEndpoints_heap_wf SetEndpoints_chan_wf Enqueue_queue_wf close_wake_queue_wf Pop_queue_wf
  Pop_chan_wf Wait_chan_wf Wait_queue_wf : gretun.

(** ** What the operations do *)

(** The endpoints the registry holds for a key. *)
Definition endpoints_of (s : MemStore) (k : string) : option (list Endpoint) :=
  slice_read (eps_heap s) ∘ Endpoints <$> peers s !! k.

(** C1. Registering a node that is not known yet assigns the least address
    above the pool's own address that is neither taken nor the last of the
    pool, and files the peer under its key in both maps; when every such
    address is held by a registered peer it fails with the exhaustion error
    and changes nothing.  The allocation loop always ends. *)
Theorem register_new_peer base bits p now now' s r s' :
  reg_wf base bits s →
  length (NodeKey p) = 32%nat →
  peers s !! base64Encode (NodeKey p) = None →
  Register None p now now' s = (r, s') →
  match r with
  | Ok a => ∃ y, a = AddrV4 y ∧ base < y < last4 base bits ∧
      byTunnel s !! string4 y = None ∧
      (∀ z, base < z < y → ∃ k q, peers s !! k = Some q ∧ TunnelIP q = AddrV4 z) ∧
      (∃ q, peers s' !! base64Encode (NodeKey p) = Some q ∧ TunnelIP q = a ∧
            NodeKey q = NodeKey p ∧ DiscoKey q = DiscoKey p ∧ Name q = Name p) ∧
      byTunnel s' !! string4 y = Some (base64Encode (NodeKey p)) ∧
      (∀ k, k ≠ base64Encode (NodeKey p) → peers s' !! k = peers s !! k)
  | Err e => e = ErrPoolExhausted ∧ s' = s ∧
      ∀ z, base < z < last4 base bits → ∃ k q, peers s !! k = Some q ∧ TunnelIP q = AddrV4 z
  end.
Proof.
  intros Hwf Hlen Hnew Hreg. unfold Register in Hreg.
  rewrite Hlen, Hnew in Hreg. simpl in Hreg.
  pose proof (allocate_answer _ _ _ (rw_pool _ _ _ Hwf)) as Hans.
  assert (∀ z, base < z < last4 base bits → taken (byTunnel s) z →
    ∃ k q, peers s !! k = Some q ∧ TunnelIP q = AddrV4 z) as Hheld.
  { intros z Hz [k Hk]. destruct (rw_by _ _ _ Hwf _ _ Hk) as (q & Hq & Hs).
    exists k, q. split; [done|]. destruct (rw_ip _ _ _ Hwf _ _ Hq) as (x & Hx & Hr & _).
    rewrite Hx in Hs |- *. destruct (prefix4_bounds _ _ _ (rw_pool _ _ _ Hwf)).
    f_equal. apply string4_inj; [lia|lia|done]. }
  destruct (allocateIPLocked s) as [a|e]; simplify_eq/=.
  - destruct Hans as (y & -> & Hy & Hfree & Hbelow). exists y. split_and!; try done; try lia.
    + by apply eq_None_not_Some.
    + intros z Hz. apply Hheld; [lia|]. apply Hbelow. lia.
    + eexists. split; [apply lookup_insert_eq|done].
    + apply lookup_insert_eq.
    + intros k Hk. by rewrite lookup_insert_ne.
  - destruct Hans as [-> Hall]. split_and!; [done|done|].
    intros z Hz. apply Hheld; [done|]. apply Hall. lia.
Qed.

(** Registering a known node again returns the address it already has and
    keeps its node key and endpoints; only the disco key, the name and the
    time stamp are replaced, and no other peer is touched. *)
Lemma reregister_keeps_ip p now now' s old :
  length (NodeKey p) = 32%nat →
  peers s !! base64Encode (NodeKey p) = Some old →
  ∃ s', Register None p now now' s = (Ok (TunnelIP old), s') ∧
    peers s' !! base64Encode (NodeKey p) =
      Some {| NodeKey := NodeKey old; DiscoKey := DiscoKey p; Name := Name p;
              TunnelIP := TunnelIP old; Endpoints := Endpoints old; UpdatedAt := now |} ∧
    endpoints_of s' (base64Encode (NodeKey p)) = endpoints_of s (base64Encode (NodeKey p)) ∧
    (∀ k, k ≠ base64Encode (NodeKey p) → peers s' !! k = peers s !! k) ∧
    byTunnel s' = byTunnel s.
Proof.
  intros Hlen Hold. unfold Register. rewrite Hlen, Hold. simpl.
  eexists. split; [done|]. simpl. split_and!; [apply lookup_insert_eq| | |done].
  - unfold endpoints_of. simpl. by rewrite lookup_insert_eq, Hold.
  - intros k Hk. by rewrite lookup_insert_ne.
Qed.

(** [SetEndpoints] makes the registry show exactly the posted endpoints for
    the caller, and leaves every other peer's record and visible endpoints as
    they were, although all endpoint slices live in one heap and the caller's
    array is overwritten in place. *)
Lemma SetEndpoints_effect `{Growslice} nodeKey eps now now' s old :
  heap_wf s →
  peers s !! base64Encode nodeKey = Some old →
  ∃ s', SetEndpoints None nodeKey eps now now' s = (Ok (), s') ∧
    endpoints_of s' (base64Encode nodeKey) = Some eps ∧
    (∀ k, k ≠ base64Encode nodeKey →
       peers s' !! k = peers s !! k ∧ endpoints_of s' k = endpoints_of s k).
Proof.
  intros Hwf Hold. unfold SetEndpoints. rewrite Hold.
  destruct (slice_overwrite _ _ _ _) as [sl h] eqn:Hw. eexists. split; [done|].
  unfold endpoints_of. simpl. rewrite lookup_insert_eq. simpl. split.
  - f_equal. eapply slice_overwrite_ok; [|done]. by eapply hw_ok.
  - intros k Hk. rewrite lookup_insert_ne by done. split; [done|].
    destruct (peers s !! k) as [q|] eqn:Hq; [|done]. simpl. f_equal.
    eapply slice_overwrite_frame; [done|by eapply hw_ok|].
    destruct (s_arr (Endpoints q)) as [i|] eqn:Ei; [right|by left].
    intros E. symmetry in E. apply Hk. by eapply (hw_disj _ Hwf).
Qed.

(** The structs [Peers] copies out still share the endpoint arrays.  When
    the new list fits the old capacity, a [SetEndpoints] after the copy
    changes what the copy shows: the new endpoints followed by the tail of
    the old ones, a list that was never posted. *)
Theorem peers_snapshot_overwritten `{Growslice} nodeKey eps now now' s old :
  heap_wf s →
  peers s !! base64Encode nodeKey = Some old →
  (length eps ≤ s_len (Endpoints old))%nat →
  slice_read (eps_heap (SetEndpoints None nodeKey eps now now' s).2) (Endpoints old)
  = eps ++ drop (length eps) (slice_read (eps_heap s) (Endpoints old)).
Proof.
  intros Hwf Hold Hle. pose proof (hw_ok _ Hwf _ _ Hold) as Hok.
  unfold SetEndpoints. rewrite Hold. unfold slice_overwrite, slice_ok, slice_read in *.
  destruct (s_arr (Endpoints old)) as [i|] eqn:Ei.
  - destruct Hok as (Hi & Hlc & l & Hl & Hlen).
    rewrite (proj2 (Nat.leb_le _ _)) by lia. simpl.
    rewrite lookup_insert_eq, Hl. simpl.
    rewrite take_app, take_ge by lia. f_equal.
    rewrite take_drop_commute. do 2 f_equal. lia.
  - destruct Hok as [E1 E2]. destruct eps; [|simpl in *; lia].
    done.
Qed.

(** *** The sorted peer list *)

Lemma Less_false a b : Less b a = false ↔
  match a, b with
  | AddrV4 x, AddrV4 y => x ≤ y
  | AddrV6 x z, AddrV6 y w => x < y ∨ x = y ∧ String.le z w
  | _, _ => BitLen a ≤ BitLen b
  end.
Proof.
  unfold Less, Compare. destruct a as [|x|x z], b as [|y|y w]; simpl; try naive_solver lia.
  - destruct (Z.compare_spec y x); naive_solver lia.
  - unfold String.le, String.leb. rewrite (String.compare_antisym z w).
    destruct (Z.compare_spec y x); destruct (String.compare w z); simpl; naive_solver lia.
Qed.

#[export] Instance tunnel_le_total : Total tunnel_le.
Proof.
  intros p q. unfold tunnel_le. rewrite !Less_false.
  destruct (TunnelIP p) as [|x|x z], (TunnelIP q) as [|y|y w]; simpl; try lia.
  destruct (total String.le z w), (Z.lt_trichotomy x y) as [?|[?|?]]; naive_solver.
Qed.

#[export] Instance tunnel_le_trans : Transitive tunnel_le.
Proof.
  intros p q r. unfold tunnel_le. rewrite !Less_false.
  destruct (TunnelIP p) as [|x|x z], (TunnelIP q) as [|y|y w], (TunnelIP r) as [|u|u v];
    simpl; try lia.
  intros [?|[-> ?]] [?|[-> ?]]; [left; lia|by left|by left|]. right. split; [done|]. by etrans.
Qed.

Section SortedPeers.
Context (base bits : Z) (s : MemStore) (Hwf : reg_wf base bits s).

Definition peer_values (s : MemStore) : list Peer := (map_to_list (peers s)).*2.

Lemma peer_values_elem p : p ∈ peer_values s ↔ ∃ k, peers s !! k = Some p.
Proof.
  unfold peer_values. rewrite list_elem_of_fmap. split.
  - intros ([k q] & -> & H%elem_of_map_to_list). eauto.
  - intros (k & H%elem_of_map_to_list). by exists (k, p).
Qed.

Lemma peer_ip_inj k1 k2 p1 p2 :
  peers s !! k1 = Some p1 → peers s !! k2 = Some p2 → TunnelIP p1 = TunnelIP p2 → k1 = k2.
Proof.
  intros H1 H2 E.
  destruct (rw_ip _ _ _ Hwf _ _ H1) as (x & E1 & _ & B1).
  destruct (rw_ip _ _ _ Hwf _ _ H2) as (y & E2 & _ & B2). congruence.
Qed.

(** On the registered peers [tunnel_le] is the order of the addresses. *)
Lemma tunnel_le_values p q : p ∈ peer_values s → q ∈ peer_values s →
  ∃ x y, TunnelIP p = AddrV4 x ∧ TunnelIP q = AddrV4 y ∧ (tunnel_le p q ↔ x ≤ y).
Proof.
  intros (k1 & H1)%peer_values_elem (k2 & H2)%peer_values_elem.
  destruct (rw_ip _ _ _ Hwf _ _ H1) as (x & E1 & _).
  destruct (rw_ip _ _ _ Hwf _ _ H2) as (y & E2 & _).
  exists x, y. split_and!; try done. unfold tunnel_le, Less, Compare. rewrite E1, E2. simpl.
  destruct (Z.compare_spec y x); naive_solver lia.
Qed.

Lemma tunnel_le_antisym p q : p ∈ peer_values s → q ∈ peer_values s →
  tunnel_le p q → tunnel_le q p → p = q.
Proof.
  intros Hp Hq L1 L2.
  destruct (tunnel_le_values p q Hp Hq) as (x & y & E1 & E2 & L).
  destruct (tunnel_le_values q p Hq Hp) as (y' & x' & E2' & E1' & L').
  apply peer_values_elem in Hp as (k1 & H1). apply peer_values_elem in Hq as (k2 & H2).
  assert (k1 = k2) as ->; [|congruence]. eapply peer_ip_inj; [done..|].
  rewrite E1, E2. f_equal. rewrite E1 in E1'. rewrite E2 in E2'. simplify_eq.
  apply L in L1. apply L' in L2. lia.
Qed.

End SortedPeers.

(** [Peers] lists every registered peer once, in increasing order of tunnel
    address, whatever order the map is iterated in: the result is the only
    list that [sort.Slice] can produce from any iteration order. *)
Lemma peers_list_canonical base bits s l etag :
  reg_wf base bits s →
  Peers None s = Ok (l, etag) →
  l ≡ₚ (map_to_list (peers s)).*2 ∧ StronglySorted tunnel_le l ∧ etag = peersEtag s ∧
  ∀ iteration sorted, iteration ≡ₚ (map_to_list (peers s)).*2 →
    sorted ≡ₚ iteration → StronglySorted tunnel_le sorted → sorted = l.
Proof.
  intros Hwf [= <- <-]. fold (peer_values s).
  pose proof (merge_sort_Permutation tunnel_le (peer_values s)) as HP.
  pose proof (Sorted_StronglySorted _ _ (Sorted_merge_sort tunnel_le (peer_values s))) as HS.
  split_and!; [done|done|done|].
  intros it sorted Hit Hsp Hss. apply (StronglySorted_unique_strong tunnel_le); [|done|done|].
  - intros x y Hx Hy. apply (tunnel_le_antisym _ _ _ Hwf); [by rewrite <- Hit, <- Hsp|by rewrite <- HP].
  - by rewrite HP, <- Hit.
Qed.

(** ** The relay queues refine an unbounded mailbox

    The specification keeps every envelope sent to a recipient since its last
    pull; a pull returns, in order of arrival, those of the last
    [maxQueueDepth] that are younger than [maxAge]. *)

Inductive mail_op := MEnqueue (to : key32) (env : Envelope) | MPop (to : key32) (now : Z).

Definition fresh (maxAge now : Z) (e : Envelope) : Prop := now - maxAge < Enqueue e.
#[export] Instance fresh_dec maxAge now e : Decision (fresh maxAge now e).
Proof. unfold fresh. apply _. Defined.

Definition mail_spec_step (depth : nat) (maxAge : Z) (op : mail_op) (h : gmap key32 (list Envelope))
  : list Envelope * gmap key32 (list Envelope) :=
  match op with
  | MEnqueue to env => ([], <[to := default [] (h !! to) ++ [env]]> h)
  | MPop to now => (filter (fresh maxAge now) (lastn depth (default [] (h !! to))), delete to h)
  end.

Definition mail_step (op : mail_op) (s : MemStore) : list Envelope * MemStore :=
  match op with
  | MEnqueue to env => ([], (EnqueueSignal None to env s).2)
  | MPop to now => let '(r, s') := PopSignals None to now s in
                   (match r with Ok l => l | Err _ => [] end, s')
  end.

(** The outputs of a sequence of operations. *)
Fixpoint run_ops {S} (step : mail_op → S → list Envelope * S) (ops : list mail_op) (s : S)
  : list (list Envelope) :=
  match ops with
  | [] => []
  | op :: ops => let '(out, s') := step op s in out :: run_ops step ops s'
  end.

(** The queues are the windows of the histories. *)
Definition mail_rel (s : MemStore) (h : gmap key32 (list Envelope)) : Prop :=
  ∀ to, default [] (signals s !! to) = lastn (maxQueueDepth s) (default [] (h !! to)).

Lemma lookup_insert_default {A} (m : gmap key32 (list A)) k k' v :
  default [] (<[k := v]> m !! k') = if decide (k = k') then v else default [] (m !! k').
Proof. rewrite lookup_insert. by case_decide. Qed.

Lemma mail_step_simulates op s h out s' :
  (0 < maxQueueDepth s)%nat → mail_rel s h → mail_step op s = (out, s') →
  ∃ h', mail_spec_step (maxQueueDepth s) (maxAge s) op h = (out, h') ∧ mail_rel s' h' ∧
        maxQueueDepth s' = maxQueueDepth s ∧ maxAge s' = maxAge s.
Proof.
  intros Hd Hrel Hstep. destruct op as [to env|to now]; simpl in *; simplify_eq.
  - eexists. split; [done|]. split.
    + intros to'.
      replace (default [] (signals (close_wake _ _) !! to'))
        with (default [] (signals (EnqueueSignal_locked to env s).2 !! to'))
        by (simpl; by destruct (signalWakes s !! to)).
      replace (maxQueueDepth (close_wake _ _)) with (maxQueueDepth s)
        by (by destruct (signalWakes s !! to)).
      simpl. rewrite !lookup_insert_default. case_decide; [|apply Hrel].
      subst to'. rewrite lastn_snoc by done. by rewrite <- !Hrel.
    + by destruct (signalWakes s !! to).
  - eexists. split; [|split; [|done]].
    + f_equal. rewrite <- Hrel. apply list_filter_iff. intros e.
      unfold fresh, GoTime.After, GoTime.Add. rewrite Z.ltb_lt. lia.
    + intros to'. simpl. rewrite !lookup_delete. case_decide; [|apply Hrel].
      done.
Qed.

Lemma run_ops_refines ops s h :
  (0 < maxQueueDepth s)%nat → mail_rel s h →
  run_ops mail_step ops s = run_ops (mail_spec_step (maxQueueDepth s) (maxAge s)) ops h.
Proof.
  revert s h. induction ops as [|op ops IH]; intros s h Hd Hrel; [done|]. cbn [run_ops].
  destruct (mail_step op s) as [out s'] eqn:Hs.
  destruct (mail_step_simulates op s h out s' Hd Hrel Hs) as (h' & -> & Hrel' & E1 & E2).
  f_equal. rewrite <- E1, <- E2. apply IH; [by rewrite E1|done].
Qed.

(** C3. For every sequence of sends and pulls, on all recipients interleaved,
    the relay of a new store answers exactly as the mailbox specification:
    first in first out per recipient, only the newest 64 kept, envelopes of
    30 seconds or older dropped on pull, nothing delivered twice or to
    another recipient. *)
Theorem relay_refines_mailbox p now ops :
  run_ops mail_step ops (NewMemStore p now)
  = run_ops (mail_spec_step 64 (30 * GoTime.Second)) ops ∅.
Proof. by apply (run_ops_refines ops (NewMemStore p now) ∅); [simpl; lia|]. Qed.

(** ** A concrete store, for the witnesses *)

Definition demo_pool : Prefix := {| pfx_addr := AddrV4 0x0a000000; pfx_bits := 29 |}.
Definition demo_peer (b : byte) : Peer :=
  {| NodeKey := replicate 32 b; DiscoKey := vreplicate 32 b; Name := "node";
     TunnelIP := AddrZero; Endpoints := nil_slice; UpdatedAt := 0 |}.
Definition demo_ep (port : Z) : Endpoint :=
  {| ep_Addr := {| ap_Addr := AddrV4 0x01020304; ap_Port := port |}; ep_Source := SourceSTUN |}.
(** One registered peer, with two endpoints posted. *)
Definition demo_registered : MemStore :=
  (Register None (demo_peer x01) 1 2 (NewMemStore demo_pool 0)).2.
Definition demo_store : MemStore :=
  (@SetEndpoints exact_growslice None (replicate 32 x01) [demo_ep 1; demo_ep 2] 3 4
     demo_registered).2.
Definition demo_old : Peer :=
  {| NodeKey := replicate 32 x01; DiscoKey := vreplicate 32 x01; Name := "node";
     TunnelIP := AddrV4 0x0a000001; Endpoints := Slice (Some 0%nat) 2 2; UpdatedAt := 3 |}.

Lemma demo_prefix4 : prefix4 demo_pool 0x0a000000 29.
Proof. split; [done|]. lia. Qed.

Lemma demo_reg_wf : reg_wf 0x0a000000 29 demo_store.
Proof. apply SetEndpoints_reg_wf, Register_reg_wf, NewMemStore_wf, demo_prefix4. Qed.

Lemma demo_heap_wf : heap_wf demo_store.
Proof.
  apply SetEndpoints_heap_wf, Register_heap_wf; [done|].
  by apply (NewMemStore_wf _ _ _ _ demo_prefix4).
Qed.

Lemma demo_old_registered : peers demo_store !! base64Encode (replicate 32 x01) = Some demo_old.
Proof. vm_compute. reflexivity. Qed.

Lemma register_new_peer_witness :
  ∃ y, AddrV4 0x0a000002 = AddrV4 y ∧ 0x0a000000 < y < last4 0x0a000000 29 ∧
       byTunnel demo_store !! string4 y = None.
Proof.
  assert (Register None (demo_peer x02) 5 6 demo_store =
    (Ok (AddrV4 0x0a000002), (Register None (demo_peer x02) 5 6 demo_store).2)) as H.
  { rewrite (surjective_pairing (Register None (demo_peer x02) 5 6 demo_store)) at 1.
    apply (f_equal2 pair); [vm_compute; reflexivity|reflexivity]. }
  destruct (register_new_peer _ _ (demo_peer x02) 5 6 demo_store _ _ demo_reg_wf eq_refl
    ltac:(vm_compute; reflexivity) H)
    as (y & H1 & H2 & H3 & _).
  exact (ex_intro _ y (conj H1 (conj H2 H3))).
Defined.

Lemma peers_snapshot_overwritten_witness :
  slice_read (eps_heap (@SetEndpoints exact_growslice None (replicate 32 x01) [demo_ep 9] 5 6
    demo_store).2) (Endpoints demo_old) = [demo_ep 9; demo_ep 2].
Proof.
  rewrite (@peers_snapshot_overwritten exact_growslice (replicate 32 x01) [demo_ep 9] 5 6 demo_store
    demo_old demo_heap_wf demo_old_registered ltac:(simpl; lia)).
  vm_compute. reflexivity.
Defined.

