(* ===== verification/CoordConc.v ===== *)
(** * The store under concurrent handlers

    The coordinator serves requests on many goroutines.  A configuration is
    the store together with what the goroutines hold between two critical
    sections: the wake channels that [EnqueueSignal] has removed from the map
    and will close after releasing [signalMu], and the goroutines blocked in
    [WaitForSignal] and [WaitForPeersChange].  One [step] is one critical
    section, one deferred close, or the return of a blocked goroutine, in any
    order. *)

From S2P Require Import Prelude.
From S2P Require Import Encoding.
From S2P Require Import NetIP.
From S2P Require Import GoSlice.
From S2P Require Import CoordStore.


Record Conf := MkConf {
  store : MemStore;
  to_close : list nat;
  sig_waiters : list (key32 * nat);
  peer_waiters : list (string * nat)
}.

Definition set_store (c : Conf) (s : MemStore) : Conf :=
  MkConf s (to_close c) (sig_waiters c) (peer_waiters c).

Definition init_conf (p : Prefix) (now : Z) : Conf := MkConf (NewMemStore p now) [] [] [].

(** What [handleRegister] builds from the request. *)
Definition request_peer (p : Peer) : Prop := Endpoints p = nil_slice.

Section Steps.
Context `{Growslice}.

Inductive step (c : Conf) : Conf → Prop :=
| StRegister ctx p now now' :
    request_peer p →
    step c (set_store c (Register ctx p now now' (store c)).2)
| StSetEndpoints ctx k eps now now' :
    step c (set_store c (SetEndpoints ctx k eps now now' (store c)).2)
| StEnqueue to env wake s' :
    EnqueueSignal_locked to env (store c) = (wake, s') →
    step c (MkConf s' (option_list wake ++ to_close c) (sig_waiters c) (peer_waiters c))
| StClose l1 ch l2 :
    to_close c = l1 ++ ch :: l2 →
    step c (MkConf (close_wake (Some ch) (store c)) (l1 ++ l2) (sig_waiters c) (peer_waiters c))
| StPop ctx to now :
    step c (set_store c (PopSignals ctx to now (store c)).2)
| StWaitSignal to w s' :
    WaitForSignal to (store c) = (w, s') →
    step c (MkConf s' (to_close c)
      (match w with WaitOn ch => (to, ch) :: sig_waiters c | WaitDone => sig_waiters c end)
      (peer_waiters c))
| StWaitPeers since :
    step c (MkConf (store c) (to_close c) (sig_waiters c)
      (match WaitForPeersChange since (store c) with
       | WaitOn ch => (since, ch) :: peer_waiters c
       | WaitDone => peer_waiters c end))
| StSignalReturns l1 w l2 (timeout : bool) :
    sig_waiters c = l1 ++ w :: l2 → can_recv w.2 (chans (store c)) || timeout = true →
    step c (MkConf (store c) (to_close c) (l1 ++ l2) (peer_waiters c))
| StPeersReturns l1 w l2 (timeout : bool) :
    peer_waiters c = l1 ++ w :: l2 → can_recv w.2 (chans (store c)) || timeout = true →
    step c (MkConf (store c) (to_close c) (sig_waiters c) (l1 ++ l2)).

(** ** The invariant of reachable configurations *)

Record conf_wf (base bits : Z) (c : Conf) : Prop := {
  fw_reg : reg_wf base bits (store c);
  fw_heap : heap_wf (store c);
  fw_chan : chan_wf (to_close c) (store c);
  fw_queue : queue_wf (store c);
  fw_sig to ch : (to, ch) ∈ sig_waiters c →
    ch ∈ closed (chans (store c)) ∨ ch ∈ to_close c ∨ signalWakes (store c) !! to = Some ch;
  fw_peers since ch : (since, ch) ∈ peer_waiters c →
    ch ∈ closed (chans (store c)) ∨ ch = peersBroad (store c) ∧ peersEtag (store c) = since
}.

(** A registry operation either changes no channel or is a bump. *)
Definition registry_change (s s' : MemStore) : Prop :=
  signals s' = signals s ∧ signalWakes s' = signalWakes s ∧ maxQueueDepth s' = maxQueueDepth s ∧
  (chans s' = chans s ∧ peersBroad s' = peersBroad s ∧ peersEtag s' = peersEtag s ∨
   closed (chans s') = {[peersBroad s]} ∪ closed (chans s)).

Lemma Register_change ctx p now now' s : registry_change s (Register ctx p now now' s).2.
Proof.
  apply (Register_cases (λ r, registry_change s r.2)); unfold registry_change; simpl;
    intros; split_and!; auto.
Qed.

Lemma SetEndpoints_change ctx k eps now now' s :
  registry_change s (SetEndpoints ctx k eps now now' s).2.
Proof.
  apply (SetEndpoints_cases (λ r, registry_change s r.2)); unfold registry_change; simpl;
    intros; split_and!; auto.
Qed.

Lemma registry_change_wf base bits c s' :
  conf_wf base bits c → registry_change (store c) s' →
  reg_wf base bits s' → heap_wf s' → chan_wf (to_close c) s' →
  conf_wf base bits (set_store c s').
Proof.
  intros [_ _ _ Hq Hsig Hpeers] (E1 & E2 & E3 & Hch) Hr Hh Hc. split; simpl; try done.
  - by apply (queue_wf_ext (store c)).
  - intros to ch Hin. rewrite E2. destruct (Hsig to ch Hin) as [?|[?|?]]; [left|by eauto..].
    destruct Hch as [(-> & _)| ->]; [done|set_solver].
  - intros since ch Hin. destruct (Hpeers since ch Hin) as [?|[He Hs]].
    + left. destruct Hch as [(-> & _)| ->]; [done|set_solver].
    + destruct Hch as [(_ & -> & ->)| ->]; [by right|left; rewrite He; set_solver].
Qed.

Lemma elem_of_remove {A} (x : A) l1 y l2 : x ∈ l1 ++ l2 → x ∈ l1 ++ y :: l2.
Proof. set_solver. Qed.

(** The registry and the endpoint arrays are untouched. *)
Definition reg_heap_same (s s' : MemStore) : Prop :=
  pool s' = pool s ∧ peers s' = peers s ∧ byTunnel s' = byTunnel s ∧ eps_heap s' = eps_heap s.

Lemma enqueue_step_wf base bits c to env wake s' :
  conf_wf base bits c → EnqueueSignal_locked to env (store c) = (wake, s') →
  conf_wf base bits (MkConf s' (option_list wake ++ to_close c) (sig_waiters c) (peer_waiters c)).
Proof.
  intros [Hr Hh Hc Hq Hsig Hpeers] He.
  pose proof (Enqueue_chan_wf _ _ _ _ _ _ He Hc) as Hc'.
  pose proof (Enqueue_queue_wf to env _ Hq) as Hq'. rewrite He in Hq'.
  unfold EnqueueSignal_locked in He. simplify_eq/=. split; simpl; try done.
  - by apply (reg_wf_ext _ _ (store c)).
  - by apply (heap_wf_ext (store c)).
  - intros to' ch Hin. destruct (Hsig to' ch Hin) as [?|[?|Hw]]; [by left|..].
    + right; left. set_solver.
    + right. rewrite lookup_delete. case_decide; subst; [left; rewrite Hw; set_solver|by right].
Qed.

Lemma close_step_wf base bits c l1 ch l2 :
  conf_wf base bits c → to_close c = l1 ++ ch :: l2 →
  conf_wf base bits
    (MkConf (close_wake (Some ch) (store c)) (l1 ++ l2) (sig_waiters c) (peer_waiters c)).
Proof.
  intros [Hr Hh Hc Hq Hsig Hpeers] El. rewrite El in Hc.
  pose proof (close_chan_wf _ _ _ _ Hc) as Hc'. split; simpl; try done.
  - by apply (reg_wf_ext _ _ (store c)).
  - by apply (heap_wf_ext (store c)).
  - by apply (queue_wf_ext (store c)).
  - intros to ch' Hin. destruct (Hsig to ch' Hin) as [?|[Hx|?]]; [set_solver| |by eauto].
    rewrite El in Hx. set_solver.
  - intros since ch' Hin. destruct (Hpeers since ch' Hin) as [?|?]; [set_solver|by right].
Qed.

(** What the critical section of [WaitForSignal] changes. *)
Lemma WaitForSignal_effect to s w s' :
  WaitForSignal to s = (w, s') →
  closed (chans s') = closed (chans s) ∧ peersBroad s' = peersBroad s ∧
  peersEtag s' = peersEtag s ∧ reg_heap_same s s' ∧
  (∀ to' ch, signalWakes s !! to' = Some ch → signalWakes s' !! to' = Some ch) ∧
  (∀ ch, w = WaitOn ch → signalWakes s' !! to = Some ch).
Proof.
  unfold WaitForSignal, reg_heap_same. intros Hw.
  repeat case_match; simplify_eq/=; split_and!; try naive_solver.
  - unfold make_chan in *. by simplify_eq.
  - intros to' ch' Hto. rewrite lookup_insert_ne; [done|]. congruence.
  - intros ? [= <-]. apply lookup_insert_eq.
Qed.

Lemma wait_step_wf base bits c to w s' :
  conf_wf base bits c → WaitForSignal to (store c) = (w, s') →
  conf_wf base bits (MkConf s' (to_close c)
    (match w with WaitOn ch => (to, ch) :: sig_waiters c | WaitDone => sig_waiters c end)
    (peer_waiters c)).
Proof.
  intros [Hr Hh Hc Hq Hsig Hpeers] Hw.
  pose proof (Wait_chan_wf _ to _ Hc) as Hc'. pose proof (Wait_queue_wf to _ Hq) as Hq'.
  rewrite Hw in Hc', Hq'. simpl in *.
  destruct (WaitForSignal_effect _ _ _ _ Hw) as (E1 & E2 & E3 & (E4 & E5 & E6 & E7) & E8 & E9).
  split; simpl; try done.
  - by apply (reg_wf_ext _ _ (store c)).
  - by apply (heap_wf_ext (store c)).
  - rewrite E1. intros to' ch Hin.
    assert ((to', ch) ∈ sig_waiters c ∨ to' = to ∧ w = WaitOn ch) as [Hold|[-> ->]]
      by (destruct w; set_solver).
    + destruct (Hsig _ _ Hold) as [?|[?|?]]; eauto.
    + right; right. by apply E9.
  - by rewrite E1, E2, E3.
Qed.

Lemma step_wf base bits c c' : conf_wf base bits c → step c c' → conf_wf base bits c'.
Proof.
  intros Hwf Hstep. pose proof Hwf as [Hr Hh Hc Hq Hsig Hpeers].
  destruct Hstep as [ctx p now now' Hp|ctx k eps now now'|to env wake s' He|l1 ch l2 El|ctx to now
    |to w s' Hw|since|l1 w l2 tmo El _|l1 w l2 tmo El _].
  - apply registry_change_wf; eauto using Register_change with gretun.
  - apply registry_change_wf; eauto using SetEndpoints_change with gretun.
  - by eapply enqueue_step_wf.
  - by eapply close_step_wf.
  - split; simpl; eauto with gretun; destruct ctx; simpl; try done.
    + by apply (reg_wf_ext _ _ (store c)).
    + by apply (heap_wf_ext (store c)).
  - by eapply wait_step_wf.
  - split; simpl; try done. intros since' ch. unfold WaitForPeersChange.
    case_decide as Hne; [exact (Hpeers since' ch)|].
    intros [[= -> ->]|Hin]%elem_of_cons; [|by apply Hpeers].
    by right.
  - split; simpl; try done. intros to ch Hin. apply Hsig. rewrite El. by apply elem_of_remove.
  - split; simpl; try done. intros to ch Hin. apply Hpeers. rewrite El. by apply elem_of_remove.
Qed.

Lemma reachable_wf p base bits now c :
  prefix4 p base bits → rtc step (init_conf p now) c → conf_wf base bits c.
Proof.
  intros Hp. apply rtc_ind_r with (P := conf_wf base bits).
  - destruct (NewMemStore_wf p base bits now Hp) as (?&?&?&?).
    split; try done; simpl; set_solver.
  - intros c1 c2 _ Hs Hwf. by eapply step_wf.
Qed.

(** A registered node stays registered, under the same key and address. *)
Lemma step_stable c c' k p :
  step c c' → peers (store c) !! k = Some p →
  ∃ p', peers (store c') !! k = Some p' ∧ TunnelIP p' = TunnelIP p ∧ NodeKey p' = NodeKey p.
Proof.
  intros Hstep Hk.
  destruct Hstep as [ctx q now now' Hq|ctx nk eps now now'|to env wake s' He|l1 ch l2 El|ctx to now
    |to w s' Hw|since|l1 w l2 tmo El _|l1 w l2 tmo El _]; simpl; eauto.
  - apply (Register_cases (λ r, ∃ p', peers r.2 !! k = Some p' ∧ _ ∧ _)); simpl; [by eauto|..].
    + intros old _ _ Hold. rewrite lookup_insert. case_decide; subst; [|by eauto].
      simplify_eq. eauto.
    + intros ip _ _ Hnone _. rewrite lookup_insert_ne by congruence. eauto.
  - apply (SetEndpoints_cases (λ r, ∃ p', peers r.2 !! k = Some p' ∧ _ ∧ _)); simpl; [by eauto|].
    intros old sl h _ Hold _. rewrite lookup_insert. case_decide; subst; [|by eauto].
    simplify_eq. eauto.
  - unfold EnqueueSignal_locked in He. simplify_eq/=. eauto.
  - destruct ctx; simpl; eauto.
  - destruct (WaitForSignal_effect _ _ _ _ Hw) as (_ & _ & _ & (_ & -> & _) & _). eauto.
Qed.

(** ** Claims *)

(** C2. In every configuration reachable from a new store with an IPv4 pool, by
    any interleaving of registrations, endpoint updates, sends, pulls and
    waits, two registered nodes never share a tunnel address, and every
    address lies strictly between the pool's own address and its last one. *)
Theorem tunnel_ips_unique p base bits now c :
  prefix4 p base bits → rtc step (init_conf p now) c →
  (∀ k q, peers (store c) !! k = Some q →
     ∃ x, TunnelIP q = AddrV4 x ∧ base < x < last4 base bits) ∧
  (∀ k1 k2 q1 q2, peers (store c) !! k1 = Some q1 → peers (store c) !! k2 = Some q2 →
     TunnelIP q1 = TunnelIP q2 → k1 = k2 ∧ NodeKey q1 = NodeKey q2).
Proof.
  intros Hp Hr. pose proof (fw_reg _ _ _ (reachable_wf _ _ _ _ _ Hp Hr)) as Hwf. split.
  - intros k q Hk. destruct (rw_ip _ _ _ Hwf _ _ Hk) as (x & ? & ? & _). eauto.
  - intros k1 k2 q1 q2 H1 H2 E.
    assert (k1 = k2) as -> by (by eapply peer_ip_inj). split; [done|]. congruence.
Qed.

(** Whatever happens later, a node that is registered keeps its entry, its
    node key and its tunnel address. *)
Theorem tunnel_ip_stable c c' k q :
  rtc step c c' → peers (store c) !! k = Some q →
  ∃ q', peers (store c') !! k = Some q' ∧ TunnelIP q' = TunnelIP q ∧ NodeKey q' = NodeKey q.
Proof.
  intros Hr. revert q. induction Hr as [c|c1 c2 c3 Hs _ IH]; intros q Hq; [by eauto|].
  destruct (step_stable _ _ _ _ Hs Hq) as (q2 & Hq2 & E1 & E2).
  destruct (IH q2 Hq2) as (q3 & ? & ? & ?). exists q3. split_and!; congruence.
Qed.

(** C14. No interleaving closes a channel twice, which would panic and take the
    coordinator down: neither the broadcast channel of the peer list nor a
    wake channel, although [EnqueueSignal] closes it outside the lock. *)
Theorem no_double_close p base bits now c :
  prefix4 p base bits → rtc step (init_conf p now) c → panicked (chans (store c)) = false.
Proof. intros Hp Hr. eapply cw_panic, fw_chan, reachable_wf; eauto. Qed.

(** C12. No lost wake-up on the relay: a goroutine blocked in [WaitForSignal]
    while its queue is not empty has been woken, or one pending close of its
    channel wakes it. *)
Theorem signal_wakeup_not_lost p base bits now c to ch :
  prefix4 p base bits → rtc step (init_conf p now) c →
  (to, ch) ∈ sig_waiters c → signals (store c) !! to ≠ None →
  ∃ c', rtc step c c' ∧ (to, ch) ∈ sig_waiters c' ∧ can_recv ch (chans (store c')) = true ∧
        signals (store c') = signals (store c).
Proof.
  intros Hp Hr Hin Hne. pose proof (reachable_wf _ _ _ _ _ Hp Hr) as Hwf.
  destruct (fw_sig _ _ _ Hwf _ _ Hin) as [Hc|[Hc|Hw]].
  - exists c. split_and!; [done|done|by apply bool_decide_eq_true|done].
  - apply list_elem_of_split in Hc as (l1 & l2 & El). eexists.
    split; [by apply rtc_once, StClose|]. split_and!; [done| |done].
    apply bool_decide_eq_true. simpl. set_solver.
  - by rewrite (qw_wake _ (fw_queue _ _ _ Hwf) _ _ Hw) in Hne.
Qed.

(** C13. No lost wake-up on the peer list: a goroutine still blocked in
    [WaitForPeersChange] has seen the current version (the etag is the one it
    waits on, its channel the one the next change closes), and any successful
    registration or endpoint update releases it. *)
Theorem peers_wakeup_not_lost p base bits now c since ch :
  prefix4 p base bits → rtc step (init_conf p now) c →
  (since, ch) ∈ peer_waiters c → can_recv ch (chans (store c)) = false →
  peersEtag (store c) = since ∧
  (∀ q t t' a s', Register None q t t' (store c) = (Ok a, s') → can_recv ch (chans s') = true) ∧
  (∀ k eps t t' s', SetEndpoints None k eps t t' (store c) = (Ok (), s') →
     can_recv ch (chans s') = true).
Proof.
  intros Hp Hr Hin Hrecv. pose proof (reachable_wf _ _ _ _ _ Hp Hr) as Hwf.
  apply bool_decide_eq_false in Hrecv.
  destruct (fw_peers _ _ _ Hwf _ _ Hin) as [?|[-> <-]]; [done|]. split_and!; [done|..].
  - intros q t t' a s'. apply (Register_cases (λ r, r = (Ok a, s') → _)); [done|..];
      intros; simplify_eq/=; apply bool_decide_eq_true; simpl; set_solver.
  - intros k eps t t' s'. apply (SetEndpoints_cases (λ r, r = (Ok (), s') → _)); [done|].
    intros; simplify_eq/=; apply bool_decide_eq_true; simpl; set_solver.
Qed.

End Steps.

(** ** Witnesses: a run with a blocked receiver *)

Definition demo_key : key32 := vreplicate 32 x07.
Definition demo_env : Envelope := {| From := vreplicate 32 x00; Sealed := [x2a]; Enqueue := 5 |}.
Definition demo_c0 : Conf := init_conf demo_pool 0.
Definition demo_c1 : Conf := set_store demo_c0 (Register None (demo_peer x01) 1 2 (store demo_c0)).2.
(** A receiver blocks, then a sender takes its wake channel out of the map. *)
Definition demo_c2 : Conf :=
  MkConf (WaitForSignal demo_key (store demo_c1)).2 [] [(demo_key, 2%nat)] [].
Definition demo_c3 : Conf :=
  MkConf (EnqueueSignal_locked demo_key demo_env (store demo_c2)).2 [2%nat] [(demo_key, 2%nat)] [].
(** A poller blocks on the current etag. *)
Definition demo_c4 : Conf :=
  MkConf (store demo_c1) [] [] [(peersEtag (store demo_c1), 1%nat)].

Lemma demo_r1 : rtc (@step exact_growslice) demo_c0 demo_c1.
Proof. apply rtc_once, (@StRegister exact_growslice). reflexivity. Qed.

Lemma demo_r13 : rtc (@step exact_growslice) demo_c1 demo_c3.
Proof.
  eapply rtc_l; [|apply rtc_once].
  - apply (StWaitSignal demo_c1 demo_key (WaitOn 2%nat) (store demo_c2)). vm_compute. reflexivity.
  - apply (StEnqueue demo_c2 demo_key demo_env (Some 2%nat) (store demo_c3)).
    rewrite (surjective_pairing (EnqueueSignal_locked _ _ _)).
    apply (f_equal2 pair); [vm_compute; reflexivity|reflexivity].
Qed.

Lemma demo_r3 : rtc (@step exact_growslice) demo_c0 demo_c3.
Proof. etrans; [apply demo_r1|apply demo_r13]. Qed.

Lemma demo_r4 : rtc (@step exact_growslice) demo_c0 demo_c4.
Proof.
  eapply rtc_r; [apply demo_r1|].
  assert (demo_c4 = MkConf (store demo_c1) (to_close demo_c1) (sig_waiters demo_c1)
      (match WaitForPeersChange (peersEtag (store demo_c1)) (store demo_c1) with
       | WaitOn ch => (peersEtag (store demo_c1), ch) :: peer_waiters demo_c1
       | WaitDone => peer_waiters demo_c1 end)) as -> by (vm_compute; reflexivity).
  apply (@StWaitPeers exact_growslice).
Qed.

Lemma tunnel_ips_unique_witness :
  ∃ x, TunnelIP (default (demo_peer x00) (peers (store demo_c3) !! base64Encode (replicate 32 x01)))
       = AddrV4 x ∧ 0x0a000000 < x < last4 0x0a000000 29.
Proof.
  destruct (@tunnel_ips_unique exact_growslice _ _ _ _ _ demo_prefix4 demo_r3) as [H _].
  apply (H (base64Encode (replicate 32 x01))). vm_compute. reflexivity.
Defined.

Lemma tunnel_ip_stable_witness :
  ∃ q', peers (store demo_c3) !! base64Encode (replicate 32 x01) = Some q' ∧
        TunnelIP q' = AddrV4 0x0a000001.
Proof.
  assert (∃ q, peers (store demo_c1) !! base64Encode (replicate 32 x01) = Some q ∧
    TunnelIP q = AddrV4 0x0a000001) as (q & Hq & E).
  { eexists. split; vm_compute; reflexivity. }
  destruct (@tunnel_ip_stable exact_growslice demo_c1 demo_c3 _ q demo_r13 Hq) as (q' & H1 & H2 & _).
  exists q'. split; [assumption|]. rewrite H2. assumption.
Defined.

Lemma no_double_close_witness : panicked (chans (store demo_c3)) = false.
Proof. exact (@no_double_close exact_growslice _ _ _ _ _ demo_prefix4 demo_r3). Defined.

Lemma signal_wakeup_not_lost_witness :
  ∃ c', rtc (@step exact_growslice) demo_c3 c' ∧ can_recv 2%nat (chans (store c')) = true.
Proof.
  destruct (@signal_wakeup_not_lost exact_growslice _ _ _ _ _ demo_key 2%nat demo_prefix4 demo_r3)
    as (c' & H1 & _ & H2 & _).
  - simpl. left.
  - vm_compute. discriminate.
  - exact (ex_intro _ c' (conj H1 H2)).
Defined.

Lemma peers_wakeup_not_lost_witness :
  can_recv 1%nat (chans (store demo_c4)) = false ∧
  can_recv 1%nat (chans (Register None (demo_peer x02) 3 4 (store demo_c4)).2) = true.
Proof.
  split; [vm_compute; reflexivity|].
  destruct (@peers_wakeup_not_lost exact_growslice _ _ _ _ _ (peersEtag (store demo_c1)) 1%nat
    demo_prefix4 demo_r4) as (_ & H & _).
  - simpl. left.
  - vm_compute. reflexivity.
  - apply (H (demo_peer x02) 3 4 (AddrV4 0x0a000002)).
    rewrite (surjective_pairing (Register _ _ _ _ _)) at 1.
    apply (f_equal2 pair); [vm_compute; reflexivity|reflexivity].
Defined.
