(* ===== verification/CoordAuth.v ===== *)
(** * Request signatures ([internal/coord/auth.go])

    A signed request carries a Unix timestamp, the node's public key and an
    Ed25519 signature over timestamp, method, path and body hash.  Ed25519
    itself is the interface [Ed25519]; [toy_ed25519] shows that the interface
    can be met. *)

From S2P Require Import Prelude.
From S2P Require Import Encoding.
From S2P Require Import Sha256.
From S2P Require Import GoTime.
From S2P Require Import GoHttp.

(** ** Ed25519 *)

Definition PublicKeySize : nat := 32.
Definition PrivateKeySize : nat := 64.

(** [ed_pair priv pub]: the two halves of a generated key.  [ed_verify] is only
    asked about public keys of the right length. *)
Class Ed25519 := {
  ed_pair : bytes → bytes → Prop;
  ed_sign : bytes → bytes → bytes;
  ed_verify : bytes → bytes → bytes → bool;
  ed_pair_pub_len : ∀ priv pub, ed_pair priv pub → length pub = PublicKeySize;
  ed_pair_priv_len : ∀ priv pub, ed_pair priv pub → length priv = PrivateKeySize;
  ed_sign_len : ∀ priv m, length (ed_sign priv m) = 64%nat;
  ed_sign_verify : ∀ priv pub m, ed_pair priv pub → ed_verify pub m (ed_sign priv m) = true
}.

(** [ed25519.Verify]: a key of another length panics. *)
Definition Verify `{Ed25519} (pub m sig : bytes) : option bool :=
  if (length pub =? PublicKeySize)%nat then Some (ed_verify pub m sig) else None.

(** A keyed hash in place of the signature: the interface is inhabited. *)
Definition toy_sign (pub m : bytes) : bytes := Sha256.Sum256 (pub ++ m) ++ pub.
Definition toy_ed25519 : Ed25519.
Proof.
  refine {|
    ed_pair priv pub := length priv = PrivateKeySize ∧ pub = drop 32 priv;
    ed_sign priv m := toy_sign (vec_to_list (array_copy 32 (drop 32 priv))) m;
    ed_verify pub m sig := bool_decide (sig = toy_sign pub m)
  |}.
  - intros priv pub [Hl ->]. rewrite length_drop, Hl. done.
  - by intros priv pub [Hl _].
  - intros priv m. unfold toy_sign. rewrite length_app, Sha256.length_Sum256.
    by rewrite length_vec_to_list.
  - intros priv pub m [Hl ->]. apply bool_decide_eq_true.
    rewrite vec_array_copy; [done|]. by rewrite length_drop, Hl.
Defined.

(** ** The source *)

Module Auth.

Definition authScheme : string := "Gretun".
Definition headerAuth : string := "Authorization".
Definition headerTs : string := "X-Gretun-Timestamp".
Definition headerKey : string := "X-Gretun-Node".
Definition maxClockSkew : Z := 60 * GoTime.Second.

Definition signingMaterial (ts method path : string) (body : bytes) : bytes :=
  let bodyHash := Sha256.Sum256 body in
  to_bytes ts ++ [x0a] ++ to_bytes method ++ [x0a] ++ to_bytes path ++ [x0a] ++ bodyHash.

(** The three header values; [now] is the clock. *)
Definition SignRequest `{Ed25519} (now : Z) (priv pub : bytes) (method path : string) (body : bytes)
  : string * string * string :=
  let ts := Decimal.FormatInt (GoTime.Unix now) in
  let digest := signingMaterial ts method path body in
  let sig := ed_sign priv digest in
  (ts, Base64.EncodeToString pub, authScheme +:+ " " +:+ Base64.EncodeToString sig).

Inductive AuthError :=
| ErrMissingHeaders
| ErrBadScheme
| ErrDecodeSig (input : string)
| ErrDecodeNodePub (input : string)
| ErrPubkeyLength (n : nat)
| ErrBadTimestamp (input : string)
| ErrStaleTimestamp
| ErrReadBody
| ErrSignature
| ErrPanic.

Definition AuthError_Error `{CauseText} (e : AuthError) : string :=
  match e with
  | ErrMissingHeaders => "missing auth headers"
  | ErrBadScheme => "bad auth scheme"
  | ErrDecodeSig s => "decode sig: " +:+ base64_cause s
  | ErrDecodeNodePub s => "decode node pub: " +:+ base64_cause s
  | ErrPubkeyLength n => "bad pubkey length " +:+ pretty n
  | ErrBadTimestamp s => "bad timestamp: " +:+ ParseInt_cause s
  | ErrStaleTimestamp => "stale timestamp"
  | ErrReadBody => "read body: " +:+ read_cause
  | ErrSignature => "signature verify failed"
  | ErrPanic => ""
  end.

(** [int64(maxClockSkew.Seconds())]. *)
Definition skewSeconds : Z := maxClockSkew / GoTime.Second.

(** The negation of the source's stale test, with its 64-bit subtractions. *)
Definition fresh (now ts : Z) : bool :=
  negb ((skewSeconds <? wraps 64 (now - ts)) || (skewSeconds <? wraps 64 (ts - now))).

Definition VerifyRequest `{Ed25519} (now : Z) (r : Request) : result AuthError (bytes * bytes) :=
  let ts := Header_Get headerTs (r_Header r) in
  let nodeB64 := Header_Get headerKey (r_Header r) in
  let auth := Header_Get headerAuth (r_Header r) in
  if bool_decide (ts = "") || bool_decide (nodeB64 = "") || bool_decide (auth = "") then
    Err ErrMissingHeaders
  else if negb (HasPrefix auth (authScheme +:+ " ")) then Err ErrBadScheme
  else match Base64.DecodeString (TrimPrefix auth (authScheme +:+ " ")) with
  | None => Err (ErrDecodeSig (TrimPrefix auth (authScheme +:+ " ")))
  | Some sig =>
  match Base64.DecodeString nodeB64 with
  | None => Err (ErrDecodeNodePub nodeB64)
  | Some pubBytes =>
  if negb (length pubBytes =? PublicKeySize)%nat then Err (ErrPubkeyLength (length pubBytes))
  else match Decimal.ParseInt64 ts with
  | None => Err (ErrBadTimestamp ts)
  | Some tsInt =>
  if negb (fresh (GoTime.Unix now) tsInt) then Err ErrStaleTimestamp
  else match r_Body r with
  | None => Err ErrReadBody
  | Some body =>
  match Verify pubBytes (signingMaterial ts (r_Method r) (URL_Path (r_URL r)) body) sig with
  | None => Err ErrPanic
  | Some false => Err ErrSignature
  | Some true => Ok (pubBytes, body)
  end end end end end.

(** ** Freshness *)

(** The two wrapped subtractions agree with the true distance except where
    both come out negative: one timestamp per clock value. *)
Lemma fresh_spec now ts :
  0 ≤ now < 2 ^ 62 → int64_min ≤ ts ≤ int64_max →
  fresh now ts = true ↔ Z.abs (now - ts) ≤ 60 ∨ ts = now - 2 ^ 63.
Proof.
  intros Hn Ht. unfold fresh. rewrite negb_true_iff, orb_false_iff, !Z.ltb_ge.
  change skewSeconds with 60.
  assert (∀ x, int64_min - 2 ^ 64 ≤ x ≤ 2 ^ 64 + int64_max →
    wraps 64 x = if decide (x < int64_min) then x + 2 ^ 64
                 else if decide (int64_max < x) then x - 2 ^ 64 else x) as Hw.
  { intros x Hx. repeat case_decide.
    - apply wraps64_low. lia.
    - apply wraps64_high. lia.
    - apply wraps64_id. lia. }
  unfold int64_min, int64_max in *. rewrite !Hw by lia.
  repeat case_decide; lia.
Qed.

(** ** What a signature covers *)

Lemma signingMaterial_split ts m p b :
  signingMaterial ts m p b =
  to_bytes ts ++ x0a :: (to_bytes m ++ x0a :: ((to_bytes p ++ [x0a]) ++ Sha256.Sum256 b)).
Proof. unfold signingMaterial. simpl. by rewrite <- !app_assoc. Qed.

Definition no_newline (s : string) : Prop := x0a ∉ to_bytes s.

Lemma signingMaterial_fields ts m p b ts' m' p' b' :
  no_newline ts → no_newline m → no_newline ts' → no_newline m' →
  signingMaterial ts m p b = signingMaterial ts' m' p' b' →
  ts = ts' ∧ m = m' ∧ p = p' ∧ Sha256.Sum256 b = Sha256.Sum256 b'.
Proof.
  intros ???? H. rewrite !signingMaterial_split in H.
  apply sep_inj in H as [Ht H]; [|done..]. apply sep_inj in H as [Hm H]; [|done..].
  assert (length (Sha256.Sum256 b) = length (Sha256.Sum256 b')) as Hlen
    by (by rewrite !Sha256.length_Sum256).
  apply app_inj_2 in H as [Hp Hb]; [|done]. apply app_inj_2 in Hp as [Hp _]; [|done].
  split_and!; [by apply (inj to_bytes)..|done].
Qed.

(** A string that parses as an integer holds no newline. *)
Lemma digits_value_no_newline acc s v : Decimal.digits_value acc s = Some v → no_newline s.
Proof.
  unfold no_newline. revert acc. induction s as [|c s IH]; intros acc H; [apply not_elem_of_nil|].
  simpl in H. destruct (Decimal.digit_value c) as [d|] eqn:Hd; [|done]. simpl in H.
  change (to_bytes (String c s)) with (Ascii.byte_of_ascii c :: to_bytes s).
  apply not_elem_of_cons. split; [|by eapply IH].
  intros Hc. apply (f_equal Ascii.ascii_of_byte) in Hc.
  rewrite Ascii.ascii_of_byte_of_ascii in Hc. by subst.
Qed.

Lemma ParseUint_no_newline bits s v : Decimal.ParseUint bits s = Some v → no_newline s.
Proof.
  unfold Decimal.ParseUint. destruct s; [done|]. intros H.
  destruct (Decimal.digits_value 0 _) eqn:E; [|done]. by eapply digits_value_no_newline.
Qed.

Lemma no_newline_cons c s : c ≠ Ascii.ascii_of_byte x0a → no_newline s → no_newline (String c s).
Proof.
  intros Hc Hs. unfold no_newline.
  change (to_bytes (String c s)) with (Ascii.byte_of_ascii c :: to_bytes s).
  apply not_elem_of_cons. split; [|done]. intros E. apply Hc.
  by rewrite E, Ascii.ascii_of_byte_of_ascii.
Qed.

Lemma ParseInt64_no_newline s v : Decimal.ParseInt64 s = Some v → no_newline s.
Proof.
  intros H. unfold Decimal.ParseInt64 in H.
  assert (∀ s', is_Some (Decimal.ParseUint 64 s') → no_newline s') as HU.
  { intros s' [w Hw]. by eapply ParseUint_no_newline. }
  repeat case_match; try done; subst;
    (apply bind_Some in H as (w & Hw & _));
    first [apply HU; by eexists | apply no_newline_cons; [done|apply HU; by eexists]].
Qed.

Lemma ParseInt64_range s v : Decimal.ParseInt64 s = Some v → int64_min ≤ v ≤ int64_max.
Proof.
  assert (∀ s' w, Decimal.ParseUint 64 s' = Some w → 0 ≤ w) as HU.
  { assert (∀ s' acc w, 0 ≤ acc → Decimal.digits_value acc s' = Some w → 0 ≤ w) as Hd.
    { induction s' as [|c s' IH]; intros acc w Ha Hw; simplify_eq/=; [done|].
      apply bind_Some in Hw as (d & Hd & Hw). eapply IH; [|done].
      unfold Decimal.digit_value in Hd. case_match; simplify_eq. bool_to_prop. lia. }
    intros s' w Hw. unfold Decimal.ParseUint in Hw. case_match; [done|].
    apply bind_Some in Hw as (x & Hx & Hw). case_match; simplify_eq. by eapply Hd; [|done]. }
  unfold int64_min, int64_max. intros H. unfold Decimal.ParseInt64 in H.
  repeat case_match; try done; subst; apply bind_Some in H as (w & Hw & H);
    apply HU in Hw; case_match; simplify_eq; bool_to_prop; lia.
Qed.

(** ** Verification *)
Section Verification.
Context `{Ed25519}.

Definition signed_message (r : Request) (body : bytes) : bytes :=
  signingMaterial (Header_Get headerTs (r_Header r)) (r_Method r) (URL_Path (r_URL r)) body.

(** The declarative reading of an acceptable request. *)
Definition acceptable (now : Z) (r : Request) (pub body : bytes) : Prop :=
  ∃ ts sig64 sig,
    Decimal.ParseInt64 (Header_Get headerTs (r_Header r)) = Some ts ∧
    fresh (GoTime.Unix now) ts = true ∧
    Base64.DecodeString (Header_Get headerKey (r_Header r)) = Some pub ∧
    length pub = PublicKeySize ∧
    Header_Get headerAuth (r_Header r) = authScheme +:+ " " +:+ sig64 ∧
    Base64.DecodeString sig64 = Some sig ∧
    r_Body r = Some body ∧
    ed_verify pub (signed_message r body) sig = true.

Lemma VerifyRequest_acceptable now r pub body :
  VerifyRequest now r = Ok (pub, body) ↔ acceptable now r pub body.
Proof.
  unfold VerifyRequest, acceptable, Verify, signed_message. split.
  - intros Hv. repeat case_match; simplify_eq/=; bool_to_prop.
    match goal with Hp : HasPrefix _ _ = true |- _ => apply HasPrefix_true in Hp end.
    eexists _, (TrimPrefix (Header_Get headerAuth (r_Header r)) (authScheme +:+ " ")), _.
    split_and!; first [eassumption | reflexivity].
  - intros (ts & sig64 & sig & Hts & Hf & Hp & Hl & Ha & Hs & Hb & Hv).
    rewrite Ha. change (authScheme +:+ " " +:+ sig64) with ((authScheme +:+ " ") +:+ sig64).
    rewrite HasPrefix_app, TrimPrefix_app, Hs, Hp, Hts, Hf, Hb, Hl. simpl.
    rewrite bool_decide_eq_false_2 by (intros E; by rewrite E in Hts).
    rewrite bool_decide_eq_false_2 by (intros E; rewrite E in Hp;
      change (Base64.DecodeString "") with (Some (@nil byte)) in Hp; by simplify_eq).
    simpl. by rewrite Hv.
Qed.

Lemma VerifyRequest_no_panic now r : VerifyRequest now r ≠ Err ErrPanic.
Proof.
  unfold VerifyRequest, Verify. intros Hv. repeat case_match; simplify_eq/=; bool_to_prop; done.
Qed.

(** The headers [signedDo] and the tests attach. *)
Definition with_signature (v : string * string * string) (h : Header) : Header :=
  let '(ts, node, auth) := v in
  Header_Set headerAuth auth (Header_Set headerKey node (Header_Set headerTs ts h)).

Lemma with_signature_get ts node auth h :
  Header_Get headerTs (with_signature (ts, node, auth) h) = ts ∧
  Header_Get headerKey (with_signature (ts, node, auth) h) = node ∧
  Header_Get headerAuth (with_signature (ts, node, auth) h) = auth.
Proof.
  unfold with_signature. split_and!.
  - rewrite !Header_Get_Set_ne by done. apply Header_Get_Set.
  - rewrite Header_Get_Set_ne by done. apply Header_Get_Set.
  - apply Header_Get_Set.
Qed.

Lemma signed_acceptable t now priv pub method url body h :
  ed_pair priv pub →
  0 ≤ GoTime.Unix t < 2 ^ 62 → 0 ≤ GoTime.Unix now < 2 ^ 62 →
  Z.abs (GoTime.Unix now - GoTime.Unix t) ≤ 60 →
  acceptable now
    {| r_Method := method; r_URL := url; r_Body := Some body;
       r_Header := with_signature (SignRequest t priv pub method (URL_Path url) body) h |}
    pub body.
Proof.
  intros Hp Ht Hn Hd. unfold acceptable, signed_message, SignRequest. cbn [r_Header r_Method r_URL r_Body].
  destruct (with_signature_get (Decimal.FormatInt (GoTime.Unix t)) (Base64.EncodeToString pub)
    (authScheme +:+ " " +:+ Base64.EncodeToString (ed_sign priv
      (signingMaterial (Decimal.FormatInt (GoTime.Unix t)) method (URL_Path url) body))) h)
    as (-> & -> & ->).
  do 3 eexists. split_and!.
  - apply Decimal.ParseInt64_FormatInt. unfold int64_min, int64_max. lia.
  - apply fresh_spec; unfold int64_min, int64_max; [lia..|]. by left.
  - apply Base64.DecodeString_EncodeToString.
  - by eapply ed_pair_pub_len.
  - done.
  - apply Base64.DecodeString_EncodeToString.
  - done.
  - by apply ed_sign_verify.
Qed.

(** ** Claims *)

(** C7. [VerifyRequest] accepts a request exactly when its timestamp parses and
    is within 60 seconds of the clock, its key decodes to 32 bytes and its
    signature verifies over timestamp, method, path and body hash.  The
    64-bit subtractions add one exception: the timestamp that lies exactly
    2^63 seconds before the clock passes the freshness test as well.  It never
    reaches the panic of [ed25519.Verify]. *)
Theorem verify_request_exact (now : Z) (r : Request) (pub body : bytes)
  (Hnow : 0 ≤ GoTime.Unix now < 2 ^ 62) :
  VerifyRequest now r ≠ Err ErrPanic ∧
  (VerifyRequest now r = Ok (pub, body) ↔
   ∃ ts sig64 sig,
    Decimal.ParseInt64 (Header_Get headerTs (r_Header r)) = Some ts ∧
    (Z.abs (GoTime.Unix now - ts) ≤ 60 ∨ ts = GoTime.Unix now - 2 ^ 63) ∧
    Base64.DecodeString (Header_Get headerKey (r_Header r)) = Some pub ∧
    length pub = PublicKeySize ∧
    Header_Get headerAuth (r_Header r) = authScheme +:+ " " +:+ sig64 ∧
    Base64.DecodeString sig64 = Some sig ∧
    r_Body r = Some body ∧
    ed_verify pub (signed_message r body) sig = true).
Proof.
  split; [apply VerifyRequest_no_panic|]. rewrite VerifyRequest_acceptable. unfold acceptable.
  split; intros (ts & sig64 & sig & Hts & Hf & Hr); exists ts, sig64, sig;
    (split; [done|]); (split; [|done]);
    pose proof (ParseInt64_range _ _ Hts); by apply (fresh_spec _ ts).
Qed.

(** A request signed with [SignRequest] by the owner of a key is accepted,
    and yields that key and the body, at every clock reading within 60 seconds
    of the signing time. *)
Theorem signed_request_accepted (t now : Z) (priv pub : bytes) (method : string) (url : Target)
  (body : bytes) (h : Header)
  (Hpair : ed_pair priv pub)
  (Ht : 0 ≤ GoTime.Unix t < 2 ^ 62) (Hn : 0 ≤ GoTime.Unix now < 2 ^ 62)
  (Hskew : Z.abs (GoTime.Unix now - GoTime.Unix t) ≤ 60) :
  VerifyRequest now
    {| r_Method := method; r_URL := url; r_Body := Some body;
       r_Header := with_signature (SignRequest t priv pub method (URL_Path url) body) h |}
  = Ok (pub, body).
Proof. by apply VerifyRequest_acceptable, signed_acceptable. Qed.

(** What the signature covers is unambiguous: when two accepted requests
    were signed over the same bytes, they carry the same timestamp, method and
    path, and bodies with the same SHA-256 hash. *)
Theorem signature_binds_request (now now' : Z) (r r' : Request) (pub pub' body body' : bytes)
  (Hr : VerifyRequest now r = Ok (pub, body)) (Hr' : VerifyRequest now' r' = Ok (pub', body'))
  (Hm : no_newline (r_Method r)) (Hm' : no_newline (r_Method r'))
  (Hmsg : signed_message r body = signed_message r' body') :
  Header_Get headerTs (r_Header r) = Header_Get headerTs (r_Header r') ∧
  r_Method r = r_Method r' ∧ URL_Path (r_URL r) = URL_Path (r_URL r') ∧
  Sha256.Sum256 body = Sha256.Sum256 body'.
Proof.
  apply VerifyRequest_acceptable in Hr as (ts & _ & _ & Hts & _).
  apply VerifyRequest_acceptable in Hr' as (ts' & _ & _ & Hts' & _).
  apply ParseInt64_no_newline in Hts, Hts'.
  by apply signingMaterial_fields in Hmsg.
Qed.

End Verification.

(** ** Witnesses *)

Definition demo_priv : bytes := replicate 32 x01 ++ replicate 32 x02.
Definition demo_pub : bytes := replicate 32 x02.
Definition demo_now : Z := (GoTime.unixToInternal + 1700000000) * GoTime.Second.
Definition demo_url : Target := {| t_EscapedPath := to_bytes "/v1/endpoints"; t_RawQuery := [] |}.
Definition demo_request (unix : Z) : Request :=
  let ts := Decimal.FormatInt unix in
  {| r_Method := "POST"; r_URL := demo_url; r_Body := Some [x7b; x7d];
     r_Header := with_signature
       (ts, Base64.EncodeToString demo_pub,
        authScheme +:+ " " +:+ Base64.EncodeToString
          (toy_sign demo_pub (signingMaterial ts "POST" "/v1/endpoints" [x7b; x7d]))) ∅ |}.

Lemma verify_request_exact_witness :
  (∃ ts sig64 sig,
    Decimal.ParseInt64 (Header_Get headerTs (r_Header (demo_request (1700000000 - 2 ^ 63)))) = Some ts ∧
    (Z.abs (GoTime.Unix demo_now - ts) ≤ 60 ∨ ts = GoTime.Unix demo_now - 2 ^ 63) ∧
    Base64.DecodeString (Header_Get headerKey (r_Header (demo_request (1700000000 - 2 ^ 63)))) = Some demo_pub ∧
    length demo_pub = PublicKeySize ∧
    Header_Get headerAuth (r_Header (demo_request (1700000000 - 2 ^ 63))) = authScheme +:+ " " +:+ sig64 ∧
    Base64.DecodeString sig64 = Some sig ∧
    r_Body (demo_request (1700000000 - 2 ^ 63)) = Some [x7b; x7d] ∧
    @ed_verify toy_ed25519 demo_pub (signed_message (demo_request (1700000000 - 2 ^ 63)) [x7b; x7d]) sig = true).
Proof.
  apply (@verify_request_exact toy_ed25519 demo_now (demo_request (1700000000 - 2 ^ 63))
    demo_pub [x7b; x7d]); [z_compute|].
  vm_compute. reflexivity.
Defined.

Lemma signed_request_accepted_witness :
  @VerifyRequest toy_ed25519 (demo_now + 30 * GoTime.Second)
    {| r_Method := "POST"; r_URL := demo_url; r_Body := Some [x7b; x7d];
       r_Header := with_signature
         (@SignRequest toy_ed25519 demo_now demo_priv demo_pub "POST" (URL_Path demo_url) [x7b; x7d]) ∅ |}
  = Ok (demo_pub, [x7b; x7d]).
Proof.
  apply (@signed_request_accepted toy_ed25519).
  - split; reflexivity.
  - z_compute.
  - z_compute.
  - z_compute.
Defined.

(** The same signature on an escaped spelling of the path. *)
Definition demo_request' : Request :=
  {| r_Method := "POST"; r_Body := Some [x7b; x7d]; r_Header := r_Header (demo_request 1700000000);
     r_URL := {| t_EscapedPath := to_bytes "/v1/%65ndpoints"; t_RawQuery := to_bytes "x=1" |} |}.

Lemma signature_binds_request_witness :
  Header_Get headerTs (r_Header (demo_request 1700000000)) =
    Header_Get headerTs (r_Header demo_request') ∧
  "POST" = "POST" ∧ URL_Path demo_url = URL_Path (r_URL demo_request') ∧
  Sha256.Sum256 [x7b; x7d] = Sha256.Sum256 [x7b; x7d].
Proof.
  apply (@signature_binds_request toy_ed25519 demo_now (demo_now + GoTime.Second)
    (demo_request 1700000000) demo_request' demo_pub demo_pub [x7b; x7d] [x7b; x7d]).
  - vm_compute. reflexivity.
  - vm_compute. reflexivity.
  - apply (bool_decide_unpack _). vm_compute. exact I.
  - apply (bool_decide_unpack _). vm_compute. exact I.
  - vm_compute. reflexivity.
Defined.

End Auth.
