(* ===== verification/CoordServer.v ===== *)
(** * The coordinator's HTTP server ([internal/coord/server.go])

    The handlers are written against the interface [Store], as in the source,
    and run on [MemStore].  [clk] gives the successive readings of the clock
    within one request.  A long poll is a [Park]: the channel waited for and
    what the handler does when the wait ends. *)

From S2P Require Import Prelude.
From S2P Require Import NetIP.
From S2P Require Import GoTime.
From S2P Require Import GoSlice.
From S2P Require Import GoHttp.
From S2P Require Import GoJson.
From S2P Require Import CoordStore.
From S2P Require Import CoordAuth.

(** ** The store interface *)

Class Store (S : Type) := {
  st_Register : Ctx → Peer → Z → Z → S → result StoreError Addr * S;
  st_SetEndpoints : Ctx → bytes → list Endpoint → Z → Z → S → result StoreError () * S;
  st_Peers : Ctx → S → result StoreError (list Peer * string);
  st_WaitForPeersChange : string → S → Wait;
  st_EnqueueSignal : Ctx → key32 → Envelope → S → result StoreError () * S;
  st_PopSignals : Ctx → key32 → Z → S → result StoreError (list Envelope) * S;
  st_WaitForSignal : key32 → S → Wait * S;
  (** What a returned slice shows when it is read in this state. *)
  st_read : S → slice → list Endpoint
}.

#[export] Instance MemStore_Store `{Growslice} : Store MemStore := {|
  st_Register := Register;
  st_SetEndpoints := SetEndpoints;
  st_Peers := Peers;
  st_WaitForPeersChange := WaitForPeersChange;
  st_EnqueueSignal := EnqueueSignal;
  st_PopSignals := PopSignals;
  st_WaitForSignal := WaitForSignal;
  st_read s sl := slice_read (eps_heap s) sl
|}.

(** ** Messages ([types.go]) *)

Record RegisterReq := {
  rq_NodePubkey : bytes;
  rq_DiscoPubkey : key32;
  rq_NodeName : string;
  rq_RequestedTunnelIP : string
}.
Record RegisterResp := { rs_TunnelIP : string; rs_Etag : string }.
Record EndpointsReq := { eq_Endpoints : list Endpoint }.

(** A peer with its endpoints read out, as it is written to the wire. *)
Record PeerJSON := {
  pj_NodeKey : bytes;
  pj_DiscoKey : key32;
  pj_Name : string;
  pj_TunnelIP : Addr;
  pj_Endpoints : list Endpoint;
  pj_UpdatedAt : Z
}.
Record PeersResp := { ps_Etag : string; ps_Peers : list PeerJSON }.
Record SignalReq := { sq_To : key32; sq_Sealed : bytes }.
Record SignalsResp := { sr_Envelopes : list Envelope }.

(** The bodies [map[string]bool{"ok": true}] and [{"queued": true}]. *)
Record FlagResp := { fl_key : string }.

(** ** Handlers *)

(** What a request does up to its reply or its long poll.  The continuation
    takes the wait's error, the request's context and the clock afterwards. *)
Inductive Outcome (S : Type) :=
| Reply (resp : Response) (s : S)
| Park (ch : nat) (timeout : Z) (s : S) (k : Ctx → Ctx → Z → S → Response * S)
| Unrouted.
Arguments Reply {S} resp s.
Arguments Park {S} ch timeout s k.
Arguments Unrouted {S}.

Section Server.
Context `{Ed25519} `{CauseText}.
Context `{UnmarshalJSON RegisterReq, UnmarshalJSON EndpointsReq, UnmarshalJSON SignalReq}.
Context `{MarshalJSON RegisterResp, MarshalJSON FlagResp, MarshalJSON PeersResp,
          MarshalJSON SignalsResp}.
Context {S : Type} `{Store S}.

Definition longPollTimeout : Z := 25 * GoTime.Second.

Definition writeJSON {A} `{MarshalJSON A} (status : Z) (body : A) : Response :=
  match Marshal body with
  | None => http_Error ("marshal: " +:+ marshal_cause) StatusInternalServerError
  | Some buf => {| StatusCode := status; resp_Body := buf |}
  end.

Definition peer_json (s : S) (p : Peer) : PeerJSON :=
  {| pj_NodeKey := NodeKey p; pj_DiscoKey := DiscoKey p; pj_Name := Name p;
     pj_TunnelIP := TunnelIP p; pj_Endpoints := st_read s (Endpoints p);
     pj_UpdatedAt := UpdatedAt p |}.

Definition authed (h : Request → bytes → bytes → S → Outcome S) (clk : nat → Z) (r : Request) (s : S)
  : Outcome S :=
  match Auth.VerifyRequest (clk 0%nat) r with
  | Err e => Reply (http_Error (Auth.AuthError_Error e) StatusUnauthorized) s
  | Ok (pub, body) => h r pub body s
  end.

Definition handleRegister (clk : nat → Z) (ctx : Ctx) (r : Request) (s : S) : Outcome S :=
  match r_Body r ≫= Decode with
  | None => Reply (http_Error "bad json" StatusBadRequest) s
  | Some req =>
      if negb (length (rq_NodePubkey req) =? PublicKeySize)%nat then
        Reply (http_Error "bad node_pubkey length" StatusBadRequest) s
      else
        let p := {| NodeKey := rq_NodePubkey req; DiscoKey := rq_DiscoPubkey req;
                    Name := rq_NodeName req; TunnelIP := AddrZero; Endpoints := nil_slice;
                    UpdatedAt := 0 |} in
        match st_Register ctx p (clk 1%nat) (clk 2%nat) s with
        | (Err e, s) => Reply (http_Error (StoreError_Error e) StatusInternalServerError) s
        | (Ok tunnelIP, s) =>
            let etag := match st_Peers ctx s with Ok (_, etag) => etag | Err _ => "" end in
            Reply (writeJSON StatusOK
                     {| rs_TunnelIP := Addr_String tunnelIP +:+ "/24"; rs_Etag := etag |}) s
        end
  end.

Definition handleEndpoints (clk : nat → Z) (ctx : Ctx) (r : Request) (pub body : bytes) (s : S)
  : Outcome S :=
  match Unmarshal body with
  | None => Reply (http_Error "bad json" StatusBadRequest) s
  | Some req =>
      match st_SetEndpoints ctx pub (eq_Endpoints req) (clk 1%nat) (clk 2%nat) s with
      | (Err e, s) => Reply (http_Error (StoreError_Error e) StatusNotFound) s
      | (Ok _, s) => Reply (writeJSON StatusOK {| fl_key := "ok" |}) s
      end
  end.

(** The list as it is when the reply is written. *)
Definition reply_peers (ctx : Ctx) (s : S) : Response :=
  match st_Peers ctx s with
  | Err e => http_Error (StoreError_Error e) StatusInternalServerError
  | Ok (peers, etag) => writeJSON StatusOK {| ps_Etag := etag; ps_Peers := peer_json s <$> peers |}
  end.

Definition handlePeers (ctx : Ctx) (r : Request) (_ _ : bytes) (s : S) : Outcome S :=
  let since := Query_Get "since" (r_URL r) in
  if decide (since ≠ "") then
    match st_WaitForPeersChange since s with
    | WaitDone => Reply (reply_peers ctx s) s
    | WaitOn ch => Park ch longPollTimeout s (λ _ ctx _ s, (reply_peers ctx s, s))
    end
  else Reply (reply_peers ctx s) s.

Definition handleSignal (clk : nat → Z) (ctx : Ctx) (r : Request) (pub body : bytes) (s : S)
  : Outcome S :=
  match Unmarshal body with
  | None => Reply (http_Error "bad json" StatusBadRequest) s
  | Some req =>
      let env := {| From := array_copy 32 []; Sealed := sq_Sealed req; Enqueue := clk 1%nat |} in
      match st_EnqueueSignal ctx (sq_To req) env s with
      | (Err e, s) => Reply (http_Error (StoreError_Error e) StatusInternalServerError) s
      | (Ok _, s) => Reply (writeJSON StatusOK {| fl_key := "queued" |}) s
      end
  end.

(** The errors of [discoKeyForNodeKey]. *)
Inductive DiscoKeyError := DErrStore (e : StoreError) | DErrUnregistered.
Definition DiscoKeyError_Error (e : DiscoKeyError) : string :=
  match e with
  | DErrStore e => StoreError_Error e
  | DErrUnregistered => "unregistered node"
  end.

Definition discoKeyForNodeKey (ctx : Ctx) (s : S) (nodeKey : bytes) : result DiscoKeyError key32 :=
  match st_Peers ctx s with
  | Err e => Err (DErrStore e)
  | Ok (peers, _) =>
      match filter (λ p, NodeKey p = nodeKey) peers with
      | p :: _ => Ok (DiscoKey p)
      | [] => Err DErrUnregistered
      end
  end.

(** [envs, _ = store.PopSignals(...)]: an error leaves the list empty. *)
Definition pop_or_nil (ctx : Ctx) (to : key32) (now : Z) (s : S) : list Envelope * S :=
  match st_PopSignals ctx to now s with
  | (Ok envs, s) => (envs, s)
  | (Err _, s) => ([], s)
  end.

Definition handleSignalPull (clk : nat → Z) (ctx : Ctx) (r : Request) (pub _ : bytes) (s : S)
  : Outcome S :=
  match discoKeyForNodeKey ctx s pub with
  | Err e => Reply (http_Error (DiscoKeyError_Error e) StatusBadRequest) s
  | Ok to =>
      let '(envs, s) := pop_or_nil ctx to (clk 1%nat) s in
      match envs with
      | [] =>
          match st_WaitForSignal to s with
          | (WaitDone, s) =>
              let '(envs, s) := pop_or_nil ctx to (clk 2%nat) s in
              Reply (writeJSON StatusOK {| sr_Envelopes := envs |}) s
          | (WaitOn ch, s) =>
              Park ch longPollTimeout s (λ werr ctx now s,
                match werr with
                | None =>
                    let '(envs, s) := pop_or_nil ctx to now s in
                    (writeJSON StatusOK {| sr_Envelopes := envs |}, s)
                | Some _ => (writeJSON StatusOK {| sr_Envelopes := [] |}, s)
                end)
          end
      | _ => Reply (writeJSON StatusOK {| sr_Envelopes := envs |}) s
      end
  end.

Definition handleDebugPeers (ctx : Ctx) (r : Request) (s : S) : Outcome S :=
  Reply (reply_peers ctx s) s.

(** ** Routing *)

Inductive Route := RRegister | REndpoints | RPeers | RSignal | RSignalPull | RDebugPeers.

(** The patterns of [NewServer]; a [GET] pattern matches [HEAD] too.  [None] is
    the multiplexer's own reply: not found, method not allowed or a redirect
    to a cleaned path. *)
Definition route (r : Request) : option Route :=
  let get := bool_decide (r_Method r = "GET") || bool_decide (r_Method r = "HEAD") in
  let post := bool_decide (r_Method r = "POST") in
  match segments (r_URL r) with
  | [a; b] =>
      if bool_decide (a = "v1") then
        if bool_decide (b = "register") then if post then Some RRegister else None
        else if bool_decide (b = "endpoints") then if post then Some REndpoints else None
        else if bool_decide (b = "peers") then if get then Some RPeers else None
        else if bool_decide (b = "signal") then
          if post then Some RSignal else if get then Some RSignalPull else None
        else None
      else if bool_decide (a = "debug") && bool_decide (b = "peers") && get then Some RDebugPeers
      else None
  | _ => None
  end.

Definition ServeHTTP (clk : nat → Z) (ctx : Ctx) (r : Request) (s : S) : Outcome S :=
  match route r with
  | Some RRegister => handleRegister clk ctx r s
  | Some REndpoints => authed (handleEndpoints clk ctx) clk r s
  | Some RPeers => authed (handlePeers ctx) clk r s
  | Some RSignal => authed (handleSignal clk ctx) clk r s
  | Some RSignalPull => authed (handleSignalPull clk ctx) clk r s
  | Some RDebugPeers => handleDebugPeers ctx r s
  | None => Unrouted
  end.

End Server.

(** The store after a request's synchronous part. *)
Definition outcome_state {S} (o : Outcome S) (s : S) : S :=
  match o with Reply _ s' | Park _ _ s' _ => s' | Unrouted => s end.

(** ** The coordinator on [MemStore] *)
Section OnMemStore.
Context `{Ed25519} `{CauseText} `{Growslice}.
Context `{UnmarshalJSON RegisterReq, UnmarshalJSON EndpointsReq, UnmarshalJSON SignalReq}.
Context `{MarshalJSON RegisterResp, MarshalJSON FlagResp, MarshalJSON PeersResp,
          MarshalJSON SignalsResp}.

(** The scan of the peer list is a lookup by node key. *)
Lemma discoKeyForNodeKey_lookup base bits (s : MemStore) nodeKey :
  reg_wf base bits s →
  discoKeyForNodeKey None s nodeKey =
  match peers s !! base64Encode nodeKey with
  | Some p => Ok (DiscoKey p)
  | None => Err DErrUnregistered
  end.
Proof.
  intros Hwf. unfold discoKeyForNodeKey. simpl. fold (peer_values s).
  set (l := merge_sort tunnel_le (peer_values s)).
  assert (∀ p, p ∈ l ↔ ∃ k, peers s !! k = Some p) as Hl.
  { intros p. unfold l. rewrite merge_sort_Permutation. apply peer_values_elem. }
  destruct (filter _ l) as [|p ps] eqn:Hf.
  - destruct (peers s !! base64Encode nodeKey) as [p|] eqn:Hp; [|done]. exfalso.
    destruct (rw_key _ _ _ Hwf _ _ Hp) as [Hk _]. apply (inj base64Encode) in Hk.
    assert (p ∈ filter (λ p, NodeKey p = nodeKey) l) as Hin.
    { apply list_elem_of_filter. split; [done|]. apply Hl. eauto. }
    rewrite Hf in Hin. by apply not_elem_of_nil in Hin.
  - assert (p ∈ filter (λ p, NodeKey p = nodeKey) l) as Hin by (rewrite Hf; left).
    apply list_elem_of_filter in Hin as [<- (k & Hp)%Hl].
    destruct (rw_key _ _ _ Hwf _ _ Hp) as [-> _]. by rewrite Hp.
Qed.

(** Pulling with an empty or stale queue leaves somebody to be woken. *)
Lemma WaitForSignal_parks to (s : MemStore) :
  signals s !! to = None →
  ∃ ch s', WaitForSignal to s = (WaitOn ch, s') ∧
    signalWakes s' !! to = Some ch ∧ signals s' = signals s ∧ peers s' = peers s.
Proof.
  intros Hq. unfold WaitForSignal. rewrite Hq. simpl.
  destruct (signalWakes s !! to) as [ch|] eqn:E.
  - by exists ch, s.
  - do 2 eexists. split_and!; [done| |done|done]. apply lookup_insert_eq.
Qed.

(** ** Claims *)

(** C9. No signature, no effect: a request that does not verify and is not a
    registration leaves the store as it was.  For the four authenticated routes
    the answer is status 401 with the reason; the open debug listing is served;
    and a request for no route (the multiplexer's 404, 405 or redirect) reaches
    no handler. *)
Theorem unauthenticated_no_effect {S} `{Store S} (clk : nat → Z) (ctx : Ctx) (r : Request) (s : S)
  (e : Auth.AuthError) (Hroute : route r ≠ Some RRegister)
  (Hauth : Auth.VerifyRequest (clk 0%nat) r = Err e) :
  outcome_state (ServeHTTP clk ctx r s) s = s ∧
  ServeHTTP clk ctx r s =
    match route r with
    | None => Unrouted
    | Some RDebugPeers => Reply (reply_peers ctx s) s
    | Some _ => Reply (http_Error (Auth.AuthError_Error e) StatusUnauthorized) s
    end.
Proof.
  unfold ServeHTTP, authed. rewrite Hauth. by destruct (route r) as [[]|].
Qed.

(** C11. An authenticated endpoint update replaces the endpoints of the node
    that signed it, and of no other: every other peer keeps its record and
    its visible endpoints.  A node that is not registered gets a 404 and
    changes nothing. *)
Theorem endpoints_update_own_only (clk : nat → Z) (r : Request) (pub body : bytes)
  (req : EndpointsReq) (s : MemStore)
  (Hwf : heap_wf s) (Hroute : route r = Some REndpoints)
  (Hauth : Auth.VerifyRequest (clk 0%nat) r = Ok (pub, body)) (Hbody : Unmarshal body = Some req) :
  ∃ resp s', ServeHTTP clk None r s = Reply resp s' ∧
    (∀ k, k ≠ base64Encode pub → peers s' !! k = peers s !! k ∧ endpoints_of s' k = endpoints_of s k) ∧
    (is_Some (peers s !! base64Encode pub) →
       endpoints_of s' (base64Encode pub) = Some (eq_Endpoints req)) ∧
    (peers s !! base64Encode pub = None → StatusCode resp = StatusNotFound ∧ s' = s).
Proof.
  unfold ServeHTTP, authed, handleEndpoints. rewrite Hroute, Hauth, Hbody.
  cbn [st_SetEndpoints MemStore_Store].
  destruct (peers s !! base64Encode pub) as [old|] eqn:Hold.
  - destruct (SetEndpoints_effect pub (eq_Endpoints req) (clk 1%nat) (clk 2%nat) s old Hwf Hold)
      as (s' & -> & Hown & Hother).
    do 2 eexists. split_and!; [done|done|done|done].
  - unfold SetEndpoints. rewrite Hold. do 2 eexists. split_and!; [done|done| |done].
    by intros [].
Qed.

(** C10. A pull drains the mailbox of the disco key that the signing node is
    registered with, and no other.  When an envelope younger than [maxAge]
    waits there, the reply holds exactly those, oldest first; otherwise the
    request parks on the channel that the next [EnqueueSignal] for this key
    closes.  An unregistered node gets a 400. *)
Theorem pull_drains_own_mailbox (base bits : Z) (clk : nat → Z) (r : Request) (pub body : bytes)
  (s : MemStore) (Hwf : reg_wf base bits s) (Hroute : route r = Some RSignalPull)
  (Hauth : Auth.VerifyRequest (clk 0%nat) r = Ok (pub, body)) :
  match peers s !! base64Encode pub with
  | None => ∃ resp, ServeHTTP clk None r s = Reply resp s ∧ StatusCode resp = StatusBadRequest
  | Some p =>
      let mail := filter (CoordStore.fresh (maxAge s) (clk 1%nat))
                    (default [] (signals s !! DiscoKey p)) in
      let s' := outcome_state (ServeHTTP clk None r s) s in
      signals s' = delete (DiscoKey p) (signals s) ∧ peers s' = peers s ∧
      (mail ≠ [] → ServeHTTP clk None r s =
                   Reply (writeJSON StatusOK {| sr_Envelopes := mail |}) s') ∧
      (mail = [] → ∃ ch k, ServeHTTP clk None r s = Park ch longPollTimeout s' k ∧
                   signalWakes s' !! DiscoKey p = Some ch)
  end.
Proof.
  unfold ServeHTTP, authed, handleSignalPull. rewrite Hroute, Hauth.
  rewrite (discoKeyForNodeKey_lookup _ _ _ _ Hwf).
  destruct (peers s !! base64Encode pub) as [p|] eqn:Hp; [|by eexists].
  unfold pop_or_nil. simpl.
  rewrite (list_filter_iff _ (CoordStore.fresh (maxAge s) (clk 1%nat)));
    [|intros e; unfold CoordStore.fresh, GoTime.After, GoTime.Add; rewrite Z.ltb_lt; lia].
  set (mail := filter _ _). set (s1 := set_mail _ _ _ _).
  destruct mail as [|e mail'] eqn:Hm.
  - destruct (WaitForSignal_parks (DiscoKey p) s1) as (ch & s' & -> & Hw & Hs & Hpe);
      [apply lookup_delete_eq|]. simpl.
    split_and!; [done|done|done|]. intros _. by do 2 eexists.
  - split_and!; done.
Qed.

(** C23. Registration is not authenticated for known nodes either: anyone who
    knows a node's public key can re-register it with a disco key of their
    own.  The node keeps its tunnel address, but from then on its own pulls
    are served from the mailbox of the foreign key, so that mail addressed to
    its real disco key no longer reaches it. *)
Theorem register_replaces_disco_key (base bits : Z) (clk : nat → Z) (r : Request) (raw : bytes)
  (req : RegisterReq) (s : MemStore) (victim : Peer)
  (Hwf : reg_wf base bits s) (Hroute : route r = Some RRegister)
  (Hraw : r_Body r = Some raw) (Hreq : Decode raw = Some req)
  (Hvictim : peers s !! base64Encode (rq_NodePubkey req) = Some victim) :
  let s' := outcome_state (ServeHTTP clk None r s) s in
  ServeHTTP clk None r s = Reply (writeJSON StatusOK
    {| rs_TunnelIP := Addr_String (TunnelIP victim) +:+ "/24"; rs_Etag := peersEtag s' |}) s' ∧
  discoKeyForNodeKey None s' (rq_NodePubkey req) = Ok (rq_DiscoPubkey req).
Proof.
  destruct (rw_key _ _ _ Hwf _ _ Hvictim) as [Hk Hlen].
  apply (inj base64Encode) in Hk.
  unfold ServeHTTP, handleRegister. rewrite Hroute, Hraw. simpl. rewrite Hreq. simpl.
  rewrite Hk, Hlen. simpl. rewrite <- Hk, Hvictim. simpl. split; [done|].
  erewrite discoKeyForNodeKey_lookup.
  - simpl. by rewrite lookup_insert_eq.
  - apply (Register_reg_wf base bits None
      {| NodeKey := rq_NodePubkey req; DiscoKey := rq_DiscoPubkey req; Name := rq_NodeName req;
         TunnelIP := AddrZero; Endpoints := nil_slice; UpdatedAt := 0 |}
      (clk 1%nat) (clk 2%nat)) in Hwf.
    unfold Register in Hwf. simpl in Hwf. rewrite Hk, Hlen in Hwf. simpl in Hwf.
    rewrite <- Hk, Hvictim in Hwf. exact Hwf.
Qed.

End OnMemStore.

(** ** Witnesses *)
Module ServerDemo.

Definition json_text : bytes := [x7b; x7d].
#[local] Instance ed : Ed25519 := toy_ed25519.
#[local] Instance ct : CauseText := no_cause.
#[local] Instance gs : Growslice := exact_growslice.
#[local] Instance m_reg : MarshalJSON RegisterResp := one_marshal json_text.
#[local] Instance m_flag : MarshalJSON FlagResp := one_marshal json_text.
#[local] Instance m_peers : MarshalJSON PeersResp := one_marshal json_text.
#[local] Instance m_sigs : MarshalJSON SignalsResp := one_marshal json_text.

Definition new_eps : EndpointsReq := {| eq_Endpoints := [demo_ep 9] |}.
Definition signal : SignalReq := {| sq_To := vreplicate 32 x01; sq_Sealed := [x2a] |}.
(** Node 1's public key with another disco key. *)
Definition takeover : RegisterReq :=
  {| rq_NodePubkey := replicate 32 x01; rq_DiscoPubkey := vreplicate 32 x09; rq_NodeName := "evil";
     rq_RequestedTunnelIP := "" |}.
#[local] Instance u_reg : UnmarshalJSON RegisterReq := one_unmarshal json_text takeover.
#[local] Instance u_eps : UnmarshalJSON EndpointsReq := one_unmarshal json_text new_eps.
#[local] Instance u_sig : UnmarshalJSON SignalReq := one_unmarshal json_text signal.

Definition clk (_ : nat) : Z := Auth.demo_now.

(** A request signed by node 1. *)
Definition signed (method path : string) (body : bytes) : Request :=
  {| r_Method := method; r_URL := {| t_EscapedPath := to_bytes path; t_RawQuery := [] |};
     r_Body := Some body;
     r_Header := Auth.with_signature
       (Auth.SignRequest Auth.demo_now (replicate 64 x01) (replicate 32 x01) method path body) ∅ |}.

Definition unsigned (method path : string) : Request :=
  {| r_Method := method; r_URL := {| t_EscapedPath := to_bytes path; t_RawQuery := [] |};
     r_Body := Some json_text; r_Header := ∅ |}.

(** Node 1's mailbox with one envelope. *)
Definition demo_mail : MemStore :=
  (EnqueueSignal None (vreplicate 32 x01)
    {| From := vreplicate 32 x00; Sealed := [x2a]; Enqueue := Auth.demo_now |} demo_store).2.

Lemma demo_mail_reg_wf : reg_wf 0x0a000000 29 demo_mail.
Proof. apply (reg_wf_ext _ _ demo_store); [done..|apply demo_reg_wf]. Qed.

Lemma unauthenticated_no_effect_witness :
  ServeHTTP clk None (unsigned "POST" "/v1/signal") demo_mail =
    Reply (http_Error (Auth.AuthError_Error Auth.ErrMissingHeaders) StatusUnauthorized) demo_mail.
Proof.
  destruct (unauthenticated_no_effect clk None (unsigned "POST" "/v1/signal") demo_mail
    Auth.ErrMissingHeaders ltac:(vm_compute; discriminate) ltac:(vm_compute; reflexivity)) as [_ Hx].
  replace (route (unsigned "POST" "/v1/signal")) with (Some RSignal) in Hx by (vm_compute; reflexivity).
  exact Hx.
Defined.

Lemma endpoints_update_own_only_witness :
  ∃ resp s', ServeHTTP clk None (signed "POST" "/v1/endpoints" json_text) demo_store = Reply resp s' ∧
    endpoints_of s' (base64Encode (replicate 32 x01)) = Some [demo_ep 9].
Proof.
  destruct (endpoints_update_own_only clk (signed "POST" "/v1/endpoints" json_text)
    (replicate 32 x01) json_text new_eps demo_store demo_heap_wf
    ltac:(vm_compute; reflexivity) ltac:(vm_compute; reflexivity) ltac:(vm_compute; reflexivity))
    as (resp & s' & H1 & _ & H2 & _).
  refine (ex_intro _ resp (ex_intro _ s' (conj H1 (H2 _)))).
  rewrite demo_old_registered. eexists. reflexivity.
Defined.

Lemma pull_drains_own_mailbox_witness :
  ∃ s', ServeHTTP clk None (signed "GET" "/v1/signal" []) demo_mail = Reply
    (writeJSON StatusOK {| sr_Envelopes :=
      [{| From := vreplicate 32 x00; Sealed := [x2a]; Enqueue := Auth.demo_now |}] |}) s'.
Proof.
  pose proof (pull_drains_own_mailbox 0x0a000000 29 clk (signed "GET" "/v1/signal" [])
    (replicate 32 x01) [] demo_mail demo_mail_reg_wf
    ltac:(vm_compute; reflexivity) ltac:(vm_compute; reflexivity)) as Hx.
  assert (peers demo_mail !! base64Encode (replicate 32 x01) = Some demo_old) as Hp
    by (vm_compute; reflexivity).
  rewrite Hp in Hx. destruct Hx as (_ & _ & Hx & _).
  assert (filter (CoordStore.fresh (maxAge demo_mail) (clk 1%nat))
    (default [] (signals demo_mail !! DiscoKey demo_old)) =
    [{| From := vreplicate 32 x00; Sealed := [x2a]; Enqueue := Auth.demo_now |}]) as Hm
    by (vm_compute; reflexivity).
  rewrite Hm in Hx. eexists. apply Hx. discriminate.
Defined.

Lemma register_replaces_disco_key_witness :
  discoKeyForNodeKey None
    (outcome_state (ServeHTTP clk None (unsigned "POST" "/v1/register") demo_store) demo_store)
    (replicate 32 x01) = Ok (vreplicate 32 x09).
Proof.
  destruct (register_replaces_disco_key 0x0a000000 29 clk (unsigned "POST" "/v1/register") json_text
    takeover demo_store demo_old demo_reg_wf ltac:(vm_compute; reflexivity) eq_refl
    ltac:(vm_compute; reflexivity) demo_old_registered) as [_ Hx].
  exact Hx.
Defined.

End ServerDemo.
