(* ===== verification/DiscoKeys.v ===== *)
(** * Keys and sealed bodies ([internal/disco/keys.go])

    Key generation and persistence, and the NaCl box around a disco message.
    [golang.org/x/crypto] is the interface [NaclBox]; the random source and the
    file system's failures are arguments. *)

From S2P Require Import Prelude.
From S2P Require Import Encoding.
From S2P Require Import GoJson.
From S2P Require Import CoordAuth.

(** ** Curve25519 and NaCl box *)

Abbreviation nonce24 := (vec byte 24).

(** [x25519 priv] is [curve25519.X25519(priv, Basepoint)], which can fail.
    [box_seal] is the ciphertext alone; opening reverses sealing when each
    side uses the public key of the other. *)
Class NaclBox := {
  x25519 : key32 → option key32;
  box_seal : bytes → nonce24 → key32 → key32 → bytes;
  box_open : bytes → nonce24 → key32 → key32 → option bytes;
  box_open_seal : ∀ a A b B m n,
    x25519 a = Some A → x25519 b = Some B →
    box_open (box_seal m n B a) n A b = Some m
}.

(** A box that only checks the nonce: the interface is inhabited. *)
Definition toy_box : NaclBox.
Proof.
  refine {|
    x25519 k := Some k;
    box_seal m n _ _ := vec_to_list n ++ m;
    box_open c n _ _ := if decide (take 24 c = vec_to_list n) then Some (drop 24 c) else None
  |}.
  intros a A b B m n _ _. rewrite take_app_length', drop_app_length' by (by rewrite length_vec_to_list).
  by rewrite decide_True by done.
Defined.

(** ** Keys *)

Record NodeKey := { nk_Priv : bytes; nk_Pub : bytes }.
Record DiscoKey := { dk_Priv : key32; dk_Pub : key32 }.

Inductive KeyError :=
| KErrMkdir
| KErrRead
| KErrDecodeJSON
| KErrRand
| KErrX25519
| KErrDecodeNodePriv
| KErrDecodeNodePub
| KErrNodeSizes
| KErrDecodeDiscoPriv
| KErrDecodeDiscoPub
| KErrDiscoSizes
| KErrDiscoLength (n : nat)
| KErrMarshal
| KErrWrite.

(** [gen] is what [ed25519.GenerateKey] returns: public and private half. *)
Definition GenerateNodeKey (gen : option (bytes * bytes)) : result KeyError NodeKey :=
  match gen with
  | None => Err KErrRand
  | Some (pub, priv) => Ok {| nk_Priv := priv; nk_Pub := pub |}
  end.

(** [rnd] is what [io.ReadFull] fills the private half with. *)
Definition GenerateDiscoKey `{NaclBox} (rnd : option key32) : result KeyError DiscoKey :=
  match rnd with
  | None => Err KErrRand
  | Some priv =>
      match x25519 priv with
      | None => Err KErrX25519
      | Some pub => Ok {| dk_Priv := priv; dk_Pub := pub |}
      end
  end.

Record persisted := {
  p_NodePriv : string;
  p_NodePub : string;
  p_DiscoPriv : string;
  p_DiscoPub : string
}.

Definition nodeKeyFromPersisted (p : persisted) : result KeyError NodeKey :=
  match Base64.DecodeString (p_NodePriv p) with
  | None => Err KErrDecodeNodePriv
  | Some priv =>
      match Base64.DecodeString (p_NodePub p) with
      | None => Err KErrDecodeNodePub
      | Some pub =>
          if negb (length priv =? PrivateKeySize)%nat || negb (length pub =? PublicKeySize)%nat then
            Err KErrNodeSizes
          else Ok {| nk_Priv := priv; nk_Pub := pub |}
      end
  end.

Definition discoKeyFromPersisted (p : persisted) : result KeyError DiscoKey :=
  match Base64.DecodeString (p_DiscoPriv p) with
  | None => Err KErrDecodeDiscoPriv
  | Some priv =>
      match Base64.DecodeString (p_DiscoPub p) with
      | None => Err KErrDecodeDiscoPub
      | Some pub =>
          if negb (length priv =? 32)%nat || negb (length pub =? 32)%nat then Err KErrDiscoSizes
          else Ok {| dk_Priv := array_copy 32 priv; dk_Pub := array_copy 32 pub |}
      end
  end.

Definition persisted_of (nk : NodeKey) (dk : DiscoKey) : persisted :=
  {| p_NodePriv := Base64.EncodeToString (nk_Priv nk);
     p_NodePub := Base64.EncodeToString (nk_Pub nk);
     p_DiscoPriv := Base64.EncodeToString (dk_Priv dk);
     p_DiscoPub := Base64.EncodeToString (dk_Pub dk) |}.

(** The file system as far as [LoadOrCreateKeys] sees it: file contents, and
    how the next calls fail.  A failing write may leave a prefix behind. *)
Record OS := {
  os_files : gmap string bytes;
  os_mkdir_fails : bool;
  os_read_fails : bool;
  os_write_fails : option bytes
}.

Definition os_set_file (os : OS) (path : string) (b : bytes) : OS :=
  {| os_files := <[path := b]> (os_files os); os_mkdir_fails := os_mkdir_fails os;
     os_read_fails := os_read_fails os; os_write_fails := os_write_fails os |}.

(** [os.ReadFile]: contents, not-exist ([Ok None]) or another error. *)
Definition ReadFile (os : OS) (path : string) : result KeyError (option bytes) :=
  if os_read_fails os then Err KErrRead else Ok (os_files os !! path).

(** [os.WriteFile]. *)
Definition WriteFile (os : OS) (path : string) (b : bytes) : result KeyError () * OS :=
  match os_write_fails os with
  | None => (Ok (), os_set_file os path b)
  | Some partial => (Err KErrWrite, os_set_file os path partial)
  end.

(** [path] is [filepath.Join(stateDir, "keys.json")]. *)
Definition LoadOrCreateKeys `{NaclBox, MarshalJSON persisted, UnmarshalJSON persisted}
  (path : string) (gen : option (bytes * bytes)) (rnd : option key32) (os : OS)
  : result KeyError (NodeKey * DiscoKey) * OS :=
  if os_mkdir_fails os then (Err KErrMkdir, os)
  else match ReadFile os path with
  | Err e => (Err e, os)
  | Ok (Some b) =>
      (match Unmarshal b with
       | None => Err KErrDecodeJSON
       | Some p =>
           nk ← nodeKeyFromPersisted p;
           dk ← discoKeyFromPersisted p;
           Ok (nk, dk)
       end, os)
  | Ok None =>
      match GenerateNodeKey gen with
      | Err e => (Err e, os)
      | Ok nk =>
          match GenerateDiscoKey rnd with
          | Err e => (Err e, os)
          | Ok dk =>
              match Marshal (persisted_of nk dk) with
              | None => (Err KErrMarshal, os)
              | Some buf =>
                  match WriteFile os path buf with
                  | (Err e, os) => (Err e, os)
                  | (Ok _, os) => (Ok (nk, dk), os)
                  end
              end
          end
      end
  end.

Definition NodeKey_B64 (k : NodeKey) : string := Base64.EncodeToString (nk_Pub k).
Definition DiscoKey_B64 (k : DiscoKey) : string := Base64.EncodeToString (dk_Pub k).

Definition DecodeDiscoPub (s : string) : result KeyError key32 :=
  match Base64.DecodeString s with
  | None => Err KErrDecodeDiscoPub
  | Some b =>
      if negb (length b =? 32)%nat then Err (KErrDiscoLength (length b))
      else Ok (array_copy 32 b)
  end.

(** ** Sealing *)

(** [rnd] is the nonce drawn. *)
Definition Seal `{NaclBox} (rnd : option nonce24) (plaintext : bytes) (recipient : key32)
  (sender : DiscoKey) : result KeyError bytes :=
  match rnd with
  | None => Err KErrRand
  | Some nonce => Ok (vec_to_list nonce ++ box_seal plaintext nonce recipient (dk_Priv sender))
  end.

Definition Open `{NaclBox} (sealed : bytes) (sender : key32) (recipient : DiscoKey) : option bytes :=
  if (length sealed <? 24)%nat then None
  else
    let nonce := array_copy 24 (take 24 sealed) in
    box_open (drop 24 sealed) nonce sender (dk_Priv recipient).

(** ** Lemmas *)

(** A generated disco key: the public half belongs to the private one. *)
Definition disco_pair `{NaclBox} (k : DiscoKey) : Prop := x25519 (dk_Priv k) = Some (dk_Pub k).

Lemma Open_split `{NaclBox} (nonce : nonce24) ct sender recipient :
  Open (vec_to_list nonce ++ ct) sender recipient = box_open ct nonce sender (dk_Priv recipient).
Proof.
  unfold Open. rewrite length_app, length_vec_to_list.
  rewrite (proj2 (Nat.ltb_ge _ _)) by lia.
  rewrite take_app_length', drop_app_length' by (by rewrite length_vec_to_list).
  by rewrite array_copy_self.
Qed.

Lemma Open_Seal `{NaclBox} nonce m (a b : DiscoKey) sealed :
  disco_pair a → disco_pair b → Seal (Some nonce) m (dk_Pub b) a = Ok sealed →
  Open sealed (dk_Pub a) b = Some m.
Proof. intros Ha Hb [= <-]. rewrite Open_split. by apply box_open_seal. Qed.

Lemma nodeKeyFromPersisted_of nk dk :
  length (nk_Priv nk) = PrivateKeySize → length (nk_Pub nk) = PublicKeySize →
  nodeKeyFromPersisted (persisted_of nk dk) = Ok nk.
Proof.
  intros H1 H2. unfold nodeKeyFromPersisted. simpl.
  rewrite !Base64.DecodeString_EncodeToString, H1, H2. by destruct nk.
Qed.

Lemma discoKeyFromPersisted_of nk dk : discoKeyFromPersisted (persisted_of nk dk) = Ok dk.
Proof.
  unfold discoKeyFromPersisted. simpl.
  rewrite !Base64.DecodeString_EncodeToString, !length_vec_to_list. simpl.
  rewrite !array_copy_self. by destruct dk.
Qed.

Lemma DecodeDiscoPub_B64 k : DecodeDiscoPub (DiscoKey_B64 k) = Ok (dk_Pub k).
Proof.
  unfold DecodeDiscoPub, DiscoKey_B64.
  rewrite Base64.DecodeString_EncodeToString, length_vec_to_list. simpl.
  by rewrite array_copy_self.
Qed.

(** ** Claims *)
Section KeyClaims.
Context `{Ed25519} `{NaclBox} `{MarshalJSON persisted, UnmarshalJSON persisted}.
Context (ok : persisted → Prop) {Hc : JSONCompat id ok}.

(** Identities survive a restart, for every codec of the key file: when keys.json does not exist, a
    successful first call writes it, and every later call on the resulting
    files returns the same two key pairs whatever the random source yields,
    and writes nothing. *)
Lemma keys_survive_restart_any (path : string) (pub priv : bytes) (rnd : key32) (os os' : OS)
  (nk : NodeKey) (dk : DiscoKey) (gen' : option (bytes * bytes)) (rnd' : option key32)
  (Hpair : ed_pair priv pub)
  (Hok : ok (persisted_of nk dk))
  (Hnew : os_files os !! path = None)
  (Hrun : LoadOrCreateKeys path (Some (pub, priv)) (Some rnd) os = (Ok (nk, dk), os')) :
  nk_Priv nk = priv ∧ nk_Pub nk = pub ∧ disco_pair dk ∧
  LoadOrCreateKeys path gen' rnd' os' = (Ok (nk, dk), os').
Proof.
  unfold LoadOrCreateKeys in Hrun. destruct (os_mkdir_fails os) eqn:Hmk; [done|].
  unfold ReadFile in Hrun. destruct (os_read_fails os) eqn:Hrd; [done|]. rewrite Hnew in Hrun.
  simpl in Hrun. destruct (x25519 rnd) as [dpub|] eqn:Hx; [|done].
  destruct (Marshal _) as [buf|] eqn:Hm in Hrun; [|done].
  unfold WriteFile in Hrun. destruct (os_write_fails os) eqn:Hwr; simplify_eq/=.
  split_and!; [done..|]. unfold LoadOrCreateKeys, ReadFile. simpl.
  rewrite Hmk, Hrd, lookup_insert_eq.
  rewrite (compat_unmarshal _ _ Hok Hm). unfold id.
  rewrite nodeKeyFromPersisted_of; [|by eapply ed_pair_priv_len|by eapply ed_pair_pub_len].
  simpl. by rewrite discoKeyFromPersisted_of.
Qed.

End KeyClaims.

(** ** Values for the witnesses *)
Module KeysDemo.

Definition nk : NodeKey := {| nk_Priv := Auth.demo_priv; nk_Pub := Auth.demo_pub |}.
Definition dk : DiscoKey := {| dk_Priv := vreplicate 32 x07; dk_Pub := vreplicate 32 x07 |}.
Definition os : OS :=
  {| os_files := ∅; os_mkdir_fails := false; os_read_fails := false; os_write_fails := None |}.

End KeysDemo.
