(* ===== verification/DiscoEnvelope.v ===== *)
(** * Disco envelopes ([internal/disco/envelope.go])

    Magic, sender key and a sealed JSON body. *)

From S2P Require Import Prelude.
From S2P Require Import GoJson.
From S2P Require Import DiscoKeys.

(** ** Messages *)

Definition Magic : vec byte 6 := [# "T"%byte; "S"%byte; xf0; x9f; x92; xac].

Definition magicLen : nat := 6.
Definition pubkeyLen : nat := 32.
Definition envelopeMin : nat := magicLen + pubkeyLen + 24.

(** [MessageType] is a string type with three named values. *)
Abbreviation MessageType := string (only parsing).
Definition MsgPing : MessageType := "ping".
Definition MsgPong : MessageType := "pong".
Definition MsgCallMeMaybe : MessageType := "call_me_maybe".

Record Body := {
  b_Type : MessageType;
  b_Tx : string;
  b_NodeKey : string;
  b_Src : string;
  b_Endpoints : list string
}.

#[export] Instance Body_eq_dec : EqDecision Body.
Proof. solve_decision. Defined.

Definition Body_zero : Body :=
  {| b_Type := ""; b_Tx := ""; b_NodeKey := ""; b_Src := ""; b_Endpoints := [] |}.

Inductive EnvError :=
| EErrMarshal
| EErrSeal (e : KeyError)
| EErrTooShort (n : nat)
| EErrBadMagic
| EErrDecrypt
| EErrUnmarshal.

(** ** Operations *)
Section Envelope.
Context `{NaclBox} `{MarshalJSON Body, UnmarshalJSON Body}.

Definition UnmarshalBody (raw : bytes) : result EnvError Body :=
  match Unmarshal raw with
  | None => Err EErrUnmarshal
  | Some b => Ok b
  end.

Definition BuildEnvelope (rnd : option nonce24) (sender : DiscoKey) (recipient : key32) (body : Body)
  : result EnvError bytes :=
  match Marshal body with
  | None => Err EErrMarshal
  | Some plaintext =>
      match Seal rnd plaintext recipient sender with
      | Err e => Err (EErrSeal e)
      | Ok sealed => Ok (vec_to_list Magic ++ vec_to_list (dk_Pub sender) ++ sealed)
      end
  end.

(** The sender is zero when an error is returned. *)
Definition ParseEnvelope (buf : bytes) : result EnvError (key32 * bytes) :=
  if (length buf <? envelopeMin)%nat then Err (EErrTooShort (length buf))
  else if decide (array_copy 6 (take magicLen buf) ≠ Magic) then Err EErrBadMagic
  else Ok (array_copy 32 (take pubkeyLen (drop magicLen buf)), drop (magicLen + pubkeyLen) buf).

(** The sender found so far is returned with every result. *)
Definition OpenEnvelope (buf : bytes) (recipient : DiscoKey) : key32 * result EnvError Body :=
  match ParseEnvelope buf with
  | Err e => (array_copy 32 [], Err e)
  | Ok (sender, sealed) =>
      match Open sealed sender recipient with
      | None => (sender, Err EErrDecrypt)
      | Some plain => (sender, UnmarshalBody plain)
      end
  end.

(** ** Lemmas *)

Lemma ParseEnvelope_app (sender : key32) sealed :
  (24 ≤ length sealed)%nat →
  ParseEnvelope (vec_to_list Magic ++ vec_to_list sender ++ sealed) = Ok (sender, sealed).
Proof.
  intros Hl. unfold ParseEnvelope, envelopeMin, magicLen, pubkeyLen.
  rewrite !length_app, !length_vec_to_list, (proj2 (Nat.ltb_ge _ _)) by lia.
  rewrite take_app_length' by (by rewrite length_vec_to_list). rewrite array_copy_self.
  rewrite decide_False by (by intros []).
  rewrite drop_app_length' by (by rewrite length_vec_to_list).
  rewrite take_app_length' by (by rewrite length_vec_to_list). rewrite array_copy_self.
  rewrite app_assoc, drop_app_length'; [done|]. by rewrite length_app, !length_vec_to_list.
Qed.

Lemma ParseEnvelope_Ok buf sender sealed :
  ParseEnvelope buf = Ok (sender, sealed) →
  buf = vec_to_list Magic ++ vec_to_list sender ++ sealed ∧ (24 ≤ length sealed)%nat.
Proof.
  unfold ParseEnvelope, envelopeMin, magicLen, pubkeyLen.
  destruct (Nat.ltb_spec (length buf) (6 + 32 + 24)) as [|Hl]; [done|].
  destruct (decide _) as [|Hm]; [done|]. apply dec_stable in Hm. intros [= <- <-].
  rewrite <- Hm, !vec_array_copy; [|rewrite length_take, ?length_drop; lia..].
  rewrite length_drop. split; [|lia].
  rewrite <- (take_drop 6 buf) at 1. f_equal.
  rewrite <- (take_drop 32 (drop 6 buf)) at 1. by rewrite drop_drop.
Qed.

(** The sealed part of a built envelope starts with a nonce. *)
Lemma Seal_length nonce m r s sealed :
  Seal (Some nonce) m r s = Ok sealed → (24 ≤ length sealed)%nat.
Proof. intros [= <-]. rewrite length_app, length_vec_to_list. lia. Qed.

Lemma OpenEnvelope_Ok buf recipient sender body :
  OpenEnvelope buf recipient = (sender, Ok body) ↔
  ∃ (nonce : nonce24) ct plain,
    buf = vec_to_list Magic ++ vec_to_list sender ++ vec_to_list nonce ++ ct ∧
    box_open ct nonce sender (dk_Priv recipient) = Some plain ∧ Unmarshal plain = Some body.
Proof.
  unfold OpenEnvelope, UnmarshalBody. split.
  - destruct (ParseEnvelope buf) as [[s sealed]|e] eqn:Hp; [|done].
    apply ParseEnvelope_Ok in Hp as [-> Hl].
    destruct (Open sealed s recipient) as [plain|] eqn:Ho; [|done].
    destruct (Unmarshal plain) as [b|] eqn:Hu; [|done]. intros [= <- <-].
    unfold Open in Ho. rewrite (proj2 (Nat.ltb_ge _ _)) in Ho by lia.
    exists (array_copy 24 (take 24 sealed)), (drop 24 sealed), plain.
    rewrite vec_array_copy by (rewrite length_take; lia). by rewrite take_drop.
  - intros (nonce & ct & plain & -> & Ho & Hu).
    rewrite ParseEnvelope_app by (rewrite length_app, length_vec_to_list; lia).
    by rewrite Open_split, Ho, Hu.
Qed.

(** ** Claims *)
Section Claims.
Context (ok : Body → Prop) {Hc : JSONCompat id ok}.

(** What one node seals for another, the other opens, for every codec of the
    body. *)
Lemma envelope_roundtrip_any (nonce : nonce24) (sender recipient : DiscoKey) (body : Body)
  (Hs : disco_pair sender) (Hr : disco_pair recipient) (Hok : ok body) :
  ∃ buf, BuildEnvelope (Some nonce) sender (dk_Pub recipient) body = Ok buf ∧
    OpenEnvelope buf recipient = (dk_Pub sender, Ok body).
Proof.
  unfold BuildEnvelope. destruct (compat_marshal body Hok) as [plain Hm]. rewrite Hm. simpl.
  eexists. split; [done|]. apply OpenEnvelope_Ok. exists nonce. do 2 eexists. split_and!; [done|..].
  - by apply box_open_seal.
  - by rewrite (compat_unmarshal _ _ Hok Hm).
Qed.

End Claims.

(** [OpenEnvelope] accepts a buffer exactly when it is the magic, a sender
    key, a nonce and a ciphertext that the box opens under that sender's key
    to a JSON body; shorter buffers and other magics are refused before any
    decryption. *)
Theorem open_envelope_exact (buf : bytes) (recipient : DiscoKey) (sender : key32) (body : Body) :
  (OpenEnvelope buf recipient = (sender, Ok body) ↔
   ∃ (nonce : nonce24) ct plain,
     buf = vec_to_list Magic ++ vec_to_list sender ++ vec_to_list nonce ++ ct ∧
     box_open ct nonce sender (dk_Priv recipient) = Some plain ∧ Unmarshal plain = Some body) ∧
  ((length buf < 62)%nat →
   OpenEnvelope buf recipient = (array_copy 32 [], Err (EErrTooShort (length buf)))) ∧
  ((62 ≤ length buf)%nat → take 6 buf ≠ vec_to_list Magic →
   OpenEnvelope buf recipient = (array_copy 32 [], Err EErrBadMagic)).
Proof.
  split_and!; [apply OpenEnvelope_Ok|..].
  - intros Hl. unfold OpenEnvelope, ParseEnvelope. by rewrite (proj2 (Nat.ltb_lt _ _)).
  - intros Hl Hm. unfold OpenEnvelope, ParseEnvelope.
    rewrite (proj2 (Nat.ltb_ge _ _)) by done. rewrite decide_True; [done|].
    intros E. apply Hm. rewrite <- E, vec_array_copy; [done|]. rewrite length_take.
    unfold magicLen. lia.
Qed.

End Envelope.

(** ** Values for the witnesses *)
Module EnvelopeDemo.

Definition ping : Body :=
  {| b_Type := MsgPing; b_Tx := "00"; b_NodeKey := "bm9kZQ=="; b_Src := ""; b_Endpoints := [] |}.
Definition alice : DiscoKey := {| dk_Priv := vreplicate 32 x01; dk_Pub := vreplicate 32 x01 |}.
Definition bob : DiscoKey := {| dk_Priv := vreplicate 32 x02; dk_Pub := vreplicate 32 x02 |}.

End EnvelopeDemo.
