(* ===== verification/DiscoClient.v ===== *)
(** * The coordinator's client ([internal/disco/client.go], [hash.go])

    Each method builds a request, hands it to a transport ([http.Client.Do])
    and reads the response.  A transport passes a state along: the theorems put
    the coordinator of [CoordServer] behind it. *)

From S2P Require Import Prelude.
From S2P Require Import Encoding.
From S2P Require Import NetIP.
From S2P Require Import Sha256.
From S2P Require Import GoTime.
From S2P Require Import GoSlice.
From S2P Require Import GoHttp.
From S2P Require Import GoJson.
From S2P Require Import CoordStore.
From S2P Require Import CoordAuth.
From S2P Require Import CoordServer.
From S2P Require Import DiscoKeys.

(** ** Messages *)

Record endpointForWire := { ew_Addr : AddrPort; ew_Source : string }.
Record envelopeForWire := { vw_Sealed : bytes; vw_Enqueue : Z }.

Record registerBody := { rb_NodePubkey : bytes; rb_DiscoPubkey : key32; rb_NodeName : string }.
Record registerOut := { ro_TunnelIP : string; ro_Etag : string }.
Record endpointsBody := { eb_Endpoints : list endpointForWire }.
Record peerForWire := {
  pw_NodeKey : bytes;
  pw_DiscoKey : key32;
  pw_Name : string;
  pw_TunnelIP : Addr;
  pw_Endpoints : list endpointForWire;
  pw_UpdatedAt : Z
}.
Record peersOut := { po_Etag : string; po_Peers : list peerForWire }.
Record signalBody := { sb_To : key32; sb_Sealed : bytes }.
Record signalsOut := { so_Envelopes : list envelopeForWire }.

Record RemoteEndpoint := { re_Addr : AddrPort; re_Source : string }.
Record RemotePeer := {
  rp_NodeKey : bytes;
  rp_DiscoKey : key32;
  rp_Name : string;
  rp_TunnelIP : Addr;
  rp_Endpoints : list RemoteEndpoint;
  rp_UpdatedAt : Z
}.

#[export] Instance RemoteEndpoint_eq_dec : EqDecision RemoteEndpoint.
Proof. solve_decision. Defined.

(** ** The client *)

(** [c_base] is what follows the authority in the base URL: empty for
    "http://coord:8443". *)
Record CoordClient := { c_base : string; c_nk : NodeKey; c_dk : DiscoKey }.

Definition NewCoordClient (base : string) (nk : NodeKey) (dk : DiscoKey) : CoordClient :=
  {| c_base := base; c_nk := nk; c_dk := dk |}.

Inductive ClientError :=
| CErrURL
| CErrTransport
| CErrStatus (op : string) (code : Z) (text : bytes)
| CErrDecode.

Definition Transport (W : Type) : Type := Request → W → option Response * W.

Definition sha256Sum (b : bytes) : bytes := Sha256.Sum256 b.

Module Client.

Definition signingMaterial (ts method path : string) (body : bytes) : bytes :=
  let b := to_bytes ts in
  let b := b ++ [x0a] in
  let b := b ++ to_bytes method in
  let b := b ++ [x0a] in
  let b := b ++ to_bytes path in
  let b := b ++ [x0a] in
  let h := sha256Sum body in
  b ++ h.

(** The index of the first ['?'], counted in bytes, or -1. *)
Fixpoint indexQuery_from (i : Z) (p : bytes) : Z :=
  match p with
  | [] => -1
  | c :: p => if decide (c = "?"%byte) then i else indexQuery_from (i + 1) p
  end.
Definition indexQuery (p : string) : Z := indexQuery_from 0 (to_bytes p).

Definition normalisePath (p : string) : string :=
  let i := indexQuery p in
  if 0 <=? i then of_bytes (take (Z.to_nat i) (to_bytes p)) else p.

Section Methods.
Context `{Ed25519}.
Context `{MarshalJSON registerBody, MarshalJSON endpointsBody, MarshalJSON signalBody}.
Context `{UnmarshalJSON registerOut, UnmarshalJSON peersOut, UnmarshalJSON signalsOut}.
Context {W : Type} (do : Transport W).

(** [body, _ := json.Marshal(v)]. *)
Definition marshal_or_nil {A} `{MarshalJSON A} (a : A) : bytes := default [] (Marshal a).

(** [http.NewRequestWithContext] for the base URL followed by [path].  It refuses
    a method that is not a token and reads the empty one as GET; the client's
    methods are the constants GET and POST, for which the request carries the
    method as it is. *)
Definition NewRequest (c : CoordClient) (method path : string) (body : bytes) : option Request :=
  t ← parse_target (to_bytes (c_base c +:+ path));
  Some {| r_Method := method; r_URL := t; r_Header := ∅; r_Body := Some body |}.

(** The request that [signedDo] sends; [now] is the clock. *)
Definition signedRequest (now : Z) (c : CoordClient) (method path : string) (body : bytes)
  : option Request :=
  req ← NewRequest c method path body;
  let ts := Decimal.FormatInt (GoTime.Unix now) in
  let digest := signingMaterial ts method (normalisePath path) body in
  let sig := ed_sign (nk_Priv (c_nk c)) digest in
  Some {| r_Method := r_Method req; r_URL := r_URL req; r_Body := r_Body req;
          r_Header :=
            Header_Set "Authorization" ("Gretun " +:+ Base64.EncodeToString sig)
              (Header_Set "X-Gretun-Node" (Base64.EncodeToString (nk_Pub (c_nk c)))
                (Header_Set "X-Gretun-Timestamp" ts (r_Header req))) |}.

Definition signedDo (now : Z) (c : CoordClient) (method path : string) (body : bytes) (w : W)
  : result ClientError Response * W :=
  match signedRequest now c method path body with
  | None => (Err CErrURL, w)
  | Some req =>
      match do req w with
      | (None, w) => (Err CErrTransport, w)
      | (Some resp, w) => (Ok resp, w)
      end
  end.

Definition Register (c : CoordClient) (name : string) (w : W)
  : result ClientError (string * string) * W :=
  let body := marshal_or_nil
    {| rb_NodePubkey := nk_Pub (c_nk c); rb_DiscoPubkey := dk_Pub (c_dk c); rb_NodeName := name |} in
  match NewRequest c "POST" "/v1/register" body with
  | None => (Err CErrURL, w)
  | Some req =>
      match do req w with
      | (None, w) => (Err CErrTransport, w)
      | (Some resp, w) =>
          if negb (StatusCode resp =? 200) then
            (Err (CErrStatus "register" (StatusCode resp) (resp_Body resp)), w)
          else match Decode (resp_Body resp) with
          | None => (Err CErrDecode, w)
          | Some out => (Ok (ro_TunnelIP out, ro_Etag out), w)
          end
      end
  end.

Definition PostEndpoints (now : Z) (c : CoordClient) (eps : list RemoteEndpoint) (w : W)
  : result ClientError () * W :=
  let wire := (λ e, {| ew_Addr := re_Addr e; ew_Source := re_Source e |}) <$> eps in
  let body := marshal_or_nil {| eb_Endpoints := wire |} in
  match signedDo now c "POST" "/v1/endpoints" body w with
  | (Err e, w) => (Err e, w)
  | (Ok resp, w) =>
      if negb (StatusCode resp =? 200) then
        (Err (CErrStatus "endpoints" (StatusCode resp) (resp_Body resp)), w)
      else (Ok (), w)
  end.

Definition remote_endpoint (e : endpointForWire) : RemoteEndpoint :=
  {| re_Addr := ew_Addr e; re_Source := ew_Source e |}.

Definition remote_peer (p : peerForWire) : RemotePeer :=
  {| rp_NodeKey := pw_NodeKey p; rp_DiscoKey := pw_DiscoKey p; rp_Name := pw_Name p;
     rp_TunnelIP := pw_TunnelIP p; rp_Endpoints := remote_endpoint <$> pw_Endpoints p;
     rp_UpdatedAt := pw_UpdatedAt p |}.

Definition peers_path (since : string) : string :=
  if decide (since ≠ "") then "/v1/peers" +:+ "?since=" +:+ since else "/v1/peers".

Definition Peers (now : Z) (c : CoordClient) (since : string) (w : W)
  : result ClientError (list RemotePeer * string) * W :=
  match signedDo now c "GET" (peers_path since) [] w with
  | (Err e, w) => (Err e, w)
  | (Ok resp, w) =>
      if negb (StatusCode resp =? 200) then (Err (CErrStatus "peers" (StatusCode resp) []), w)
      else match Decode (resp_Body resp) with
      | None => (Err CErrDecode, w)
      | Some wire => (Ok (remote_peer <$> po_Peers wire, po_Etag wire), w)
      end
  end.

Definition SendSignal (now : Z) (c : CoordClient) (to : key32) (sealed : bytes) (w : W)
  : result ClientError () * W :=
  let body := marshal_or_nil {| sb_To := to; sb_Sealed := sealed |} in
  match signedDo now c "POST" "/v1/signal" body w with
  | (Err e, w) => (Err e, w)
  | (Ok resp, w) =>
      if negb (StatusCode resp =? 200) then (Err (CErrStatus "signal" (StatusCode resp) []), w)
      else (Ok (), w)
  end.

Definition PullSignals (now : Z) (c : CoordClient) (w : W) : result ClientError (list bytes) * W :=
  match signedDo now c "GET" "/v1/signal" [] w with
  | (Err e, w) => (Err e, w)
  | (Ok resp, w) =>
      if negb (StatusCode resp =? 200) then (Err (CErrStatus "signal pull" (StatusCode resp) []), w)
      else match Decode (resp_Body resp) with
      | None => (Err CErrDecode, w)
      | Some out => (Ok (vw_Sealed <$> so_Envelopes out), w)
      end
  end.

End Methods.

(** ** Signing agrees with the server *)

(** The two packages' copies of the function are the same. *)
Lemma signingMaterial_agree ts method path body :
  signingMaterial ts method path body = Auth.signingMaterial ts method path body.
Proof. unfold signingMaterial, Auth.signingMaterial, sha256Sum. by rewrite <- !app_assoc. Qed.

Lemma indexQuery_from_cut i p :
  0 ≤ i →
  indexQuery_from i p =
  match (cut "?"%byte p).2 with
  | Some _ => i + Z.of_nat (length (cut "?"%byte p).1)
  | None => -1
  end.
Proof.
  revert i. induction p as [|c p IH]; intros i Hi; simpl; [done|].
  case_decide; simpl; [lia|]. rewrite IH by lia.
  destruct (cut "?"%byte p) as [x [y|]]; simpl; lia.
Qed.

(** [normalisePath] keeps what is before the first ['?']. *)
Lemma normalisePath_cut p : to_bytes (normalisePath p) = (cut "?"%byte (to_bytes p)).1.
Proof.
  unfold normalisePath, indexQuery. rewrite indexQuery_from_cut by done.
  pose proof (cut_concat "?"%byte (to_bytes p)) as Hcat.
  destruct (cut "?"%byte (to_bytes p)) as [x [y|]]; cbn [fst snd] in *.
  - rewrite Z.add_0_l, (proj2 (Z.leb_le _ _)) by lia. rewrite to_of_bytes, Hcat.
    by rewrite Nat2Z.id, take_app_length.
  - by rewrite app_nil_r in Hcat.
Qed.

(** A query or nothing. *)
Definition query_suffix (q : bytes) : Prop :=
  q = [] ∨ ∃ q', q = "?"%byte :: q'.

Lemma normalisePath_query route q :
  "?"%byte ∉ to_bytes route → query_suffix (to_bytes q) → normalisePath (route +:+ q) = route.
Proof.
  intros Hr Hq. apply (inj to_bytes). rewrite normalisePath_cut, to_bytes_app, cut_prefix by done.
  destruct Hq as [->|[q' ->]]; simpl; apply app_nil_r.
Qed.

(** For a route that needs no escaping, the path the server sees is the one
    the client signed, whatever the query. *)
Lemma parse_target_route route q :
  Forall (λ b, plain b = true) (to_bytes route) →
  query_suffix (to_bytes q) → existsb is_ctl (to_bytes q) = false →
  ∃ t, parse_target (to_bytes (route +:+ q)) = Some t ∧ URL_Path t = route ∧
    t_EscapedPath t = to_bytes route ∧
    (∀ q', to_bytes q = "?"%byte :: q' → t_RawQuery t = (cut "#"%byte q').1).
Proof.
  intros Hr Hq Hctl. unfold parse_target. rewrite to_bytes_app.
  rewrite cut_prefix by (by eapply plain_not_elem).
  assert (existsb is_ctl (to_bytes route) = false) as Hrc.
  { apply not_true_is_false. intros (b & Hb & Hbc)%existsb_exists.
    rewrite Forall_forall in Hr. apply list_elem_of_In in Hb. apply Hr in Hb.
    unfold plain, is_ctl in *. bool_to_prop. apply orb_true_iff in Hbc. lia. }
  rewrite existsb_app, Hrc. rewrite (cut_concat "#"%byte (to_bytes q)), existsb_app in Hctl.
  apply orb_false_iff in Hctl as [Hctl _]. rewrite Hctl. simpl.
  rewrite cut_prefix by (by eapply plain_not_elem).
  assert ((cut "?"%byte (cut "#"%byte (to_bytes q)).1).1 = []) as Hnil.
  { destruct Hq as [->|[q' ->]]; [done|]. simpl.
    by destruct (cut "#"%byte q'). }
  rewrite Hnil, app_nil_r, unescape_plain by done. simpl. eexists. split_and!; [done|..].
  - unfold URL_Path. simpl. rewrite unescape_plain by done. apply of_to_bytes.
  - done.
  - intros q' Hq'. rewrite Hq'. simpl.
    by destruct (cut "#"%byte q').
Qed.

Section Agreement.
Context `{Ed25519}.

(** [Auth.SignRequest] on the path the server will see. *)
Lemma signedRequest_signed now c method route q body :
  c_base c = "" →
  Forall (λ b, plain b = true) (to_bytes route) →
  query_suffix (to_bytes q) → existsb is_ctl (to_bytes q) = false →
  ∃ t, signedRequest now c method (route +:+ q) body = Some
      {| r_Method := method; r_URL := t; r_Body := Some body;
         r_Header := Auth.with_signature
           (Auth.SignRequest now (nk_Priv (c_nk c)) (nk_Pub (c_nk c)) method (URL_Path t) body) ∅ |} ∧
    t_EscapedPath t = to_bytes route ∧
    (∀ q', to_bytes q = "?"%byte :: q' → t_RawQuery t = (cut "#"%byte q').1).
Proof.
  intros Hb Hr Hq Hctl. destruct (parse_target_route route q Hr Hq Hctl) as (t & Ht & Hp & He & Hraw).
  exists t. split; [|done]. unfold signedRequest, NewRequest. rewrite Hb.
  change ("" +:+ (route +:+ q)) with (route +:+ q). rewrite Ht. simpl. rewrite Hp.
  rewrite normalisePath_query by (done || by eapply plain_not_elem).
  by rewrite signingMaterial_agree.
Qed.

(** The shape of what [signedDo] sends, for one of the routes. *)
Definition wire_request (c : CoordClient) (r : Request) (method route : string) (body : bytes)
  (clk0 : Z) : Prop :=
  r_Method r = method ∧ t_EscapedPath (r_URL r) = to_bytes route ∧
  Auth.VerifyRequest clk0 r = Ok (nk_Pub (c_nk c), body).

Lemma signedRequest_verifies now now' c method route q body :
  c_base c = "" → ed_pair (nk_Priv (c_nk c)) (nk_Pub (c_nk c)) →
  0 ≤ GoTime.Unix now < 2 ^ 62 → 0 ≤ GoTime.Unix now' < 2 ^ 62 →
  Z.abs (GoTime.Unix now' - GoTime.Unix now) ≤ 60 →
  Forall (λ b, plain b = true) (to_bytes route) →
  query_suffix (to_bytes q) → existsb is_ctl (to_bytes q) = false →
  ∃ r, signedRequest now c method (route +:+ q) body = Some r ∧
    wire_request c r method route body now' ∧
    (∀ q', to_bytes q = "?"%byte :: q' → t_RawQuery (r_URL r) = (cut "#"%byte q').1).
Proof.
  intros Hb Hp Hn Hn' Hs Hr Hq Hctl.
  destruct (signedRequest_signed now c method route q body Hb Hr Hq Hctl) as (t & Ht & He & Hraw).
  eexists. split; [done|]. split; [|done]. split_and!; [done|done|].
  apply Auth.VerifyRequest_acceptable. by apply Auth.signed_acceptable.
Qed.

(** A clock within a minute of the signer's, both in range. *)
Definition in_step (now now' : Z) : Prop :=
  0 ≤ GoTime.Unix now < 2 ^ 62 ∧ 0 ≤ GoTime.Unix now' < 2 ^ 62 ∧
  Z.abs (GoTime.Unix now' - GoTime.Unix now) ≤ 60.

(** C15. The client and the server agree on what is signed: every request that
    [signedDo] builds for a base URL without a path and a route that needs no
    escaping verifies at the coordinator, with the client's key and body,
    whatever query follows, as long as the clocks differ by at most a minute. *)
Theorem client_request_verifies (now now' : Z) (c : CoordClient) (method route q : string)
  (body : bytes)
  (Hbase : c_base c = "") (Hpair : ed_pair (nk_Priv (c_nk c)) (nk_Pub (c_nk c)))
  (Hclocks : in_step now now')
  (Hroute : Forall (λ b, plain b = true) (to_bytes route))
  (Hq : query_suffix (to_bytes q)) (Hctl : existsb is_ctl (to_bytes q) = false) :
  ∃ r, signedRequest now c method (route +:+ q) body = Some r ∧
    r_Method r = method ∧ URL_Path (r_URL r) = route ∧
    Auth.VerifyRequest now' r = Ok (nk_Pub (c_nk c), body).
Proof.
  destruct Hclocks as (? & ? & ?).
  destruct (signedRequest_verifies now now' c method route q body) as (r & Hr & (Hm & He & Hv) & _);
    [done..|]. exists r. split_and!; try done.
  unfold URL_Path. rewrite He, unescape_plain by done. apply of_to_bytes.
Qed.

End Agreement.

Definition demo_client : CoordClient :=
  NewCoordClient "" {| nk_Priv := Auth.demo_priv; nk_Pub := Auth.demo_pub |}
    {| dk_Priv := vreplicate 32 x05; dk_Pub := vreplicate 32 x05 |}.

Lemma client_request_verifies_witness :
  ∃ r, @signedRequest toy_ed25519 Auth.demo_now demo_client "GET"
      ("/v1/peers" +:+ "?since=00ff%zz#x") [] = Some r ∧
    r_Method r = "GET" ∧ URL_Path (r_URL r) = "/v1/peers" ∧
    @Auth.VerifyRequest toy_ed25519 (Auth.demo_now + 60 * GoTime.Second) r = Ok (Auth.demo_pub, []).
Proof.
  apply (@client_request_verifies toy_ed25519).
  - reflexivity.
  - split; reflexivity.
  - z_compute.
  - apply (bool_decide_unpack _). vm_compute. exact I.
  - right. eexists. reflexivity.
  - reflexivity.
Defined.

End Client.
