(* ===== verification/JsonWire.v ===== *)
(** * The JSON of the messages

    Encoders and decoders of every struct with JSON tags that crosses a wire or
    reaches the disk: the coordinator's ([internal/coord/types.go]), their
    counterparts in the client ([internal/disco/client.go]), the disco message
    body ([envelope.go]) and the key file ([keys.go]).  They are instances of the
    interface [GoJson]; [wire_messages_compatible] shows that the two sides of
    every message fit together. *)

From S2P Require Import Prelude.
From S2P Require Import Encoding.
From S2P Require Import NetIP.
From S2P Require Import GoRFC3339.
From S2P Require Import GoJson.
From S2P Require Import Json.
From S2P Require Import JsonCodec.
From S2P Require Import CoordStore.
From S2P Require Import CoordAuth.
From S2P Require Import CoordServer.
From S2P Require Import DiscoKeys.
From S2P Require Import DiscoEnvelope.
From S2P Require Import DiscoClient.

(** ** How one side's struct reads as the other's *)

Definition SignalReq_of (b : signalBody) : SignalReq :=
  {| sq_To := sb_To b; sq_Sealed := sb_Sealed b |}.
Definition RegisterReq_of (b : registerBody) : RegisterReq :=
  {| rq_NodePubkey := rb_NodePubkey b; rq_DiscoPubkey := rb_DiscoPubkey b;
     rq_NodeName := rb_NodeName b; rq_RequestedTunnelIP := "" |}.
Definition registerOut_of (r : RegisterResp) : registerOut :=
  {| ro_TunnelIP := rs_TunnelIP r; ro_Etag := rs_Etag r |}.
Definition envelopeForWire_of (e : Envelope) : envelopeForWire :=
  {| vw_Sealed := Sealed e; vw_Enqueue := Enqueue e |}.
Definition signalsOut_of (r : SignalsResp) : signalsOut :=
  {| so_Envelopes := envelopeForWire_of <$> sr_Envelopes r |}.
Definition endpointForWire_of (e : Endpoint) : endpointForWire :=
  {| ew_Addr := ep_Addr e; ew_Source := ep_Source e |}.
Definition Endpoint_of (e : endpointForWire) : Endpoint :=
  {| ep_Addr := ew_Addr e; ep_Source := ew_Source e |}.
Definition EndpointsReq_of (b : endpointsBody) : EndpointsReq :=
  {| eq_Endpoints := Endpoint_of <$> eb_Endpoints b |}.
Definition peerForWire_of (p : PeerJSON) : peerForWire :=
  {| pw_NodeKey := pj_NodeKey p; pw_DiscoKey := pj_DiscoKey p; pw_Name := pj_Name p;
     pw_TunnelIP := pj_TunnelIP p; pw_Endpoints := endpointForWire_of <$> pj_Endpoints p;
     pw_UpdatedAt := pj_UpdatedAt p |}.
Definition peersOut_of (r : PeersResp) : peersOut :=
  {| po_Etag := ps_Etag r; po_Peers := peerForWire_of <$> ps_Peers r |}.

(** What the model's values leave open about a message: the time zone of the
    coordinator at a time (in minutes), and which empty slices are nil. *)
Class Wire := {
  zone : Z → Z;
  nil_endpoints : PeerJSON → bool;
  nil_sealed : Envelope → bool;
  nil_envelopes : SignalsResp → bool
}.

Definition zero32 : vec byte 32 := vreplicate 32 x00.

(** ** Registration *)

Definition enc_registerBody (b : registerBody) : json :=
  JObj [member "node_pubkey" (enc_bytes false (rb_NodePubkey b));
        member "disco_pubkey" (enc_key32 (rb_DiscoPubkey b));
        member "node_name" (enc_string (rb_NodeName b))].

Definition fields_RegisterReq : list (field RegisterReq) :=
  [Field "node_pubkey" (λ v r, (λ x, {| rq_NodePubkey := x; rq_DiscoPubkey := rq_DiscoPubkey r;
     rq_NodeName := rq_NodeName r; rq_RequestedTunnelIP := rq_RequestedTunnelIP r |}) <$> dec_bytes v (rq_NodePubkey r));
   Field "disco_pubkey" (λ v r, (λ x, {| rq_NodePubkey := rq_NodePubkey r; rq_DiscoPubkey := x;
     rq_NodeName := rq_NodeName r; rq_RequestedTunnelIP := rq_RequestedTunnelIP r |}) <$> dec_key32 v (rq_DiscoPubkey r));
   Field "node_name" (λ v r, (λ x, {| rq_NodePubkey := rq_NodePubkey r; rq_DiscoPubkey := rq_DiscoPubkey r;
     rq_NodeName := x; rq_RequestedTunnelIP := rq_RequestedTunnelIP r |}) <$> dec_string v (rq_NodeName r));
   Field "requested_tunnel_ip" (λ v r, (λ x, {| rq_NodePubkey := rq_NodePubkey r; rq_DiscoPubkey := rq_DiscoPubkey r;
     rq_NodeName := rq_NodeName r; rq_RequestedTunnelIP := x |}) <$> dec_string v (rq_RequestedTunnelIP r))].
Definition zero_RegisterReq : RegisterReq :=
  {| rq_NodePubkey := []; rq_DiscoPubkey := zero32; rq_NodeName := ""; rq_RequestedTunnelIP := "" |}.

Definition enc_RegisterResp (r : RegisterResp) : json :=
  JObj [member "tunnel_ip" (enc_string (rs_TunnelIP r)); member "peers_etag" (enc_string (rs_Etag r))].

Definition fields_registerOut : list (field registerOut) :=
  [Field "tunnel_ip" (λ v r, (λ x, {| ro_TunnelIP := x; ro_Etag := ro_Etag r |}) <$> dec_string v (ro_TunnelIP r));
   Field "peers_etag" (λ v r, (λ x, {| ro_TunnelIP := ro_TunnelIP r; ro_Etag := x |}) <$> dec_string v (ro_Etag r))].
Definition zero_registerOut : registerOut := {| ro_TunnelIP := ""; ro_Etag := "" |}.

#[export] Instance marshal_registerBody : MarshalJSON registerBody := marshal_with None (λ b, Some (enc_registerBody b)).
#[export] Instance unmarshal_RegisterReq : UnmarshalJSON RegisterReq :=
  unmarshal_with zero_RegisterReq (dec_struct fields_RegisterReq).
#[export] Instance marshal_RegisterResp : MarshalJSON RegisterResp := marshal_with None (λ b, Some (enc_RegisterResp b)).
#[export] Instance unmarshal_registerOut : UnmarshalJSON registerOut :=
  unmarshal_with zero_registerOut (dec_struct fields_registerOut).

(** ** Endpoints *)

Definition enc_endpoint (addr : AddrPort) (source : string) : json :=
  JObj [member "addr" (enc_addrport addr); member "source" (enc_string source)].

Definition enc_endpointsBody (b : endpointsBody) : json :=
  JObj [member "endpoints" (enc_slice false (λ e, enc_endpoint (ew_Addr e) (ew_Source e)) (eb_Endpoints b))].

Definition fields_Endpoint : list (field Endpoint) :=
  [Field "addr" (λ v e, (λ x, {| ep_Addr := x; ep_Source := ep_Source e |}) <$> dec_addrport v (ep_Addr e));
   Field "source" (λ v e, (λ x, {| ep_Addr := ep_Addr e; ep_Source := x |}) <$> dec_string v (ep_Source e))].
Definition fields_EndpointsReq : list (field EndpointsReq) :=
  [Field "endpoints" (λ v r, (λ x, {| eq_Endpoints := x |}) <$>
     dec_slice Endpoint_zero (dec_struct fields_Endpoint) v (eq_Endpoints r))].

#[export] Instance marshal_endpointsBody : MarshalJSON endpointsBody := marshal_with None (λ b, Some (enc_endpointsBody b)).
#[export] Instance unmarshal_EndpointsReq : UnmarshalJSON EndpointsReq :=
  unmarshal_with {| eq_Endpoints := [] |} (dec_struct fields_EndpointsReq).

(** ** The peer list *)

Section Peers.
Context `{Wire}.

(** [UpdatedAt] is kept in UTC. *)
Definition enc_PeerJSON (p : PeerJSON) : json :=
  JObj [member "node_pubkey" (enc_bytes false (pj_NodeKey p));
        member "disco_pubkey" (enc_key32 (pj_DiscoKey p));
        member "node_name" (enc_string (pj_Name p));
        member "tunnel_ip" (enc_addr (pj_TunnelIP p));
        member "endpoints" (enc_slice (nil_endpoints p) (λ e, enc_endpoint (ep_Addr e) (ep_Source e)) (pj_Endpoints p));
        member "updated_at" (enc_time 0 (pj_UpdatedAt p))].

Definition enc_PeersResp (r : PeersResp) : option json :=
  if forallb (λ p, time_marshals 0 (pj_UpdatedAt p)) (ps_Peers r) then
    Some (JObj [member "etag" (enc_string (ps_Etag r)); member "peers" (enc_slice false enc_PeerJSON (ps_Peers r))])
  else None.

#[export] Instance marshal_PeersResp : MarshalJSON PeersResp := marshal_with None enc_PeersResp.
End Peers.

Definition fields_endpointForWire : list (field endpointForWire) :=
  [Field "addr" (λ v e, (λ x, {| ew_Addr := x; ew_Source := ew_Source e |}) <$> dec_addrport v (ew_Addr e));
   Field "source" (λ v e, (λ x, {| ew_Addr := ew_Addr e; ew_Source := x |}) <$> dec_string v (ew_Source e))].
Definition zero_endpointForWire : endpointForWire := {| ew_Addr := AddrPort_zero; ew_Source := "" |}.

Definition mk_peer (nk : bytes) (dk : key32) (name : string) (ip : Addr)
  (eps : list endpointForWire) (at_ : Z) : peerForWire :=
  {| pw_NodeKey := nk; pw_DiscoKey := dk; pw_Name := name; pw_TunnelIP := ip; pw_Endpoints := eps; pw_UpdatedAt := at_ |}.

Definition fields_peerForWire : list (field peerForWire) :=
  [Field "node_pubkey" (λ v p, (λ x, mk_peer x (pw_DiscoKey p) (pw_Name p) (pw_TunnelIP p) (pw_Endpoints p) (pw_UpdatedAt p))
     <$> dec_bytes v (pw_NodeKey p));
   Field "disco_pubkey" (λ v p, (λ x, mk_peer (pw_NodeKey p) x (pw_Name p) (pw_TunnelIP p) (pw_Endpoints p) (pw_UpdatedAt p))
     <$> dec_key32 v (pw_DiscoKey p));
   Field "node_name" (λ v p, (λ x, mk_peer (pw_NodeKey p) (pw_DiscoKey p) x (pw_TunnelIP p) (pw_Endpoints p) (pw_UpdatedAt p))
     <$> dec_string v (pw_Name p));
   Field "tunnel_ip" (λ v p, (λ x, mk_peer (pw_NodeKey p) (pw_DiscoKey p) (pw_Name p) x (pw_Endpoints p) (pw_UpdatedAt p))
     <$> dec_addr v (pw_TunnelIP p));
   Field "endpoints" (λ v p, (λ x, mk_peer (pw_NodeKey p) (pw_DiscoKey p) (pw_Name p) (pw_TunnelIP p) x (pw_UpdatedAt p))
     <$> dec_slice zero_endpointForWire (dec_struct fields_endpointForWire) v (pw_Endpoints p));
   Field "updated_at" (λ v p, (λ x, mk_peer (pw_NodeKey p) (pw_DiscoKey p) (pw_Name p) (pw_TunnelIP p) (pw_Endpoints p) x)
     <$> dec_time v (pw_UpdatedAt p))].
Definition zero_peerForWire : peerForWire :=
  {| pw_NodeKey := []; pw_DiscoKey := zero32; pw_Name := ""; pw_TunnelIP := AddrZero; pw_Endpoints := [];
     pw_UpdatedAt := 0 |}.

Definition fields_peersOut : list (field peersOut) :=
  [Field "etag" (λ v r, (λ x, {| po_Etag := x; po_Peers := po_Peers r |}) <$> dec_string v (po_Etag r));
   Field "peers" (λ v r, (λ x, {| po_Etag := po_Etag r; po_Peers := x |}) <$>
     dec_slice zero_peerForWire (dec_struct fields_peerForWire) v (po_Peers r))].

#[export] Instance unmarshal_peersOut : UnmarshalJSON peersOut :=
  unmarshal_with {| po_Etag := ""; po_Peers := [] |} (dec_struct fields_peersOut).

(** ** Signals *)

Definition enc_signalBody (b : signalBody) : json :=
  JObj [member "to" (enc_key32 (sb_To b)); member "sealed" (enc_bytes false (sb_Sealed b))].
Definition fields_SignalReq : list (field SignalReq) :=
  [Field "to" (λ v r, (λ x, {| sq_To := x; sq_Sealed := sq_Sealed r |}) <$> dec_key32 v (sq_To r));
   Field "sealed" (λ v r, (λ x, {| sq_To := sq_To r; sq_Sealed := x |}) <$> dec_bytes v (sq_Sealed r))].

#[export] Instance marshal_signalBody : MarshalJSON signalBody := marshal_with None (λ b, Some (enc_signalBody b)).
#[export] Instance unmarshal_SignalReq : UnmarshalJSON SignalReq :=
  unmarshal_with {| sq_To := zero32; sq_Sealed := [] |} (dec_struct fields_SignalReq).

Section Signals.
Context `{Wire}.

Definition enc_Envelope (e : Envelope) : json :=
  JObj [member "from" (enc_key32 (From e)); member "sealed" (enc_bytes (nil_sealed e) (Sealed e));
        member "enqueue" (enc_time (zone (Enqueue e)) (Enqueue e))].

Definition enc_SignalsResp (r : SignalsResp) : option json :=
  if forallb (λ e, time_marshals (zone (Enqueue e)) (Enqueue e)) (sr_Envelopes r) then
    Some (JObj [member "envelopes" (enc_slice (nil_envelopes r) enc_Envelope (sr_Envelopes r))])
  else None.

#[export] Instance marshal_SignalsResp : MarshalJSON SignalsResp := marshal_with None enc_SignalsResp.
End Signals.

Definition fields_envelopeForWire : list (field envelopeForWire) :=
  [Field "sealed" (λ v e, (λ x, {| vw_Sealed := x; vw_Enqueue := vw_Enqueue e |}) <$> dec_bytes v (vw_Sealed e));
   Field "enqueue" (λ v e, (λ x, {| vw_Sealed := vw_Sealed e; vw_Enqueue := x |}) <$> dec_time v (vw_Enqueue e))].
Definition fields_signalsOut : list (field signalsOut) :=
  [Field "envelopes" (λ v r, (λ x, {| so_Envelopes := x |}) <$>
     dec_slice {| vw_Sealed := []; vw_Enqueue := 0 |} (dec_struct fields_envelopeForWire) v (so_Envelopes r))].

#[export] Instance unmarshal_signalsOut : UnmarshalJSON signalsOut :=
  unmarshal_with {| so_Envelopes := [] |} (dec_struct fields_signalsOut).

(** [map[string]bool{key: true}]. *)
#[export] Instance marshal_FlagResp : MarshalJSON FlagResp :=
  marshal_with None (λ f, Some (JObj [member (fl_key f) (JBool true)])).

(** ** The disco message *)

Definition enc_Body (b : Body) : json :=
  JObj (member "type" (enc_string (b_Type b)) ::
        member_if (bool_decide (b_Tx b ≠ "")) "tx" (enc_string (b_Tx b)) ++
        member_if (bool_decide (b_NodeKey b ≠ "")) "node_key" (enc_string (b_NodeKey b)) ++
        member_if (bool_decide (b_Src b ≠ "")) "src" (enc_string (b_Src b)) ++
        member_if (bool_decide (b_Endpoints b ≠ [])) "endpoints" (enc_slice false enc_string (b_Endpoints b))).

Definition set_body (ty tx nk src : string) (eps : list string) : Body :=
  {| b_Type := ty; b_Tx := tx; b_NodeKey := nk; b_Src := src; b_Endpoints := eps |}.

Definition fields_Body : list (field Body) :=
  [Field "type" (λ v b, (λ x, set_body x (b_Tx b) (b_NodeKey b) (b_Src b) (b_Endpoints b)) <$> dec_string v (b_Type b));
   Field "tx" (λ v b, (λ x, set_body (b_Type b) x (b_NodeKey b) (b_Src b) (b_Endpoints b)) <$> dec_string v (b_Tx b));
   Field "node_key" (λ v b, (λ x, set_body (b_Type b) (b_Tx b) x (b_Src b) (b_Endpoints b)) <$> dec_string v (b_NodeKey b));
   Field "src" (λ v b, (λ x, set_body (b_Type b) (b_Tx b) (b_NodeKey b) x (b_Endpoints b)) <$> dec_string v (b_Src b));
   Field "endpoints" (λ v b, (λ x, set_body (b_Type b) (b_Tx b) (b_NodeKey b) (b_Src b) x) <$>
     dec_slice "" dec_string v (b_Endpoints b))].

#[export] Instance marshal_Body : MarshalJSON Body := marshal_with None (λ b, Some (enc_Body b)).
#[export] Instance unmarshal_Body : UnmarshalJSON Body :=
  unmarshal_with (set_body "" "" "" "" []) (dec_struct fields_Body).

(** ** The key file, written with [MarshalIndent] *)

Definition enc_persisted (p : persisted) : json :=
  JObj [member "node_priv" (enc_string (p_NodePriv p)); member "node_pub" (enc_string (p_NodePub p));
        member "disco_priv" (enc_string (p_DiscoPriv p)); member "disco_pub" (enc_string (p_DiscoPub p))].
Definition set_persisted (a b c d : string) : persisted :=
  {| p_NodePriv := a; p_NodePub := b; p_DiscoPriv := c; p_DiscoPub := d |}.
Definition fields_persisted : list (field persisted) :=
  [Field "node_priv" (λ v p, (λ x, set_persisted x (p_NodePub p) (p_DiscoPriv p) (p_DiscoPub p)) <$> dec_string v (p_NodePriv p));
   Field "node_pub" (λ v p, (λ x, set_persisted (p_NodePriv p) x (p_DiscoPriv p) (p_DiscoPub p)) <$> dec_string v (p_NodePub p));
   Field "disco_priv" (λ v p, (λ x, set_persisted (p_NodePriv p) (p_NodePub p) x (p_DiscoPub p)) <$> dec_string v (p_DiscoPriv p));
   Field "disco_pub" (λ v p, (λ x, set_persisted (p_NodePriv p) (p_NodePub p) (p_DiscoPriv p) x) <$> dec_string v (p_DiscoPub p))].

#[export] Instance marshal_persisted : MarshalJSON persisted := marshal_with (Some 0%nat) (λ p, Some (enc_persisted p)).
#[export] Instance unmarshal_persisted : UnmarshalJSON persisted :=
  unmarshal_with (set_persisted "" "" "" "") (dec_struct fields_persisted).

(** ** Both sides fit together *)

(** Decodes the first member of an object. *)
Ltac wire_step :=
  first [ erewrite dec_members_skip by reflexivity
        | erewrite dec_members_field; [|reflexivity|cbn [fd_dec]; cbv beta;
            first [rewrite dec_enc_bytes | rewrite dec_enc_key32 | rewrite dec_enc_string
                  | rewrite dec_enc_addr by done | rewrite dec_enc_addrport by done
                  | rewrite dec_enc_time by done | erewrite dec_enc_slice by done ]; reflexivity] ].

(** The members of an object are carried. *)
Ltac wire_carried :=
  repeat first [apply Forall_nil_2 | apply Forall_cons_2; [split; [reflexivity|]|]].

(** What the messages may hold: valid UTF-8, addresses of version 4 or none, and
    times of years up to 9999. *)
Definition ok_registerBody (b : registerBody) : Prop := utf8 (rb_NodeName b).
Definition ok_RegisterResp (r : RegisterResp) : Prop := utf8 (rs_TunnelIP r) ∧ utf8 (rs_Etag r).
Definition ok_endpoint (a : AddrPort) (s : string) : Prop := wire_addrport a ∧ utf8 s.
Definition ok_endpointsBody (b : endpointsBody) : Prop :=
  ∀ e, e ∈ eb_Endpoints b → ok_endpoint (ew_Addr e) (ew_Source e).
Definition ok_PeerJSON (p : PeerJSON) : Prop :=
  utf8 (pj_Name p) ∧ wire_addr (pj_TunnelIP p) ∧ time_marshals 0 (pj_UpdatedAt p) = true ∧
  ∀ e, e ∈ pj_Endpoints p → ok_endpoint (ep_Addr e) (ep_Source e).
Definition ok_PeersResp (r : PeersResp) : Prop := utf8 (ps_Etag r) ∧ ∀ p, p ∈ ps_Peers r → ok_PeerJSON p.
Definition ok_SignalsResp `{Wire} (r : SignalsResp) : Prop :=
  ∀ e, e ∈ sr_Envelopes r → time_marshals (zone (Enqueue e)) (Enqueue e) = true.
Definition ok_Body (b : Body) : Prop :=
  utf8 (b_Type b) ∧ utf8 (b_Tx b) ∧ utf8 (b_NodeKey b) ∧ utf8 (b_Src b) ∧ ∀ e, e ∈ b_Endpoints b → utf8 e.
Definition ok_persisted (p : persisted) : Prop :=
  utf8 (p_NodePriv p) ∧ utf8 (p_NodePub p) ∧ utf8 (p_DiscoPriv p) ∧ utf8 (p_DiscoPub p).

#[export] Instance compat_register : JSONCompat RegisterReq_of ok_registerBody.
Proof.
  apply (marshal_compat _ _ _ _ _ _ 2); [done|]. intros b Hb. eexists. split; [reflexivity|]. split.
  - apply (carried_obj 1); [lia|]. wire_carried;
      [by apply carried_bytes|by apply carried_key32|by apply carried_string].
  - unfold enc_registerBody. cbn [dec_struct]. do 3 wire_step. reflexivity.
Qed.

#[export] Instance compat_registered : JSONCompat registerOut_of ok_RegisterResp.
Proof.
  apply (marshal_compat _ _ _ _ _ _ 1); [done|]. intros r [H1 H2]. eexists. split; [reflexivity|]. split.
  - apply (carried_obj 0); [lia|]. wire_carried; by apply carried_string.
  - unfold enc_RegisterResp. cbn [dec_struct]. do 2 wire_step. by destruct r.
Qed.

Lemma carried_endpoint n a s : 1 ≤ n → ok_endpoint a s → carried n (enc_endpoint a s).
Proof.
  intros Hn [Ha Hs]. apply (carried_mono (0 + 1)); [lia|]. apply carried_obj; [lia|].
  wire_carried; [by apply carried_addrport|by apply carried_string].
Qed.
Lemma dec_Endpoint a s : ok_endpoint a s →
  dec_struct fields_Endpoint (enc_endpoint a s) Endpoint_zero = Some {| ep_Addr := a; ep_Source := s |}.
Proof. intros [Ha Hs]. unfold enc_endpoint. cbn [dec_struct]. by do 2 wire_step. Qed.
Lemma dec_endpointForWire a s : ok_endpoint a s →
  dec_struct fields_endpointForWire (enc_endpoint a s) zero_endpointForWire = Some {| ew_Addr := a; ew_Source := s |}.
Proof. intros [Ha Hs]. unfold enc_endpoint. cbn [dec_struct]. by do 2 wire_step. Qed.

#[export] Instance compat_endpoints : JSONCompat EndpointsReq_of ok_endpointsBody.
Proof.
  apply (marshal_compat _ _ _ _ _ _ 3); [done|]. intros b Hb. eexists. split; [reflexivity|]. split.
  - apply (carried_obj 2); [lia|]. wire_carried. apply (carried_slice 1); [lia|].
    intros e He. by apply carried_endpoint, Hb.
  - unfold enc_endpointsBody. cbn [dec_struct]. erewrite dec_members_field; [|reflexivity|].
    2: { cbn [fd_dec]. rewrite (dec_enc_slice _ _ _ _ Endpoint_of); [reflexivity|].
         intros e He. by apply dec_Endpoint, Hb. }
    reflexivity.
Qed.

#[export] Instance compat_signal : JSONCompat SignalReq_of (λ _, True).
Proof.
  apply (marshal_compat _ _ _ _ _ _ 2); [done|]. intros b _. eexists. split; [reflexivity|]. split.
  - apply (carried_obj 1); [lia|]. wire_carried; [by apply carried_key32|by apply carried_bytes].
  - unfold enc_signalBody. cbn [dec_struct]. do 2 wire_step. by destruct b.
Qed.

Section Listed.
Context `{Wire}.

Lemma ok_SignalsResp_dec r :
  forallb (λ e, time_marshals (zone (Enqueue e)) (Enqueue e)) (sr_Envelopes r) = true → ok_SignalsResp r.
Proof. rewrite forallb_forall. intros Hf e He. by apply Hf, list_elem_of_In. Qed.

Lemma carried_PeerJSON p : ok_PeerJSON p → carried 3 (enc_PeerJSON p).
Proof.
  intros (H1 & H2 & H3 & H4). apply (carried_obj 2); [lia|].
  wire_carried; [by apply carried_bytes|by apply carried_key32|by apply carried_string|by apply carried_addr| |by apply carried_time].
  apply (carried_slice 1); [lia|]. intros e He. by apply carried_endpoint, H4.
Qed.

Lemma dec_peerForWire p : ok_PeerJSON p →
  dec_struct fields_peerForWire (enc_PeerJSON p) zero_peerForWire = Some (peerForWire_of p).
Proof.
  intros (H1 & H2 & H3 & H4). unfold enc_PeerJSON. cbn [dec_struct]. do 4 wire_step.
  erewrite dec_members_field; [|reflexivity|].
  2: { cbn [fd_dec]. rewrite (dec_enc_slice _ _ _ _ endpointForWire_of); [reflexivity|].
       intros e He. by apply dec_endpointForWire, H4. }
  by wire_step.
Qed.

#[export] Instance compat_peers : JSONCompat peersOut_of ok_PeersResp.
Proof.
  apply (marshal_compat _ _ _ _ _ _ 5); [done|]. intros r [He Hp]. unfold enc_PeersResp.
  assert (forallb (λ p, time_marshals 0 (pj_UpdatedAt p)) (ps_Peers r) = true) as ->.
  { apply forallb_forall. intros p Hin. apply list_elem_of_In, Hp in Hin. apply Hin. }
  eexists. split; [reflexivity|]. split.
  - apply (carried_obj 4); [lia|]. wire_carried; [by apply carried_string|].
    apply (carried_slice 3); [lia|]. intros p Hin. by apply carried_PeerJSON, Hp.
  - cbn [dec_struct]. wire_step. erewrite dec_members_field; [|reflexivity|].
    2: { cbn [fd_dec]. rewrite (dec_enc_slice _ _ _ _ peerForWire_of); [reflexivity|].
         intros p Hin. by apply dec_peerForWire, Hp. }
    reflexivity.
Qed.

Lemma dec_envelopeForWire e : time_marshals (zone (Enqueue e)) (Enqueue e) = true →
  dec_struct fields_envelopeForWire (enc_Envelope e) {| vw_Sealed := []; vw_Enqueue := 0 |} = Some (envelopeForWire_of e).
Proof. intros Ht. unfold enc_Envelope. cbn [dec_struct]. by do 3 wire_step. Qed.

#[export] Instance compat_signals : JSONCompat signalsOut_of ok_SignalsResp.
Proof.
  apply (marshal_compat _ _ _ _ _ _ 4); [done|]. intros r Hr. unfold enc_SignalsResp.
  assert (forallb (λ e, time_marshals (zone (Enqueue e)) (Enqueue e)) (sr_Envelopes r) = true) as ->.
  { apply forallb_forall. intros e Hin. by apply Hr, list_elem_of_In. }
  eexists. split; [reflexivity|]. split.
  - apply (carried_obj 3); [lia|]. wire_carried. apply (carried_slice 2); [lia|]. intros e _.
    apply (carried_obj 1); [lia|]. wire_carried; [by apply carried_key32|by apply carried_bytes|by apply carried_time].
  - cbn [dec_struct]. erewrite dec_members_field; [|reflexivity|].
    2: { cbn [fd_dec]. rewrite (dec_enc_slice _ _ _ _ envelopeForWire_of); [reflexivity|].
         intros e Hin. by apply dec_envelopeForWire, Hr. }
    reflexivity.
Qed.
End Listed.

(** A member that is left out leaves the field at its zero value. *)
Lemma dec_members_if {A} (fs : list (field A)) (b : bool) k v kvs cur cur' :
  (b = true → dec_members fs (member k v :: kvs) cur = dec_members fs kvs cur') → (b = false → cur' = cur) →
  dec_members fs (member_if b k v ++ kvs) cur = dec_members fs kvs cur'.
Proof. intros Ht Hf. destruct b; simpl; [by apply Ht|]. by rewrite Hf. Qed.

#[export] Instance compat_body : JSONCompat id ok_Body.
Proof.
  apply (marshal_compat _ _ _ _ _ _ 2); [done|]. intros b (H1 & H2 & H3 & H4 & H5). eexists. split; [reflexivity|].
  split.
  - apply (carried_obj 1); [lia|]. apply Forall_cons_2; [split; [done|by apply carried_string]|].
    unfold member_if. repeat (case_match; simpl).
    all: wire_carried; try (by apply carried_string).
    all: apply (carried_slice 0); [lia|]; intros e He; by apply carried_string, H5.
  - unfold enc_Body. cbn [dec_struct]. wire_step. destruct b as [ty tx nk src eps]. cbn [b_Type b_Tx b_NodeKey b_Src b_Endpoints] in *.
    rewrite (dec_members_if _ _ _ _ _ _ (set_body ty tx "" "" []));
      [|by intros _; wire_step|by intros ->%bool_decide_eq_false_1%dec_stable].
    rewrite (dec_members_if _ _ _ _ _ _ (set_body ty tx nk "" []));
      [|by intros _; wire_step|by intros ->%bool_decide_eq_false_1%dec_stable].
    rewrite (dec_members_if _ _ _ _ _ _ (set_body ty tx nk src []));
      [|by intros _; wire_step|by intros ->%bool_decide_eq_false_1%dec_stable].
    rewrite <- (app_nil_r (member_if _ "endpoints" _)).
    rewrite (dec_members_if _ _ _ _ _ _ (set_body ty tx nk src eps)); [done| |by intros ->%bool_decide_eq_false_1%dec_stable].
    intros _. erewrite dec_members_field; [|reflexivity|].
    2: { cbn [fd_dec b_Endpoints set_body]. rewrite (dec_enc_slice _ _ _ _ id); [reflexivity|]. intros e He. apply dec_enc_string. }
    by rewrite list_fmap_id.
Qed.

#[export] Instance compat_persisted : JSONCompat id ok_persisted.
Proof.
  apply (marshal_compat _ _ _ _ _ _ 1); [done|]. intros p (H1 & H2 & H3 & H4). eexists. split; [reflexivity|]. split.
  - apply (carried_obj 0); [lia|]. wire_carried; by apply carried_string.
  - unfold enc_persisted. cbn [dec_struct]. do 4 wire_step. by destruct p.
Qed.

Lemma flag_marshals (f : FlagResp) : is_Some (Marshal f).
Proof. by eexists. Qed.

(** Keys are written in base64, so the key file always reads back. *)
Lemma ok_persisted_of nk dk : ok_persisted (persisted_of nk dk).
Proof.
  assert (∀ b, utf8 (Base64.EncodeToString b)) as Hb.
  { intros b. apply ascii_utf8. unfold Base64.EncodeToString. rewrite to_of_bytes. apply ascii_base64. }
  repeat split; apply Hb.
Qed.

(** ** Claims *)

(** C28. The two sides of every message fit together: what the client marshals,
    the coordinator reads with every field it has a use for, and what the
    coordinator answers, the client reads back.  The structs are declared twice
    in the source and tied by their tags only. *)
Theorem wire_messages_compatible `{Wire} :
  (∀ b raw, ok_registerBody b → Marshal b = Some raw → Decode raw = Some (RegisterReq_of b)) ∧
  (∀ r raw, ok_RegisterResp r → Marshal r = Some raw → Decode raw = Some (registerOut_of r)) ∧
  (∀ b raw, ok_endpointsBody b → Marshal b = Some raw → Unmarshal raw = Some (EndpointsReq_of b)) ∧
  (∀ r raw, ok_PeersResp r → Marshal r = Some raw → Decode raw = Some (peersOut_of r)) ∧
  (∀ (b : signalBody) raw, Marshal b = Some raw → Unmarshal raw = Some (SignalReq_of b)) ∧
  (∀ r raw, ok_SignalsResp r → Marshal r = Some raw → Decode raw = Some (signalsOut_of r)).
Proof.
  split_and!; intros.
  - by apply (compat_decode (f:=RegisterReq_of) b).
  - by apply (compat_decode (f:=registerOut_of) r).
  - by apply (compat_unmarshal (f:=EndpointsReq_of) b).
  - by apply (compat_decode (f:=peersOut_of) r).
  - by apply (compat_unmarshal (f:=SignalReq_of) b).
  - by apply (compat_decode (f:=signalsOut_of) r).
Qed.

(** Disco keys travel as arrays of 32 numbers: a signal whose recipient is
    given in base64, as the protocol document describes it, is refused. *)
Theorem base64_disco_key_refused (key sealed : bytes) :
  Unmarshal (B:=SignalReq)
    (print (JObj [member "to" (enc_string (Base64.EncodeToString key)); member "sealed" (enc_bytes false sealed)]))
  = None.
Proof.
  set (v := JObj _).
  assert (carried 2 v) as [Hw Hd].
  { apply (carried_obj 1); [lia|]. wire_carried; [|by apply carried_bytes].
    apply carried_ascii; [lia|]. unfold Base64.EncodeToString. rewrite to_of_bytes. apply ascii_base64. }
  unfold Unmarshal, unmarshal_SignalReq, unmarshal_with. unfold print.
  destruct (json_roundtrip None v Hw) as (-> & _); [unfold maxNestingDepth; lia|]. reflexivity.
Qed.

Section Sealed.
Context `{NaclBox}.

(** C8. What one node seals for another, the other opens: the recipient of a
    built envelope recovers the sender's public key and the body, through its
    JSON text, for every body of valid UTF-8. *)
Theorem envelope_roundtrip (nonce : nonce24) (sender recipient : DiscoKeys.DiscoKey) (body : Body)
  (Hs : disco_pair sender) (Hr : disco_pair recipient) (Hok : ok_Body body) :
  ∃ buf, BuildEnvelope (Some nonce) sender (dk_Pub recipient) body = Ok buf ∧
    OpenEnvelope buf recipient = (dk_Pub sender, Ok body).
Proof. by apply (envelope_roundtrip_any ok_Body). Qed.

(** C27. Identities survive a restart: when keys.json does not exist, a successful
    first call writes it, and every later call on the resulting files returns
    the same two key pairs whatever the random source yields, and writes
    nothing. *)
Theorem keys_survive_restart `{Ed25519} (path : string) (pub priv : bytes) (rnd : key32) (os os' : OS)
  (nk : DiscoKeys.NodeKey) (dk : DiscoKeys.DiscoKey) (gen' : option (bytes * bytes)) (rnd' : option key32)
  (Hpair : ed_pair priv pub) (Hnew : os_files os !! path = None)
  (Hrun : LoadOrCreateKeys path (Some (pub, priv)) (Some rnd) os = (Ok (nk, dk), os')) :
  nk_Priv nk = priv ∧ nk_Pub nk = pub ∧ disco_pair dk ∧
  LoadOrCreateKeys path gen' rnd' os' = (Ok (nk, dk), os').
Proof. eapply (keys_survive_restart_any ok_persisted); try done. apply ok_persisted_of. Qed.
End Sealed.

(** ** Witnesses *)
Module WireDemo.
#[local] Instance ed : Ed25519 := toy_ed25519.
#[local] Instance bx : NaclBox := toy_box.
(** A coordinator two hours east of Greenwich. *)
#[export] Instance wire : Wire :=
  {| zone _ := 120; nil_endpoints _ := true; nil_sealed _ := true; nil_envelopes _ := true |}.

Lemma wire_messages_compatible_witness :
  Unmarshal (B:=SignalReq)
    (default [] (Marshal {| sb_To := vreplicate 32 x07; sb_Sealed := [x2a] |})) =
  Some {| sq_To := vreplicate 32 x07; sq_Sealed := [x2a] |}.
Proof.
  destruct (wire_messages_compatible (H:=wire)) as (_ & _ & _ & _ & Hs & _).
  exact (Hs {| sb_To := vreplicate 32 x07; sb_Sealed := [x2a] |} _ eq_refl).
Defined.

Lemma envelope_roundtrip_witness :
  ∃ buf, BuildEnvelope (Some (vreplicate 24 x05)) EnvelopeDemo.alice (dk_Pub EnvelopeDemo.bob) EnvelopeDemo.ping = Ok buf ∧
    OpenEnvelope buf EnvelopeDemo.bob = (dk_Pub EnvelopeDemo.alice, Ok EnvelopeDemo.ping).
Proof.
  apply (envelope_roundtrip (vreplicate 24 x05) EnvelopeDemo.alice EnvelopeDemo.bob EnvelopeDemo.ping);
    [reflexivity|reflexivity|]. repeat split; try reflexivity. intros e He. inversion He.
Defined.

Definition path : string := "/var/lib/gretun/keys.json".
Definition keys_text : bytes := default [] (Marshal (persisted_of KeysDemo.nk KeysDemo.dk)).
Definition with_keys : OS := os_set_file KeysDemo.os path keys_text.

Lemma keys_survive_restart_witness : LoadOrCreateKeys path None None with_keys = (Ok (KeysDemo.nk, KeysDemo.dk), with_keys).
Proof.
  apply (keys_survive_restart path Auth.demo_pub Auth.demo_priv (vreplicate 32 x07) KeysDemo.os with_keys
    KeysDemo.nk KeysDemo.dk None None); [split; reflexivity|reflexivity|vm_compute; reflexivity].
Defined.

End WireDemo.
