(* ===== verification/EndToEnd.v ===== *)
(** * Client and coordinator together

    The client's methods with the coordinator's [ServeHTTP] as transport.  The
    two sides' message structs are tied by the JSON codecs of [JsonWire]. *)

From S2P Require Import Prelude.
From S2P Require Import Encoding.
From S2P Require Import NetIP.
From S2P Require Import GoTime.
From S2P Require Import GoSlice.
From S2P Require Import GoHttp.
From S2P Require Import GoJson.
From S2P Require Import CoordStore.
From S2P Require Import CoordAuth.
From S2P Require Import CoordServer.
From S2P Require Import DiscoKeys.
From S2P Require Import DiscoClient.
From S2P Require Import Json.
From S2P Require Import JsonCodec.
From S2P Require Import GoRFC3339.
From S2P Require Import JsonWire.

(** What a client sees of a registered peer. *)
Definition remote_view (s : MemStore) (p : Peer) : RemotePeer :=
  {| rp_NodeKey := CoordStore.NodeKey p; rp_DiscoKey := CoordStore.DiscoKey p; rp_Name := Name p;
     rp_TunnelIP := TunnelIP p;
     rp_Endpoints := (λ e, {| re_Addr := ep_Addr e; re_Source := ep_Source e |})
                       <$> slice_read (eps_heap s) (Endpoints p);
     rp_UpdatedAt := UpdatedAt p |}.

#[local] Arguments Decode : simpl never.
#[local] Arguments Unmarshal : simpl never.
#[local] Arguments Marshal : simpl never.

Section EndToEnd.
Context `{Ed25519} `{CauseText} `{Growslice} `{Wire}.

(** A coordinator at which nothing else happens: a long poll runs into its
    timeout. *)
Definition coordinator (clk : nat → Z) : Transport MemStore := λ r s,
  match ServeHTTP clk None r s with
  | Reply resp s => (Some resp, s)
  | Park _ _ s k => let '(resp, s) := k (Some DeadlineExceeded) None (clk 3%nat) s in (Some resp, s)
  | Unrouted => (Some (http_Error "404 page not found" StatusNotFound), s)
  end.

(** An honest client of this coordinator whose clock is in step with [t]. *)
Definition honest (now : Z) (c : CoordClient) (t : Z) : Prop :=
  c_base c = "" ∧ ed_pair (nk_Priv (c_nk c)) (nk_Pub (c_nk c)) ∧ Client.in_step now t.

Lemma plain_path p : forallb plain (to_bytes p) = true → Forall (λ b, plain b = true) (to_bytes p).
Proof. intros Hp. apply Forall_forall. intros b Hb. rewrite forallb_forall in Hp.
  by apply Hp, list_elem_of_In. Qed.

(** A signed request for a route without a query reaches its handler. *)
Lemma signedRequest_served now c t method path body rt :
  honest now c t → forallb plain (to_bytes path) = true →
  (∀ r, r_Method r = method → t_EscapedPath (r_URL r) = to_bytes path → route r = Some rt) →
  ∃ r, Client.signedRequest now c method path body = Some r ∧ route r = Some rt ∧
    Auth.VerifyRequest t r = Ok (nk_Pub (c_nk c), body).
Proof.
  intros (Hb & Hp & ? & ? & ?) Hpl Hrt.
  destruct (Client.signedRequest_verifies now t c method path "" body)
    as (r & Hr & (Hm & He & Hv) & _); try done; [by apply plain_path|by left|].
  assert (path +:+ "" = path) as Hpath.
  { apply (inj to_bytes). by rewrite to_bytes_app, app_nil_r. }
  rewrite Hpath in Hr. exists r. split_and!; try done. by apply Hrt.
Qed.

Lemma route_signal_post r : r_Method r = "POST" → t_EscapedPath (r_URL r) = to_bytes "/v1/signal" →
  route r = Some RSignal.
Proof. intros Hm Hp. unfold route, segments. rewrite Hm, Hp. reflexivity. Qed.

Lemma route_signal_get r : r_Method r = "GET" → t_EscapedPath (r_URL r) = to_bytes "/v1/signal" →
  route r = Some RSignalPull.
Proof. intros Hm Hp. unfold route, segments. rewrite Hm, Hp. reflexivity. Qed.

Lemma route_peers r : r_Method r = "GET" → t_EscapedPath (r_URL r) = to_bytes "/v1/peers" →
  route r = Some RPeers.
Proof. intros Hm Hp. unfold route, segments. rewrite Hm, Hp. reflexivity. Qed.

(** *** Relay *)

(** What a send leaves in the store. *)
Lemma SendSignal_effect now c clk to sealed (s : MemStore) :
  honest now c (clk 0%nat) →
  Client.SendSignal (coordinator clk) now c to sealed s =
  (Ok (), (EnqueueSignal None to
    {| From := array_copy 32 []; Sealed := sealed; Enqueue := clk 1%nat |} s).2).
Proof.
  intros Hc. unfold Client.SendSignal, Client.signedDo, Client.marshal_or_nil.
  set (body := {| sb_To := to; sb_Sealed := sealed |}).
  destruct (compat_marshal (f:=SignalReq_of) body I) as [raw Hraw]. rewrite Hraw. simpl default.
  destruct (signedRequest_served now c (clk 0%nat) "POST" "/v1/signal" raw RSignal Hc eq_refl
    route_signal_post) as (r & -> & Hrt & Hv).
  unfold coordinator, ServeHTTP, authed, handleSignal. rewrite Hrt, Hv.
  rewrite (compat_unmarshal (f:=SignalReq_of) body raw I Hraw). unfold SignalReq_of, body, st_EnqueueSignal, MemStore_Store.
  cbn [sq_To sq_Sealed sb_To sb_Sealed]. unfold EnqueueSignal.
  destruct (EnqueueSignal_locked _ _ _) as [wake s']. unfold writeJSON.
  destruct (flag_marshals {| fl_key := "queued" |}) as [fl ->]. done.
Qed.

(** What a pull returns when fresh mail waits. *)
Lemma PullSignals_effect base bits now c clk (s : MemStore) p mail :
  reg_wf base bits s → honest now c (clk 0%nat) →
  peers s !! base64Encode (nk_Pub (c_nk c)) = Some p →
  mail = filter (CoordStore.fresh (maxAge s) (clk 1%nat)) (default [] (signals s !! CoordStore.DiscoKey p)) →
  mail ≠ [] → ok_SignalsResp {| sr_Envelopes := mail |} →
  Client.PullSignals (coordinator clk) now c s =
  (Ok (Sealed <$> mail), (PopSignals None (CoordStore.DiscoKey p) (clk 1%nat) s).2).
Proof.
  intros Hwf Hc Hp Hmail Hne Hok. unfold Client.PullSignals, Client.signedDo.
  destruct (signedRequest_served now c (clk 0%nat) "GET" "/v1/signal" [] RSignalPull Hc eq_refl
    route_signal_get) as (r & -> & Hrt & Hv).
  unfold coordinator, ServeHTTP, authed, handleSignalPull. rewrite Hrt, Hv.
  rewrite (discoKeyForNodeKey_lookup _ _ _ _ Hwf), Hp. unfold pop_or_nil, st_PopSignals, MemStore_Store.
  unfold PopSignals. cbn [maxAge set_mail].
  rewrite (list_filter_iff _ (CoordStore.fresh (maxAge s) (clk 1%nat)));
    [|intros e; unfold CoordStore.fresh, GoTime.After, GoTime.Add; rewrite Z.ltb_lt; lia].
  rewrite <- Hmail. destruct mail as [|e mail']; [done|]. unfold writeJSON.
  destruct (compat_marshal _ Hok) as [raw Hraw]. rewrite Hraw. simpl.
  rewrite (compat_decode _ _ Hok Hraw). simpl. by rewrite <- list_fmap_compose.
Qed.

(** The envelopes that stay when one more arrives. *)
Definition kept_mail (s : MemStore) (to : key32) : list Envelope :=
  let q := default [] (signals s !! to) in
  if (maxQueueDepth s <=? length q)%nat then drop 1 q else q.

(** C4. Relay, end to end: what one client sends to a disco key, the client
    registered with that key gets from its next pull, after the fresh mail
    that was already waiting (the oldest envelope gives way when the mailbox
    is full), provided less than [maxAge] passes between the two requests.
    The sender needs a key pair but no registration. *)
Theorem relay_delivers (base bits : Z) (s : MemStore) (a b : CoordClient) (nowA nowB : Z)
  (clkA clkB : nat → Z) (p : Peer) (sealed : bytes)
  (Hwf : reg_wf base bits s)
  (Ha : honest nowA a (clkA 0%nat)) (Hb : honest nowB b (clkB 0%nat))
  (Hreg : peers s !! base64Encode (nk_Pub (c_nk b)) = Some p)
  (Hage : clkB 1%nat - maxAge s < clkA 1%nat)
  (Hok : ok_SignalsResp {| sr_Envelopes :=
     filter (CoordStore.fresh (maxAge s) (clkB 1%nat)) (kept_mail s (CoordStore.DiscoKey p)) ++
     [{| From := array_copy 32 []; Sealed := sealed; Enqueue := clkA 1%nat |}] |}) :
  ∃ s1 s2,
    Client.SendSignal (coordinator clkA) nowA a (CoordStore.DiscoKey p) sealed s = (Ok (), s1) ∧
    Client.PullSignals (coordinator clkB) nowB b s1 =
      (Ok ((Sealed <$> filter (CoordStore.fresh (maxAge s) (clkB 1%nat))
        (kept_mail s (CoordStore.DiscoKey p))) ++ [sealed]), s2) ∧
    signals s2 = delete (CoordStore.DiscoKey p) (signals s).
Proof.
  do 2 eexists. split; [by apply SendSignal_effect|].
  set (env := {| From := _; Sealed := sealed; Enqueue := clkA 1%nat |}).
  set (s1 := (EnqueueSignal None (CoordStore.DiscoKey p) env s).2).
  assert (peers s1 = peers s ∧ pool s1 = pool s ∧ byTunnel s1 = byTunnel s ∧ maxAge s1 = maxAge s ∧
    signals s1 = <[CoordStore.DiscoKey p := kept_mail s (CoordStore.DiscoKey p) ++ [env]]> (signals s)) as (E1 & E2 & E3 & E4 & E5).
  { unfold s1, EnqueueSignal. simpl. by destruct (signalWakes s !! CoordStore.DiscoKey p). }
  assert (filter (CoordStore.fresh (maxAge s1) (clkB 1%nat))
            (default [] (signals s1 !! CoordStore.DiscoKey p)) =
          filter (CoordStore.fresh (maxAge s) (clkB 1%nat)) (kept_mail s (CoordStore.DiscoKey p)) ++ [env]) as Hmail.
  { rewrite E4, E5, lookup_insert_eq. simpl. rewrite filter_app.
    by rewrite (filter_all _ [env]) by (by apply Forall_singleton). }
  split.
  - rewrite (PullSignals_effect base bits nowB b clkB s1 p _
      (reg_wf_ext _ _ s s1 E2 E1 E3 Hwf) Hb ltac:(by rewrite E1) (eq_sym Hmail)
      ltac:(by intros []%app_nil) Hok).
    by rewrite fmap_app.
  - trans (delete (CoordStore.DiscoKey p) (signals s1)); [done|]. rewrite E5. apply delete_insert_eq.
Qed.

(** *** The peer list *)

(** Both ways a poll ends give the list as it is then. *)
Lemma coordinator_peers clk r (s : MemStore) pub body :
  route r = Some RPeers → Auth.VerifyRequest (clk 0%nat) r = Ok (pub, body) →
  coordinator clk r s = (Some (reply_peers None s), s).
Proof.
  intros Hrt Hv. unfold coordinator, ServeHTTP, authed, handlePeers. rewrite Hrt, Hv.
  destruct (decide _); [|done]. by destruct (st_WaitForPeersChange _ _).
Qed.

Lemma peers_path_request now c t since :
  honest now c t → Forall (λ b, plain b = true) (to_bytes since) →
  ∃ r, Client.signedRequest now c "GET" (Client.peers_path since) [] = Some r ∧
    route r = Some RPeers ∧ Query_Get "since" (r_URL r) = since ∧
    Auth.VerifyRequest t r = Ok (nk_Pub (c_nk c), []).
Proof.
  intros (Hb & Hp & ? & ? & ?) Hs.
  set (q := if decide (since ≠ "") then "?since=" +:+ since else "").
  assert (Client.peers_path since = "/v1/peers" +:+ q) as ->.
  { unfold Client.peers_path, q. by case_decide. }
  assert (to_bytes q = [] ∧ since = "" ∨
    to_bytes q = "?"%byte :: (to_bytes "since" ++ "="%byte :: to_bytes since)) as Hq.
  { unfold q. case_decide as Hd; [by right|]. left. split; [done|]. destruct (decide (since = "")); [done|by destruct Hd]. }
  assert (Forall (λ b, is_ctl b = false) (to_bytes since)) as Hctl.
  { eapply Forall_impl; [done|]. intros b Hb'. unfold plain, is_ctl in *. bool_to_prop.
    apply orb_false_iff. split; [apply Z.ltb_ge|apply Z.eqb_neq]; lia. }
  destruct (Client.signedRequest_verifies now t c "GET" "/v1/peers" q [])
    as (r & Hr & (Hm & He & Hv) & Hraw); try done; [apply plain_path; reflexivity|..].
  { destruct Hq as [[-> _]| ->]; [by left|right; eauto]. }
  { destruct Hq as [[-> _]| ->]; [done|]. simpl. apply not_true_is_false.
    intros (b & Hb' & Hc)%existsb_exists. rewrite Forall_forall in Hctl.
    apply list_elem_of_In, Hctl in Hb'. congruence. }
  exists r. split_and!; try done; [by apply route_peers|].
  destruct r as [m [ep rq] h bd]; simpl in *. destruct Hq as [[Hq ->]|Hq].
  - assert (rq = []) as ->; [|done].
    revert Hr. unfold Client.signedRequest, Client.NewRequest. rewrite Hb, !to_bytes_app, Hq.
    rewrite app_nil_r. simpl. by intros [= _ _ <- _].
  - rewrite (Hraw _ Hq), cut_none.
    + refine (Query_Get_single "since" since ep _ Hs). apply plain_path; reflexivity.
    + change ("#"%byte ∉ to_bytes "since" ++ "="%byte :: to_bytes since).
      rewrite elem_of_app, elem_of_cons. intros [Hin|[Heq|Hin]]; [|done|].
      * revert Hin. apply plain_not_elem; [done|]. apply plain_path; reflexivity.
      * revert Hin. by apply plain_not_elem.
Qed.

(** C16. Polling the peer list gives the client every registered peer with its
    keys, name, tunnel address and current endpoints, in increasing order of
    tunnel address, with the store's etag; the etag the client sends is the
    one the server compares. *)
Theorem peers_poll_shows_registry (base bits : Z) (s : MemStore) (c : CoordClient) (now : Z)
  (clk : nat → Z) (since : string)
  (Hwf : reg_wf base bits s) (Hc : honest now c (clk 0%nat))
  (Hs : Forall (λ b, plain b = true) (to_bytes since))
  (Hok : ∀ l, l ≡ₚ (map_to_list (peers s)).*2 →
     ok_PeersResp {| ps_Etag := peersEtag s; ps_Peers := peer_json s <$> l |}) :
  ∃ l r, Client.signedRequest now c "GET" (Client.peers_path since) [] = Some r ∧
    Query_Get "since" (r_URL r) = since ∧
    Client.Peers (coordinator clk) now c since s = (Ok (remote_view s <$> l, peersEtag s), s) ∧
    StronglySorted tunnel_le l ∧ l ≡ₚ (map_to_list (peers s)).*2.
Proof.
  destruct (peers_path_request now c (clk 0%nat) since Hc Hs) as (r & Hr & Hrt & Hq & Hv).
  exists (merge_sort tunnel_le (peer_values s)), r.
  pose proof (merge_sort_Permutation tunnel_le (peer_values s)) as HP.
  split_and!; [done|done| | |done].
  - unfold Client.Peers, Client.signedDo. rewrite Hr, (coordinator_peers _ _ _ _ _ Hrt Hv).
    unfold reply_peers, writeJSON. cbn [st_Peers MemStore_Store CoordStore.Peers].
    fold (peer_values s). specialize (Hok _ HP).
    destruct (compat_marshal _ Hok) as [raw Hraw]. rewrite Hraw. simpl.
    rewrite (compat_decode _ _ Hok Hraw). simpl. repeat f_equal.
    rewrite <- !list_fmap_compose. apply list_fmap_ext. intros i p _. unfold compose, remote_view.
    unfold Client.remote_peer. simpl. f_equal. by rewrite <- list_fmap_compose.
  - apply Sorted_StronglySorted; [apply _|]. apply Sorted_merge_sort, _.
Qed.

(** *** Joining *)

Lemma ParsePrefix_24 x : 0 ≤ x < 2 ^ 32 →
  IP.ParsePrefix (string4 x +:+ "/24") = Some {| pfx_addr := AddrV4 x; pfx_bits := 24 |}.
Proof.
  intros Hx. unfold IP.ParsePrefix. rewrite to_bytes_app. change (to_bytes "/24") with ["/"%byte; "2"%byte; "4"%byte].
  rewrite split_byte_app.
  2: { rewrite to_bytes_string4. repeat first [rewrite not_elem_of_app | rewrite not_elem_of_cons].
       repeat split; try done; by apply Decimal.pretty_no_sep. }
  change (split_byte "/"%byte ["2"%byte; "4"%byte]) with [["2"%byte; "4"%byte]]. cbn [rev app].
  rewrite length_app. cbn [length].
  replace (length (to_bytes (string4 x)) + 3 - 2 - 1)%nat with (length (to_bytes (string4 x))) by lia.
  rewrite take_app_length, of_to_bytes, ParseAddr_string4 by done. reflexivity.
Qed.

(** A registration hands out an address of version 4 and a new etag. *)
Lemma Register_answer base bits p now now' (s s' : MemStore) ip :
  reg_wf base bits s → CoordStore.Register None p now now' s = (Ok ip, s') →
  (∃ x, 0 ≤ x < 2 ^ 32 ∧ ip = AddrV4 x) ∧ peersEtag s' = newEtag now'.
Proof.
  intros Hwf Hr. pose proof (Register_reg_wf base bits None p now now' s Hwf) as Hwf'. rewrite Hr in Hwf'.
  destruct (prefix4_bounds _ _ _ (rw_pool _ _ _ Hwf)) as [Hf Hl].
  assert (∃ k q, peers s' !! k = Some q ∧ TunnelIP q = ip ∧ peersEtag s' = newEtag now') as (k & q & Hq & Hip & He).
  { unfold CoordStore.Register in Hr. destruct (negb _); [done|].
    destruct (peers s !! _) as [old|] eqn:Eo; [|destruct (allocateIPLocked s) as [a|]; [|done]];
      simplify_eq; eexists _, _; (split; [apply lookup_insert_eq|done]). }
  split; [|done]. destruct (rw_ip _ _ _ Hwf' _ _ Hq) as (x & Hx & Hr' & _). exists x.
  split; [|by rewrite <- Hip]. pose proof (rw_pool _ _ _ Hwf) as (_ & Hb & _). lia.
Qed.

Lemma utf8_etag now : utf8 (newEtag now).
Proof.
  apply ascii_utf8. unfold newEtag, Hex.EncodeToString. rewrite to_of_bytes.
  induction (take 8 _) as [|b l IH]; [done|]. cbn [Hex.encode_bytes forallb]. rewrite IH.
  pose proof (byte_forall (λ b, forallb ascii (Hex.encode_bytes [b])) ltac:(vm_compute; reflexivity) b) as Hb.
  cbn [Hex.encode_bytes forallb] in Hb. apply andb_true_iff in Hb as [-> Hb]. apply andb_true_iff in Hb as [-> _]. done.
Qed.

(** C29. Registration, end to end: the client gets exactly what the store decided,
    through both JSON messages.  On success that is the node's tunnel address
    with the length of the mesh network, which the daemon can parse, and the new
    etag; when the store refuses, the client reports its error with status 500. *)
Theorem register_end_to_end (base bits : Z) (s : MemStore) (c : CoordClient) (name : string) (clk : nat → Z)
  (Hwf : reg_wf base bits s) (Hbase : c_base c = "") (Hkey : length (nk_Pub (c_nk c)) = 32%nat) (Hname : utf8 name) :
  let p := {| CoordStore.NodeKey := nk_Pub (c_nk c); CoordStore.DiscoKey := dk_Pub (c_dk c); Name := name;
              TunnelIP := AddrZero; Endpoints := nil_slice; UpdatedAt := 0 |} in
  match CoordStore.Register None p (clk 1%nat) (clk 2%nat) s with
  | (Ok ip, s') =>
      Client.Register (coordinator clk) c name s = (Ok (Addr_String ip +:+ "/24", peersEtag s'), s') ∧
      IP.ParsePrefix (Addr_String ip +:+ "/24") = Some {| pfx_addr := ip; pfx_bits := 24 |}
  | (Err e, s') =>
      Client.Register (coordinator clk) c name s =
        (Err (CErrStatus "register" 500 (to_bytes (StoreError_Error e) ++ [x0a])), s')
  end.
Proof.
  intros p. unfold Client.Register, Client.marshal_or_nil.
  set (body := {| rb_NodePubkey := nk_Pub (c_nk c); rb_DiscoPubkey := dk_Pub (c_dk c); rb_NodeName := name |}).
  assert (ok_registerBody body) as Hb by exact Hname.
  destruct (compat_marshal (f:=RegisterReq_of) body Hb) as [raw Hraw]. rewrite Hraw. simpl default.
  unfold Client.NewRequest. rewrite Hbase.
  assert (parse_target (to_bytes ("" +:+ "/v1/register")) =
    Some {| t_EscapedPath := to_bytes "/v1/register"; t_RawQuery := [] |}) as -> by reflexivity.
  cbn [mbind option_bind]. unfold coordinator, ServeHTTP, handleRegister.
  change (route _) with (Some RRegister). cbn [r_Body mbind option_bind].
  rewrite (compat_decode (f:=RegisterReq_of) body raw Hb Hraw).
  cbn [RegisterReq_of rq_NodePubkey rq_DiscoPubkey rq_NodeName rb_NodePubkey rb_DiscoPubkey rb_NodeName body].
  rewrite Hkey. change (negb (32 =? PublicKeySize)%nat) with false. cbv iota. fold p.
  unfold st_Register, MemStore_Store. destruct (CoordStore.Register None p _ _ s) as [[ip|e] s'] eqn:Er; [|done].
  destruct (Register_answer _ _ _ _ _ _ _ _ Hwf Er) as [(x & Hx & ->) Het].
  cbn [st_Peers CoordStore.Peers]. change (Addr_String (AddrV4 x)) with (string4 x).
  split; [|by apply ParsePrefix_24]. unfold writeJSON.
  set (resp := {| rs_TunnelIP := _; rs_Etag := _ |}).
  assert (ok_RegisterResp resp) as Hok.
  { split; simpl; [|rewrite Het; apply utf8_etag]. apply ascii_utf8. rewrite to_bytes_app.
    apply forallb_app_true; [apply ascii_string4|done]. }
  destruct (compat_marshal (f:=registerOut_of) resp Hok) as [rawr Hrawr]. rewrite Hrawr. simpl.
  by rewrite (compat_decode (f:=registerOut_of) resp rawr Hok Hrawr).
Qed.
End EndToEnd.

(** ** Witnesses *)
Module EndToEndDemo.

#[local] Instance ed : Ed25519 := toy_ed25519.
#[local] Instance ct : CauseText := no_cause.
#[local] Instance gs : Growslice := exact_growslice.
#[local] Existing Instance WireDemo.wire.

Definition clk (n : nat) : Z := Auth.demo_now + Z.of_nat n.
(** Node 1 of [demo_store]. *)
Definition node1 : CoordClient :=
  NewCoordClient "" {| nk_Priv := replicate 64 x01; nk_Pub := replicate 32 x01 |}
    {| dk_Priv := vreplicate 32 x01; dk_Pub := vreplicate 32 x01 |}.

Lemma demo_honest c : c_base c = "" → ed_pair (nk_Priv (c_nk c)) (nk_Pub (c_nk c)) →
  honest Auth.demo_now c (clk 0).
Proof. intros Hb Hp. split; [exact Hb|]. split; [exact Hp|]. z_compute. Qed.

Lemma relay_delivers_witness :
  ∃ s1 s2,
    Client.SendSignal (coordinator clk) Auth.demo_now Client.demo_client (vreplicate 32 x01) [x2a]
      demo_store = (Ok (), s1) ∧
    Client.PullSignals (coordinator clk) Auth.demo_now node1 s1 = (Ok [[x2a]], s2).
Proof.
  destruct (relay_delivers 0x0a000000 29 demo_store Client.demo_client node1 Auth.demo_now Auth.demo_now
    clk clk demo_old [x2a] demo_reg_wf
    (demo_honest Client.demo_client eq_refl ltac:(split; reflexivity))
    (demo_honest node1 eq_refl ltac:(split; reflexivity))
    demo_old_registered ltac:(z_compute) ltac:(apply ok_SignalsResp_dec; vm_compute; reflexivity))
    as (s1 & s2 & H1 & H2 & _).
  exact (ex_intro _ s1 (ex_intro _ s2 (conj H1 H2))).
Defined.

Lemma demo_empty_wf : reg_wf 0x0a000000 29 (NewMemStore demo_pool 0).
Proof. apply NewMemStore_wf, demo_prefix4. Qed.

Lemma register_end_to_end_witness :
  ∃ s' etag, Client.Register (coordinator clk) node1 "node" (NewMemStore demo_pool 0) = (Ok ("10.0.0.1/24", etag), s').
Proof.
  pose proof (register_end_to_end 0x0a000000 29 (NewMemStore demo_pool 0) node1 "node" clk demo_empty_wf
    eq_refl eq_refl eq_refl) as Hr. cbv zeta in Hr.
  assert (∃ s', CoordStore.Register None
    {| CoordStore.NodeKey := nk_Pub (c_nk node1); CoordStore.DiscoKey := dk_Pub (c_dk node1); Name := "node";
       TunnelIP := AddrZero; Endpoints := nil_slice; UpdatedAt := 0 |} (clk 1) (clk 2) (NewMemStore demo_pool 0)
    = (Ok (AddrV4 0x0a000001), s')) as [s' Hs] by (eexists; vm_compute; reflexivity).
  rewrite Hs in Hr. exists s', (peersEtag s'). exact (proj1 Hr).
Defined.

Lemma demo_listed : ok_PeersResp {| ps_Etag := peersEtag demo_store; ps_Peers := peer_json demo_store <$> [demo_old] |}.
Proof.
  split; [vm_compute; reflexivity|]. intros p Hp. apply list_elem_of_singleton in Hp as ->.
  split; [vm_compute; reflexivity|]. split; [right; eexists; split; [|vm_compute; reflexivity]; z_compute|].
  split; [vm_compute; reflexivity|]. intros e He.
  assert (pj_Endpoints (peer_json demo_store demo_old) = [demo_ep 1; demo_ep 2]) as Heps by (vm_compute; reflexivity).
  rewrite Heps in He.
  assert (∀ port, 0 ≤ port < 2 ^ 16 → ok_endpoint (ep_Addr (demo_ep port)) (ep_Source (demo_ep port))) as Hport.
  { intros port Hp. split; [|reflexivity]. right. exists 0x01020304. split; [lia|]. split; [reflexivity|exact Hp]. }
  apply elem_of_cons in He as [->|He]; [apply Hport; lia|].
  apply list_elem_of_singleton in He as ->. apply Hport. lia.
Qed.

Lemma peers_poll_shows_registry_witness :
  ∃ l, Client.Peers (coordinator clk) Auth.demo_now node1 "00ff" demo_store =
      (Ok (remote_view demo_store <$> l, peersEtag demo_store), demo_store) ∧
    l ≡ₚ (map_to_list (peers demo_store)).*2.
Proof.
  assert ((map_to_list (peers demo_store)).*2 = [demo_old]) as Hone by (vm_compute; reflexivity).
  destruct (peers_poll_shows_registry 0x0a000000 29 demo_store node1 Auth.demo_now clk "00ff" demo_reg_wf
    (demo_honest node1 eq_refl ltac:(split; reflexivity))
    ltac:(apply (bool_decide_unpack _); vm_compute; exact I)
    ltac:(intros l Hl; rewrite Hone in Hl; apply Permutation_singleton_r in Hl; subst l; exact demo_listed))
    as (l & r & _ & _ & H1 & _ & H2).
  exact (ex_intro _ l (conj H1 H2)).
Defined.

End EndToEndDemo.
