(* ===== verification/TunnelErrors.v ===== *)
(** * Errors of the tunnel package ([internal/tunnel/errors.go], [errtranslate.go])

    [error] is the sum of the concrete error types the package meets: its own
    structs, kernel error numbers ([syscall.Errno]), validation failures and
    errors of other packages.  [errors.As] walks the [Unwrap] chain. *)

From S2P Require Import Prelude.
From S2P Require Import GoSlice.

(** ** Error numbers (Linux) *)

Abbreviation Errno := Z (only parsing).
Definition EPERM : Errno := 1.
Definition EAGAIN : Errno := 11.
Definition EACCES : Errno := 13.
Definition EBUSY : Errno := 16.
Definition EEXIST : Errno := 17.
Definition ENODEV : Errno := 19.
Definition EINVAL : Errno := 22.
Definition EOPNOTSUPP : Errno := 95.
Definition EADDRINUSE : Errno := 98.
Definition ENETDOWN : Errno := 100.
Definition ETIMEDOUT : Errno := 110.

(** ** What validation refuses ([validate.go]); the constructors stand for the
    messages. *)

Inductive VError :=
| VNameEmpty
| VNameTooLong (name : string)
| VNameChars (name : string)
| VNameReserved (name prefix : string)
| VCIDREmpty
| VCIDRSyntax (cidr : string)
| VCIDRNotIPv4 (cidr : string)
| VCIDRNetwork (cidr : string)
| VCIDRBroadcast (cidr : string)
| VIPRequired (field : string)
| VIPUnspecified (field : string)
| VIPLoopback (field : string)
| VIPNotIPv4 (field : string)
| VIPMulticast (field : string)
| VSameIP
| VTTL (ttl : Z)
| VEncapDport (encap : string)
| VEncapUnknown (encap : Z)
| VMTU (mtu : Z).

#[export] Instance VError_eq_dec : EqDecision VError.
Proof. solve_decision. Defined.

(** ** Error values *)

Inductive error :=
| ErrnoError (e : Errno)
| CtxError (e : CtxErr)
| InvalidError (v : VError)
| OtherError (text : string)
| WrapError (prefix : string) (err : error)
| TunnelError (Op Tunnel Message : string) (Err : option error)
| TunnelExistsError (Name : string)
| TunnelNotFoundError (Name : string)
| ValidationError (Field Value Message : string)
| PermissionError (Op Tunnel Message : string)
| InvalidTypeError (Name ActualType ExpectedType : string).

(** The texts the model leaves open: the system's names for error numbers, the
    validation messages, and the quoting of [%q]. *)
Class ErrorText := {
  errno_text : Errno → string;
  verror_text : VError → string;
  quote : string → string
}.

(** [err.Error()]. *)
Fixpoint Error `{ErrorText} (err : error) : string :=
  match err with
  | ErrnoError e => errno_text e
  | CtxError e => CtxErr_Error e
  | InvalidError v => verror_text v
  | OtherError t => t
  | WrapError p e => p +:+ Error e
  | TunnelError op tun msg (Some e) =>
      op +:+ " tunnel " +:+ tun +:+ ": " +:+ msg +:+ ": " +:+ Error e
  | TunnelError op tun msg None => op +:+ " tunnel " +:+ tun +:+ ": " +:+ msg
  | TunnelExistsError n => "tunnel " +:+ n +:+ " already exists"
  | TunnelNotFoundError n => "tunnel " +:+ n +:+ " not found"
  | ValidationError f v m =>
      if decide (v ≠ "") then
        "validation failed for " +:+ f +:+ " (" +:+ quote v +:+ "): " +:+ m
      else "validation failed for " +:+ f +:+ ": " +:+ m
  | PermissionError op tun m => "permission denied: " +:+ op +:+ " tunnel " +:+ tun +:+ ": " +:+ m
  | InvalidTypeError n a x =>
      if decide (x ≠ "") then n +:+ " is not a " +:+ x +:+ " tunnel (type: " +:+ a +:+ ")"
      else n +:+ " is not a GRE tunnel (type: " +:+ a +:+ ")"
  end.

(** [errors.As(err, &errno)]: the first error number along the chain. *)
Fixpoint AsErrno (err : error) : option Errno :=
  match err with
  | ErrnoError e => Some e
  | WrapError _ e => AsErrno e
  | TunnelError _ _ _ (Some e) => AsErrno e
  | _ => None
  end.

(** [errors.Is(err, target)] for an error number. *)
Definition IsErrno (err : error) (target : Errno) : bool :=
  match AsErrno err with Some e => e =? target | None => false end.

Definition IsTunnelExists (err : error) : bool :=
  match err with TunnelExistsError _ => true | _ => false end.
Definition IsTunnelNotFound (err : error) : bool :=
  match err with TunnelNotFoundError _ => true | _ => false end.
Definition IsValidation (err : error) : bool :=
  match err with ValidationError _ _ _ => true | _ => false end.
Definition IsPermission (err : error) : bool :=
  match err with PermissionError _ _ _ => true | _ => false end.
Definition IsInvalidType (err : error) : bool :=
  match err with InvalidTypeError _ _ _ => true | _ => false end.

(** ** Translation *)

Definition one_of (e : Errno) (l : list Errno) : bool := existsb (Z.eqb e) l.

Definition TranslateNetlinkError (err : error) (op name : string) : error :=
  let wrap msg := TunnelError op name msg (Some err) in
  match AsErrno err with
  | Some errno =>
      if errno =? EEXIST then TunnelExistsError name
      else if errno =? ENODEV then TunnelNotFoundError name
      else if one_of errno [EPERM; EACCES] then
        PermissionError op name "requires CAP_NET_ADMIN capability or root privileges"
      else if errno =? EINVAL then wrap "invalid configuration (check IP addresses, key, TTL)"
      else if errno =? EOPNOTSUPP then
        wrap "operation not supported (load kernel modules: modprobe ip_gre; for FOU/GUE: modprobe fou, CONFIG_NET_FOU=y)"
      else if errno =? EBUSY then wrap "device busy (tunnel may be in use)"
      else if errno =? ENETDOWN then wrap "network is down"
      else if errno =? EADDRINUSE then wrap "address already in use"
      else wrap "operation failed"
  | None => wrap "operation failed"
  end.

Definition WrapValidationError `{ErrorText} (field value : string) (err : error) : error :=
  match err with
  | ValidationError _ _ _ => err
  | _ => ValidationError field value (Error err)
  end.

Definition IsTransientError (err : error) : bool :=
  match AsErrno err with
  | Some errno => one_of errno [EBUSY; ENETDOWN; EAGAIN; ETIMEDOUT]
  | None => false
  end.

Definition IsFatalError (err : error) : bool :=
  if IsPermission err || IsValidation err then true
  else match AsErrno err with
  | Some errno => one_of errno [EPERM; EACCES; EINVAL; EOPNOTSUPP]
  | None => false
  end.

Definition ErrorHint (err : error) : string :=
  if IsPermission err then
    "Run with sudo or grant CAP_NET_ADMIN: sudo setcap cap_net_admin+ep $(which gretun)"
  else if IsTunnelExists err then
    "Use 'gretun list' to see existing tunnels, or 'gretun delete --name <name>' to remove it first"
  else if IsTunnelNotFound err then "Use 'gretun list' to see available tunnels"
  else match AsErrno err with
  | Some errno =>
      if errno =? EOPNOTSUPP then
        "Load required kernel modules: sudo modprobe ip_gre fou (CONFIG_NET_FOU=y for GRE-over-UDP)"
      else if errno =? EBUSY then
        "The tunnel interface may be in use. Try bringing it down first or wait a moment"
      else if errno =? EINVAL then
        "Check that IP addresses are valid and reachable, and TTL is in valid range (0-255)"
      else if errno =? EADDRINUSE then "The tunnel address is already in use by another interface"
      else ""
  | None => ""
  end.

(** [None] is a nil error. *)
Definition FormatError `{ErrorText} (err : option error) : string :=
  match err with
  | None => ""
  | Some err =>
      let msg := Error err in
      let hint := ErrorHint err in
      if decide (hint ≠ "") then msg +:+ (String "010" (String "010" "Hint: ")) +:+ hint else msg
  end.

(** ** Claims *)

Lemma one_of_spec e l : one_of e l = true ↔ e ∈ l.
Proof.
  unfold one_of. rewrite existsb_exists. setoid_rewrite Z.eqb_eq.
  rewrite list_elem_of_In. naive_solver.
Qed.

(** The error numbers the package distinguishes. *)
Definition known_errnos : list Errno :=
  [EPERM; EAGAIN; EACCES; EBUSY; EEXIST; ENODEV; EINVAL; EOPNOTSUPP; EADDRINUSE; ENETDOWN; ETIMEDOUT].

Lemma AsErrno_unstructured err errno :
  AsErrno err = Some errno → IsPermission err || IsValidation err = false.
Proof. by destruct err. Qed.

Lemma unknown_errno errno c : errno ∉ known_errnos → c ∈ known_errnos → (errno =? c) = false.
Proof. intros Hn Hc. apply Z.eqb_neq. by intros ->. Qed.

(** Translating a kernel error keeps what callers decide on: whatever chain
    of wrappers carries the error number, the translated error is fatal, and
    transient, exactly when the original is; no error is both.  Error numbers
    with advice keep it. *)
Theorem translation_keeps_class (err : error) (errno : Errno) (op name : string)
  (Hno : AsErrno err = Some errno) :
  let err' := TranslateNetlinkError err op name in
  IsFatalError err' = IsFatalError err ∧
  IsTransientError err' = IsTransientError err ∧
  IsFatalError err' && IsTransientError err' = false ∧
  (errno ∈ [EPERM; EACCES; EEXIST; ENODEV; EOPNOTSUPP; EBUSY; EINVAL; EADDRINUSE] →
   ErrorHint err' ≠ "").
Proof.
  intros err'. unfold IsFatalError at 2. unfold IsTransientError at 2.
  rewrite (AsErrno_unstructured _ _ Hno), Hno. unfold err', TranslateNetlinkError. rewrite Hno.
  destruct (decide (errno ∈ known_errnos)) as [Hk|Hk].
  - unfold known_errnos in Hk. rewrite !elem_of_cons, elem_of_nil in Hk.
    destruct_or! Hk; subst errno; try done;
      unfold IsFatalError, IsTransientError, ErrorHint; simpl; rewrite ?Hno; simpl;
      (split_and!; [done..|]); intros Hin; try done; by apply (bool_decide_pack _) in Hin.
  - unfold one_of, existsb. rewrite !(unknown_errno errno) by (done || set_solver).
    unfold IsFatalError, IsTransientError. simpl. rewrite Hno. unfold one_of, existsb.
    rewrite !(unknown_errno errno) by (done || set_solver). split_and!; try done.
    intros Hin. exfalso. set_solver.
Qed.

Lemma translation_keeps_class_witness :
  IsFatalError (TranslateNetlinkError (WrapError "link add: " (ErrnoError EOPNOTSUPP)) "create" "tun0")
  = IsFatalError (WrapError "link add: " (ErrnoError EOPNOTSUPP)).
Proof.
  destruct (translation_keeps_class (WrapError "link add: " (ErrnoError EOPNOTSUPP)) EOPNOTSUPP
    "create" "tun0" eq_refl) as [Hx _]. exact Hx.
Defined.
