(* ===== verification/TunnelValidate.v ===== *)
(** * Tunnel configuration and its validation ([internal/tunnel/types.go], [validate.go]) *)

From S2P Require Import Prelude.
From S2P Require Import Encoding.
From S2P Require Import NetIP.
From S2P Require Import GoHttp.
From S2P Require Import TunnelErrors.

(** ** Data ([types.go]) *)

(** [EncapType] is an [int] with three named values. *)
Abbreviation EncapType := Z (only parsing).
Definition EncapNone : EncapType := 0.
Definition EncapFOU : EncapType := 1.
Definition EncapGUE : EncapType := 2.

Definition DefaultFOUMTU : Z := 1468.

Record Config := {
  cfg_Name : string;
  cfg_LocalIP : IP.t;
  cfg_RemoteIP : IP.t;
  cfg_Key : Z;
  cfg_TTL : Z;
  cfg_MTU : Z;
  cfg_Encap : EncapType;
  cfg_EncapSport : Z;
  cfg_EncapDport : Z;
  cfg_EncapChecksum : bool
}.

Record Status := {
  st_Name : string;
  st_LocalIP : string;
  st_RemoteIP : string;
  st_Key : Z;
  st_TTL : Z;
  st_Up : bool;
  st_TunnelIP : string;
  st_Encap : string;
  st_EncapSport : Z;
  st_EncapDport : Z;
  st_MTU : Z
}.

Definition encapTypeName (e : EncapType) : string :=
  if e =? EncapFOU then "fou" else if e =? EncapGUE then "gue" else "none".

(** ** Validation

    [None] is a nil error. *)

Definition maxInterfaceNameLength : nat := 15.

(** The class [[a-zA-Z0-9_-]]. *)
Definition name_char (b : byte) : bool :=
  let n := byte_Z b in
  ((97 <=? n) && (n <=? 122)) || ((65 <=? n) && (n <=? 90)) || ((48 <=? n) && (n <=? 57))
  || (n =? 95) || (n =? 45).

(** [validInterfaceNamePattern.MatchString]. *)
Definition valid_pattern (name : string) : bool :=
  (0 <? length (to_bytes name))%nat && forallb name_char (to_bytes name).

Definition reservedPrefixes : list string :=
  ["lo"; "eth"; "wlan"; "docker"; "veth"; "br-"; "virbr"].

Definition ValidateTunnelName (name : string) : option VError :=
  if bool_decide (name = "") then Some VNameEmpty
  else if (maxInterfaceNameLength <? length (to_bytes name))%nat then Some (VNameTooLong name)
  else if negb (valid_pattern name) then Some (VNameChars name)
  else None.

Definition ValidateCIDR (cidr : string) : option VError :=
  if bool_decide (cidr = "") then Some VCIDREmpty
  else match IP.ParseCIDR cidr with
  | None => Some (VCIDRSyntax cidr)
  | Some (ip, ipNet, ones) =>
      if bool_decide (IP.To4 ip = None) then Some (VCIDRNotIPv4 cidr)
      else if ones =? 32 then None
      else if IP.Equal ip (IP.net_IP ipNet) then Some (VCIDRNetwork cidr)
      else
        let broadcast := zip_with (λ b m, IP.byte_or b (IP.byte_not m))
                           (IP.raw (IP.net_IP ipNet)) (IP.net_Mask ipNet) in
        if IP.Equal ip (Some broadcast) then Some (VCIDRBroadcast cidr) else None
  end.

Definition ValidateIP (ip : IP.t) (fieldName : string) : option VError :=
  if bool_decide (ip = None) then Some (VIPRequired fieldName)
  else if IP.IsUnspecified ip then Some (VIPUnspecified fieldName)
  else if IP.IsLoopback ip then Some (VIPLoopback fieldName)
  else if bool_decide (IP.To4 ip = None) then Some (VIPNotIPv4 fieldName)
  else if IP.IsMulticast ip then Some (VIPMulticast fieldName)
  else None.

Definition ValidateTTL (ttl : Z) : option VError :=
  if ttl =? 0 then None
  else if ttl <? 1 then Some (VTTL ttl)
  else None.

Definition warnPortsNonFatal : list (Z * string) :=
  [(53, "DNS"); (67, "DHCP server"); (68, "DHCP client"); (123, "NTP"); (443, "HTTPS/QUIC");
   (500, "IKE"); (4500, "IPsec NAT-T")].

Definition warn_port (p : Z) : option string :=
  snd <$> head (filter (λ e, e.1 = p) warnPortsNonFatal).

(** The MTU check at the end of [ValidateEncap]. *)
Definition validate_mtu (mtu : Z) : option VError :=
  if negb (mtu =? 0) && ((mtu <? 576) || (9000 <? mtu)) then Some (VMTU mtu) else None.

(** The warning and the error. *)
Definition ValidateEncap (cfg : Config) : string * option VError :=
  if cfg_Encap cfg =? EncapNone then ("", validate_mtu (cfg_MTU cfg))
  else if (cfg_Encap cfg =? EncapFOU) || (cfg_Encap cfg =? EncapGUE) then
    if cfg_EncapDport cfg =? 0 then ("", Some (VEncapDport (encapTypeName (cfg_Encap cfg))))
    else
      let warn := match warn_port (cfg_EncapDport cfg) with
                  | Some svc => "encap-dport " +:+ pretty (cfg_EncapDport cfg) +:+
                      " collides with well-known " +:+ svc +:+ "; continuing"
                  | None => ""
                  end in
      (warn, validate_mtu (cfg_MTU cfg))
  else ("", Some (VEncapUnknown (cfg_Encap cfg))).

(** The loop over [reservedPrefixes]. *)
Definition reserved_prefix (name : string) : option string :=
  head (filter (λ p, HasPrefix name p = true) reservedPrefixes).

Definition ValidateConfig (cfg : Config) : option VError :=
  match ValidateTunnelName (cfg_Name cfg) with
  | Some e => Some e
  | None =>
  match reserved_prefix (cfg_Name cfg) with
  | Some p => Some (VNameReserved (cfg_Name cfg) p)
  | None =>
  match ValidateIP (cfg_LocalIP cfg) "local IP" with
  | Some e => Some e
  | None =>
  match ValidateIP (cfg_RemoteIP cfg) "remote IP" with
  | Some e => Some e
  | None =>
  if IP.Equal (cfg_LocalIP cfg) (cfg_RemoteIP cfg) then Some VSameIP
  else match ValidateTTL (cfg_TTL cfg) with
  | Some e => Some e
  | None => snd (ValidateEncap cfg)
  end end end end end.

(** ** CIDR addresses *)

Lemma ValidateCIDR_string4 x n : 0 ≤ x < 2 ^ 32 → 0 ≤ n ≤ 32 →
  let cidr := string4 x +:+ "/" +:+ pretty n in
  ValidateCIDR cidr =
  if decide (n = 32) then None
  else if decide (x = first4 x n) then Some (VCIDRNetwork cidr)
  else if decide (x = last4 x n) then Some (VCIDRBroadcast cidr)
  else None.
Proof.
  intros Hx Hn cidr. unfold ValidateCIDR. rewrite bool_decide_eq_false_2.
  2: { destruct (string4_head x) as (b & l & E & _). intros Hc.
       apply (f_equal to_bytes) in Hc. unfold cidr in Hc. by rewrite to_bytes_app, E in Hc. }
  unfold cidr. rewrite IP.ParseCIDR_string4 by done.
  change (IP.To4 (Some (IP.As16 (AddrV4 x)))) with (Some (IP.be_bytes 4 x)).
  rewrite bool_decide_eq_false_2 by done. cbn [IP.net_IP IP.net_Mask IP.raw default].
  destruct (decide (n = 32)) as [->|Hne]; [done|]. rewrite (proj2 (Z.eqb_neq _ _)) by done.
  destruct (IP.mask_be_bytes x n Hx Hn) as [HN HB].
  rewrite !IP.Equal_As16 by (rewrite ?length_zip_with, ?IP.length_be_bytes, ?IP.length_CIDRMask; done).
  rewrite (bool_decide_ext _ _ HN), (bool_decide_ext _ _ HB).
  repeat case_bool_decide; repeat case_decide; done.
Qed.

(** For an IPv4 address and prefix length, [ValidateCIDR] refuses exactly the
    first and the last address of the network, except for /32, which it always
    takes.  So it refuses both addresses of a /31, and two of every four
    addresses of a /30. *)
Theorem validate_cidr_exact (x n : Z) (Hx : 0 ≤ x < 2 ^ 32) (Hn : 0 ≤ n ≤ 32) :
  let cidr := string4 x +:+ "/" +:+ pretty n in
  ValidateCIDR cidr =
  if decide (n = 32) then None
  else if decide (x = first4 x n) then Some (VCIDRNetwork cidr)
  else if decide (x = last4 x n) then Some (VCIDRBroadcast cidr)
  else None.
Proof. by apply ValidateCIDR_string4. Qed.

Lemma validate_cidr_exact_witness :
  ValidateCIDR "10.0.0.3/30" = Some (VCIDRBroadcast "10.0.0.3/30").
Proof. apply (validate_cidr_exact 0x0a000003 30); lia. Defined.

(** ** Configurations *)

(** [ip] is the IPv4 address [x], as four bytes or mapped into sixteen. *)
Definition is_ipv4 (ip : IP.t) (x : Z) : Prop :=
  0 ≤ x < 2 ^ 32 ∧ IP.To4 ip = Some (IP.be_bytes 4 x).

(** Neither unspecified, nor 127.0.0.0/8, nor 224.0.0.0/4. *)
Definition unicast (x : Z) : Prop :=
  x ≠ 0 ∧ x / 2 ^ 24 ≠ 127 ∧ ¬ 224 ≤ x / 2 ^ 24 < 240.

Lemma multicast_nibble n : 0 ≤ n < 256 → (Z.land n 0xf0 =? 0xe0) = true ↔ 224 ≤ n < 240.
Proof.
  intros Hn. assert (forallb (λ b : byte, Bool.eqb (Z.land (byte_Z b) 0xf0 =? 0xe0)
    ((224 <=? byte_Z b) && (byte_Z b <? 240))) [Z_byte n] = true) as H.
  { simpl. rewrite andb_true_r. generalize (Z_byte n). apply byte_forall. vm_compute. reflexivity. }
  simpl in H. rewrite andb_true_r, byte_Z_byte, Z.mod_small in H by lia.
  apply Bool.eqb_prop in H. rewrite H, andb_true_iff, Z.leb_le, Z.ltb_lt. done.
Qed.

Lemma ValidateIP_None ip field :
  ValidateIP ip field = None ↔ ∃ x, is_ipv4 ip x ∧ unicast x.
Proof.
  unfold ValidateIP, is_ipv4, unicast. destruct (IP.To4 ip) as [l|] eqn:H4.
  - destruct (IP.To4_Some _ _ H4) as [Hl _].
    destruct (IP.be_bytes_value l Hl) as (Hv & Hr & Hf). set (x := IP.be_value l) in *.
    assert (IP.IsUnspecified ip = bool_decide (x = 0)) as ->.
    { unfold IP.IsUnspecified. rewrite (IP.Equal_unspecified6 _ _ H4), orb_false_r.
      rewrite (IP.Equal_To4 _ (IP.IPv4 0 0 0 0) l (IP.be_bytes 4 0) H4 eq_refl).
      apply bool_decide_ext. rewrite Hv. split; [|by intros ->].
      intros E. by apply IP.be_bytes_inj in E. }
    unfold IP.IsLoopback, IP.IsMulticast. rewrite H4, Hf.
    assert (0 ≤ x / 2 ^ 24 < 256) as Hb by (Z.div_mod_to_equations; lia).
    pose proof (multicast_nibble _ Hb) as Hm.
    assert (ip ≠ None) as Hip by (by intros ->).
    rewrite bool_decide_eq_false_2 by done. rewrite (bool_decide_eq_false_2 (Some l = None)) by done.
    split.
    + intros Hn. repeat case_match; try done. bool_to_prop. exists x.
      split; [by rewrite <- Hv|]. split_and!; [done|done|]. rewrite <- Hm. congruence.
    + intros (y & [Hy Ey] & H0 & H127 & Hmc). simplify_eq. assert (y = x) as ->.
      { apply IP.be_bytes_inj; [done|done|]. by rewrite <- Hv. }
      rewrite bool_decide_eq_false_2 by done. rewrite (proj2 (Z.eqb_neq _ _)) by done.
      rewrite <- Hm in Hmc. by destruct (Z.land _ _ =? _).
  - split; [|naive_solver]. intros Hn. by repeat case_match.
Qed.

(** The name checks. *)
Definition usable_name (name : string) : Prop :=
  (0 < length (to_bytes name) ≤ 15)%nat ∧ Forall (λ b, name_char b = true) (to_bytes name) ∧
  Forall (λ p, ∀ r, name ≠ p +:+ r) reservedPrefixes.

Lemma reserved_prefix_None name :
  reserved_prefix name = None ↔ Forall (λ p, ∀ r, name ≠ p +:+ r) reservedPrefixes.
Proof.
  unfold reserved_prefix. rewrite head_None. rewrite Forall_forall. split.
  - intros Hf p Hp r ->. revert Hp. by apply (filter_nil_not_elem_of _ _ p Hf), HasPrefix_app.
  - intros H. apply filter_none. apply Forall_forall. intros p Hp Hpre.
    apply HasPrefix_true in Hpre. by eapply H.
Qed.

Lemma name_checks name :
  ValidateTunnelName name = None ∧ reserved_prefix name = None ↔ usable_name name.
Proof.
  unfold ValidateTunnelName, usable_name, valid_pattern. rewrite reserved_prefix_None.
  unfold maxInterfaceNameLength.
  assert (name = "" ↔ length (to_bytes name) = 0%nat) as Hnil.
  { split; [by intros ->|]. intros H%nil_length_inv. apply (inj to_bytes). done. }
  assert (forallb name_char (to_bytes name) = true ↔
    Forall (λ b, name_char b = true) (to_bytes name)) as Hall.
  { rewrite forallb_forall, Forall_forall. by setoid_rewrite list_elem_of_In. }
  rewrite <- Hall. clear Hall.
  destruct (decide (name = "")) as [He|He].
  - rewrite bool_decide_eq_true_2 by done. rewrite (proj1 Hnil He). naive_solver lia.
  - rewrite bool_decide_eq_false_2 by done. rewrite Hnil in He.
    destruct (Nat.ltb_spec 15 (length (to_bytes name))), (Nat.ltb_spec 0 (length (to_bytes name)));
      destruct (forallb _ _); simpl; naive_solver lia.
Qed.

Lemma ValidateEncap_None cfg :
  snd (ValidateEncap cfg) = None ↔
  (cfg_Encap cfg = EncapNone ∨
   (cfg_Encap cfg = EncapFOU ∨ cfg_Encap cfg = EncapGUE) ∧ cfg_EncapDport cfg ≠ 0) ∧
  (cfg_MTU cfg = 0 ∨ 576 ≤ cfg_MTU cfg ≤ 9000).
Proof.
  assert (validate_mtu (cfg_MTU cfg) = None ↔ cfg_MTU cfg = 0 ∨ 576 ≤ cfg_MTU cfg ≤ 9000) as Hm.
  { unfold validate_mtu. destruct (Z.eqb_spec (cfg_MTU cfg) 0), (Z.ltb_spec (cfg_MTU cfg) 576),
      (Z.ltb_spec 9000 (cfg_MTU cfg)); simpl; naive_solver lia. }
  unfold ValidateEncap, EncapNone, EncapFOU, EncapGUE.
  destruct (Z.eqb_spec (cfg_Encap cfg) 0), (Z.eqb_spec (cfg_Encap cfg) 1),
    (Z.eqb_spec (cfg_Encap cfg) 2), (Z.eqb_spec (cfg_EncapDport cfg) 0); simpl; naive_solver lia.
Qed.

(** C19. [ValidateConfig] accepts a configuration exactly when the name has 1 to
    15 characters of the allowed class and none of the reserved prefixes, both
    addresses are IPv4 unicast addresses (in four- or sixteen-byte form) and
    differ, the encapsulation is none, or FOU or GUE with a destination port,
    and the MTU is 0 or between 576 and 9000. *)
Theorem validate_config_exact (cfg : Config) (Httl : 0 ≤ cfg_TTL cfg) :
  ValidateConfig cfg = None ↔
  usable_name (cfg_Name cfg) ∧
  (∃ x y, is_ipv4 (cfg_LocalIP cfg) x ∧ unicast x ∧ is_ipv4 (cfg_RemoteIP cfg) y ∧ unicast y ∧ x ≠ y) ∧
  (cfg_Encap cfg = EncapNone ∨
   (cfg_Encap cfg = EncapFOU ∨ cfg_Encap cfg = EncapGUE) ∧ cfg_EncapDport cfg ≠ 0) ∧
  (cfg_MTU cfg = 0 ∨ 576 ≤ cfg_MTU cfg ≤ 9000).
Proof.
  unfold ValidateConfig. rewrite <- name_checks.
  destruct (ValidateTunnelName _); [naive_solver|].
  destruct (reserved_prefix _); [naive_solver|].
  pose proof (ValidateIP_None (cfg_LocalIP cfg) "local IP") as HL.
  destruct (ValidateIP (cfg_LocalIP cfg) _).
  { split; [done|]. intros (_ & (x & y & ? & ? & _) & _).
    rewrite (proj2 HL) by eauto. done. }
  pose proof (ValidateIP_None (cfg_RemoteIP cfg) "remote IP") as HR.
  destruct (ValidateIP (cfg_RemoteIP cfg) _).
  { split; [done|]. intros (_ & (x & y & ? & ? & ? & ? & _) & _).
    rewrite (proj2 HR) by eauto. done. }
  destruct (proj1 HL eq_refl) as (x & [Hx Ex] & Ux). destruct (proj1 HR eq_refl) as (y & [Hy Ey] & Uy).
  rewrite (IP.Equal_To4 _ _ _ _ Ex Ey).
  assert ((∃ x y, is_ipv4 (cfg_LocalIP cfg) x ∧ unicast x ∧ is_ipv4 (cfg_RemoteIP cfg) y ∧
    unicast y ∧ x ≠ y) ↔ IP.be_bytes 4 x ≠ IP.be_bytes 4 y) as ->.
  { split.
    - intros (x' & y' & [? E1] & _ & [? E2] & _ & Hne) E. rewrite Ex in E1. rewrite Ey in E2.
      apply (inj Some) in E1, E2. apply Hne, IP.be_bytes_inj; [done|done|]. by rewrite <- E1, <- E2.
    - intros Hne. exists x, y. split_and!; try done. by intros ->. }
  case_bool_decide as Hsame; [split; [done|]; intros (_ & Hne & _); by destruct Hne|].
  assert (ValidateTTL (cfg_TTL cfg) = None) as ->.
  { unfold ValidateTTL. destruct (Z.eqb_spec (cfg_TTL cfg) 0); [done|].
    by rewrite (proj2 (Z.ltb_ge _ _)) by lia. }
  rewrite ValidateEncap_None. split; [intros []; by split_and!|by intros (_ & _ & ?)].
Qed.

Definition demo_config : Config :=
  {| cfg_Name := "gretun0"; cfg_LocalIP := Some [x0a; x00; x00; x01];
     cfg_RemoteIP := IP.IPv4 192 0 2 7; cfg_Key := 0; cfg_TTL := 0; cfg_MTU := 0;
     cfg_Encap := EncapFOU; cfg_EncapSport := 5555; cfg_EncapDport := 7777;
     cfg_EncapChecksum := true |}.

Lemma validate_config_exact_witness :
  ∃ x y, is_ipv4 (cfg_LocalIP demo_config) x ∧ unicast x ∧
         is_ipv4 (cfg_RemoteIP demo_config) y ∧ unicast y ∧ x ≠ y.
Proof.
  destruct (proj1 (validate_config_exact demo_config ltac:(z_compute)) ltac:(vm_compute; reflexivity))
    as (_ & Hx & _). exact Hx.
Defined.
