(* ===== verification/TunnelGre.v ===== *)
(** * Tunnel operations ([internal/tunnel/netlink.go], [gre.go], [list.go])

    The kernel is reached through the interface [Netlinker], as in the source;
    [NetlinkerSpec] is what the operations rely on: a failing call changes
    nothing, a succeeding one does what its name says.  Logged warnings are
    part of the result, since they are the only trace of a failed clean-up. *)

From S2P Require Import Prelude.
From S2P Require Import NetIP.
From S2P Require Import GoSlice.
From S2P Require Import TunnelErrors.
From S2P Require Import TunnelValidate.

(** ** What the netlink library passes around *)

Record Gretun := {
  g_Name : string;
  g_Local : IP.t;
  g_Remote : IP.t;
  g_IKey : Z;
  g_OKey : Z;
  g_Ttl : Z;
  g_EncapType : Z;
  g_EncapSport : Z;
  g_EncapDport : Z;
  g_EncapFlags : Z
}.

Record Fou := { fou_Family : Z; fou_Port : Z; fou_Protocol : Z; fou_EncapType : Z }.

(** A link as it is read back; [l_gre] is what the type assertion to [*Gretun]
    yields. *)
Record Link := {
  l_Name : string;
  l_Type : string;
  l_Up : bool;
  l_MTU : Z;
  l_gre : option Gretun
}.

Definition AF_INET : Z := 2.
Definition IPPROTO_GRE : Z := 47.
Definition FOU_ENCAP_DIRECT : Z := 1.
Definition FOU_ENCAP_GUE : Z := 2.

(** Links are passed by name; an operation returns a nil error as [None]. *)
Class Netlinker (K : Type) := {
  NlAddr : Type;
  addr_String : NlAddr → string;
  nl_ParseAddr : string → result error NlAddr;
  LinkAdd : Gretun → K → option error * K;
  LinkDel : string → K → option error * K;
  LinkByName : string → K → result error Link;
  LinkSetUp : string → K → option error * K;
  LinkSetMTU : string → Z → K → option error * K;
  LinkList : K → result error (list Link);
  AddrAdd : string → NlAddr → K → option error * K;
  AddrList : string → K → result error (list NlAddr);
  FouAdd : Fou → K → option error * K;
  FouDel : Fou → K → option error * K;
  FouList : Z → K → result error (list Fou)
}.

(** *** [DefaultNetlinker]

    The netlink library: its functions on addresses, and the operations of a
    [netlink.Handle], which own a socket in the state [S]. *)
Class NetlinkLib (S : Type) := {
  lib_Addr : Type;
  lib_addr_String : lib_Addr → string;
  lib_ParseAddr : string → result error lib_Addr;
  NewHandle : S → result error () * S;
  h_Delete : S → S;
  h_LinkAdd : Gretun → S → option error * S;
  h_LinkDel : string → S → option error * S;
  h_LinkByName : string → S → result error Link;
  h_LinkSetUp : string → S → option error * S;
  h_LinkSetMTU : string → Z → S → option error * S;
  h_LinkList : S → result error (list Link);
  h_AddrAdd : string → lib_Addr → S → option error * S;
  h_AddrList : string → S → result error (list lib_Addr);
  h_FouAdd : Fou → S → option error * S;
  h_FouDel : Fou → S → option error * S;
  h_FouList : Z → S → result error (list Fou)
}.

Definition NewDefaultNetlinker {S} `{NetlinkLib S} (s : S) : result error () * S :=
  match NewHandle s with
  | (Err err, s) => (Err err, s)
  | (Ok h, s) => (Ok h, s)
  end.

Definition Close {S} `{NetlinkLib S} (s : S) : option error * S := (None, h_Delete s).

(** Every method calls the method of the handle with the same name. *)
Definition DefaultNetlinker {S} `{NetlinkLib S} : Netlinker S := {|
  NlAddr := lib_Addr;
  addr_String := lib_addr_String;
  nl_ParseAddr := lib_ParseAddr;
  LinkAdd link s := h_LinkAdd link s;
  LinkDel link s := h_LinkDel link s;
  LinkByName name s := h_LinkByName name s;
  LinkSetUp link s := h_LinkSetUp link s;
  LinkSetMTU link mtu s := h_LinkSetMTU link mtu s;
  LinkList s := h_LinkList s;
  AddrAdd link addr s := h_AddrAdd link addr s;
  AddrList link s := h_AddrList link s;
  FouAdd fou s := h_FouAdd fou s;
  FouDel fou s := h_FouDel fou s;
  FouList family s := h_FouList family s
|}.

(** ** Operations *)

Inductive Warn :=
| WarnCleanupMTU (name : string) (e : error)
| WarnCleanupUp (name : string) (e : error)
| WarnRollbackFOU (port : Z) (e : error).

Section Operations.
Context {K : Type} `{Netlinker K}.

Definition defaultTTL : Z := 64.
Definition tunnelEncapFlagCSum : Z := 1.

Definition fouEncapConst (e : EncapType) : Z :=
  if e =? EncapGUE then FOU_ENCAP_GUE else FOU_ENCAP_DIRECT.

Definition netlinkEncapConst (e : EncapType) : Z :=
  if e =? EncapGUE then FOU_ENCAP_GUE else FOU_ENCAP_DIRECT.

Definition mtuOrDefault (cfg : Config) : Z :=
  if 0 <? cfg_MTU cfg then cfg_MTU cfg
  else if negb (cfg_Encap cfg =? EncapNone) then DefaultFOUMTU
  else 0.

Definition EnsureFOU (port : Z) (encap : EncapType) (k : K) : result error bool * K :=
  let fou := {| fou_Family := AF_INET; fou_Port := port;
                fou_Protocol := if encap =? EncapGUE then 0 else IPPROTO_GRE;
                fou_EncapType := fouEncapConst encap |} in
  match FouAdd fou k with
  | (Some err, k) => if IsErrno err EEXIST then (Ok false, k) else (Err err, k)
  | (None, k) => (Ok true, k)
  end.

Definition ensureFOU (cfg : Config) (k : K) : result error bool * K :=
  EnsureFOU (cfg_EncapDport cfg) (cfg_Encap cfg) k.

Definition rollbackFOU (port : Z) (k : K) : list Warn * K :=
  let fou := {| fou_Family := AF_INET; fou_Port := port; fou_Protocol := 0; fou_EncapType := 0 |} in
  match FouDel fou k with
  | (Some err, k) => ([WarnRollbackFOU port err], k)
  | (None, k) => ([], k)
  end.

Definition RemoveFOU (port : Z) (k : K) : list Warn * K := rollbackFOU port k.

Definition applyEncap (gre : Gretun) (cfg : Config) : Gretun :=
  if cfg_Encap cfg =? EncapNone then gre
  else
    {| g_Name := g_Name gre; g_Local := g_Local gre; g_Remote := g_Remote gre;
       g_IKey := g_IKey gre; g_OKey := g_OKey gre; g_Ttl := g_Ttl gre;
       g_EncapType := netlinkEncapConst (cfg_Encap cfg);
       g_EncapSport := cfg_EncapSport cfg; g_EncapDport := cfg_EncapDport cfg;
       g_EncapFlags := if cfg_EncapChecksum cfg then tunnelEncapFlagCSum else g_EncapFlags gre |}.

(** The link that [Create] asks for. *)
Definition gre_of (cfg : Config) : Gretun :=
  let ttl := if cfg_TTL cfg =? 0 then defaultTTL else cfg_TTL cfg in
  applyEncap
    {| g_Name := cfg_Name cfg; g_Local := cfg_LocalIP cfg; g_Remote := cfg_RemoteIP cfg;
       g_IKey := cfg_Key cfg; g_OKey := cfg_Key cfg; g_Ttl := ttl;
       g_EncapType := 0; g_EncapSport := 0; g_EncapDport := 0; g_EncapFlags := 0 |} cfg.

(** [if createdFou { rollbackFOU(nl, cfg) }]. *)
Definition rollback_if (createdFou : bool) (cfg : Config) (k : K) : list Warn * K :=
  if createdFou then rollbackFOU (cfg_EncapDport cfg) k else ([], k).

(** The clean-up after a failing [LinkSetMTU] or [LinkSetUp]. *)
Definition undo_link (warn : string → error → Warn) (createdFou : bool) (cfg : Config) (k : K)
  : list Warn * K :=
  let '(delErr, k) := LinkDel (cfg_Name cfg) k in
  let w := match delErr with Some e => [warn (cfg_Name cfg) e] | None => [] end in
  let '(w', k) := rollback_if createdFou cfg k in
  (w ++ w', k).

(** From [LinkAdd] on. *)
Definition create_link (createdFou : bool) (cfg : Config) (k : K) : option error * list Warn * K :=
  let fail e := Some (TranslateNetlinkError e "create" (cfg_Name cfg)) in
  let gre := gre_of cfg in
  match LinkAdd gre k with
  | (Some err, k) => let '(w, k) := rollback_if createdFou cfg k in (fail err, w, k)
  | (None, k) =>
      let '(mtuErr, k) :=
        if 0 <? mtuOrDefault cfg then LinkSetMTU (cfg_Name cfg) (mtuOrDefault cfg) k else (None, k) in
      match mtuErr with
      | Some err => let '(w, k) := undo_link WarnCleanupMTU createdFou cfg k in (fail err, w, k)
      | None =>
          match LinkSetUp (cfg_Name cfg) k with
          | (Some err, k) => let '(w, k) := undo_link WarnCleanupUp createdFou cfg k in (fail err, w, k)
          | (None, k) => (None, [], k)
          end
      end
  end.

Definition Create (ctx : Ctx) (cfg : Config) (k : K) : option error * list Warn * K :=
  match ctx with
  | Some e => (Some (CtxError e), [], k)
  | None =>
  match ValidateConfig cfg with
  | Some v => (Some (InvalidError v), [], k)
  | None =>
  match LinkByName (cfg_Name cfg) k with
  | Ok _ => (Some (TunnelExistsError (cfg_Name cfg)), [], k)
  | Err _ =>
      if negb (cfg_Encap cfg =? EncapNone) then
        match ensureFOU cfg k with
        | (Err err, k) => (Some (TranslateNetlinkError err "create" (cfg_Name cfg)), [], k)
        | (Ok createdFou, k) => create_link createdFou cfg k
        end
      else create_link false cfg k
  end end end.

Definition Delete (ctx : Ctx) (name : string) (k : K) : option error * K :=
  match ctx with
  | Some e => (Some (CtxError e), k)
  | None =>
  match ValidateTunnelName name with
  | Some v => (Some (InvalidError v), k)
  | None =>
  match LinkByName name k with
  | Err _ => (Some (TunnelNotFoundError name), k)
  | Ok link =>
      if decide (l_Type link ≠ "gre") then (Some (InvalidTypeError name (l_Type link) ""), k)
      else match LinkDel (l_Name link) k with
      | (Some err, k) => (Some (TranslateNetlinkError err "delete" name), k)
      | (None, k) => (None, k)
      end
  end end end.

Definition AssignIP (ctx : Ctx) (name cidr : string) (k : K) : option error * K :=
  match ctx with
  | Some e => (Some (CtxError e), k)
  | None =>
  match ValidateTunnelName name with
  | Some v => (Some (InvalidError v), k)
  | None =>
  match ValidateCIDR cidr with
  | Some v => (Some (InvalidError v), k)
  | None =>
  match LinkByName name k with
  | Err _ => (Some (TunnelNotFoundError name), k)
  | Ok link =>
  match nl_ParseAddr cidr with
  | Err err => (Some (WrapError ("invalid CIDR " +:+ cidr +:+ ": ") err), k)
  | Ok addr =>
      match AddrAdd (l_Name link) addr k with
      | (Some err, k) => (Some (TranslateNetlinkError err "assign-ip" name), k)
      | (None, k) => (None, k)
      end
  end end end end end.

Definition ipToString (ip : IP.t) : string :=
  match ip with None => "" | Some _ => IP.String ip end.

Definition statusFromGretun (link : Link) (gre : Gretun) : Status :=
  {| st_Name := l_Name link; st_LocalIP := ipToString (g_Local gre);
     st_RemoteIP := ipToString (g_Remote gre); st_Key := g_IKey gre; st_TTL := g_Ttl gre;
     st_Up := l_Up link; st_TunnelIP := "";
     st_Encap := if g_EncapType gre =? FOU_ENCAP_DIRECT then "fou"
                 else if g_EncapType gre =? FOU_ENCAP_GUE then "gue" else "";
     st_EncapSport := g_EncapSport gre; st_EncapDport := g_EncapDport gre; st_MTU := l_MTU link |}.

(** [addrs, err := nl.AddrList(link, 0); if err == nil && len(addrs) > 0 ...]. *)
Definition with_address (link : Link) (s : Status) (k : K) : Status :=
  match AddrList (l_Name link) k with
  | Ok (a :: _) =>
      {| st_Name := st_Name s; st_LocalIP := st_LocalIP s; st_RemoteIP := st_RemoteIP s;
         st_Key := st_Key s; st_TTL := st_TTL s; st_Up := st_Up s; st_TunnelIP := addr_String a;
         st_Encap := st_Encap s; st_EncapSport := st_EncapSport s;
         st_EncapDport := st_EncapDport s; st_MTU := st_MTU s |}
  | _ => s
  end.

Definition Get (ctx : Ctx) (name : string) (k : K) : result error Status :=
  match ctx with
  | Some e => Err (CtxError e)
  | None =>
  match LinkByName name k with
  | Err _ => Err (TunnelNotFoundError name)
  | Ok link =>
  match l_gre link with
  | None => Err (InvalidTypeError name (l_Type link) "")
  | Some gre => Ok (with_address link (statusFromGretun link gre) k)
  end end end.

(** One iteration of the loop in [List]; [None] is a [continue]. *)
Definition list_entry (k : K) (link : Link) : option Status :=
  if decide (l_Type link ≠ "gre") then None
  else match l_gre link with
       | None => None
       | Some gre => Some (with_address link (statusFromGretun link gre) k)
       end.

Definition List (ctx : Ctx) (k : K) : result error (list Status) :=
  match ctx with
  | Some e => Err (CtxError e)
  | None =>
      match LinkList k with
      | Err e => Err e
      | Ok links => Ok (omap (list_entry k) links)
      end
  end.

End Operations.

(** ** What the kernel promises *)

Definition set_up (l : Link) : Link :=
  {| l_Name := l_Name l; l_Type := l_Type l; l_Up := true; l_MTU := l_MTU l; l_gre := l_gre l |}.
Definition set_mtu (mtu : Z) (l : Link) : Link :=
  {| l_Name := l_Name l; l_Type := l_Type l; l_Up := l_Up l; l_MTU := mtu; l_gre := l_gre l |}.

(** A new GRE link: down, with an MTU of the kernel's choosing. *)
Definition new_link (g : Gretun) (mtu : Z) : Link :=
  {| l_Name := g_Name g; l_Type := "gre"; l_Up := false; l_MTU := mtu; l_gre := Some g |}.

(** [links] and [fous] are the observable state: links by name, FOU ports by
    number. *)
Class NetlinkerSpec (K : Type) `{Netlinker K} := {
  links : K → gmap string Link;
  fous : K → gmap Z Fou;
  links_name n k l : links k !! n = Some l → l_Name l = n;
  LinkByName_ok n k l : LinkByName n k = Ok l → links k !! n = Some l;
  LinkList_spec k ls : LinkList k = Ok ls → ls ≡ₚ (map_to_list (links k)).*2;
  LinkAdd_err g k e k' : LinkAdd g k = (Some e, k') → links k' = links k ∧ fous k' = fous k;
  LinkAdd_ok g k k' : LinkAdd g k = (None, k') → IP.To4 (g_Local g) ≠ None →
    links k !! g_Name g = None ∧ fous k' = fous k ∧
    ∃ mtu, links k' = <[g_Name g := new_link g mtu]> (links k);
  LinkDel_err n k e k' : LinkDel n k = (Some e, k') → links k' = links k ∧ fous k' = fous k;
  LinkDel_ok n k k' : LinkDel n k = (None, k') →
    links k' = delete n (links k) ∧ fous k' = fous k;
  LinkSetUp_err n k e k' : LinkSetUp n k = (Some e, k') → links k' = links k ∧ fous k' = fous k;
  LinkSetUp_ok n k k' : LinkSetUp n k = (None, k') →
    links k' = alter set_up n (links k) ∧ fous k' = fous k;
  LinkSetMTU_err n m k e k' : LinkSetMTU n m k = (Some e, k') → links k' = links k ∧ fous k' = fous k;
  LinkSetMTU_ok n m k k' : LinkSetMTU n m k = (None, k') →
    links k' = alter (set_mtu m) n (links k) ∧ fous k' = fous k;
  AddrAdd_view n a k e k' : AddrAdd n a k = (e, k') → links k' = links k ∧ fous k' = fous k;
  FouAdd_err f k e k' : FouAdd f k = (Some e, k') → links k' = links k ∧ fous k' = fous k ∧
    (IsErrno e EEXIST = true → is_Some (fous k !! fou_Port f));
  FouAdd_ok f k k' : FouAdd f k = (None, k') →
    fous k !! fou_Port f = None ∧ links k' = links k ∧ fous k' = <[fou_Port f := f]> (fous k);
  FouDel_err f k e k' : FouDel f k = (Some e, k') → links k' = links k ∧ fous k' = fous k;
  FouDel_ok f k k' : FouDel f k = (None, k') →
    links k' = links k ∧ fous k' = delete (fou_Port f) (fous k)
}.

(** Looking up a link may fail although it is there, and [Create] takes every
    failure for its absence.  What reads a tunnel back relies on more. *)
Class LookupSpec (K : Type) `{NetlinkerSpec K} : Prop :=
  LinkByName_found n k l : links k !! n = Some l → LinkByName n k = Ok l.

Section Claims.
Context {K : Type} `{NetlinkerSpec K}.

(** The FOU port that a configuration needs. *)
Definition fou_of (cfg : Config) : Fou :=
  {| fou_Family := AF_INET; fou_Port := cfg_EncapDport cfg;
     fou_Protocol := if cfg_Encap cfg =? EncapGUE then 0 else IPPROTO_GRE;
     fou_EncapType := fouEncapConst (cfg_Encap cfg) |}.

Lemma g_Name_gre_of cfg : g_Name (gre_of cfg) = cfg_Name cfg.
Proof. unfold gre_of, applyEncap. by case_match. Qed.
Lemma g_Local_gre_of cfg : g_Local (gre_of cfg) = cfg_LocalIP cfg.
Proof. unfold gre_of, applyEncap. by case_match. Qed.

(** [createdFou] tells whether the port is ours to remove. *)
Definition fou_before (createdFou : bool) (cfg : Config) (k0 k : K) : Prop :=
  links k = links k0 ∧
  if createdFou then fous k0 !! cfg_EncapDport cfg = None ∧
                     fous k = <[cfg_EncapDport cfg := fou_of cfg]> (fous k0)
  else fous k = fous k0.

Lemma ensureFOU_spec cfg k r k' :
  ensureFOU cfg k = (r, k') →
  match r with
  | Ok created => fou_before created cfg k k' ∧ (created = false → is_Some (fous k !! cfg_EncapDport cfg))
  | Err _ => links k' = links k ∧ fous k' = fous k
  end.
Proof.
  unfold ensureFOU, EnsureFOU. fold (fou_of cfg).
  destruct (FouAdd (fou_of cfg) k) as [[e|] k1] eqn:Ef.
  - apply FouAdd_err in Ef as (Hl & Hf & Hex). case_match; intros [= <- <-]; [|done].
    split; [done|]. intros _. by apply Hex.
  - apply FouAdd_ok in Ef as (Hn & Hl & Hf). intros [= <- <-]. split; [|done]. split; [done|]. done.
Qed.

Lemma rollback_if_spec (created : bool) cfg k0 k w k' :
  fous k = (if created then <[cfg_EncapDport cfg := fou_of cfg]> (fous k0) else fous k0) →
  (created = true → fous k0 !! cfg_EncapDport cfg = None) →
  rollback_if created cfg k = (w, k') →
  links k' = links k ∧ (w = [] → fous k' = fous k0).
Proof.
  unfold rollback_if, rollbackFOU. intros Hf Hn. destruct created; [|intros [= <- <-]; eauto].
  destruct (FouDel _ k) as [[e|] k1] eqn:Ed; intros [= <- <-].
  - apply FouDel_err in Ed as [-> _]. done.
  - apply FouDel_ok in Ed as [-> ->]. split; [done|]. intros _. simpl.
    rewrite Hf, delete_insert_id; [done|]. by apply Hn.
Qed.

(** After a completed clean-up the observable state is the one before. *)
Lemma undo_link_spec warn (created : bool) cfg k0 k w k' l :
  links k0 !! cfg_Name cfg = None →
  links k = <[cfg_Name cfg := l]> (links k0) →
  fous k = (if created then <[cfg_EncapDport cfg := fou_of cfg]> (fous k0) else fous k0) →
  (created = true → fous k0 !! cfg_EncapDport cfg = None) →
  undo_link warn created cfg k = (w, k') →
  w = [] → links k' = links k0 ∧ fous k' = fous k0.
Proof.
  intros Hn Hl Hf Hc. unfold undo_link.
  destruct (LinkDel (cfg_Name cfg) k) as [delErr k1] eqn:Ed.
  destruct (rollback_if created cfg k1) as [w' k2] eqn:Er.
  destruct delErr as [e|]; [by intros [= <- <-]|]. intros [= <- <-].
  apply LinkDel_ok in Ed as [Hl1 Hf1].
  eapply rollback_if_spec in Er as [Hl2 Hf2]; [|by rewrite Hf1|done].
  intros Hw. split; [|by apply Hf2]. rewrite Hl2, Hl1, Hl. by apply delete_insert_id.
Qed.

(** What [Create] leaves behind when it succeeds. *)
Definition created_state (cfg : Config) (k k' : K) : Prop :=
  links k !! cfg_Name cfg = None ∧
  (∃ l, links k' = <[cfg_Name cfg := l]> (links k) ∧
        l_Name l = cfg_Name cfg ∧ l_Type l = "gre" ∧ l_Up l = true ∧ l_gre l = Some (gre_of cfg) ∧
        (0 < mtuOrDefault cfg → l_MTU l = mtuOrDefault cfg)) ∧
  (cfg_Encap cfg = EncapNone → fous k' = fous k) ∧
  (cfg_Encap cfg ≠ EncapNone → is_Some (fous k' !! cfg_EncapDport cfg) ∧
     (fous k' = fous k ∨ fous k !! cfg_EncapDport cfg = None ∧
                         fous k' = <[cfg_EncapDport cfg := fou_of cfg]> (fous k))).

Lemma create_link_spec (created : bool) cfg k0 k r w k' :
  IP.To4 (cfg_LocalIP cfg) ≠ None →
  fou_before created cfg k0 k →
  create_link created cfg k = (r, w, k') →
  match r with
  | None => w = [] ∧ fous k' = fous k ∧ links k0 !! cfg_Name cfg = None ∧
      ∃ l, links k' = <[cfg_Name cfg := l]> (links k0) ∧
        l_Name l = cfg_Name cfg ∧ l_Type l = "gre" ∧ l_Up l = true ∧ l_gre l = Some (gre_of cfg) ∧
        (0 < mtuOrDefault cfg → l_MTU l = mtuOrDefault cfg)
  | Some _ => w = [] → links k' = links k0 ∧ fous k' = fous k0
  end.
Proof.
  intros H4 [Hl Hf]. rewrite <- Hl. unfold create_link.
  assert (fous k = (if created then <[cfg_EncapDport cfg := fou_of cfg]> (fous k0) else fous k0)) as Hf'
    by (destruct created; naive_solver).
  assert (created = true → fous k0 !! cfg_EncapDport cfg = None) as Hc
    by (intros ->; naive_solver).
  destruct (LinkAdd (gre_of cfg) k) as [[e|] k1] eqn:Ea.
  { apply LinkAdd_err in Ea as [Hl1 Hf1]. destruct (rollback_if created cfg k1) as [w1 k2] eqn:Er.
    intros [= <- <- <-] Hw. eapply rollback_if_spec in Er as [Hl2 Hf2]; [|by rewrite Hf1|done].
    rewrite Hl2, Hl1. auto. }
  apply LinkAdd_ok in Ea as (Hnone & Hf1 & mtu & Hl1); [|by rewrite g_Local_gre_of].
  rewrite g_Name_gre_of in *. set (l0 := new_link (gre_of cfg) mtu) in *.
  assert (l_Name l0 = cfg_Name cfg) as Hn0 by apply g_Name_gre_of.
  destruct (if 0 <? mtuOrDefault cfg then _ else _) as [mtuErr k2] eqn:Em.
  assert (∃ l, links k2 = <[cfg_Name cfg := l]> (links k) ∧ fous k2 = fous k ∧
    l_Name l = cfg_Name cfg ∧ l_Type l = "gre" ∧ l_gre l = Some (gre_of cfg) ∧
    (mtuErr = None → 0 < mtuOrDefault cfg → l_MTU l = mtuOrDefault cfg)) as (l & Hl2 & Hf2 & Hln & Hlt & Hlg & Hlm).
  { destruct (Z.ltb_spec 0 (mtuOrDefault cfg)).
    - destruct mtuErr as [e|].
      + apply LinkSetMTU_err in Em as [E1 E2]. exists l0. rewrite E1, E2. done.
      + apply LinkSetMTU_ok in Em as [E1 E2]. exists (set_mtu (mtuOrDefault cfg) l0).
        rewrite E1, E2, Hl1, alter_insert_eq. done.
    - simplify_eq. exists l0. split_and!; try done. lia. }
  assert (∀ warn w3 k3, undo_link warn created cfg k2 = (w3, k3) → w3 = [] →
    links k3 = links k ∧ fous k3 = fous k0) as Hundo.
  { intros warn w3 k3 Hu. rewrite Hl. eapply undo_link_spec; [by rewrite <- Hl|by rewrite Hl2, Hl| |done|done].
    by rewrite Hf2. }
  destruct mtuErr as [e|].
  { destruct (undo_link _ _ _ _) as [w3 k3] eqn:Eu. intros [= <- <- <-]. by eapply Hundo. }
  destruct (LinkSetUp (cfg_Name cfg) k2) as [[e|] k3] eqn:Eup.
  - apply LinkSetUp_err in Eup as [El Ef].
    destruct (undo_link _ _ _ _) as [w4 k4] eqn:Eu. intros [= <- <- <-].
    rewrite Hl. eapply undo_link_spec; [by rewrite <- Hl|by rewrite El, Hl2, Hl| |done|done].
    by rewrite Ef, Hf2.
  - apply LinkSetUp_ok in Eup as [El Ef]. intros [= <- <- <-].
    split_and!; [done|by rewrite Ef|done|]. exists (set_up l).
    rewrite El, Hl2, alter_insert_eq. split_and!; try done. by apply Hlm.
Qed.

Lemma valid_local4 cfg : ValidateConfig cfg = None → IP.To4 (cfg_LocalIP cfg) ≠ None.
Proof.
  unfold ValidateConfig. intros Hv. repeat (case_match; try done).
  match goal with Hx : ValidateIP (cfg_LocalIP cfg) _ = None |- _ =>
    apply ValidateIP_None in Hx as (x & [_ ->] & _) end. done.
Qed.

(** The outcome of [Create], for the claims. *)
Lemma Create_spec cfg k r w k' :
  Create None cfg k = (r, w, k') →
  match r with
  | None => w = [] ∧ ValidateConfig cfg = None ∧ created_state cfg k k'
  | Some _ => w = [] → links k' = links k ∧ fous k' = fous k
  end.
Proof.
  unfold Create, created_state. destruct (ValidateConfig cfg) eqn:Hv; [by intros [= <- <- <-]|].
  pose proof (valid_local4 _ Hv) as H4.
  destruct (LinkByName _ _); [by intros [= <- <- <-]|].
  destruct (Z.eqb_spec (cfg_Encap cfg) EncapNone) as [He|He]; simpl.
  - intros Hc. eapply (create_link_spec false) in Hc; [|done|done].
    destruct r; [done|]. destruct Hc as (-> & Hf & Hn & Hl). split_and!; try done.
  - destruct (ensureFOU cfg k) as [[created|err] k1] eqn:Ee; apply ensureFOU_spec in Ee.
    + intros Hc. destruct Ee as [Hb Hex]. pose proof Hb as [_ Hb2].
      eapply create_link_spec in Hc; [|done|done].
      destruct r; [done|]. destruct Hc as (-> & Hf & Hn & Hl). split_and!; try done.
      intros _. rewrite Hf. destruct created.
      * destruct Hb2 as [Hb2 ->]. split; [rewrite lookup_insert_eq; eauto|]. by right.
      * rewrite Hb2. split; [by apply Hex|by left].
    + intros [= <- <- <-] _. done.
Qed.

(** Assigning an address touches neither links nor FOU ports. *)
Lemma AssignIP_view ctx name cidr k :
  links (AssignIP ctx name cidr k).2 = links k ∧ fous (AssignIP ctx name cidr k).2 = fous k.
Proof.
  unfold AssignIP. repeat (case_match; try done).
  all: match goal with Ha : AddrAdd _ _ _ = _ |- _ => apply AddrAdd_view in Ha end; simplify_eq/=; done.
Qed.

(** C5. [Create] is all or nothing.  When it succeeds, exactly one link is new:
    it is up, has the configured addresses, keys, TTL, encapsulation and MTU,
    and with encapsulation its FOU port is open.  When it fails at any call,
    links and FOU ports are as before, unless a clean-up call failed as well,
    which is logged. *)
Theorem create_all_or_nothing (cfg : Config) (k k' : K) (r : option error) (w : list Warn)
  (Hrun : Create None cfg k = (r, w, k')) :
  match r with
  | None =>
      w = [] ∧ links k !! cfg_Name cfg = None ∧
      (∃ l, links k' = <[cfg_Name cfg := l]> (links k) ∧
            l_Name l = cfg_Name cfg ∧ l_Type l = "gre" ∧ l_Up l = true ∧
            l_gre l = Some (gre_of cfg) ∧
            (0 < mtuOrDefault cfg → l_MTU l = mtuOrDefault cfg)) ∧
      (cfg_Encap cfg = EncapNone → fous k' = fous k) ∧
      (cfg_Encap cfg ≠ EncapNone → is_Some (fous k' !! cfg_EncapDport cfg) ∧
         (fous k' = fous k ∨ fous k !! cfg_EncapDport cfg = None ∧
                             fous k' = <[cfg_EncapDport cfg := fou_of cfg]> (fous k)))
  | Some _ => w = [] → links k' = links k ∧ fous k' = fous k
  end.
Proof. apply Create_spec in Hrun. destruct r; [done|]. by destruct Hrun as (-> & _ & ?). Qed.

(** Filling in the address changes no other field. *)
Lemma with_address_fields link st k :
  let st' := with_address link st k in
  st_Name st' = st_Name st ∧ st_Up st' = st_Up st ∧ st_Key st' = st_Key st ∧
  st_LocalIP st' = st_LocalIP st ∧ st_RemoteIP st' = st_RemoteIP st ∧ st_TTL st' = st_TTL st ∧
  st_MTU st' = st_MTU st ∧ st_Encap st' = st_Encap st ∧ st_EncapSport st' = st_EncapSport st ∧
  st_EncapDport st' = st_EncapDport st.
Proof. unfold with_address. by destruct (AddrList _ _) as [[|]|]. Qed.

Lemma valid_parts cfg : ValidateConfig cfg = None →
  snd (ValidateEncap cfg) = None ∧ ipToString (cfg_LocalIP cfg) = IP.String (cfg_LocalIP cfg) ∧
  ipToString (cfg_RemoteIP cfg) = IP.String (cfg_RemoteIP cfg).
Proof.
  unfold ValidateConfig. intros Hv. repeat (case_match; try done). split; [done|].
  repeat match goal with Hx : ValidateIP _ _ = None |- _ =>
    apply ValidateIP_None in Hx as (? & [_ ?] & _) end.
  by destruct (cfg_LocalIP cfg), (cfg_RemoteIP cfg).
Qed.

(** C18. Round trip: [Get] on a tunnel that was just created reports the
    configuration it was created with, the default TTL 64 and the default
    encapsulated MTU 1468 filled in, and that it is up. *)
Theorem create_get_roundtrip `{!LookupSpec K} (cfg : Config) (k k' : K) (w : list Warn)
  (Hrun : Create None cfg k = (None, w, k')) :
  ∃ s, Get None (cfg_Name cfg) k' = Ok s ∧
    st_Name s = cfg_Name cfg ∧ st_Up s = true ∧ st_Key s = cfg_Key cfg ∧
    st_LocalIP s = IP.String (cfg_LocalIP cfg) ∧ st_RemoteIP s = IP.String (cfg_RemoteIP cfg) ∧
    st_TTL s = (if decide (cfg_TTL cfg = 0) then 64 else cfg_TTL cfg) ∧
    (cfg_MTU cfg ≠ 0 → st_MTU s = cfg_MTU cfg) ∧
    (cfg_Encap cfg = EncapNone → st_Encap s = "") ∧
    (cfg_Encap cfg ≠ EncapNone →
       st_Encap s = encapTypeName (cfg_Encap cfg) ∧ st_EncapSport s = cfg_EncapSport cfg ∧
       st_EncapDport s = cfg_EncapDport cfg ∧ (cfg_MTU cfg = 0 → st_MTU s = 1468)).
Proof.
  apply Create_spec in Hrun as (_ & Hv & Hnone & (l & Hl & Hln & Hlt & Hup & Hg & Hm) & _ & _).
  destruct (valid_parts _ Hv) as (Henc & Hip1 & Hip2). apply ValidateEncap_None in Henc as [He Hmtu].
  assert (LinkByName (cfg_Name cfg) k' = Ok l) as Hby
    by (apply LinkByName_found; rewrite Hl; apply lookup_insert_eq).
  unfold Get. rewrite Hby, Hg. eexists. split; [done|].
  destruct (with_address_fields l (statusFromGretun l (gre_of cfg)) k')
    as (-> & -> & -> & -> & -> & -> & -> & -> & -> & ->).
  unfold mtuOrDefault, DefaultFOUMTU in Hm. unfold statusFromGretun, gre_of, applyEncap. simpl.
  destruct (Z.eqb_spec (cfg_Encap cfg) EncapNone) as [E|E]; simpl in *.
  - rewrite Hip1, Hip2. unfold defaultTTL. split_and!; try done.
    + destruct (Z.eqb_spec (cfg_TTL cfg) 0); case_decide; done.
    + intros Hne. destruct (Z.ltb_spec 0 (cfg_MTU cfg)); lia.
  - rewrite Hip1, Hip2. unfold defaultTTL. split_and!; try done.
    + destruct (Z.eqb_spec (cfg_TTL cfg) 0); case_decide; done.
    + intros Hne. destruct (Z.ltb_spec 0 (cfg_MTU cfg)); lia.
    + intros _. unfold netlinkEncapConst, encapTypeName. split_and!; [|done|done|].
      * destruct He as [?|[[-> | ->] _]]; done.
      * intros Hz. rewrite Hz in Hm. by apply Hm.
Qed.

(** Deleting a tunnel that was just created restores the links, but a FOU
    port that [Create] opened for it stays open: [Delete] never removes one. *)
Theorem create_delete_keeps_fou (cfg : Config) (k k1 k2 : K) (w : list Warn)
  (Hc : Create None cfg k = (None, w, k1)) (Hd : Delete None (cfg_Name cfg) k1 = (None, k2)) :
  links k2 = links k ∧ fous k2 = fous k1 ∧
  (cfg_Encap cfg ≠ EncapNone → is_Some (fous k2 !! cfg_EncapDport cfg)).
Proof.
  apply Create_spec in Hc as (_ & _ & Hnone & (l & Hl & Hln & Hlt & _) & _ & Hfou).
  unfold Delete in Hd. destruct (ValidateTunnelName _); [done|].
  destruct (LinkByName (cfg_Name cfg) k1) as [l'|] eqn:Hby; [|done].
  apply LinkByName_ok in Hby. rewrite Hl, lookup_insert_eq in Hby. injection Hby as <-.
  rewrite decide_False, Hln in Hd by (by rewrite Hlt; intros []).
  destruct (LinkDel _ k1) as [[e|] k3] eqn:Ed; [done|]. simplify_eq.
  apply LinkDel_ok in Ed as [-> ->]. rewrite Hl, delete_insert_id by done.
  split_and!; [done|done|]. intros He. by apply Hfou.
Qed.

(** [List] and [Get] agree: the list holds, once per GRE tunnel, the status
    that [Get] reports for its name, and nothing else. *)
Theorem list_agrees_with_get `{!LookupSpec K} (k : K) (sts : list Status) (Hrun : List None k = Ok sts) :
  ∃ names, NoDup names ∧
    (∀ n, n ∈ names ↔ ∃ l, links k !! n = Some l ∧ l_Type l = "gre" ∧ is_Some (l_gre l)) ∧
    Forall2 (λ n st, Get None n k = Ok st ∧ st_Name st = n) names sts.
Proof.
  unfold List in Hrun. destruct (LinkList k) as [ls|] eqn:Hls; [|done]. simplify_eq/=.
  apply LinkList_spec in Hls.
  assert (∀ l, l ∈ ls ↔ links k !! l_Name l = Some l) as Hin.
  { intros l. rewrite Hls, list_elem_of_fmap. split.
    - intros ([n l'] & -> & Hk%elem_of_map_to_list). simpl. by rewrite (links_name _ _ _ Hk).
    - intros Hk. exists (l_Name l, l). by rewrite elem_of_map_to_list. }
  assert (NoDup (l_Name <$> ls)) as Hnd.
  { rewrite Hls, <- list_fmap_compose. rewrite (list_fmap_ext _ fst).
    - apply NoDup_fst_map_to_list.
    - intros i [n l] Hk%list_elem_of_lookup_2%elem_of_map_to_list. simpl.
      by apply links_name in Hk. }
  exists (l_Name <$> filter (λ l, l_Type l = "gre" ∧ is_Some (l_gre l)) ls). split_and!.
  - eapply sublist_NoDup; [done|]. apply fmap_sublist, sublist_filter.
  - intros n. rewrite list_elem_of_fmap. setoid_rewrite list_elem_of_filter. setoid_rewrite Hin.
    split; [naive_solver|]. intros (l & Hk & Hp). exists l. by rewrite (links_name _ _ _ Hk).
  - clear Hls Hnd. assert (Forall (λ l, links k !! l_Name l = Some l) ls) as Hall
      by (apply Forall_forall; intros l; apply Hin). clear Hin.
    induction Hall as [|l ls Hl Hall IH]; simpl; [done|]. unfold list_entry at 1.
    destruct (decide (l_Type l ≠ "gre")) as [Hne|He].
    + rewrite filter_cons_False by naive_solver. done.
    + apply dec_stable in He. destruct (l_gre l) as [g|] eqn:Hg.
      * rewrite filter_cons_True by (rewrite Hg; eauto). simpl. constructor; [|done].
        unfold Get. rewrite (LinkByName_found _ _ _ Hl), Hg. split; [done|].
        apply (with_address_fields l (statusFromGretun l g) k).
      * rewrite filter_cons_False; [done|]. rewrite Hg. by intros [_ []].
Qed.

(** *** Frames: what the operations on one tunnel leave alone

    Only the link of that name may change, and no FOU port that was open is
    closed. *)
Definition frame (name : string) (k k' : K) : Prop :=
  (∀ n, n ≠ name → links k' !! n = links k !! n) ∧ fous k ⊆ fous k'.

#[export] Instance frame_preorder name : PreOrder (frame name).
Proof.
  split; [by intros k|]. intros k1 k2 k3 [L1 F1] [L2 F2].
  split; [intros n Hn; by rewrite L2, L1|by etrans].
Qed.

Lemma frame_same name k k' : links k' = links k → fous k' = fous k → frame name k k'.
Proof. intros E1 E2. split; [by rewrite E1|by rewrite E2]. Qed.

Lemma LinkDel_frame name k e k' : LinkDel name k = (e, k') → frame name k k'.
Proof.
  destruct e; intros Hd; [apply LinkDel_err in Hd as [? ?]; by apply frame_same|].
  apply LinkDel_ok in Hd as [E1 E2]. split; [intros n Hn; by rewrite E1, lookup_delete_ne|by rewrite E2].
Qed.

Lemma LinkSetMTU_frame name m k e k' : LinkSetMTU name m k = (e, k') → frame name k k'.
Proof.
  destruct e; intros Hd; [apply LinkSetMTU_err in Hd as [? ?]; by apply frame_same|].
  apply LinkSetMTU_ok in Hd as [E1 E2]. split; [intros n Hn; by rewrite E1, lookup_alter_ne|by rewrite E2].
Qed.

Lemma LinkSetUp_frame name k e k' : LinkSetUp name k = (e, k') → frame name k k'.
Proof.
  destruct e; intros Hd; [apply LinkSetUp_err in Hd as [? ?]; by apply frame_same|].
  apply LinkSetUp_ok in Hd as [E1 E2]. split; [intros n Hn; by rewrite E1, lookup_alter_ne|by rewrite E2].
Qed.

(** Rolling back closes only a port that was closed at the start. *)
Lemma rollback_if_frame (created : bool) cfg k0 k :
  frame (cfg_Name cfg) k0 k → (created = true → fous k0 !! cfg_EncapDport cfg = None) →
  frame (cfg_Name cfg) k0 (rollback_if created cfg k).2.
Proof.
  intros Hf Hc. unfold rollback_if, rollbackFOU. destruct created; [|done].
  destruct (FouDel _ k) as [[e|] k1] eqn:Ed; simpl.
  - apply FouDel_err in Ed as [? ?]. etrans; [done|]. by apply frame_same.
  - apply FouDel_ok in Ed as [E1 E2]. destruct Hf as [L F]. split; [by rewrite E1|].
    rewrite E2. simpl. apply map_subseteq_spec. intros p f Hp.
    rewrite lookup_delete_ne; [by eapply lookup_weaken|]. intros Heq. by rewrite <- Heq, Hc in Hp.
Qed.

Lemma undo_link_frame warn (created : bool) cfg k0 k :
  frame (cfg_Name cfg) k0 k → (created = true → fous k0 !! cfg_EncapDport cfg = None) →
  frame (cfg_Name cfg) k0 (undo_link warn created cfg k).2.
Proof.
  intros Hf Hc. unfold undo_link. destruct (LinkDel (cfg_Name cfg) k) as [e k1] eqn:Ed.
  apply LinkDel_frame in Ed. pose proof (rollback_if_frame created cfg k0 k1 ltac:(by etrans) Hc).
  by destruct (rollback_if created cfg k1).
Qed.

Lemma create_link_frame (created : bool) cfg k0 k :
  IP.To4 (cfg_LocalIP cfg) ≠ None → fou_before created cfg k0 k →
  frame (cfg_Name cfg) k0 (create_link created cfg k).2.
Proof.
  intros H4 [Hl Hf].
  assert (created = true → fous k0 !! cfg_EncapDport cfg = None) as Hc by (intros ->; naive_solver).
  assert (frame (cfg_Name cfg) k0 k) as F0.
  { split; [by rewrite Hl|]. destruct created; [|by rewrite Hf]. destruct Hf as [Hn ->].
    by apply insert_subseteq. }
  unfold create_link. destruct (LinkAdd (gre_of cfg) k) as [[e|] k1] eqn:Ea.
  { apply LinkAdd_err in Ea as [? ?].
    pose proof (rollback_if_frame created cfg k0 k1 ltac:(etrans; [done|by apply frame_same]) Hc).
    by destruct (rollback_if created cfg k1). }
  apply LinkAdd_ok in Ea as (_ & Hf1 & mtu & Hl1); [|by rewrite g_Local_gre_of].
  rewrite g_Name_gre_of in Hl1.
  assert (frame (cfg_Name cfg) k0 k1) as F1.
  { etrans; [done|]. split; [intros n Hn; by rewrite Hl1, lookup_insert_ne|by rewrite Hf1]. }
  destruct (if 0 <? mtuOrDefault cfg then _ else _) as [mtuErr k2] eqn:Em.
  assert (frame (cfg_Name cfg) k0 k2) as F2.
  { etrans; [done|]. case_match; [by eapply LinkSetMTU_frame|by simplify_eq]. }
  destruct mtuErr as [e|].
  { pose proof (undo_link_frame WarnCleanupMTU created cfg k0 k2 F2 Hc). by destruct (undo_link _ _ _ _). }
  destruct (LinkSetUp (cfg_Name cfg) k2) as [e k3] eqn:Eup. apply LinkSetUp_frame in Eup.
  assert (frame (cfg_Name cfg) k0 k3) as F3 by (by etrans).
  destruct e as [e|]; [|done].
  pose proof (undo_link_frame WarnCleanupUp created cfg k0 k3 F3 Hc). by destruct (undo_link _ _ _ _).
Qed.

Lemma Create_frame ctx cfg k : frame (cfg_Name cfg) k (Create ctx cfg k).2.
Proof.
  unfold Create. destruct ctx; [done|]. destruct (ValidateConfig cfg) eqn:Hv; [done|].
  pose proof (valid_local4 _ Hv) as H4. destruct (LinkByName _ _); [done|].
  destruct (negb _); [|by apply create_link_frame].
  destruct (ensureFOU cfg k) as [[created|err] k1] eqn:Ee; apply ensureFOU_spec in Ee.
  - apply create_link_frame; [done|]. by destruct Ee.
  - destruct Ee. by apply frame_same.
Qed.

Lemma Delete_frame ctx name k : frame name k (Delete ctx name k).2.
Proof.
  unfold Delete. destruct ctx; [done|]. destruct (ValidateTunnelName name); [done|].
  destruct (LinkByName name k) as [l|] eqn:Hl; [|done]. apply LinkByName_ok, links_name in Hl.
  case_decide; [done|]. rewrite Hl. destruct (LinkDel name k) as [[e|] k1] eqn:Ed; simpl; by eapply LinkDel_frame.
Qed.

Lemma AssignIP_frame ctx name cidr k : frame name k (AssignIP ctx name cidr k).2.
Proof. destruct (AssignIP_view ctx name cidr k). by apply frame_same. Qed.

(** *** Links of other kinds *)

(** Links of other kinds are untouched, and no FOU port is closed. *)
Definition foreign_kept (k k' : K) : Prop :=
  (∀ n l, links k !! n = Some l → l_Type l ≠ "gre" → links k' !! n = Some l) ∧ fous k ⊆ fous k'.

#[export] Instance foreign_kept_preorder : PreOrder foreign_kept.
Proof. split; [by intros k|]. intros k1 k2 k3 [L1 F1] [L2 F2]. split; [eauto|by etrans]. Qed.

(** A link of that name makes the kernel refuse the new one. *)
Lemma create_link_exists (created : bool) cfg k l :
  IP.To4 (cfg_LocalIP cfg) ≠ None → links k !! cfg_Name cfg = Some l →
  links (create_link created cfg k).2 = links k.
Proof.
  intros H4 Hl. unfold create_link. destruct (LinkAdd (gre_of cfg) k) as [[e|] k1] eqn:Ea.
  - apply LinkAdd_err in Ea as [<- _]. unfold rollback_if, rollbackFOU. destruct created; [|done].
    destruct (FouDel _ k1) as [[e'|] k2] eqn:Ed; simpl; [by apply FouDel_err in Ed as [? _]|by apply FouDel_ok in Ed as [? _]].
  - apply LinkAdd_ok in Ea as [Hn _]; [|by rewrite g_Local_gre_of]. rewrite g_Name_gre_of in Hn. congruence.
Qed.

Lemma Create_exists cfg k l : links k !! cfg_Name cfg = Some l → links (Create None cfg k).2 = links k.
Proof.
  intros Hl. unfold Create. destruct (ValidateConfig cfg) eqn:Hv; [done|]. pose proof (valid_local4 _ Hv) as H4.
  destruct (LinkByName _ _); [done|]. destruct (negb _); [|by eapply create_link_exists].
  destruct (ensureFOU cfg k) as [[created|err] k1] eqn:Ee; apply ensureFOU_spec in Ee; simpl; [|by destruct Ee].
  destruct Ee as [[El _] _]. rewrite <- El in Hl |- *. by eapply create_link_exists.
Qed.

Lemma Create_foreign ctx cfg k : foreign_kept k (Create ctx cfg k).2.
Proof.
  destruct (Create_frame ctx cfg k) as [L F]. split; [|done]. intros n l Hl _.
  destruct (decide (n = cfg_Name cfg)) as [->|Hn]; [|by rewrite L].
  destruct ctx; [done|]. by rewrite (Create_exists cfg k l).
Qed.

Lemma AssignIP_foreign ctx name cidr k : foreign_kept k (AssignIP ctx name cidr k).2.
Proof. destruct (AssignIP_view ctx name cidr k) as [L F]. split; [by rewrite L|by rewrite F]. Qed.

Lemma Delete_foreign ctx name k : foreign_kept k (Delete ctx name k).2.
Proof.
  destruct (Delete_frame ctx name k) as [L F]. split; [|done]. intros n l Hl Ht.
  destruct (decide (n = name)) as [->|Hn]; [|by rewrite L].
  unfold Delete. destruct ctx; [done|]. destruct (ValidateTunnelName name); [done|].
  destruct (LinkByName name k) as [l'|] eqn:Hb; [|done]. apply LinkByName_ok in Hb.
  rewrite Hl in Hb. injection Hb as <-. by rewrite decide_True.
Qed.

(** An operation on one tunnel: both of the above. *)
Definition confined (name : string) (k k' : K) : Prop := frame name k k' ∧ foreign_kept k k'.

#[export] Instance confined_preorder name : PreOrder (confined name).
Proof. split; [by intros k|]. intros k1 k2 k3 [] []. split; by etrans. Qed.

Lemma Create_confined ctx cfg k : confined (cfg_Name cfg) k (Create ctx cfg k).2.
Proof. split; [apply Create_frame|apply Create_foreign]. Qed.
Lemma AssignIP_confined ctx name cidr k : confined name k (AssignIP ctx name cidr k).2.
Proof. split; [apply AssignIP_frame|apply AssignIP_foreign]. Qed.
Lemma Delete_confined ctx name k : confined name k (Delete ctx name k).2.
Proof. split; [apply Delete_frame|apply Delete_foreign]. Qed.

End Claims.

(** ** A kernel with injected faults, like the test suite's mock *)
Module Mock.

(** A link without its name, which is the key. *)
Record Attrs := { a_type : string; a_up : bool; a_mtu : Z; a_gre : option Gretun }.

Definition link (n : string) (a : Attrs) : Link :=
  {| l_Name := n; l_Type := a_type a; l_Up := a_up a; l_MTU := a_mtu a; l_gre := a_gre a |}.

(** [fault op] is the error that the next call of [op] returns. *)
Record Kernel := {
  k_links : gmap string Attrs;
  k_fous : gmap Z Fou;
  k_addrs : gmap string (list string);
  fault : string → option error
}.

Definition set_links (k : Kernel) (m : gmap string Attrs) : Kernel :=
  {| k_links := m; k_fous := k_fous k; k_addrs := k_addrs k; fault := fault k |}.
Definition set_fous (k : Kernel) (m : gmap Z Fou) : Kernel :=
  {| k_links := k_links k; k_fous := m; k_addrs := k_addrs k; fault := fault k |}.
Definition set_addrs (k : Kernel) (m : gmap string (list string)) : Kernel :=
  {| k_links := k_links k; k_fous := k_fous k; k_addrs := m; fault := fault k |}.

Definition guarded (op : string) (ok : Kernel) (k : Kernel) : option error * Kernel :=
  match fault k op with Some e => (Some e, k) | None => (None, ok) end.

#[export] Instance nl : Netlinker Kernel := {|
  NlAddr := string;
  addr_String a := a;
  nl_ParseAddr s := Ok s;
  LinkAdd g k :=
    match k_links k !! g_Name g with
    | Some _ => (Some (ErrnoError EEXIST), k)
    | None => guarded "LinkAdd" (set_links k (<[g_Name g :=
                {| a_type := "gre"; a_up := false; a_mtu := 1476; a_gre := Some g |}]> (k_links k))) k
    end;
  LinkDel n k := guarded "LinkDel" (set_links k (delete n (k_links k))) k;
  LinkByName n k := match k_links k !! n with
                    | Some a => Ok (link n a)
                    | None => Err (ErrnoError ENODEV)
                    end;
  LinkSetUp n k := guarded "LinkSetUp" (set_links k (alter (λ a,
    {| a_type := a_type a; a_up := true; a_mtu := a_mtu a; a_gre := a_gre a |}) n (k_links k))) k;
  LinkSetMTU n m k := guarded "LinkSetMTU" (set_links k (alter (λ a,
    {| a_type := a_type a; a_up := a_up a; a_mtu := m; a_gre := a_gre a |}) n (k_links k))) k;
  LinkList k := Ok ((λ na, link na.1 na.2) <$> map_to_list (k_links k));
  AddrAdd n a k := guarded "AddrAdd"
    (set_addrs k (<[n := default [] (k_addrs k !! n) ++ [a]]> (k_addrs k))) k;
  AddrList n k := Ok (default [] (k_addrs k !! n));
  FouAdd f k :=
    match k_fous k !! fou_Port f with
    | Some _ => (Some (ErrnoError EEXIST), k)
    | None => match fault k "FouAdd" with
              | Some e => (Some (if IsErrno e EEXIST then ErrnoError EINVAL else e), k)
              | None => (None, set_fous k (<[fou_Port f := f]> (k_fous k)))
              end
    end;
  FouDel f k := guarded "FouDel" (set_fous k (delete (fou_Port f) (k_fous k))) k;
  FouList family k := Ok (filter (λ f, fou_Family f = family) (map_to_list (k_fous k)).*2)
|}.

Definition all_links (k : Kernel) : gmap string Link := map_imap (λ n a, Some (link n a)) (k_links k).

Lemma lookup_all_links k n : all_links k !! n = link n <$> k_links k !! n.
Proof. unfold all_links. rewrite map_lookup_imap. by destruct (k_links k !! n). Qed.

(** The view of an updated map. *)
Lemma all_links_insert k n a : all_links (set_links k (<[n := a]> (k_links k))) = <[n := link n a]> (all_links k).
Proof.
  apply map_eq. intros m. rewrite lookup_all_links. simpl.
  destruct (decide (m = n)) as [->|]; [by rewrite !lookup_insert_eq|].
  by rewrite !lookup_insert_ne, lookup_all_links by done.
Qed.
Lemma all_links_delete k n : all_links (set_links k (delete n (k_links k))) = delete n (all_links k).
Proof.
  apply map_eq. intros m. rewrite lookup_all_links. simpl.
  destruct (decide (m = n)) as [->|]; [by rewrite !lookup_delete_eq|].
  by rewrite !lookup_delete_ne, lookup_all_links by done.
Qed.
Lemma all_links_alter k n f g :
  (∀ a, link n (f a) = g (link n a)) →
  all_links (set_links k (alter f n (k_links k))) = alter g n (all_links k).
Proof.
  intros Hfg. apply map_eq. intros m. rewrite lookup_all_links. simpl.
  destruct (decide (m = n)) as [->|].
  - rewrite !lookup_alter_eq, lookup_all_links. destruct (k_links k !! n); simpl; [|done]. by rewrite Hfg.
  - by rewrite !lookup_alter_ne, lookup_all_links by done.
Qed.

Lemma guarded_inv op ok k r k' : guarded op ok k = (r, k') → match r with Some _ => k' = k | None => k' = ok end.
Proof. unfold guarded. destruct (fault k op); naive_solver. Qed.

#[export] Instance spec : NetlinkerSpec Kernel.
Proof.
  refine {| links := all_links; fous := k_fous |}.
  - intros n k l. rewrite lookup_all_links. by intros (a & _ & ->)%fmap_Some.
  - intros n k l. rewrite lookup_all_links. cbn [LinkByName nl].
    destruct (k_links k !! n); simpl; naive_solver.
  - simpl. intros k ls [= <-]. apply NoDup_Permutation.
    + apply NoDup_fmap_2_strong; [|apply NoDup_map_to_list].
      intros [n1 a1] [n2 a2] H1%elem_of_map_to_list H2%elem_of_map_to_list [= -> E1 E2 E3 E4].
      congruence.
    + apply NoDup_fmap_2_strong; [|apply NoDup_map_to_list].
      intros [n1 l1] [n2 l2] H1%elem_of_map_to_list H2%elem_of_map_to_list E. simpl in E. subst l2.
      rewrite lookup_all_links in H1, H2. apply fmap_Some in H1 as (a1 & _ & ->).
      apply fmap_Some in H2 as (a2 & _ & E). apply (f_equal l_Name) in E. simpl in E. by subst.
    + intros l. rewrite !list_elem_of_fmap. split.
      * intros ([n a] & -> & Hk%elem_of_map_to_list). exists (n, link n a). split; [done|].
        apply elem_of_map_to_list. by rewrite lookup_all_links, Hk.
      * intros ([n l'] & -> & Hk%elem_of_map_to_list). rewrite lookup_all_links in Hk.
        apply fmap_Some in Hk as (a & Hk & ->). exists (n, a). by rewrite elem_of_map_to_list.
  - intros g k e k'. cbn. destruct (k_links k !! g_Name g); [by intros [= _ <-]|].
    by intros ->%guarded_inv.
  - intros g k k'. cbn. destruct (k_links k !! g_Name g) eqn:E; [done|]. intros ->%guarded_inv _.
    split_and!; [by rewrite lookup_all_links, E|done|]. exists 1476. apply all_links_insert.
  - by intros n k e k' ->%guarded_inv.
  - intros n k k' ->%guarded_inv. split; [apply all_links_delete|done].
  - by intros n k e k' ->%guarded_inv.
  - intros n k k' ->%guarded_inv. split; [by apply all_links_alter|done].
  - by intros n m k e k' ->%guarded_inv.
  - intros n m k k' ->%guarded_inv. split; [by apply all_links_alter|done].
  - intros n a k e k'. cbn. unfold guarded. by destruct (fault k "AddrAdd"); intros [= _ <-].
  - intros f k e k'. cbn. destruct (k_fous k !! fou_Port f) eqn:E; [intros [= <- <-]; eauto|].
    destruct (fault k "FouAdd") as [e'|]; [|done]. intros [= <- <-]. split_and!; [done|done|].
    destruct (IsErrno e' EEXIST) eqn:E'; [done|congruence].
  - intros f k k'. cbn. destruct (k_fous k !! fou_Port f) eqn:E; [done|].
    destruct (fault k "FouAdd"); [done|]. by intros [= <-].
  - by intros f k e k' ->%guarded_inv.
  - by intros f k k' ->%guarded_inv.
Defined.

#[export] Instance lookups : LookupSpec Kernel.
Proof.
  intros n k l Hl. cbn in *. rewrite lookup_all_links in Hl. by apply fmap_Some in Hl as (a & -> & ->).
Qed.

(** A kernel on which [LinkSetUp] fails. *)
Definition faulty (op : string) : Kernel :=
  {| k_links := ∅; k_fous := ∅; k_addrs := ∅;
     fault := λ o, if decide (o = op) then Some (ErrnoError ENETDOWN) else None |}.

Definition healthy : Kernel :=
  {| k_links := ∅; k_fous := ∅; k_addrs := ∅; fault := λ _, None |}.

(** The state after creating [demo_config]. *)
Definition with_tunnel : Kernel := (Create None demo_config healthy).2.

Lemma demo_create : Create None demo_config healthy = (None, [], with_tunnel).
Proof. vm_compute. reflexivity. Qed.

Lemma create_all_or_nothing_witness :
  let '(r, w, k') := Create None demo_config (faulty "LinkSetUp") in
  r = Some (TunnelError "create" "gretun0" "network is down" (Some (ErrnoError ENETDOWN))) ∧
  w = [] ∧ links k' = links (faulty "LinkSetUp") ∧ fous k' = fous (faulty "LinkSetUp").
Proof.
  destruct (Create None demo_config (faulty "LinkSetUp")) as [[r w] k'] eqn:E.
  pose proof (create_all_or_nothing demo_config (faulty "LinkSetUp") k' r w E) as Hx.
  assert (r = Some (TunnelError "create" "gretun0" "network is down" (Some (ErrnoError ENETDOWN))) ∧
    w = []) as [Hr Hw].
  { change r with (r, w, k').1.1. change w with (r, w, k').1.2 at 2. rewrite <- E.
    split; vm_compute; reflexivity. }
  rewrite Hr in Hx. exact (conj Hr (conj Hw (Hx Hw))).
Defined.

Lemma create_get_roundtrip_witness :
  ∃ s, Get None "gretun0" with_tunnel = Ok s ∧ st_Up s = true ∧ st_LocalIP s = "10.0.0.1".
Proof.
  destruct (create_get_roundtrip demo_config healthy with_tunnel [] demo_create)
    as (s & H1 & _ & H2 & _ & H3 & _).
  exact (ex_intro _ s (conj H1 (conj H2 H3))).
Defined.

Lemma create_delete_keeps_fou_witness :
  is_Some (fous (Delete None "gretun0" with_tunnel).2 !! 7777).
Proof.
  apply (create_delete_keeps_fou demo_config healthy with_tunnel _ [] demo_create).
  - vm_compute. reflexivity.
  - discriminate.
Defined.

Definition demo_list : list Status :=
  match List None with_tunnel with Ok sts => sts | Err _ => [] end.

Lemma demo_list_ok : List None with_tunnel = Ok demo_list.
Proof. vm_compute. reflexivity. Qed.

Lemma list_agrees_with_get_witness :
  ∃ names, NoDup names ∧
    Forall2 (λ n st, Get None n with_tunnel = Ok st ∧ st_Name st = n) names demo_list.
Proof.
  destruct (list_agrees_with_get with_tunnel demo_list demo_list_ok) as (names & H1 & _ & H2).
  exact (ex_intro _ names (conj H1 H2)).
Defined.

End Mock.
