(* ===== verification/PeerFSM.v ===== *)
(** * The per-peer state machine ([internal/daemon/peer.go])

    [Run] is what the goroutine of one peer owns or reaches: the [peerFSM]
    fields, the [punchDeadline] local to [run], the kernel, the metrics and
    what was sent.  Each handler is a function on [Run]; [Step] adds the other
    goroutines, which put events into the bounded queue.  Clock readings
    within one event are [clk 0], [clk 1], ...; [tx] supplies transaction ids
    and [ifs] is what [net.InterfaceAddrs] returns. *)

From S2P Require Import Prelude.
From S2P Require Import Encoding.
From S2P Require Import NetIP.
From S2P Require Import GoTime.
From S2P Require Import GoSlice.
From S2P Require Import GoJson.
From S2P Require Import DiscoKeys.
From S2P Require Import DiscoEnvelope.
From S2P Require Import DiscoClient.
From S2P Require Import TunnelErrors.
From S2P Require Import TunnelValidate.
From S2P Require Import TunnelGre.

(** ** Data *)

Inductive peerState := stateUnknown | stateHaveEndpoints | statePunching | stateDirect | stateRelay.

#[export] Instance peerState_eq_dec : EqDecision peerState.
Proof. solve_decision. Defined.

Definition peerState_String (s : peerState) : string :=
  match s with
  | stateUnknown => "unknown"
  | stateHaveEndpoints => "have_endpoints"
  | statePunching => "punching"
  | stateDirect => "direct"
  | stateRelay => "relay"
  end.

Definition punchInterval : Z := 250 * GoTime.Millisecond.
Definition punchAttemptDur : Z := 5 * GoTime.Second.
Definition keepaliveEvery : Z := 25 * GoTime.Second.
Definition relayRetryEvery : Z := 30 * GoTime.Second.
Definition pongMissDeadline : Z := 75 * GoTime.Second.

Inductive fsmEvent :=
| evUpdate
| evUDP (addr : AddrPort) (body : Body)
| evSignal (body : Body).

(** The counters and the histogram's observations, in nanoseconds. *)
Record Metrics := {
  PeersByState : gmap string nat;
  DiscoPingsSent : nat;
  DiscoPongsRecv : nat;
  HolePunchDuration : list Z
}.

Record peerDeps := {
  self : DiscoKey;
  selfNode : NodeKey;
  ifaceName : string;
  fouPort : Z;
  selfTunnel : Addr;
  aggressive : bool
}.

Record Run (K : Type) := MkRun {
  deps : peerDeps;
  peer : RemotePeer;
  state : peerState;
  winning : AddrPort;
  tunnelUp : bool;
  lastPong : Z;
  punchStart : Z;
  punchDeadline : Z;
  kern : K;
  metrics : option Metrics;
  (** Messages handed to [sendDisco], oldest first. *)
  sent : list (AddrPort * Body)
}.
Arguments MkRun {K}.
Arguments deps {K} r. Arguments peer {K} r. Arguments state {K} r. Arguments winning {K} r.
Arguments tunnelUp {K} r. Arguments lastPong {K} r. Arguments punchStart {K} r.
Arguments punchDeadline {K} r. Arguments kern {K} r. Arguments metrics {K} r. Arguments sent {K} r.

(** An address of a network interface: an [*net.IPNet] or another type. *)
Inductive IfAddr := IfNet (ip : IP.t) | IfOther.

(** ** Local addresses *)

(** The loops' [v4 == nil || v4.IsLoopback()] test. *)
Definition usable_v4 (a : IfAddr) : option bytes :=
  match a with
  | IfOther => None
  | IfNet ip => match IP.To4 ip with
                | None => None
                | Some v4 => if IP.IsLoopback (Some v4) then None else Some v4
                end
  end.

Definition gatherLocalAddrPorts (port : Z) (ifs : option (list IfAddr)) : list string :=
  match ifs with
  | None => []
  | Some addrs =>
      (λ v4, IP.String (Some v4) +:+ ":" +:+ pretty port) <$> omap usable_v4 addrs
  end.

Definition global_v4 (a : IfAddr) : option Addr :=
  v4 ← usable_v4 a;
  if IP.IsGlobalUnicast (Some v4) then IP.AddrFromSlice (Some v4) else None.

Definition firstGlobalV4 (ifs : option (list IfAddr)) : Addr :=
  match ifs with
  | None => AddrZero
  | Some addrs => default AddrZero (head (omap global_v4 addrs))
  end.

(** ** Field updates *)
Section Setters.
Context {K : Type}.
Implicit Type r : Run K.

Definition setState (s : peerState) r : Run K :=
  MkRun (deps r) (peer r) s (winning r) (tunnelUp r) (lastPong r) (punchStart r) (punchDeadline r)
    (kern r) (metrics r) (sent r).
Definition set_peer (p : RemotePeer) r : Run K :=
  MkRun (deps r) p (state r) (winning r) (tunnelUp r) (lastPong r) (punchStart r) (punchDeadline r)
    (kern r) (metrics r) (sent r).
Definition set_pong (w : AddrPort) (t : Z) r : Run K :=
  MkRun (deps r) (peer r) (state r) w (tunnelUp r) t (punchStart r) (punchDeadline r)
    (kern r) (metrics r) (sent r).
Definition set_punch (start deadline : Z) r : Run K :=
  MkRun (deps r) (peer r) (state r) (winning r) (tunnelUp r) (lastPong r) start deadline
    (kern r) (metrics r) (sent r).
Definition set_kern (k : K) (up : bool) r : Run K :=
  MkRun (deps r) (peer r) (state r) (winning r) up (lastPong r) (punchStart r) (punchDeadline r)
    k (metrics r) (sent r).
Definition set_metrics (m : option Metrics) r : Run K :=
  MkRun (deps r) (peer r) (state r) (winning r) (tunnelUp r) (lastPong r) (punchStart r)
    (punchDeadline r) (kern r) m (sent r).
Definition add_sent (to : AddrPort) (b : Body) r : Run K :=
  MkRun (deps r) (peer r) (state r) (winning r) (tunnelUp r) (lastPong r) (punchStart r)
    (punchDeadline r) (kern r) (metrics r) (sent r ++ [(to, b)]).

End Setters.

(** ** Handlers *)
Section FSM.
Context {K : Type} `{Netlinker K}.
Implicit Type r : Run K.

Definition newPeerFSM (d : peerDeps) (p : RemotePeer) (m : option Metrics) (k : K) : Run K :=
  MkRun d p stateUnknown AddrPort_zero false 0 0 0 k m [].

(** The bytes of one message and where they go; a failing [BuildEnvelope]
    sends nothing. *)
Definition sendDisco `{NaclBox, MarshalJSON Body} (rnd : option nonce24) (r : Run K) (to : AddrPort)
  (body : Body) : option (bytes * AddrPort) :=
  match BuildEnvelope rnd (self (deps r)) (rp_DiscoKey (peer r)) body with
  | Err _ => None
  | Ok env => Some (env, to)
  end.

Definition ping_body (tx : string) r : Body :=
  {| b_Type := MsgPing; b_Tx := tx; b_NodeKey := NodeKey_B64 (selfNode (deps r)); b_Src := "";
     b_Endpoints := [] |}.

Definition sendPing (tx : string) (to : AddrPort) r : Run K :=
  let r := add_sent to (ping_body tx r) r in
  match metrics r with
  | Some m => set_metrics (Some {| PeersByState := PeersByState m; DiscoPingsSent := S (DiscoPingsSent m);
                                   DiscoPongsRecv := DiscoPongsRecv m;
                                   HolePunchDuration := HolePunchDuration m |}) r
  | None => r
  end.

Definition sendPong (to : AddrPort) (tx : string) r : Run K :=
  add_sent to {| b_Type := MsgPong; b_Tx := tx; b_NodeKey := ""; b_Src := AddrPort_String to;
                 b_Endpoints := [] |} r.

(** What [sendCallMeMaybe] seals for the peer and hands to [SendSignal]. *)
Definition callMeMaybe (port : Z) (ifs : option (list IfAddr)) (r : Run K) : key32 * Body :=
  (rp_DiscoKey (peer r),
   {| b_Type := MsgCallMeMaybe; b_Tx := ""; b_NodeKey := ""; b_Src := "";
      b_Endpoints := gatherLocalAddrPorts port ifs |}).

Definition tunnel_config (local : Addr) (to : AddrPort) r : Config :=
  {| cfg_Name := ifaceName (deps r); cfg_LocalIP := IP.AsSlice local;
     cfg_RemoteIP := IP.AsSlice (ap_Addr to); cfg_Key := 0; cfg_TTL := 0; cfg_MTU := 0;
     cfg_Encap := EncapFOU; cfg_EncapSport := fouPort (deps r); cfg_EncapDport := ap_Port to;
     cfg_EncapChecksum := true |}.

Definition bringUpTunnel (ifs : option (list IfAddr)) (to : AddrPort) r : Run K :=
  if tunnelUp r then r
  else
    let local := firstGlobalV4 ifs in
    if negb (IsValid local) then r
    else
      match Create None (tunnel_config local to r) (kern r) with
      | (Some _, _, k) => set_kern k false r
      | (None, _, k) =>
          let k :=
            if IsValid (selfTunnel (deps r)) && IsValid (rp_TunnelIP (peer r)) then
              (AssignIP None (ifaceName (deps r)) (Addr_String (selfTunnel (deps r)) +:+ "/30") k).2
            else k in
          set_kern k true r
      end.

Definition onPeerUpdate (clk : nat → Z) r : Run K :=
  if bool_decide (rp_Endpoints (peer r) ≠ []) && bool_decide (state r = stateUnknown) then
    let r := setState stateHaveEndpoints r in
    let r := setState statePunching r in
    set_punch (clk 0%nat) (GoTime.Add (clk 1%nat) punchAttemptDur) r
  else r.

(** The two loops of [absorbEndpoints]; [seen] is the map's key set. *)
Fixpoint absorb_loop (seen : list AddrPort) (eps : list RemoteEndpoint) (addrs : list string)
  : list RemoteEndpoint :=
  match addrs with
  | [] => eps
  | s :: addrs =>
      match ParseAddrPort s with
      | None => absorb_loop seen eps addrs
      | Some ap =>
          if bool_decide (ap ∈ seen) then absorb_loop seen eps addrs
          else absorb_loop (ap :: seen)
                 (eps ++ [{| re_Addr := ap; re_Source := "call_me_maybe" |}]) addrs
      end
  end.

Definition absorbEndpoints (addrs : list string) r : Run K :=
  let p := peer r in
  let eps := absorb_loop (re_Addr <$> rp_Endpoints p) (rp_Endpoints p) addrs in
  set_peer {| rp_NodeKey := rp_NodeKey p; rp_DiscoKey := rp_DiscoKey p; rp_Name := rp_Name p;
              rp_TunnelIP := rp_TunnelIP p; rp_Endpoints := eps;
              rp_UpdatedAt := rp_UpdatedAt p |} r.

(** Metric updates happen only when metrics are on. *)
Definition count_pong r : Run K :=
  set_metrics ((λ m, {| PeersByState := PeersByState m; DiscoPingsSent := DiscoPingsSent m;
                        DiscoPongsRecv := S (DiscoPongsRecv m);
                        HolePunchDuration := HolePunchDuration m |}) <$> metrics r) r.
Definition observe_punch (d : Z) r : Run K :=
  set_metrics ((λ m, {| PeersByState := PeersByState m; DiscoPingsSent := DiscoPingsSent m;
                        DiscoPongsRecv := DiscoPongsRecv m;
                        HolePunchDuration := HolePunchDuration m ++ [d] |}) <$> metrics r) r.

Definition onDiscoUDP (clk : nat → Z) (ifs : option (list IfAddr)) (from : AddrPort) (body : Body) r
  : Run K :=
  if decide (b_Type body = MsgPing) then sendPong from (b_Tx body) r
  else if decide (b_Type body = MsgPong) then
    let r := count_pong r in
    if decide (state r ≠ stateDirect) then
      let r := set_pong from (clk 0%nat) r in
      let since := GoTime.Since (clk 1%nat) (punchStart r) in
      let r := setState stateDirect r in
      let r := if negb (GoTime.IsZero (punchStart r)) then observe_punch since r else r in
      bringUpTunnel ifs from r
    else set_pong (winning r) (clk 0%nat) r
  else if decide (b_Type body = MsgCallMeMaybe) then
    let r := absorbEndpoints (b_Endpoints body) r in
    onPeerUpdate clk r
  else r.

Definition onDiscoSignal (clk : nat → Z) (ifs : option (list IfAddr)) (body : Body) r : Run K :=
  onDiscoUDP clk ifs AddrPort_zero body r.

Definition handle (clk : nat → Z) (ifs : option (list IfAddr)) (ev : fsmEvent) r : Run K :=
  match ev with
  | evUpdate => onPeerUpdate clk r
  | evUDP addr body => onDiscoUDP clk ifs addr body r
  | evSignal body => onDiscoSignal clk ifs body r
  end.

(** The [i]-th ping of a tick carries [tx i]. *)
Fixpoint ping_all (tx : nat → string) (i : nat) (eps : list RemoteEndpoint) r : Run K :=
  match eps with
  | [] => r
  | e :: eps => ping_all tx (S i) eps (sendPing (tx i) (re_Addr e) r)
  end.

Definition tickPunch (clk : nat → Z) (tx : nat → string) r : Run K :=
  if decide (state r ≠ statePunching) then r
  else if GoTime.After (clk 0%nat) (punchDeadline r) then setState stateRelay r
  else ping_all tx 0 (rp_Endpoints (peer r)) r.

Definition keepalive (clk : nat → Z) (tx : nat → string) r : Run K :=
  if decide (state r ≠ stateDirect) then r
  else if pongMissDeadline <? GoTime.Since (clk 0%nat) (lastPong r) then setState statePunching r
  else sendPing (tx 0%nat) (winning r) r.

Definition teardown r : Run K :=
  if tunnelUp r then set_kern (Delete None (ifaceName (deps r)) (kern r)).2 (tunnelUp r) r else r.

End FSM.

(** ** The goroutines around one peer *)

(** [queue] is the channel of capacity 32; [pending] is an [update] between its
    send and its store (the daemon's lock admits one at a time); [running] is
    false once [run] has returned; [clock] is the last time read. *)
Record Conf (K : Type) := MkConf {
  run : Run K;
  queue : list fsmEvent;
  pending : option RemotePeer;
  running : bool;
  clock : Z
}.
Arguments MkConf {K}.
Arguments run {K} c. Arguments queue {K} c. Arguments pending {K} c. Arguments running {K} c.
Arguments clock {K} c.

Definition queueCap : nat := 32.

Inductive Label :=
| LUpdate (p : RemotePeer)
| LStore
| LUDP (from : AddrPort) (body : Body)
| LSignal (body : Body)
| LRecv (ev : fsmEvent)
| LTick
| LKeepalive
| LExit.

(** A non-blocking send: dropped when the channel is full. *)
Definition enqueue (ev : fsmEvent) (q : list fsmEvent) : list fsmEvent :=
  if (length q <? queueCap)%nat then q ++ [ev] else q.

(** Readings of the clock during a step lie between its start and its end. *)
Definition reads (t t' : Z) (clk : nat → Z) : Prop := t ≤ t' ∧ ∀ i, t ≤ clk i ≤ t'.

Inductive Step {K} `{Netlinker K} : Label → Conf K → Conf K → Prop :=
| StepUpdate r q ru t p :
    (length q < queueCap)%nat →
    Step (LUpdate p) (MkConf r q None ru t) (MkConf r (q ++ [evUpdate]) (Some p) ru t)
| StepUpdateFull r q ru t p :
    (queueCap ≤ length q)%nat →
    Step (LUpdate p) (MkConf r q None ru t) (MkConf r q None ru t)
| StepStore r q ru t p :
    Step LStore (MkConf r q (Some p) ru t) (MkConf (set_peer p r) q None ru t)
| StepUDP r q pe ru t from body :
    Step (LUDP from body) (MkConf r q pe ru t) (MkConf r (enqueue (evUDP from body) q) pe ru t)
| StepSignal r q pe ru t body :
    Step (LSignal body) (MkConf r q pe ru t) (MkConf r (enqueue (evSignal body) q) pe ru t)
| StepRecv r ev q pe t t' clk ifs :
    reads t t' clk →
    Step (LRecv ev) (MkConf r (ev :: q) pe true t) (MkConf (handle clk ifs ev r) q pe true t')
| StepTick r q pe t t' clk tx :
    reads t t' clk →
    Step LTick (MkConf r q pe true t) (MkConf (tickPunch clk tx r) q pe true t')
| StepKeepalive r q pe t t' clk tx :
    reads t t' clk →
    Step LKeepalive (MkConf r q pe true t) (MkConf (keepalive clk tx r) q pe true t')
| StepExit r q pe t :
    Step LExit (MkConf r q pe true t) (MkConf (teardown r) q pe false t).

Inductive Steps {K} `{Netlinker K} : list Label → Conf K → Conf K → Prop :=
| StepsNil c : Steps [] c c
| StepsCons l ls c1 c2 c3 : Step l c1 c2 → Steps ls c2 c3 → Steps (l :: ls) c1 c3.

(** [run] starts with an empty queue; [t] is the time then. *)
Definition initial {K} (d : peerDeps) (p : RemotePeer) (m : option Metrics) (k : K) (t : Z) : Conf K :=
  MkConf (newPeerFSM d p m k) [] None true t.

Definition is_pong (ev : fsmEvent) : bool :=
  match ev with
  | evUpdate => false
  | evUDP _ b | evSignal b => bool_decide (b_Type b = MsgPong)
  end.

Section FSMFacts.
Context {K : Type} `{Netlinker K}.
Implicit Types (r : Run K) (c : Conf K).

(** *** Frames: what the handlers leave alone *)

Lemma sendPing_fields tx to r :
  let r' := sendPing tx to r in
  deps r' = deps r ∧ peer r' = peer r ∧ state r' = state r ∧ winning r' = winning r ∧
  tunnelUp r' = tunnelUp r ∧ lastPong r' = lastPong r ∧ punchStart r' = punchStart r ∧
  punchDeadline r' = punchDeadline r ∧ kern r' = kern r ∧
  sent r' = sent r ++ [(to, ping_body tx r)].
Proof. unfold sendPing. simpl. destruct (metrics r); done. Qed.

Lemma ping_all_fields tx i eps r :
  let r' := ping_all tx i eps r in
  deps r' = deps r ∧ peer r' = peer r ∧ state r' = state r ∧ winning r' = winning r ∧
  tunnelUp r' = tunnelUp r ∧ lastPong r' = lastPong r ∧ punchStart r' = punchStart r ∧
  punchDeadline r' = punchDeadline r ∧ kern r' = kern r ∧
  (sent r').*1 = (sent r).*1 ++ (re_Addr <$> eps).
Proof.
  revert i r. induction eps as [|e eps IH]; intros i r; simpl; [by rewrite app_nil_r|].
  destruct (sendPing_fields (tx i) (re_Addr e) r) as (E1 & E2 & E3 & E4 & E5 & E6 & E7 & E8 & E9 & E10).
  destruct (IH (S i) (sendPing (tx i) (re_Addr e) r)) as (-> & -> & -> & -> & -> & -> & -> & -> & -> & ->).
  rewrite E10, fmap_app, <- app_assoc. done.
Qed.

Lemma bringUpTunnel_fields ifs to r :
  let r' := bringUpTunnel ifs to r in
  deps r' = deps r ∧ peer r' = peer r ∧ state r' = state r ∧ winning r' = winning r ∧
  lastPong r' = lastPong r ∧ punchStart r' = punchStart r ∧ punchDeadline r' = punchDeadline r ∧
  sent r' = sent r ∧ metrics r' = metrics r.
Proof.
  unfold bringUpTunnel. destruct (tunnelUp r); [done|]. case_match; [done|].
  by destruct (Create _ _ _) as [[[] ?] ?].
Qed.

(** A pong, and what it does to the state. *)
Lemma handle_pong clk ifs ev r :
  is_pong ev = true →
  let r' := handle clk ifs ev r in
  state r' = stateDirect ∧ lastPong r' = clk 0%nat ∧ punchDeadline r' = punchDeadline r ∧
  sent r' = sent r ∧ peer r' = peer r.
Proof.
  intros Hp. assert (∀ from body, b_Type body = MsgPong →
    let r' := onDiscoUDP clk ifs from body r in
    state r' = stateDirect ∧ lastPong r' = clk 0%nat ∧ punchDeadline r' = punchDeadline r ∧
    sent r' = sent r ∧ peer r' = peer r) as HU.
  { intros from body Hb. unfold onDiscoUDP. rewrite decide_False by (by rewrite Hb).
    rewrite decide_True by done. case_decide as Hd; simpl.
    - set (r1 := if negb _ then _ else _).
      destruct (bringUpTunnel_fields ifs from r1) as (_ & -> & -> & _ & -> & _ & -> & -> & _).
      unfold r1. by case_match.
    - done. }
  destruct ev as [|from body|body]; simpl in *; [done|..]; apply bool_decide_eq_true in Hp; by apply HU.
Qed.

(** What every other event does at most: answer pings, and start punching. *)
Definition no_pong_effect (clk : nat → Z) r r' : Prop :=
  lastPong r' = lastPong r ∧ tunnelUp r' = tunnelUp r ∧ kern r' = kern r ∧ winning r' = winning r ∧
  (∃ l, sent r' = sent r ++ l ∧ Forall (λ m, b_Type m.2 = MsgPong) l) ∧
  (state r' = state r ∧ punchDeadline r' = punchDeadline r ∨
   state r = stateUnknown ∧ state r' = statePunching ∧ rp_Endpoints (peer r') ≠ [] ∧
   punchDeadline r' = clk 1%nat + punchAttemptDur).

Lemma onPeerUpdate_effect clk p r : no_pong_effect clk r (onPeerUpdate clk (set_peer p r)).
Proof.
  unfold onPeerUpdate, no_pong_effect. case_match; simpl; split_and!; try done.
  - exists []. by rewrite app_nil_r.
  - bool_to_prop. by right.
  - exists []. by rewrite app_nil_r.
  - by left.
Qed.

Lemma set_peer_id r : set_peer (peer r) r = r.
Proof. by destruct r. Qed.

Lemma handle_other clk ifs ev r :
  is_pong ev = false → no_pong_effect clk r (handle clk ifs ev r).
Proof.
  intros Hp. assert (∀ from body, b_Type body ≠ MsgPong →
    no_pong_effect clk r (onDiscoUDP clk ifs from body r)) as HD.
  { intros from body Hb. unfold onDiscoUDP. case_decide.
    - split_and!; try done; [|by left]. eexists. split; [done|]. by apply Forall_singleton.
    - rewrite decide_False by done. case_decide; [apply onPeerUpdate_effect|].
      split_and!; try done; [|by left]. exists []. by rewrite app_nil_r. }
  destruct ev as [|from body|body]; simpl in *.
  - rewrite <- (set_peer_id r) at 2. apply onPeerUpdate_effect.
  - apply HD. by apply bool_decide_eq_false in Hp.
  - apply HD. by apply bool_decide_eq_false in Hp.
Qed.

(** *** The invariant *)

Record fsm_inv c : Prop := {
  fi_state : state (run c) ≠ stateHaveEndpoints;
  fi_queue : (length (queue c) ≤ queueCap)%nat;
  fi_deadline : punchDeadline (run c) ≤ clock c + punchAttemptDur;
  fi_pong : state (run c) = stateDirect →
    lastPong (run c) ≤ clock c ∧ punchDeadline (run c) ≤ lastPong (run c) + punchAttemptDur
}.

Lemma initial_inv d p m k t : 0 ≤ t → fsm_inv (initial (K:=K) d p m k t).
Proof. intros Ht. split; simpl; unfold punchAttemptDur, GoTime.Second; try done; lia. Qed.

Lemma length_enqueue ev q : (length q ≤ queueCap)%nat → (length (enqueue ev q) ≤ queueCap)%nat.
Proof.
  unfold enqueue. intros Hq. destruct (Nat.ltb_spec (length q) queueCap); [|done].
  rewrite length_app. simpl. lia.
Qed.

Lemma handle_inv clk ifs ev r q pe t t' :
  reads t t' clk → fsm_inv (MkConf r (ev :: q) pe true t) →
  fsm_inv (MkConf (handle clk ifs ev r) q pe true t').
Proof.
  intros [Ht Hclk] [Hs Hq Hd Hp]. simpl in *. destruct (is_pong ev) eqn:Hev.
  - destruct (handle_pong clk ifs ev r Hev) as (E1 & E2 & E3 & _).
    pose proof (Hclk 0%nat). split; simpl; rewrite ?E1, ?E2, ?E3; try done; lia.
  - destruct (handle_other clk ifs ev r Hev) as (E1 & _ & _ & _ & _ & [[E2 E3]|(E2 & E3 & _ & E4)]);
      pose proof (Hclk 1%nat); split; simpl; rewrite ?E1, ?E3, ?E4, ?E2; try done; try lia.
    + intros Hx. destruct (Hp Hx). lia.
Qed.

Lemma Step_inv l c c' : Step l c c' → fsm_inv c → fsm_inv c'.
Proof.
  intros Hstep Hinv. destruct Hstep; try (destruct Hinv as [Hs Hq Hd Hp]; simpl in *).
  - split; simpl; try done. rewrite length_app. simpl. lia.
  - by split.
  - by split.
  - split; simpl; try done. by apply length_enqueue.
  - split; simpl; try done. by apply length_enqueue.
  - by eapply handle_inv.
  - match goal with Hr : reads _ _ _ |- _ => destruct Hr as [Ht Hclk] end.
    unfold tickPunch. case_decide; [split; simpl; try done; try lia; naive_solver lia|].
    case_match; [split; simpl; try done; lia|].
    destruct (ping_all_fields tx 0 (rp_Endpoints (peer r)) r) as (_ & _ & E1 & _ & _ & E2 & _ & E3 & _).
    split; simpl; rewrite ?E1, ?E2, ?E3; try done; try lia; naive_solver lia.
  - match goal with Hr : reads _ _ _ |- _ => destruct Hr as [Ht Hclk] end.
    unfold keepalive. case_decide; [split; simpl; try done; try lia; naive_solver lia|].
    case_match; [split; simpl; try done; lia|].
    destruct (sendPing_fields (tx 0%nat) (winning r) r) as (_ & _ & E1 & _ & _ & E2 & _ & E3 & _).
    split; simpl; rewrite ?E1, ?E2, ?E3; try done; try lia; naive_solver lia.
  - unfold teardown. case_match; by split.
Qed.

Lemma Steps_inv ls c c' : Steps ls c c' → fsm_inv c → fsm_inv c'.
Proof. induction 1; eauto using Step_inv. Qed.

End FSMFacts.

(** ** Claims *)
Section FSMClaims.
Context {K : Type} `{NetlinkerSpec K}.
Implicit Types (r : Run K) (c : Conf K).

(** C6. The state machine's edges.  In every reachable configuration a step
    changes the state only along four edges: from unknown to punching when
    the peer has endpoints, from punching to relay on a tick after the
    deadline, from direct to punching on a keepalive more than 75 seconds
    after the last pong, and from any other state to direct on a pong.
    [have_endpoints] is never visible between two steps, and the event queue
    never exceeds its capacity. *)
Theorem fsm_edges (d : peerDeps) (p : RemotePeer) (m : option Metrics) (k : K) (t : Z)
  (ls : list Label) (l : Label) (c c' : Conf K)
  (Ht : 0 ≤ t) (Hreach : Steps ls (initial d p m k t) c) (Hstep : Step l c c') :
  state (run c') ≠ stateHaveEndpoints ∧ (length (queue c') ≤ queueCap)%nat ∧
  (state (run c') = state (run c) ∨
   state (run c) = stateUnknown ∧ state (run c') = statePunching ∧
     rp_Endpoints (peer (run c')) ≠ [] ∧ (∃ ev, l = LRecv ev) ∨
   state (run c) = statePunching ∧ state (run c') = stateRelay ∧ l = LTick ∧
     punchDeadline (run c) < clock c' ∨
   state (run c) = stateDirect ∧ state (run c') = statePunching ∧ l = LKeepalive ∧
     pongMissDeadline < clock c' - lastPong (run c) ∨
   state (run c') = stateDirect ∧ ∃ ev, l = LRecv ev ∧ is_pong ev = true).
Proof.
  pose proof (Step_inv _ _ _ Hstep (Steps_inv _ _ _ Hreach (initial_inv d p m k t Ht))) as Hinv.
  split_and!; [apply Hinv|apply Hinv|]. clear Hinv Hreach.
  destruct Hstep as [| | | | |r ev q pe t0 t' clk ifs Hr|r q pe t0 t' clk tx Hr|r q pe t0 t' clk tx Hr|];
    simpl; try (by left); try destruct Hr as [Hle Hclk].
  - destruct (is_pong ev) eqn:Hev.
    + right; right; right; right. split; [by apply handle_pong|eauto].
    + destruct (handle_other clk ifs ev r Hev) as (_ & _ & _ & _ & _ & [[-> _]|(E1 & E2 & E3 & _)]);
        [by left|]. right; left. eauto 6.
  - unfold tickPunch. case_decide; [by left|]. destruct (GoTime.After _ _) eqn:Ha.
    + right; right; left. unfold GoTime.After in Ha. apply Z.ltb_lt in Ha. pose proof (Hclk 0%nat).
      split_and!; try done. lia.
    + left. by apply ping_all_fields.
  - unfold keepalive. case_decide; [by left|]. case_match eqn:Ha.
    + right; right; right; left. split_and!; try done. apply Z.ltb_lt in Ha.
      unfold pongMissDeadline, GoTime.Second in *. apply GoTime.Since_gt in Ha; [|unfold int64_min, int64_max; lia].
      pose proof (Hclk 0%nat). lia.
    + left. by apply sendPing_fields.
  - left. unfold teardown. by case_match.
Qed.

(** C21. Relay is final: as long as no pong arrives, a peer that reached relay
    stays there through every update, call-me-maybe, tick and keepalive, and
    sends no ping that could provoke a pong. *)
Theorem relay_never_retries (ls : list Label) (c c' : Conf K)
  (Hrelay : state (run c) = stateRelay) (Hrun : Steps ls c c')
  (Hno : ∀ ev, LRecv ev ∈ ls → is_pong ev = false) :
  state (run c') = stateRelay ∧
  ∃ l, sent (run c') = sent (run c) ++ l ∧ Forall (λ msg, b_Type msg.2 ≠ MsgPing) l.
Proof.
  induction Hrun as [c|l ls c1 c2 c3 Hstep Hrun IH].
  { split; [done|]. exists []. by rewrite app_nil_r. }
  assert (state (run c2) = stateRelay ∧ ∃ l, sent (run c2) = sent (run c1) ++ l ∧
    Forall (λ msg, b_Type msg.2 ≠ MsgPing) l) as [Hs (l1 & E1 & F1)].
  { clear IH Hrun. assert (∀ r, ∃ l, sent r = sent r ++ l ∧
      Forall (λ msg : AddrPort * Body, b_Type msg.2 ≠ MsgPing) l) as Hsame.
    { intros r. exists []. by rewrite app_nil_r. }
    destruct Hstep; simpl in *; try (split; [done|apply Hsame]).
    - assert (is_pong ev = false) as Hev by (apply Hno; left).
      destruct (handle_other clk ifs ev r Hev)
        as (_ & _ & _ & _ & (l & El & Fl) & [[-> _]|(E1 & _)]); [|congruence].
      split; [done|]. exists l. split; [done|]. eapply Forall_impl; [done|]. by intros msg ->.
    - unfold tickPunch. rewrite decide_True by congruence. auto.
    - unfold keepalive. rewrite decide_True by congruence. auto.
    - unfold teardown. case_match; (split; [done|apply (Hsame r)]). }
  destruct (IH Hs) as [Hs3 (l2 & E2 & F2)]; [intros ev Hev; apply Hno; by right|].
  split; [done|]. exists (l1 ++ l2). rewrite E2, E1, app_assoc. split; [done|]. by apply Forall_app.
Qed.

(** C20. Losing the keepalive does not re-punch: the deadline of the first
    attempt is not renewed, so the keepalive that leaves the direct state is
    followed, at the next tick, by relay, without a single ping in between. *)
Theorem lost_keepalive_gives_up (d : peerDeps) (p : RemotePeer) (m : option Metrics) (k : K) (t : Z)
  (ls : list Label) (c c1 c2 : Conf K)
  (Ht : 0 ≤ t) (Hreach : Steps ls (initial d p m k t) c)
  (Hdirect : state (run c) = stateDirect)
  (Hka : Step LKeepalive c c1) (Hlost : state (run c1) = statePunching)
  (Htick : Step LTick c1 c2) :
  state (run c2) = stateRelay ∧ sent (run c2) = sent (run c).
Proof.
  pose proof (Steps_inv _ _ _ Hreach (initial_inv d p m k t Ht)) as Hinv.
  destruct (fi_pong _ Hinv Hdirect) as [Hp Hd]. clear Hinv Hreach.
  inversion Hka as [| | | | | | |r q pe t0 t1 clk tx [Hle Hclk]|]; subst. simpl in *.
  unfold keepalive in Hlost, Htick. rewrite decide_False in Hlost, Htick by (by intros []).
  destruct (pongMissDeadline <? _) eqn:Ha.
  2: { destruct (sendPing_fields (tx 0%nat) (winning r) r) as (_ & _ & E & _). congruence. }
  apply Z.ltb_lt in Ha. unfold pongMissDeadline, punchAttemptDur, GoTime.Second in *.
  apply GoTime.Since_gt in Ha; [|unfold int64_min, int64_max; lia]. pose proof (Hclk 0%nat).
  inversion Htick as [| | | | | |r' q' pe' t2 t3 clk' tx' [Hle' Hclk']| |]; subst. simpl.
  unfold tickPunch. rewrite decide_False by (by intros []). simpl.
  pose proof (Hclk' 0%nat). unfold GoTime.After. rewrite (proj2 (Z.ltb_lt _ _)) by lia. done.
Qed.

(** A pong that finds the peer not direct ends in [bringUpTunnel]. *)
Lemma onDiscoUDP_pong clk ifs from body (r : Run K) :
  b_Type body = MsgPong → state r ≠ stateDirect →
  ∃ r1, onDiscoUDP clk ifs from body r = bringUpTunnel ifs from r1 ∧
    state r1 = stateDirect ∧ winning r1 = from ∧ lastPong r1 = clk 0%nat ∧ tunnelUp r1 = tunnelUp r ∧
    kern r1 = kern r ∧ deps r1 = deps r ∧ peer r1 = peer r.
Proof.
  intros Hpong Hstate. unfold onDiscoUDP. rewrite decide_False by (by rewrite Hpong).
  rewrite decide_True by done. rewrite decide_True by done. eexists. split; [reflexivity|]. by case_match.
Qed.

(** No configuration with the zero address is valid. *)
Lemma bringUpTunnel_zero ifs (r : Run K) :
  let r' := bringUpTunnel ifs AddrPort_zero r in kern r' = kern r ∧ tunnelUp r' = tunnelUp r.
Proof.
  unfold bringUpTunnel. destruct (tunnelUp r) eqn:E; [done|]. case_match; [done|].
  unfold Create. set (cfg := tunnel_config _ _ _).
  assert (∃ v, ValidateConfig cfg = Some v) as [v ->]; [|done].
  destruct (ValidateConfig cfg) eqn:Hv; [eauto|]. exfalso. unfold ValidateConfig in Hv.
  repeat case_match; try done.
Qed.

(** C22. What a pong that arrives through the coordinator does.  The peer is
    direct afterwards, the kernel is left alone, and there is a tunnel only if
    there was one before.  A peer that was not direct gets the invalid address
    as the one to reach it at, so that one without a tunnel is stranded: direct,
    with no tunnel and no address, and the next keepalive ping goes to the
    invalid address.  A peer that was direct keeps its address, and only its
    keepalive is renewed. *)
Theorem relayed_pong_strands_peer (clk clk' : nat → Z) (tx : nat → string) (ifs : option (list IfAddr))
  (r : Run K) (body : Body) (Hpong : b_Type body = MsgPong) :
  let r' := onDiscoSignal clk ifs body r in
  state r' = stateDirect ∧ kern r' = kern r ∧ tunnelUp r' = tunnelUp r ∧ lastPong r' = clk 0%nat ∧
  winning r' = (if decide (state r = stateDirect) then winning r else AddrPort_zero) ∧
  (0 ≤ clk' 0%nat - clk 0%nat ≤ pongMissDeadline →
   (sent (keepalive clk' tx r')).*1 = (sent r').*1 ++ [winning r']).
Proof.
  assert (∀ r0, state r0 = stateDirect → lastPong r0 = clk 0%nat →
    0 ≤ clk' 0%nat - clk 0%nat ≤ pongMissDeadline →
    (sent (keepalive clk' tx r0)).*1 = (sent r0).*1 ++ [winning r0]) as Hka.
  { intros r0 S0 L0 D0. unfold keepalive. rewrite decide_False by (by rewrite S0; intros []).
    rewrite (proj2 (Z.ltb_ge _ _)).
    - destruct (sendPing_fields (tx 0%nat) (winning r0) r0) as (_ & _ & _ & _ & _ & _ & _ & _ & _ & ->).
      by rewrite fmap_app.
    - unfold GoTime.Since, GoTime.Sub. rewrite L0.
      unfold pongMissDeadline, GoTime.Second, int64_min, int64_max in *. lia. }
  unfold onDiscoSignal. destruct (decide (state r = stateDirect)) as [E|E].
  - unfold onDiscoUDP. rewrite decide_False by (by rewrite Hpong). rewrite decide_True by done.
    rewrite decide_False by (cbn; by rewrite E; intros []). split_and!; try done. by apply Hka.
  - destruct (onDiscoUDP_pong clk ifs AddrPort_zero body r Hpong E) as (r1 & -> & S1 & W1 & L1 & T1 & K1 & _).
    destruct (bringUpTunnel_fields ifs AddrPort_zero r1) as (_ & _ & S2 & W2 & L2 & _).
    destruct (bringUpTunnel_zero ifs r1) as (K2 & T2). split_and!; try congruence. apply Hka; congruence.
Qed.

Lemma absorb_loop_spec addrs : ∀ seen eps,
  (∀ a, a ∈ seen ↔ a ∈ re_Addr <$> eps) →
  ∃ added, absorb_loop seen eps addrs = eps ++ added ∧
    Forall (λ e, re_Source e = "call_me_maybe") added ∧ NoDup (re_Addr <$> added) ∧
    ∀ a, a ∈ re_Addr <$> added ↔ a ∈ omap ParseAddrPort addrs ∧ a ∉ re_Addr <$> eps.
Proof.
  induction addrs as [|s addrs IH]; intros seen eps Hseen; simpl.
  { exists []. rewrite app_nil_r. split_and!; try done; [constructor|set_solver]. }
  destruct (ParseAddrPort s) as [ap|]; [|by apply IH]. case_bool_decide as Hin.
  - destruct (IH seen eps Hseen) as (added & E & F & N & A). exists added. split_and!; try done.
    intros a. rewrite A, elem_of_cons. rewrite Hseen in Hin. naive_solver.
  - set (e := {| re_Addr := ap; re_Source := "call_me_maybe" |}).
    destruct (IH (ap :: seen) (eps ++ [e])) as (added & E & F & N & A).
    { intros a. rewrite fmap_app, elem_of_app, elem_of_cons, Hseen. simpl. set_solver. }
    rewrite Hseen in Hin. exists (e :: added). rewrite E, <- app_assoc.
    split_and!; try done; [by constructor|..]; rewrite fmap_app in A; simpl in A; simpl.
    + apply NoDup_cons. split; [|done]. rewrite A. set_solver.
    + intros a. rewrite elem_of_cons, A, elem_of_cons. destruct (decide (a = ap)); set_solver.
Qed.

(** A call-me-maybe adds exactly the addresses that parse and were not known,
    each once and marked with its source; known endpoints keep their place. *)
Theorem absorb_adds_new_endpoints (addrs : list string) (r : Run K) :
  let known := re_Addr <$> rp_Endpoints (peer r) in
  ∃ added, rp_Endpoints (peer (absorbEndpoints addrs r)) = rp_Endpoints (peer r) ++ added ∧
    Forall (λ e, re_Source e = "call_me_maybe") added ∧ NoDup (re_Addr <$> added) ∧
    ∀ a, a ∈ re_Addr <$> added ↔ a ∈ omap ParseAddrPort addrs ∧ a ∉ known.
Proof. simpl. by apply absorb_loop_spec. Qed.

(** C17. A pong over UDP that finds the peer not direct makes it direct, with the
    sender as the winning address.  A tunnel that is up is kept as it is.
    Otherwise, if the host has a global IPv4 address and the kernel accepts the
    configuration, the kernel has a link of the peer's name that is up, with the
    sender's address as remote and, as FOU destination port, the port the pong
    came from, which is the peer's disco port.  If not, the peer is direct with
    no tunnel, and links and FOU ports are as before unless a failed clean-up
    was logged. *)
Theorem pong_brings_tunnel_up (clk : nat → Z) (ifs : option (list IfAddr)) (from : AddrPort)
  (body : Body) (r : Run K) (Hpong : b_Type body = MsgPong) (Hstate : state r ≠ stateDirect) :
  let r' := onDiscoUDP clk ifs from body r in
  let local := firstGlobalV4 ifs in
  state r' = stateDirect ∧ winning r' = from ∧ lastPong r' = clk 0%nat ∧
  if tunnelUp r || negb (IsValid local) then tunnelUp r' = tunnelUp r ∧ kern r' = kern r
  else match Create None (tunnel_config local from r) (kern r) with
  | (Some _, w, _) => tunnelUp r' = false ∧ (w = [] → links (kern r') = links (kern r) ∧ fous (kern r') = fous (kern r))
  | (None, _, _) => tunnelUp r' = true ∧
      ∃ l g, links (kern r') = <[ifaceName (deps r) := l]> (links (kern r)) ∧
        l_Up l = true ∧ l_gre l = Some g ∧ g_Remote g = IP.AsSlice (ap_Addr from) ∧
        g_Local g = IP.AsSlice local ∧
        g_EncapDport g = ap_Port from ∧ g_EncapSport g = fouPort (deps r) ∧
        is_Some (fous (kern r') !! ap_Port from)
  end.
Proof.
  destruct (onDiscoUDP_pong clk ifs from body r Hpong Hstate) as (r1 & E & S1 & W1 & L1 & T1 & K1 & D1 & P1).
  cbv zeta. rewrite E. clear E.
  destruct (bringUpTunnel_fields ifs from r1) as (_ & _ & S2 & W2 & L2 & _). split_and!; [congruence..|].
  assert (tunnel_config (firstGlobalV4 ifs) from r1 = tunnel_config (firstGlobalV4 ifs) from r) as Hcfg
    by (unfold tunnel_config; by rewrite D1).
  unfold bringUpTunnel. rewrite T1. destruct (tunnelUp r); cbn [orb]; [done|].
  destruct (IsValid (firstGlobalV4 ifs)); cbn [negb]; [|done]. rewrite Hcfg, K1.
  destruct (Create None (tunnel_config (firstGlobalV4 ifs) from r) (kern r)) as [[[e|] w] k1] eqn:Hcreate;
    apply Create_spec in Hcreate; [split; [done|exact Hcreate]|].
  destruct Hcreate as (_ & _ & _ & (l & Hl & _ & _ & Hup & Hg & _) & _ & Hf).
  destruct Hf as [Hf _]; [done|]. cbn [kern set_kern tunnelUp]. split; [done|].
  set (k2 := if _ && _ then _ else k1).
  assert (links k2 = links k1 ∧ fous k2 = fous k1) as [-> ->]
    by (unfold k2; case_match; [apply AssignIP_view|done]).
  exists l, (gre_of (tunnel_config (firstGlobalV4 ifs) from r)). split_and!; done.
Qed.

(** The tunnel address is lost for half of all addresses: [bringUpTunnel]
    assigns the node's address with a /30 mask and ignores the error, and for
    an address that is the first or last of its block of four, validation
    refuses it.  The tunnel is then up without an address. *)
Theorem tunnel_address_not_assigned (ifs : option (list IfAddr)) (to : AddrPort) (r : Run K)
  (x : Z) (w : list Warn) (k1 : K)
  (Hself : selfTunnel (deps r) = AddrV4 x) (Hx : 0 ≤ x < 2 ^ 32)
  (Hedge : x mod 4 = 0 ∨ x mod 4 = 3) (Hdown : tunnelUp r = false)
  (Hlocal : IsValid (firstGlobalV4 ifs) = true)
  (Hcreate : Create None (tunnel_config (firstGlobalV4 ifs) to r) (kern r) = (None, w, k1)) :
  let r' := bringUpTunnel ifs to r in
  kern r' = k1 ∧ tunnelUp r' = true ∧
  ∃ v, ValidateCIDR (Addr_String (selfTunnel (deps r)) +:+ "/30") = Some v.
Proof.
  assert (∃ v, ValidateCIDR (string4 x +:+ "/30") = Some v) as [v Hv].
  { change "/30" with ("/" +:+ pretty 30). rewrite ValidateCIDR_string4 by lia.
    rewrite decide_False by lia. unfold last4, first4. change (2 ^ (32 - 30)) with 4.
    repeat case_decide; eauto. exfalso. Z.div_mod_to_equations. lia. }
  unfold bringUpTunnel. rewrite Hdown, Hlocal, Hcreate, Hself. simpl.
  split_and!; [|done|by exists v]. case_match; [|done].
  unfold AssignIP. simpl. by case_match; rewrite ?Hv.
Qed.

(** [update] puts its event into the queue before it stores the new
    snapshot, so the event can be handled in between: it finds the old, empty
    endpoint list and is spent, and the peer stays unknown although its
    endpoints are known and nothing is queued. *)
Theorem update_can_be_lost (d : peerDeps) (p0 p : RemotePeer) (m : option Metrics) (k : K) (t : Z)
  (Hempty : rp_Endpoints p0 = []) :
  ∃ c, Steps [LUpdate p; LRecv evUpdate; LStore] (initial d p0 m k t) c ∧
    state (run c) = stateUnknown ∧ peer (run c) = p ∧ queue c = [] ∧ pending c = None ∧
    ∀ ticks c', Steps (replicate ticks LTick) c c' → state (run c') = stateUnknown ∧ sent (run c') = [].
Proof.
  set (r0 := newPeerFSM d p0 m k).
  exists (MkConf (set_peer p r0) [] None true t). split_and!; try done.
  - eapply StepsCons; [by apply StepUpdate; unfold queueCap; simpl; lia|].
    eapply StepsCons; [apply (StepRecv _ _ _ _ _ t (λ _, t) None); split; [lia|intros; lia]|].
    eapply StepsCons; [|apply StepsNil]. simpl. unfold onPeerUpdate. simpl. rewrite Hempty.
    rewrite bool_decide_eq_false_2 by (by intros []). simpl. apply StepStore.
  - intros ticks c'. remember (MkConf (set_peer p r0) [] None true t) as c eqn:Ec.
    assert (state (run c) = stateUnknown ∧ sent (run c) = []) as Hc by (by rewrite Ec). clear Ec.
    revert c Hc. induction ticks as [|n IH]; intros c [Hs He] Hrun; inversion Hrun; subst; [done|].
    match goal with Hst : Step LTick _ _ |- _ => inversion Hst; subst end. simpl in *.
    eapply IH; [|done]. simpl. unfold tickPunch. by rewrite decide_True by congruence.
Qed.

End FSMClaims.

(** ** Witnesses *)
Module FSMDemo.

#[local] Existing Instances Mock.nl Mock.spec.

Definition deps : peerDeps :=
  {| self := EnvelopeDemo.alice; selfNode := KeysDemo.nk; ifaceName := "gretun0"; fouPort := 7777;
     selfTunnel := AddrV4 0x0a000003; aggressive := false |}.
Definition peer0 : RemotePeer :=
  {| rp_NodeKey := replicate 32 x02; rp_DiscoKey := vreplicate 32 x02; rp_Name := "bob";
     rp_TunnelIP := AddrV4 0x0a000002; rp_Endpoints := []; rp_UpdatedAt := 0 |}.
Definition remote_peer_demo (a : AddrPort) : RemotePeer :=
  {| rp_NodeKey := replicate 32 x02; rp_DiscoKey := vreplicate 32 x02; rp_Name := "bob";
     rp_TunnelIP := AddrV4 0x0a000002; rp_Endpoints := [{| re_Addr := a; re_Source := "stun" |}];
     rp_UpdatedAt := 0 |}.
Definition pong : Body :=
  {| b_Type := MsgPong; b_Tx := "00"; b_NodeKey := ""; b_Src := ""; b_Endpoints := [] |}.
Definition bob_addr : AddrPort := {| ap_Addr := AddrV4 0xc0000207; ap_Port := 41641 |}.
Definition ifs : option (list IfAddr) := Some [IfNet (IP.IPv4 127 0 0 1); IfNet (IP.IPv4 198 51 100 4)].
Definition start : Conf Mock.Kernel := initial deps peer0 None Mock.healthy 0.
Definition at_time (t : Z) (_ : nat) : Z := t.
Definition tx (_ : nat) : string := "00".

(** The peer after a pong at time 1, as the trace below reaches it. *)
Definition direct : Run Mock.Kernel := handle (at_time 1) ifs (evUDP bob_addr pong) (run start).

Lemma start_to_direct :
  Steps [LUDP bob_addr pong; LRecv (evUDP bob_addr pong)] start (MkConf direct [] None true 1).
Proof.
  eapply StepsCons; [apply StepUDP|]. eapply StepsCons; [|apply StepsNil].
  apply (StepRecv _ _ _ _ 0 1 (at_time 1) ifs). split; [lia|]. intros i. unfold at_time. lia.
Qed.

Lemma demo_created :
  ∃ w k1, Create None (tunnel_config (firstGlobalV4 ifs) bob_addr (run start)) Mock.healthy = (None, w, k1).
Proof. eexists _, _. vm_compute. reflexivity. Qed.

Lemma fsm_edges_witness :
  (length (queue (MkConf (K:=Mock.Kernel) direct [evSignal pong] None true 1)) ≤ queueCap)%nat.
Proof.
  destruct (fsm_edges deps peer0 None Mock.healthy 0
    [LUDP bob_addr pong; LRecv (evUDP bob_addr pong)] (LSignal pong)
    (MkConf direct [] None true 1) (MkConf direct [evSignal pong] None true 1)
    (Z.le_refl 0) start_to_direct (StepSignal direct [] None true 1 pong)) as (_ & Hx & _).
  exact Hx.
Defined.

Definition relayed : Conf Mock.Kernel := MkConf (setState stateRelay (run start)) [evUpdate] None true 9.

Lemma relay_never_retries_witness :
  state (run (MkConf (handle (at_time 9) ifs evUpdate (run relayed)) [] None true 9)) = stateRelay.
Proof.
  refine (proj1 (relay_never_retries [LRecv evUpdate] relayed
    (MkConf (handle (at_time 9) ifs evUpdate (run relayed)) [] None true 9) eq_refl _ _)).
  - eapply StepsCons; [|apply StepsNil]. apply (StepRecv _ _ _ _ 9 9 (at_time 9) ifs).
    split; [lia|]. intros i. unfold at_time. lia.
  - intros ev Hev. apply list_elem_of_singleton in Hev. injection Hev as ->. reflexivity.
Defined.

(** 76 seconds later. *)
Definition late : Z := 76 * GoTime.Second.

Lemma lost_keepalive_gives_up_witness :
  state (tickPunch (at_time late) tx (keepalive (at_time late) tx direct)) = stateRelay.
Proof.
  refine (proj1 (lost_keepalive_gives_up deps peer0 None Mock.healthy 0
    [LUDP bob_addr pong; LRecv (evUDP bob_addr pong)] (MkConf direct [] None true 1)
    (MkConf (keepalive (at_time late) tx direct) [] None true late)
    (MkConf (tickPunch (at_time late) tx (keepalive (at_time late) tx direct)) [] None true late)
    (Z.le_refl 0) start_to_direct _ _ _ _)).
  - vm_compute. reflexivity.
  - apply StepKeepalive. split; [z_compute|]. intros i. unfold at_time. z_compute.
  - vm_compute. reflexivity.
  - apply StepTick. split; [lia|]. intros i. unfold at_time. lia.
Defined.

Lemma relayed_pong_strands_peer_witness :
  winning (onDiscoSignal (at_time 5) ifs pong (run start)) = AddrPort_zero ∧
  tunnelUp (onDiscoSignal (at_time 5) ifs pong (run start)) = false.
Proof.
  destruct (relayed_pong_strands_peer (at_time 5) (at_time 6) tx ifs (run start) pong eq_refl)
    as (_ & _ & Hx & _ & Hy & _).
  exact (conj Hy Hx).
Defined.

Lemma pong_brings_tunnel_up_witness :
  tunnelUp (onDiscoUDP (at_time 1) ifs bob_addr pong (run start)) = true.
Proof.
  destruct demo_created as (w & k1 & Hc).
  destruct (pong_brings_tunnel_up (at_time 1) ifs bob_addr pong (run start) eq_refl ltac:(discriminate))
    as (_ & _ & _ & Hx).
  replace (tunnelUp (run start) || negb (IsValid (firstGlobalV4 ifs))) with false in Hx by (vm_compute; reflexivity).
  change (kern (run start)) with Mock.healthy in Hx. rewrite Hc in Hx. exact (proj1 Hx).
Defined.

Lemma tunnel_address_not_assigned_witness :
  ∃ v, ValidateCIDR "10.0.0.3/30" = Some v.
Proof.
  destruct demo_created as (w & k1 & Hc).
  destruct (tunnel_address_not_assigned ifs bob_addr (run start) 0x0a000003 w k1 eq_refl
    ltac:(z_compute) (or_intror eq_refl) eq_refl ltac:(vm_compute; reflexivity) Hc) as (_ & _ & Hx).
  exact Hx.
Defined.

Lemma update_can_be_lost_witness :
  ∃ c, Steps [LUpdate (remote_peer_demo bob_addr); LRecv evUpdate; LStore] start c ∧
    state (run c) = stateUnknown.
Proof.
  destruct (update_can_be_lost deps peer0 (remote_peer_demo bob_addr) None Mock.healthy 0 eq_refl)
    as (c & H1 & H2 & _).
  exact (ex_intro _ c (conj H1 H2)).
Defined.

End FSMDemo.
