(* ===== verification/Daemon.v ===== *)
(** * The daemon ([internal/daemon/daemon.go])

    The daemon keeps one state machine per remote peer, keyed by disco key, and
    distributes what arrives to them.  At this level a state machine is a
    [Handle]: the fields that the daemon's goroutines touch ([peer], [incoming],
    [done]) and its interface name; [PeerFSM] models the rest.  Handles live in
    a store of their own, since [peers] holds pointers: a stopped handle still
    exists when the map has forgotten it. *)

From S2P Require Import Prelude.
From S2P Require Import Encoding.
From S2P Require Import NetIP.
From S2P Require Import GoJson.
From S2P Require Import DiscoKeys.
From S2P Require Import DiscoEnvelope.
From S2P Require Import DiscoClient.
From S2P Require Import PeerFSM.

(** ** State *)

Record Handle := {
  h_deps : peerDeps;
  h_peer : RemotePeer;
  h_incoming : list fsmEvent;
  h_done : bool
}.

Definition h_iface (h : Handle) : string := ifaceName (h_deps h).

Record Config := {
  Coordinator : string;
  NodeName : string;
  StateDir : string;
  Iface : string;
  FOUPort : Z;
  DiscoAddr : string;
  STUNServers : list string;
  Aggressive : bool;
  MetricsAddr : string
}.

(** [peers] is [None] for the nil map that [shutdown] leaves behind. *)
Record Daemon := {
  cfg : Config;
  node : NodeKey;
  disco : DiscoKey;
  client : CoordClient;
  peers : option (gmap key32 nat);
  handles : gmap nat Handle;
  next_handle : nat;
  d_self : Addr;
  ifaceSeq : Z;
  fouOwned : bool
}.

(** An empty pattern is replaced by "gretun%d". *)
Definition New (c : Config) (nk : NodeKey) (dk : DiscoKey) : Daemon :=
  let c := if decide (Iface c = "") then
    {| Coordinator := Coordinator c; NodeName := NodeName c; StateDir := StateDir c; Iface := "gretun%d";
       FOUPort := FOUPort c; DiscoAddr := DiscoAddr c; STUNServers := STUNServers c;
       Aggressive := Aggressive c; MetricsAddr := MetricsAddr c |} else c in
  {| cfg := c; node := nk; disco := dk; client := NewCoordClient (Coordinator c) nk dk;
     peers := Some ∅; handles := ∅; next_handle := 0; d_self := AddrZero; ifaceSeq := 0;
     fouOwned := false |}.

(** [fmt.Sprintf(pat, n)].  The configuration asks for "a printf pattern with a
    single %d": text, [%%] and [%d], which [int_pattern] recognises and
    [sprintf_int] formats.  A second [%d] has no operand, and an operand without
    a verb is appended.  Any other pattern (a width, a flag, another verb)
    reaches the parts of [fmt] behind [FmtVerbs]. *)
Class FmtVerbs := Sprintf_verbs : string → Z → string.

Fixpoint int_pattern (l : bytes) : bool :=
  match l with
  | [] => true
  | "%"%byte :: c :: l => (Byte.eqb c "d"%byte || Byte.eqb c "%"%byte) && int_pattern l
  | c :: l => negb (Byte.eqb c "%"%byte) && int_pattern l
  end.

Fixpoint sprintf_int (used : bool) (n : Z) (l : bytes) : bytes :=
  match l with
  | [] => if used then [] else to_bytes ("%!(EXTRA int=" +:+ pretty n +:+ ")")
  | "%"%byte :: "d"%byte :: l =>
      (if used then to_bytes "%!d(MISSING)" else to_bytes (pretty n)) ++ sprintf_int true n l
  | "%"%byte :: "%"%byte :: l => "%"%byte :: sprintf_int used n l
  | c :: l => c :: sprintf_int used n l
  end.
Definition iface_name `{FmtVerbs} (pat : string) (n : Z) : string :=
  if int_pattern (to_bytes pat) then of_bytes (sprintf_int false n (to_bytes pat)) else Sprintf_verbs pat n.

Example iface_name_default `{FmtVerbs} : iface_name "gretun%d" 12 = "gretun12".
Proof. reflexivity. Qed.
Example iface_name_no_verb `{FmtVerbs} : iface_name "tun" 3 = "tun%!(EXTRA int=3)".
Proof. reflexivity. Qed.
Example int_pattern_others : (int_pattern ∘ to_bytes) <$> ["gre%02d"; "gretun%T"; "tun%"; "100%%-%d"] =
  [false; false; false; true].
Proof. reflexivity. Qed.

Definition set_peers (d : Daemon) (ps : option (gmap key32 nat)) : Daemon :=
  {| cfg := cfg d; node := node d; disco := disco d; client := client d; peers := ps;
     handles := handles d; next_handle := next_handle d; d_self := d_self d; ifaceSeq := ifaceSeq d;
     fouOwned := fouOwned d |}.
Definition set_handles (d : Daemon) (hs : gmap nat Handle) : Daemon :=
  {| cfg := cfg d; node := node d; disco := disco d; client := client d; peers := peers d;
     handles := hs; next_handle := next_handle d; d_self := d_self d; ifaceSeq := ifaceSeq d;
     fouOwned := fouOwned d |}.

(** ** What other goroutines do to a state machine *)

(** [update]: the snapshot is stored only when the event fits the queue. *)
Definition h_update (p : RemotePeer) (h : Handle) : Handle :=
  if (length (h_incoming h) <? queueCap)%nat then
    {| h_deps := h_deps h; h_peer := p; h_incoming := h_incoming h ++ [evUpdate];
       h_done := h_done h |}
  else h.

Definition h_send (ev : fsmEvent) (h : Handle) : Handle :=
  {| h_deps := h_deps h; h_peer := h_peer h; h_incoming := enqueue ev (h_incoming h);
     h_done := h_done h |}.

(** [stop]: closing [done] happens once, whatever the number of calls. *)
Definition h_stop (h : Handle) : Handle :=
  {| h_deps := h_deps h; h_peer := h_peer h; h_incoming := h_incoming h; h_done := true |}.

(** ** Reconciliation *)
Section Reconcile.
Context {fv : FmtVerbs}.

(** One iteration of the first loop; [None] is the panic of a write to the nil
    map. *)
Definition reconcile_one (p : RemotePeer) (d : Daemon) : option Daemon :=
  if decide (rp_DiscoKey p = dk_Pub (disco d)) then Some d
  else
    match peers d ≫= lookup (rp_DiscoKey p) with
    | None =>
        let h := {| h_deps := {| self := disco d; selfNode := node d;
                                 ifaceName := iface_name (Iface (cfg d)) (ifaceSeq d);
                                 fouPort := FOUPort (cfg d); selfTunnel := d_self d;
                                 aggressive := Aggressive (cfg d) |};
                    h_peer := p; h_incoming := []; h_done := false |} in
        match peers d with
        | None => None
        | Some ps =>
            Some {| cfg := cfg d; node := node d; disco := disco d; client := client d;
                    peers := Some (<[rp_DiscoKey p := next_handle d]> ps);
                    handles := <[next_handle d := h]> (handles d);
                    next_handle := S (next_handle d); d_self := d_self d; ifaceSeq := ifaceSeq d + 1;
                    fouOwned := fouOwned d |}
        end
    | Some id => Some (set_handles d (alter (h_update p) id (handles d)))
    end.

Fixpoint reconcile_loop (ps : list RemotePeer) (d : Daemon) : option Daemon :=
  match ps with
  | [] => Some d
  | p :: ps => d ← reconcile_one p d; reconcile_loop ps d
  end.

(** The keys recorded in [seen]. *)
Definition seen_keys (d : Daemon) (ps : list RemotePeer) : list key32 :=
  filter (λ k, k ≠ dk_Pub (disco d)) (rp_DiscoKey <$> ps).

(** The second loop: stop and forget what was not listed. *)
Definition drop_unseen (seen : list key32) (d : Daemon) : Daemon :=
  match peers d with
  | None => d
  | Some ps =>
      let gone := filter (λ ki, ki.1 ∉ seen) ps in
      set_peers
        (set_handles d (foldr (λ ki hs, alter h_stop ki.2 hs) (handles d) (map_to_list gone)))
        (Some (filter (λ ki, ki.1 ∈ seen) ps))
  end.

Definition reconcilePeers (ps : list RemotePeer) (d : Daemon) : option Daemon :=
  drop_unseen (seen_keys d ps) <$> reconcile_loop ps d.

End Reconcile.

Definition shutdown (d : Daemon) : Daemon :=
  let hs := match peers d with
            | None => handles d
            | Some ps => foldr (λ ki hs, alter h_stop ki.2 hs) (handles d) (map_to_list ps)
            end in
  set_peers (set_handles d hs) None.

(** ** Incoming messages *)
Section Incoming.
Context `{NaclBox} `{UnmarshalJSON Body}.

Definition mustAddrFromIP (ip : IP.t) : Addr :=
  match IP.To4 ip with
  | Some v4 => default AddrZero (IP.AddrFromSlice (Some v4))
  | None => default AddrZero (IP.AddrFromSlice ip)
  end.

(** [d.peers[sender]] and the send to that state machine. *)
Definition deliver (sender : key32) (ev : fsmEvent) (d : Daemon) : Daemon :=
  match peers d ≫= lookup sender with
  | None => d
  | Some id => set_handles d (alter (h_send ev) id (handles d))
  end.

(** The body of [discoReadLoop] for one datagram of [buf] from [ip]:[port]. *)
Definition onDatagram (buf : bytes) (ip : IP.t) (port : Z) (d : Daemon) : Daemon :=
  match OpenEnvelope buf (disco d) with
  | (_, Err _) => d
  | (sender, Ok body) =>
      let fromAP := {| ap_Addr := mustAddrFromIP ip; ap_Port := wrapu 16 port |} in
      deliver sender (evUDP fromAP body) d
  end.

(** The inner loop of [signalPullLoop]. *)
Definition onSignals (sealedEnvs : list bytes) (d : Daemon) : Daemon :=
  foldl (λ d s,
    match OpenEnvelope s (disco d) with
    | (_, Err _) => d
    | (sender, Ok body) => deliver sender (evSignal body) d
    end) d sealedEnvs.

End Incoming.

(** ** Endpoints and metrics *)

(** The candidates to publish; [stun] is what [DiscoverPublic] returned.  The
    second component tells whether it failed. *)
Definition collectEndpoints (port : Z) (ifs : option (list IfAddr)) (stun : option AddrPort)
  : list RemoteEndpoint * bool :=
  let eps := (λ a, {| re_Addr := {| ap_Addr := a; ap_Port := wrapu 16 port |}; re_Source := "local" |})
               <$> omap global_v4 (default [] ifs) in
  match stun with
  | Some pub => (eps ++ [{| re_Addr := pub; re_Source := "stun" |}], false)
  | None => (eps, true)
  end.

Definition newTxID (rnd : vec byte 16) : string := Hex.EncodeToString rnd.

(** One pass of [metricsUpdateLoop]: the gauge of each state. *)
Definition state_counts (states : list peerState) : gmap string nat :=
  foldr (λ st m, alter S (peerState_String st) m)
    (list_to_map [("unknown", 0%nat); ("have_endpoints", 0%nat); ("punching", 0%nat);
                  ("direct", 0%nat); ("relay", 0%nat)]) states.

(** ** The invariant *)
Section Invariant.
Context {fv : FmtVerbs}.

(** The map points to distinct live handles, and the handle number is the
    interface number. *)
Record daemon_wf (d : Daemon) : Prop := {
  dw_seq : ifaceSeq d = Z.of_nat (next_handle d);
  dw_handle id h : handles d !! id = Some h →
    (id < next_handle d)%nat ∧ h_iface h = iface_name (Iface (cfg d)) (Z.of_nat id);
  dw_peer ps k id : peers d = Some ps → ps !! k = Some id →
    k ≠ dk_Pub (disco d) ∧ ∃ h, handles d !! id = Some h ∧ h_done h = false;
  dw_inj ps k1 k2 id : peers d = Some ps → ps !! k1 = Some id → ps !! k2 = Some id → k1 = k2
}.

Lemma New_wf c nk dk : daemon_wf (New c nk dk).
Proof. split; simpl; try done; by intros ps ? ? ? [= <-] || intros ps ? ? [= <-]. Qed.

(** Changing a handle's queue or snapshot, or not at all. *)
Lemma alter_handles_wf d f id :
  (∀ h, h_iface (f h) = h_iface h ∧ h_done (f h) = h_done h) →
  daemon_wf d → daemon_wf (set_handles d (alter f id (handles d))).
Proof.
  intros Hf [Hs Hh Hp Hi]. split; simpl; try done.
  - intros id' h. rewrite lookup_alter_Some. intros [(-> & h' & Hl & ->)|[_ Hl]]; [|by apply Hh].
    destruct (Hh _ _ Hl). split; [done|]. by rewrite (proj1 (Hf h')).
  - intros ps k id' Hps Hk. destruct (Hp ps k id' Hps Hk) as [Hne (h & Hl & Hd)]. split; [done|].
    destruct (decide (id' = id)) as [->|].
    + rewrite lookup_alter_eq, Hl. eexists. split; [done|]. by rewrite (proj2 (Hf h)).
    + rewrite lookup_alter_ne by done. eauto.
Qed.

Lemma h_update_fields p h : h_iface (h_update p h) = h_iface h ∧ h_done (h_update p h) = h_done h.
Proof. unfold h_update. by case_match. Qed.

Lemma deliver_wf sender ev d : daemon_wf d → daemon_wf (deliver sender ev d).
Proof. intros Hd. unfold deliver. case_match; [|done]. by apply alter_handles_wf. Qed.

Lemma reconcile_one_spec p d ps :
  daemon_wf d → peers d = Some ps →
  ∃ d' ps', reconcile_one p d = Some d' ∧ daemon_wf d' ∧ peers d' = Some ps' ∧
    disco d' = disco d ∧ cfg d' = cfg d ∧ ps ⊆ ps' ∧
    (∀ k, is_Some (ps' !! k) ↔ is_Some (ps !! k) ∨ k = rp_DiscoKey p ∧ k ≠ dk_Pub (disco d)).
Proof.
  intros Hwf Hps. unfold reconcile_one. case_decide as Hself.
  { exists d, ps. split_and!; try done. naive_solver. }
  rewrite Hps. simpl. destruct (ps !! rp_DiscoKey p) as [id|] eqn:Hk.
  { eexists _, ps. split; [done|]. split; [by apply alter_handles_wf; [apply h_update_fields|]|].
    split_and!; try done.
    intros k. split; [by left|]. intros [?|[-> _]]; [done|]. by rewrite Hk. }
  destruct Hwf as [Hs Hh Hp Hi]. eexists _, _. split; [done|]. split; [|split; [done|]]; simpl.
  - split; simpl.
    + lia.
    + intros id h [[<- <-]|[? Hl]]%lookup_insert_Some; simpl.
      * split; [lia|]. by rewrite Hs.
      * destruct (Hh _ _ Hl). split; [lia|done].
    + intros ps0 k id [= <-] [[<- <-]|[? Hl]]%lookup_insert_Some.
      * split; [done|]. rewrite lookup_insert_eq. eauto.
      * destruct (Hp ps k id Hps Hl) as [? (h & Hlh & ?)]. split; [done|].
        destruct (Hh _ _ Hlh). rewrite lookup_insert_ne by lia. eauto.
    + intros ps0 k1 k2 id [= <-] [[<- <-]|[? H1]]%lookup_insert_Some
        [[<- E]|[? H2]]%lookup_insert_Some; try done.
      * destruct (Hp ps k2 _ Hps H2) as [_ (h & Hlh & _)]. destruct (Hh _ _ Hlh). lia.
      * subst id. destruct (Hp ps k1 _ Hps H1) as [_ (h & Hlh & _)]. destruct (Hh _ _ Hlh). lia.
      * by eapply Hi.
  - split_and!; [done|done|by apply insert_subseteq|].
    intros k. rewrite lookup_insert_is_Some. destruct (decide (k = rp_DiscoKey p)); naive_solver.
Qed.

Lemma reconcile_loop_spec l : ∀ d ps,
  daemon_wf d → peers d = Some ps →
  ∃ d' ps', reconcile_loop l d = Some d' ∧ daemon_wf d' ∧ peers d' = Some ps' ∧
    disco d' = disco d ∧ cfg d' = cfg d ∧ ps ⊆ ps' ∧
    (∀ k, is_Some (ps' !! k) ↔ is_Some (ps !! k) ∨ k ∈ seen_keys d l).
Proof.
  induction l as [|p l IH]; intros d ps Hwf Hps; simpl.
  { exists d, ps. split_and!; try done. intros k. unfold seen_keys. simpl. set_solver. }
  destruct (reconcile_one_spec p d ps Hwf Hps) as (d1 & ps1 & -> & Hwf1 & Hps1 & Hd1 & Hc1 & Hsub1 & Hk1).
  destruct (IH d1 ps1 Hwf1 Hps1) as (d2 & ps2 & E & Hwf2 & Hps2 & Hd2 & Hc2 & Hsub2 & Hk2).
  exists d2, ps2. simpl. split_and!; try done; [congruence|congruence|by etrans|].
  intros k. rewrite Hk2, Hk1. unfold seen_keys. rewrite Hd1, !list_elem_of_filter. simpl.
  rewrite elem_of_cons. naive_solver.
Qed.

Lemma stop_all_lookup (l : list (key32 * nat)) (hs : gmap nat Handle) id :
  foldr (λ ki hs, alter h_stop ki.2 hs) hs l !! id =
  if decide (id ∈ l.*2) then h_stop <$> hs !! id else hs !! id.
Proof.
  induction l as [|[k i] l IH]; simpl; [done|]. destruct (decide (id = i)) as [->|Hne].
  - rewrite lookup_alter_eq, IH. repeat case_decide; destruct (hs !! i); try done; set_solver.
  - rewrite lookup_alter_ne, IH by done. repeat case_decide; try done; set_solver.
Qed.

Lemma drop_unseen_spec seen d ps :
  daemon_wf d → peers d = Some ps →
  let d' := drop_unseen seen d in
  daemon_wf d' ∧ peers d' = Some (filter (λ ki, ki.1 ∈ seen) ps) ∧
  (∀ k id, ps !! k = Some id → k ∉ seen → ∃ h, handles d' !! id = Some h ∧ h_done h = true).
Proof.
  intros [Hs Hh Hp Hi] Hps. unfold drop_unseen. rewrite Hps. cbn -[map_filter].
  assert (∀ id, id ∈ (map_to_list (filter (λ ki, ki.1 ∉ seen) ps)).*2 ↔
    ∃ k, ps !! k = Some id ∧ k ∉ seen) as Hgone.
  { intros id. rewrite list_elem_of_fmap. split.
    - intros ([k i] & -> & Hk%elem_of_map_to_list). apply map_lookup_filter_Some in Hk. naive_solver.
    - intros (k & Hk & Hn). exists (k, id). split; [done|]. apply elem_of_map_to_list.
      by apply map_lookup_filter_Some. }
  split_and!; [|done|].
  - split; cbn -[map_filter]; try done.
    + intros id h. rewrite stop_all_lookup. case_decide; [|by apply Hh].
      intros (h' & Hl & ->)%fmap_Some. by apply Hh in Hl.
    + intros ps0 k id [= <-] [Hk Hin]%map_lookup_filter_Some. simpl in Hin.
      destruct (Hp ps k id Hps Hk) as [? (h & Hlh & ?)]. split; [done|].
      rewrite stop_all_lookup, decide_False; [eauto|]. rewrite Hgone. intros (k' & Hk' & Hn).
      by rewrite (Hi ps k k' id) in Hin.
    + intros ps0 k1 k2 id [= <-] [H1 _]%map_lookup_filter_Some [H2 _]%map_lookup_filter_Some.
      by eapply Hi.
  - intros k id Hk Hn. destruct (Hp ps k id Hps Hk) as [_ (h & Hlh & _)].
    rewrite stop_all_lookup, decide_True by (rewrite Hgone; eauto). rewrite Hlh. eauto.
Qed.

Lemma reconcilePeers_spec l d ps :
  daemon_wf d → peers d = Some ps →
  ∃ d' ps', reconcilePeers l d = Some d' ∧ daemon_wf d' ∧ peers d' = Some ps' ∧ cfg d' = cfg d ∧
    (∀ k, is_Some (ps' !! k) ↔ k ∈ rp_DiscoKey <$> l ∧ k ≠ dk_Pub (disco d)) ∧
    (∀ k id, ps !! k = Some id → k ∈ rp_DiscoKey <$> l → ps' !! k = Some id) ∧
    (∀ k id, ps !! k = Some id → k ∉ rp_DiscoKey <$> l →
       ∃ h, handles d' !! id = Some h ∧ h_done h = true).
Proof.
  intros Hwf Hps. unfold reconcilePeers.
  destruct (reconcile_loop_spec l d ps Hwf Hps) as (d1 & ps1 & -> & Hwf1 & Hps1 & Hd1 & Hc1 & Hsub & Hk1).
  destruct (drop_unseen_spec (seen_keys d l) d1 ps1 Hwf1 Hps1) as (Hwf2 & Hps2 & Hstop).
  assert (cfg (drop_unseen (seen_keys d l) d1) = cfg d1) as Hc2 by (unfold drop_unseen; by case_match).
  do 2 eexists. split_and!; [done|done|done|congruence|..].
  - intros k.
    assert (k ∈ seen_keys d l ↔ k ∈ rp_DiscoKey <$> l ∧ k ≠ dk_Pub (disco d)) as <-
      by (unfold seen_keys; rewrite list_elem_of_filter; naive_solver).
    split.
    + intros [id [_ Hin]%map_lookup_filter_Some]. done.
    + intros Hin. destruct (proj2 (Hk1 k)) as [id Hid]; [by right|]. exists id.
      by apply map_lookup_filter_Some.
  - intros k id Hk Hin. apply map_lookup_filter_Some. split; [by eapply lookup_weaken|]. simpl.
    unfold seen_keys. apply list_elem_of_filter. split; [|done].
    destruct Hwf as [_ _ Hp _]. by destruct (Hp ps k id Hps Hk).
  - intros k id Hk Hin. eapply Hstop; [by eapply lookup_weaken|]. unfold seen_keys.
    rewrite list_elem_of_filter. naive_solver.
Qed.

(** ** Claims *)

(** C24. Reconciliation makes the daemon track exactly the listed peers other
    than itself: a peer it already knows keeps its state machine, a peer that
    is gone has its state machine stopped, and a second entry with the same
    disco key does not start a second one. *)
Theorem reconcile_tracks_list (l : list RemotePeer) (d : Daemon) (ps : gmap key32 nat)
  (Hwf : daemon_wf d) (Hps : peers d = Some ps) :
  ∃ d' ps', reconcilePeers l d = Some d' ∧ peers d' = Some ps' ∧
    (∀ k, is_Some (ps' !! k) ↔ k ∈ rp_DiscoKey <$> l ∧ k ≠ dk_Pub (disco d)) ∧
    (∀ k id, ps !! k = Some id → k ∈ rp_DiscoKey <$> l → ps' !! k = Some id) ∧
    (∀ k id, ps !! k = Some id → k ∉ rp_DiscoKey <$> l →
       ∃ h, handles d' !! id = Some h ∧ h_done h = true) ∧
    (∀ k id, ps' !! k = Some id → ∃ h, handles d' !! id = Some h ∧ h_done h = false).
Proof.
  destruct (reconcilePeers_spec l d ps Hwf Hps) as (d' & ps' & H1 & H2 & H3 & _ & H4 & H5 & H6).
  exists d', ps'. split_and!; try done. intros k id Hk. by destruct (dw_peer _ H2 ps' k id H3 Hk).
Qed.

(** What can happen to a daemon between [New] and [shutdown]. *)
Inductive DaemonOp := OpReconcile (l : list RemotePeer) | OpDeliver (sender : key32) (ev : fsmEvent).

Definition daemon_op (op : DaemonOp) (d : Daemon) : option Daemon :=
  match op with
  | OpReconcile l => reconcilePeers l d
  | OpDeliver sender ev => Some (deliver sender ev d)
  end.

Fixpoint daemon_ops (ops : list DaemonOp) (d : Daemon) : option Daemon :=
  match ops with
  | [] => Some d
  | op :: ops => d ← daemon_op op d; daemon_ops ops d
  end.

Lemma deliver_peers sender ev d : peers (deliver sender ev d) = peers d.
Proof. unfold deliver. by case_match. Qed.

Lemma daemon_ops_wf ops : ∀ d ps, daemon_wf d → peers d = Some ps →
  ∃ d' ps', daemon_ops ops d = Some d' ∧ daemon_wf d' ∧ peers d' = Some ps' ∧ cfg d' = cfg d.
Proof.
  induction ops as [|op ops IH]; intros d ps Hwf Hps; simpl; [by exists d, ps|].
  destruct op as [l|sender ev]; simpl.
  - destruct (reconcilePeers_spec l d ps Hwf Hps) as (d1 & ps1 & -> & Hwf1 & Hps1 & <- & _). by eapply IH.
  - destruct (IH (deliver sender ev d) ps) as (d' & ps' & ? & ? & ? & Hc); [by apply deliver_wf|by rewrite deliver_peers|].
    exists d', ps'. split_and!; [done..|]. rewrite Hc. unfold deliver. by case_match.
Qed.

Lemma sprintf_int_step c l :
  (∃ l', (length l' ≤ length l)%nat ∧ ∀ used n, sprintf_int used n (c :: l) =
     (if used then to_bytes "%!d(MISSING)" else to_bytes (pretty n)) ++ sprintf_int true n l') ∨
  (∃ l', (length l' ≤ length l)%nat ∧ ∀ used n, sprintf_int used n (c :: l) = c :: sprintf_int used n l').
Proof.
  destruct c; try (right; by exists l). destruct l as [|c l]; [right; by exists []|].
  destruct c; try (right; by eexists (_ :: l)).
  - right. exists l. simpl. split; [lia|done].
  - left. exists l. simpl. split; [lia|done].
Qed.

Lemma sprintf_int_used l n m : sprintf_int true n l = sprintf_int true m l.
Proof.
  induction l as [[|c l] IH] using (induction_ltof1 _ length); unfold ltof in IH; [done|]. simpl in IH.
  destruct (sprintf_int_step c l) as [(l' & ? & E)|(l' & ? & E)]; rewrite !E; f_equal; apply IH; lia.
Qed.

(** The number is printed exactly once, whatever the pattern. *)
Lemma sprintf_int_once l : ∃ pre post, ∀ n, sprintf_int false n l = pre ++ to_bytes (pretty n) ++ post.
Proof.
  induction l as [[|c l] IH] using (induction_ltof1 _ length); unfold ltof in IH; simpl in IH.
  - exists (to_bytes "%!(EXTRA int="), (to_bytes ")"). intros n. cbn [sprintf_int]. by rewrite !to_bytes_app.
  - destruct (sprintf_int_step c l) as [(l' & ? & E)|(l' & ? & E)].
    + exists [], (sprintf_int true 0 l'). intros n. rewrite E. simpl. f_equal. apply sprintf_int_used.
    + destruct (IH l' ltac:(lia)) as (pre & post & E'). exists (c :: pre), post. intros n. by rewrite E, E'.
Qed.

Lemma iface_name_inj pat n m : int_pattern (to_bytes pat) = true → iface_name pat n = iface_name pat m → n = m.
Proof.
  intros Hp E. unfold iface_name in E. rewrite Hp in E. apply (inj of_bytes) in E.
  destruct (sprintf_int_once (to_bytes pat)) as (pre & post & Ho). rewrite !Ho in E.
  apply app_inv_head, app_inv_tail in E. apply (inj to_bytes) in E. by apply (inj pretty) in E.
Qed.

(** C25. Interfaces are never shared: whatever lists are reconciled and messages
    delivered, the daemon does not panic, and when the interface pattern is of
    the documented form (text, [%%] and [%d]; the empty one stands for
    "gretun%d"), any two state machines it ever started, running or stopped,
    have different interface names.  Other patterns need not keep names apart:
    the name is the same for every peer under "%T". *)
Theorem interfaces_never_shared (c : Config) (nk : NodeKey) (dk : DiscoKey) (ops : list DaemonOp) :
  ∃ d, daemon_ops ops (New c nk dk) = Some d ∧
    (int_pattern (to_bytes (Iface c)) = true →
     ∀ i j hi hj, handles d !! i = Some hi → handles d !! j = Some hj →
       h_iface hi = h_iface hj → i = j).
Proof.
  destruct (daemon_ops_wf ops (New c nk dk) ∅ (New_wf c nk dk) eq_refl) as (d & ps & Hd & Hwf & _ & Hcfg).
  exists d. split; [done|]. intros Hpat i j hi hj Hi Hj E.
  apply (dw_handle _ Hwf) in Hi as [_ Ei]. apply (dw_handle _ Hwf) in Hj as [_ Ej].
  rewrite Ei, Ej in E. apply iface_name_inj in E; [lia|]. rewrite Hcfg. simpl.
  by destruct (decide (Iface c = "")).
Qed.

(** [shutdown] leaves a nil map, so a peer list that arrives afterwards and
    names any other node panics in [reconcilePeers]. *)
Theorem reconcile_after_shutdown_panics (l : list RemotePeer) (d : Daemon) (p : RemotePeer)
  (Hp : p ∈ l) (Hother : rp_DiscoKey p ≠ dk_Pub (disco d)) :
  reconcilePeers l (shutdown d) = None.
Proof.
  unfold reconcilePeers. cut (reconcile_loop l (shutdown d) = None); [by intros ->|].
  assert (peers (shutdown d) = None ∧ disco (shutdown d) = disco d) as [Hn Hd] by done.
  revert Hn Hd. generalize (shutdown d) as d0. intros d0 Hn Hd.
  induction l as [|q l IH]; [by apply not_elem_of_nil in Hp|]. simpl. unfold reconcile_one.
  rewrite Hn, Hd. simpl. case_decide as Hq; [|done]. simpl. apply IH.
  apply elem_of_cons in Hp as [->|]; [done|done].
Qed.

End Invariant.

Section IncomingClaims.
Context `{NaclBox} `{UnmarshalJSON Body}.

(** C26. A datagram can only influence the state machine of the peer whose key
    it opens under: if it changes the daemon at all, it is an envelope that
    decrypts under a known peer's disco key, and the one change is an event
    with its body in that peer's queue. *)
Theorem datagram_reaches_sender_only (buf : bytes) (ip : IP.t) (port : Z) (d : Daemon)
  (Heffect : onDatagram buf ip port d ≠ d) :
  ∃ sender body ps id (nonce : nonce24) ct plain,
    peers d = Some ps ∧ ps !! sender = Some id ∧
    buf = vec_to_list Magic ++ vec_to_list sender ++ vec_to_list nonce ++ ct ∧
    box_open ct nonce sender (dk_Priv (disco d)) = Some plain ∧ Unmarshal plain = Some body ∧
    onDatagram buf ip port d =
      set_handles d (alter (h_send (evUDP {| ap_Addr := mustAddrFromIP ip; ap_Port := wrapu 16 port |}
                                     body)) id (handles d)).
Proof.
  unfold onDatagram, deliver in *. destruct (OpenEnvelope buf (disco d)) as [sender [body|e]] eqn:Ho;
    [|done].
  destruct (peers d ≫= lookup sender) as [id|] eqn:Hk; [|done].
  apply bind_Some in Hk as (ps & Hps & Hk).
  apply OpenEnvelope_Ok in Ho as (nonce & ct & plain & -> & Hopen & Hun).
  by exists sender, body, ps, id, nonce, ct, plain.
Qed.

End IncomingClaims.

(** ** Witnesses *)
Module DaemonDemo.

(** Stands for the verbs outside the documented form. *)
#[export] Instance verbs : FmtVerbs := λ pat _, pat.
#[local] Instance bx : NaclBox := toy_box.
#[local] Instance mb : MarshalJSON Body := one_marshal [x7b; x7d].
#[local] Instance ub : UnmarshalJSON Body := one_unmarshal [x7b; x7d] FSMDemo.pong.

Definition alice : Daemon :=
  New {| Coordinator := "http://coord"; NodeName := "a"; StateDir := "/var/lib/gretun"; Iface := "";
         FOUPort := 7777; DiscoAddr := ""; STUNServers := []; Aggressive := false; MetricsAddr := "" |}
    KeysDemo.nk EnvelopeDemo.alice.
(** Alice with Bob's state machine. *)
Definition with_bob : Daemon := default alice (reconcilePeers [FSMDemo.peer0] alice).

Lemma reconcile_tracks_list_witness :
  ∃ d' ps', reconcilePeers [FSMDemo.peer0; FSMDemo.peer0] alice = Some d' ∧ peers d' = Some ps' ∧
    is_Some (ps' !! vreplicate 32 x02).
Proof.
  destruct (reconcile_tracks_list [FSMDemo.peer0; FSMDemo.peer0] alice ∅ (New_wf _ _ _) eq_refl)
    as (d' & ps' & H1 & H2 & H3 & _).
  refine (ex_intro _ d' (ex_intro _ ps' (conj H1 (conj H2 _)))). apply H3.
  split; [left|]. vm_compute. discriminate.
Defined.

Lemma reconcile_after_shutdown_panics_witness :
  reconcilePeers [FSMDemo.peer0] (shutdown with_bob) = None.
Proof.
  apply (reconcile_after_shutdown_panics _ _ FSMDemo.peer0); [left|]. vm_compute. discriminate.
Defined.

(** Two peers under the default pattern. *)
Definition ops : list DaemonOp :=
  [OpReconcile [FSMDemo.peer0;
                {| rp_DiscoKey := vreplicate 32 x0c; rp_NodeKey := []; rp_Name := "carol"; rp_TunnelIP := AddrZero;
                   rp_Endpoints := []; rp_UpdatedAt := 0 |}]].
Lemma interfaces_never_shared_witness :
  ∃ d, daemon_ops ops alice = Some d ∧
    ∀ i j hi hj, handles d !! i = Some hi → handles d !! j = Some hj → h_iface hi = h_iface hj → i = j.
Proof.
  destruct (interfaces_never_shared
    {| Coordinator := "http://coord"; NodeName := "a"; StateDir := "/var/lib/gretun"; Iface := "";
       FOUPort := 7777; DiscoAddr := ""; STUNServers := []; Aggressive := false; MetricsAddr := "" |}
    KeysDemo.nk EnvelopeDemo.alice ops) as (d & Hd & Hn).
  exact (ex_intro _ d (conj Hd (Hn eq_refl))).
Defined.

(** A datagram from Bob. *)
Definition datagram : bytes :=
  match BuildEnvelope (Some (vreplicate 24 x05)) EnvelopeDemo.bob (dk_Pub EnvelopeDemo.alice)
          FSMDemo.pong with
  | Ok b => b
  | Err _ => []
  end.

Lemma datagram_reaches_sender_only_witness :
  ∃ sender body ps id,
    peers with_bob = Some ps ∧ ps !! sender = Some id ∧
    onDatagram datagram (IP.IPv4 192 0 2 7) 41641 with_bob =
      set_handles with_bob
        (alter (h_send (evUDP {| ap_Addr := mustAddrFromIP (IP.IPv4 192 0 2 7); ap_Port := wrapu 16 41641 |}
                  body)) id (handles with_bob)).
Proof.
  destruct (datagram_reaches_sender_only datagram (IP.IPv4 192 0 2 7) 41641 with_bob)
    as (sender & body & ps & id & _ & _ & _ & H1 & H2 & _ & _ & _ & H3).
  - intros E. apply (f_equal (λ d, h_incoming <$> handles d !! 0%nat)) in E.
    vm_compute in E. discriminate E.
  - exact (ex_intro _ sender (ex_intro _ body (ex_intro _ ps (ex_intro _ id (conj H1 (conj H2 H3)))))).
Defined.

End DaemonDemo.
