(* ===== verification/Stun.v ===== *)
(** * STUN endpoint discovery ([internal/disco/stun.go])

    [DiscoverPublic] sends a binding request to every server, then a second
    goroutine reads the socket until a response matches one of them while the
    caller also waits for its context.  The outcome of every socket call is an
    argument; [github.com/pion/stun] is the interface [Stun]. *)

From S2P Require Import Prelude.
From S2P Require Import NetIP.
From S2P Require Import GoTime.
From S2P Require Import GoSlice.

Definition DefaultSTUNServers : list string :=
  ["stun.l.google.com:19302"; "stun1.l.google.com:19302"; "stun.cloudflare.com:3478"].

Definition stunReadTimeout : Z := 3 * GoTime.Second.

Record PublicEndpoint := { pub_Addr : AddrPort; pub_Via : string }.

Abbreviation txid := (vec byte 12).

Definition magicCookie : bytes := [x21; x12; xa4; x42].

(** The request for a transaction id, the test that a datagram looks like STUN
    (20 bytes and the cookie of RFC 5389 at offset 4), the transaction id of a
    message that decodes, and its XOR-MAPPED-ADDRESS. *)
Class Stun := {
  stun_request : txid → bytes;
  IsMessage : bytes → bool;
  stun_Decode : bytes → option txid;
  XORMappedAddress : bytes → option (IP.t * Z);
  IsMessage_cookie b : IsMessage b = true → (20 ≤ length b)%nat ∧ take 4 (drop 4 b) = magicCookie
}.

(** A resolved server. *)
Record UDPAddr := { ua_IP : IP.t; ua_Port : Z }.

(** The sending half meets: name resolution, the random transaction id for the
    [i]-th server, and the write. *)
Record SendEnv := {
  se_resolve : string → result string UDPAddr;
  se_txid : nat → result string txid;
  se_write : bytes → UDPAddr → result string ()
}.

(** One pass of the read loop: setting the deadline, the datagram, and the
    context when the read has returned. *)
Record ReadEnv := { rv_set : result string (); rv_read : result string bytes; rv_ctx : Ctx }.

(** What became of the reading goroutine: it put a result into [resCh], it left
    without one, or it still waits for a datagram. *)
Inductive ReadLoop := RSent (r : result string PublicEndpoint) | RQuit | RWaiting.

Section Stun.
Context `{Stun}.

Record Sends := {
  sn_pending : gmap txid string;
  sn_errs : list string;
  sn_sent : list (txid * UDPAddr)
}.

(** One iteration of the loop over the servers. *)
Definition send_one (e : SendEnv) (i : nat) (s : string) (st : Sends) : Sends :=
  let fail err := {| sn_pending := sn_pending st; sn_errs := sn_errs st ++ [err]; sn_sent := sn_sent st |} in
  match se_resolve e s with
  | Err err => fail ("resolve " +:+ s +:+ ": " +:+ err)
  | Ok raddr =>
  match se_txid e i with
  | Err err => fail ("new txid: " +:+ err)
  | Ok tx =>
  match se_write e (stun_request tx) raddr with
  | Err err => fail ("write " +:+ s +:+ ": " +:+ err)
  | Ok _ => {| sn_pending := <[tx := s]> (sn_pending st); sn_errs := sn_errs st;
               sn_sent := sn_sent st ++ [(tx, raddr)] |}
  end end end.

Fixpoint send_all (e : SendEnv) (i : nat) (servers : list string) (st : Sends) : Sends :=
  match servers with
  | [] => st
  | s :: servers => send_all e (S i) servers (send_one e i s st)
  end.

(** The endpoint a datagram reports, if it answers a pending request: the tests
    of the read loop that [continue]. *)
Definition stun_answer (pending : gmap txid string) (buf : bytes) : option PublicEndpoint :=
  let raw := take 1500 buf in
  if negb (IsMessage raw) then None
  else tx ← stun_Decode raw;
       via ← pending !! tx;
       '(ip, port) ← XORMappedAddress raw;
       a ← IP.AddrFromSlice (IP.To4 ip);
       Some {| pub_Addr := {| ap_Addr := a; ap_Port := wrapu 16 port |}; pub_Via := via |}.

Fixpoint read_loop (pending : gmap txid string) (reads : list ReadEnv) : ReadLoop :=
  match reads with
  | [] => RWaiting
  | e :: reads =>
      match rv_set e with
      | Err err => RSent (Err ("set read deadline: " +:+ err))
      | Ok _ =>
      match rv_read e with
      | Err err => RSent (Err ("stun read: " +:+ err))
      | Ok buf =>
      match rv_ctx e with
      | Some _ => RQuit
      | None =>
          match stun_answer pending buf with
          | Some ep => RSent (Ok ep)
          | None => read_loop pending reads
          end
      end end end
  end.

(** [errors.Join]. *)
Definition join_errs (l : list string) : string :=
  match l with [] => "" | x :: l => foldl (λ a y, a +:+ String (Ascii.ascii_of_nat 10) y) x l end.

(** [sel] is the branch the final [select] takes: the context's error, or the
    result.  [None]: the caller still waits. *)
Definition DiscoverPublic (e : SendEnv) (reads : list ReadEnv) (sel : Ctx) (servers : list string)
  : option (result string PublicEndpoint) :=
  let servers := if decide (servers = []) then DefaultSTUNServers else servers in
  let st := send_all e 0 servers {| sn_pending := ∅; sn_errs := []; sn_sent := [] |} in
  if decide (sn_pending st = ∅) then
    Some (Err ("all STUN servers unreachable: " +:+ join_errs (sn_errs st)))
  else match sel with
  | Some err => Some (Err (CtxErr_Error err))
  | None => match read_loop (sn_pending st) reads with
            | RSent r => Some r
            | RQuit | RWaiting => None
            end
  end.

(** ** Facts *)

(** Server number [i] of the list was sent a request. *)
Definition reached (e : SendEnv) (i : nat) (s : string) (tx : txid) : Prop :=
  ∃ raddr, se_resolve e s = Ok raddr ∧ se_txid e i = Ok tx ∧ se_write e (stun_request tx) raddr = Ok ().

Lemma send_one_spec e i s st :
  (∃ tx, reached e i s tx ∧ sn_pending (send_one e i s st) = <[tx := s]> (sn_pending st) ∧
     sn_errs (send_one e i s st) = sn_errs st) ∨
  ((∀ tx, ¬ reached e i s tx) ∧ sn_pending (send_one e i s st) = sn_pending st ∧
     ∃ err, sn_errs (send_one e i s st) = sn_errs st ++ [err]).
Proof.
  unfold send_one, reached.
  destruct (se_resolve e s) as [raddr|] eqn:E1;
    [destruct (se_txid e i) as [tx|] eqn:E2;
      [destruct (se_write e (stun_request tx) raddr) as [[]|] eqn:E3|]|];
    try (right; split_and!; [intros ? (? & ? & ? & ?); congruence|done|by eexists]).
  left. exists tx. split_and!; try done. by exists raddr.
Qed.

Lemma send_all_pending e servers : ∀ i st,
  (∀ tx s, sn_pending (send_all e i servers st) !! tx = Some s →
     sn_pending st !! tx = Some s ∨ ∃ j, servers !! j = Some s ∧ reached e (i + j) s tx) ∧
  (∀ j s tx, servers !! j = Some s → reached e (i + j) s tx →
     is_Some (sn_pending (send_all e i servers st) !! tx)) ∧
  (∀ tx, is_Some (sn_pending st !! tx) → is_Some (sn_pending (send_all e i servers st) !! tx)).
Proof.
  induction servers as [|s0 servers IH]; intros i st; simpl; [split_and!; [by left|done|done]|].
  destruct (IH (S i) (send_one e i s0 st)) as (IH1 & IH2 & IH3). split_and!.
  - intros tx s Hs. destruct (IH1 tx s Hs) as [Hst|(j & Hj & Hr)].
    + destruct (send_one_spec e i s0 st) as [(tx0 & Hr & Hp & _)|(_ & Hp & _)]; rewrite Hp in Hst; [|by left].
      apply lookup_insert_Some in Hst as [[<- <-]|[_ ?]]; [|by left].
      right. exists 0%nat. by rewrite Nat.add_0_r.
    + right. exists (S j). by rewrite Nat.add_succ_r.
  - intros [|j] s tx Hj Hr; simplify_eq/=.
    + rewrite Nat.add_0_r in Hr. apply IH3.
      destruct (send_one_spec e i s st) as [(tx0 & (r0 & E1 & E2 & _) & Hp & _)|(Hn & _)]; [|by destruct (Hn tx)].
      destruct Hr as (r & _ & E & _). rewrite E2 in E. injection E as ->. rewrite Hp. by rewrite lookup_insert_eq.
    + eapply IH2; [done|]. by rewrite Nat.add_succ_r in Hr.
  - intros tx Htx. apply IH3.
    destruct (send_one_spec e i s0 st) as [(tx0 & _ & -> & _)|(_ & -> & _)]; [|done].
    rewrite lookup_insert_is_Some. destruct (decide (tx0 = tx)); auto.
Qed.

(** A pass that ends the loop with [ep], and one that goes on. *)
Definition answers (pending : gmap txid string) (ep : PublicEndpoint) (e : ReadEnv) : Prop :=
  rv_set e = Ok () ∧ rv_ctx e = None ∧ ∃ buf, rv_read e = Ok buf ∧ stun_answer pending buf = Some ep.
Definition skips (pending : gmap txid string) (e : ReadEnv) : Prop :=
  rv_set e = Ok () ∧ rv_ctx e = None ∧ ∃ buf, rv_read e = Ok buf ∧ stun_answer pending buf = None.

Lemma read_loop_cons pending e reads ep :
  read_loop pending (e :: reads) = RSent (Ok ep) ↔
  answers pending ep e ∨ skips pending e ∧ read_loop pending reads = RSent (Ok ep).
Proof.
  simpl. unfold answers, skips.
  destruct (rv_set e) as [[]|] eqn:E1; [|split; [done|intros [[? _]|[[? _] _]]; done]].
  destruct (rv_read e) as [buf|] eqn:E2;
    [|split; [done|intros [(_ & _ & ? & ? & _)|[(_ & _ & ? & ? & _) _]]; done]].
  destruct (rv_ctx e) as [c|] eqn:E3; [split; [done|intros [(_ & ? & _)|[(_ & ? & _) _]]; done]|].
  destruct (stun_answer pending buf) as [ep0|] eqn:E4.
  - split.
    + intros [= ->]. left. split_and!; eauto.
    + intros [(_ & _ & b & [= <-] & Hb)|[(_ & _ & b & [= <-] & Hb) _]]; congruence.
  - split.
    + intros Hr. right. split_and!; eauto.
    + intros [(_ & _ & b & [= <-] & Hb)|[_ Hr]]; congruence.
Qed.

(** The loop answers with the first datagram that matches. *)
Lemma read_loop_answer pending reads ep :
  read_loop pending reads = RSent (Ok ep) ↔
  ∃ before e after, reads = before ++ e :: after ∧ answers pending ep e ∧ Forall (skips pending) before.
Proof.
  induction reads as [|e0 reads IH].
  - split; [done|]. intros ([|] & ? & ? & ? & _); done.
  - rewrite read_loop_cons, IH. split.
    + intros [Ha|[Hs (b & e & a & -> & Ha & Hb)]].
      * by exists [], e0, reads.
      * exists (e0 :: b), e, a. split_and!; [done|done|by constructor].
    + intros ([|e1 b] & e & a & [= -> ->] & Ha & Hb); [by left|right].
      apply Forall_cons in Hb as [? ?]. split; [done|]. by exists b, e, a.
Qed.

(** C37. An endpoint is reported only from the first datagram read that is a STUN
    message, carries the transaction id of a request that was sent, and maps to
    an IPv4 address; the server it names is one that was sent this transaction
    id. *)
Theorem discover_public_answer (e : SendEnv) (reads : list ReadEnv) (sel : Ctx) (servers : list string)
  (ep : PublicEndpoint)
  (Hret : DiscoverPublic e reads sel servers = Some (Ok ep)) :
  let svs := if decide (servers = []) then DefaultSTUNServers else servers in
  let pending := sn_pending (send_all e 0 svs {| sn_pending := ∅; sn_errs := []; sn_sent := [] |}) in
  ∃ before r after buf tx j, sel = None ∧ reads = before ++ r :: after ∧ Forall (skips pending) before ∧
    rv_read r = Ok buf ∧ rv_ctx r = None ∧
    IsMessage (take 1500 buf) = true ∧ stun_Decode (take 1500 buf) = Some tx ∧
    svs !! j = Some (pub_Via ep) ∧ reached e j (pub_Via ep) tx ∧
    Is4 (ap_Addr (pub_Addr ep)) = true ∧ 0 ≤ ap_Port (pub_Addr ep) < 2 ^ 16.
Proof.
  intros svs pending. unfold DiscoverPublic in Hret. fold svs in Hret. case_decide; [done|].
  destruct sel as [c|]; [done|]. fold pending in Hret.
  destruct (read_loop pending reads) as [r| |] eqn:Hl; [|done..]. injection Hret as ->.
  apply read_loop_answer in Hl as (before & r & after & -> & (_ & Hc & buf & Hb & Ha) & Hbefore).
  unfold stun_answer in Ha. destruct (IsMessage (take 1500 buf)) eqn:Hm; [|done]. simpl in Ha.
  apply bind_Some in Ha as (tx & Htx & Ha). apply bind_Some in Ha as (via & Hvia & Ha).
  apply bind_Some in Ha as ([ip port] & Hx & Ha). apply bind_Some in Ha as (a & Hip & Ha).
  injection Ha as <-. simpl.
  destruct (send_all_pending e svs 0 {| sn_pending := ∅; sn_errs := []; sn_sent := [] |}) as (Hs & _).
  destruct (Hs tx via Hvia) as [Hn|(j & Hj & Hr)]; [by simpl in Hn; rewrite lookup_empty in Hn|].
  exists before, r, after, buf, tx, j. split_and!; try done; [|apply Z.mod_pos_bound; lia..].
  unfold IP.To4, IP.AddrFromSlice in Hip. destruct ip as [l|]; [|done].
  case_decide as Hl; [simpl in Hip; rewrite Hl in Hip; by injection Hip as <-|].
  case_decide as Hl'; [|done]. destruct Hl' as [Hl' _]. simpl in Hip. rewrite length_drop, Hl' in Hip.
  by injection Hip as <-.
Qed.

(** Without any request on its way the call fails at once; with one, it waits
    for the socket or the context. *)
Lemma discover_public_unreachable e servers :
  let svs := if decide (servers = []) then DefaultSTUNServers else servers in
  (∀ j s tx, svs !! j = Some s → ¬ reached e j s tx) ↔
  (∃ errs, ∀ reads sel, DiscoverPublic e reads sel servers =
    Some (Err ("all STUN servers unreachable: " +:+ join_errs errs))).
Proof.
  intros svs. unfold DiscoverPublic. fold svs.
  set (st0 := {| sn_pending := ∅; sn_errs := []; sn_sent := [] |}).
  destruct (send_all_pending e svs 0 st0) as (H1 & H2 & _). split.
  - intros Hn. exists (sn_errs (send_all e 0 svs st0)). intros reads sel. rewrite decide_True; [done|].
    apply map_empty. intros tx. destruct (sn_pending _ !! tx) as [s|] eqn:E; [|done].
    destruct (H1 tx s E) as [Hs|(j & Hj & Hr)]; [by simpl in Hs; rewrite lookup_empty in Hs|].
    by destruct (Hn j s tx Hj).
  - intros [errs Hall] j s tx Hj Hr. specialize (Hall [] None). case_decide as Hp; [|done].
    destruct (H2 j s tx Hj Hr) as [? Hx]. by rewrite Hp, lookup_empty in Hx.
Qed.

End Stun.

(** ** Witnesses *)
Module StunDemo.

(** Type and length are not looked at; the address is the first attribute. *)
Definition is_message (b : bytes) : bool :=
  (20 <=? length b)%nat && bool_decide (take 4 (drop 4 b) = magicCookie).
Definition byte_xor (a b : byte) : byte := Z_byte (Z.lxor (byte_Z a) (byte_Z b)).
Definition mapped (b : bytes) : option (IP.t * Z) :=
  match drop 20 b with
  | x00 :: x20 :: x00 :: x08 :: x00 :: x01 :: p1 :: p2 :: rest =>
      let ip := zip_with byte_xor (take 4 rest) magicCookie in
      Some (Some ip, byte_Z (byte_xor p1 x21) * 256 + byte_Z (byte_xor p2 x12))
  | _ => None
  end.
#[export] Instance stun : Stun.
Proof.
  refine {| stun_request tx := [x00; x01; x00; x00] ++ magicCookie ++ vec_to_list tx;
            IsMessage := is_message;
            stun_Decode b := if is_message b then Some (array_copy 12 (drop 8 b)) else None;
            XORMappedAddress := mapped |}.
  intros b Hb. unfold is_message in Hb. apply andb_true_iff in Hb as [H1 H2].
  split; [by apply Nat.leb_le|by apply bool_decide_eq_true in H2].
Defined.

Definition tx0 : txid := vreplicate 12 x07.
Definition env : SendEnv :=
  {| se_resolve s := if decide (s = "bad") then Err "no such host" else Ok {| ua_IP := IP.IPv4 192 0 2 1; ua_Port := 3478 |};
     se_txid _ := Ok tx0; se_write _ _ := Ok () |}.
(** 203.0.113.5:41641. *)
Definition response : bytes :=
  [x01; x01; x00; x0c] ++ magicCookie ++ vec_to_list tx0 ++
  [x00; x20; x00; x08; x00; x01; x83; xbb; xea; x12; xd5; x47].
Definition reads : list ReadEnv :=
  [{| rv_set := Ok (); rv_read := Ok [x54; x53]; rv_ctx := None |};
   {| rv_set := Ok (); rv_read := Ok response; rv_ctx := None |}].
Definition found : PublicEndpoint :=
  {| pub_Addr := {| ap_Addr := AddrV4 0xcb007105; ap_Port := 41641 |}; pub_Via := "stun:3478" |}.

Lemma discover_public_answer_witness :
  DiscoverPublic env reads None ["bad"; "stun:3478"] = Some (Ok found) ∧
  ∃ j tx, ["bad"; "stun:3478"] !! j = Some (pub_Via found) ∧ reached env j (pub_Via found) tx.
Proof.
  assert (DiscoverPublic env reads None ["bad"; "stun:3478"] = Some (Ok found)) as E
    by (vm_compute; reflexivity).
  split; [exact E|].
  destruct (discover_public_answer env reads None ["bad"; "stun:3478"] found E)
    as (? & ? & ? & ? & tx & j & _ & _ & _ & _ & _ & _ & _ & H1 & H2 & _).
  exact (ex_intro _ j (ex_intro _ tx (conj H1 H2))).
Defined.

End StunDemo.
