(* ===== verification/DaemonRun.v ===== *)
(** * The running daemon ([Run] and its loops, [internal/daemon/daemon.go])

    [run_start] is [Run] up to the point where its goroutines are started, with
    the early returns and their deferred clean-ups.  From there on a [Sys] is
    everything the goroutines share: the daemon, the kernel, the coordinator
    behind the client, the metrics, and the state machine of every peer.  One
    [sys_step] is one pass of one loop, one event of one state machine, the
    message that announces it to its peer, or one step of [Run] itself towards
    its return, in any order. *)

From S2P Require Import Prelude.
From S2P Require Import NetIP.
From S2P Require Import GoSlice.
From S2P Require Import GoHttp.
From S2P Require Import GoJson.
From S2P Require Import CoordAuth.
From S2P Require Import DiscoKeys.
From S2P Require Import DiscoEnvelope.
From S2P Require Import DiscoClient.
From S2P Require Import Stun.
From S2P Require Import TunnelErrors.
From S2P Require Import TunnelValidate.
From S2P Require Import TunnelGre.
From S2P Require Import PeerFSM.
From S2P Require Import Daemon.

Inductive RunError :=
| RErrListen (text : string)
| RErrFOU (e : error)
| RErrRegister (e : ClientError)
| RErrLoop (text : string).

(** Where [Run] stands once the loops are started. *)
Inductive Main :=
| MLooping
| MStopped (err : option RunError)                    (* [shutdown] is done *)
| MReturned (err : option RunError) (w : list Warn).  (* the deferred calls are done *)

Record Sys (K W : Type) := MkSys {
  sy_ctx : Ctx;
  sy_main : Main;
  sy_d : Daemon;
  sy_k : K;
  sy_w : W;
  sy_metrics : option Metrics;
  sy_runs : gmap nat (Run K);
  sy_exited : gset nat;     (* state machines that are done *)
  sy_greeted : gset nat;    (* those whose [sendCallMeMaybe] has run *)
  sy_etag : string;
  sy_port : Z
}.
Arguments MkSys {K W}.
Arguments sy_ctx {K W} s. Arguments sy_main {K W} s. Arguments sy_d {K W} s. Arguments sy_k {K W} s.
Arguments sy_w {K W} s. Arguments sy_metrics {K W} s. Arguments sy_runs {K W} s.
Arguments sy_exited {K W} s. Arguments sy_greeted {K W} s. Arguments sy_etag {K W} s. Arguments sy_port {K W} s.

(** What [Run] meets before the loops: the socket it binds, the interface
    addresses, the outcome of STUN, and the clock. *)
Record RunEnv := {
  rn_listen : string → result string Z;
  rn_ifs : option (list IfAddr);
  rn_stun : result string PublicEndpoint;
  rn_now : Z
}.

Definition stun_addr (r : result string PublicEndpoint) : option AddrPort :=
  match r with Ok ep => Some (pub_Addr ep) | Err _ => None end.

Definition set_fou (d : Daemon) (owned : bool) : Daemon :=
  {| cfg := cfg d; node := node d; disco := disco d; client := client d; peers := peers d;
     handles := handles d; next_handle := next_handle d; d_self := d_self d; ifaceSeq := ifaceSeq d;
     fouOwned := owned |}.
Definition set_self (d : Daemon) (a : Addr) : Daemon :=
  {| cfg := cfg d; node := node d; disco := disco d; client := client d; peers := peers d;
     handles := handles d; next_handle := next_handle d; d_self := a; ifaceSeq := ifaceSeq d;
     fouOwned := fouOwned d |}.

Definition NewMetrics : Metrics :=
  {| PeersByState := ∅; DiscoPingsSent := 0; DiscoPongsRecv := 0; HolePunchDuration := [] |}.

Section Run.
Context {fv : FmtVerbs} `{Ed25519} `{NaclBox} {K : Type} `{Netlinker K}.
Context `{MarshalJSON registerBody, MarshalJSON endpointsBody, MarshalJSON signalBody}.
Context `{UnmarshalJSON registerOut, UnmarshalJSON peersOut, UnmarshalJSON signalsOut}.
Context `{MarshalJSON Body, UnmarshalJSON Body}.
Context {W : Type} (do : Transport W).

(** The deferred [if d.fouOwned { tunnel.RemoveFOU(...) }]. *)
Definition run_cleanup (d : Daemon) (k : K) : list Warn * K :=
  if fouOwned d then RemoveFOU (FOUPort (cfg d)) k else ([], k).

Definition run_start (e : RunEnv) (ctx : Ctx) (d : Daemon) (k : K) (w : W)
  : result (RunError * list Warn * K * W) (Sys K W) :=
  let addr := if decide (DiscoAddr (cfg d) = "") then ":0" else DiscoAddr (cfg d) in
  match rn_listen e addr with
  | Err err => Err (RErrListen err, [], k, w)
  | Ok port =>
  match EnsureFOU (FOUPort (cfg d)) EncapFOU k with
  | (Err err, k) => Err (RErrFOU err, [], k, w)
  | (Ok created, k) =>
  let d := set_fou d created in
  let endpoints := (collectEndpoints port (rn_ifs e) (stun_addr (rn_stun e))).1 in
  match Client.Register do (client d) (NodeName (cfg d)) w with
  | (Err err, w) => let '(ws, k) := run_cleanup d k in Err (RErrRegister err, ws, k, w)
  | (Ok (cidr, _), w) =>
  let d := match IP.ParsePrefix cidr with Some p => set_self d (pfx_addr p) | None => d end in
  let w := (Client.PostEndpoints do (rn_now e) (client d) endpoints w).2 in
  let metrics := if decide (MetricsAddr (cfg d) ≠ "") then Some NewMetrics else None in
  Ok (MkSys ctx MLooping d k w metrics ∅ ∅ ∅ "" port)
  end end end.

(** *** Updates of the shared state *)

Definition with_d (s : Sys K W) (d : Daemon) : Sys K W :=
  MkSys (sy_ctx s) (sy_main s) d (sy_k s) (sy_w s) (sy_metrics s) (sy_runs s) (sy_exited s) (sy_greeted s)
    (sy_etag s) (sy_port s).
Definition with_w (s : Sys K W) (w : W) : Sys K W :=
  MkSys (sy_ctx s) (sy_main s) (sy_d s) (sy_k s) w (sy_metrics s) (sy_runs s) (sy_exited s) (sy_greeted s)
    (sy_etag s) (sy_port s).
Definition with_etag (s : Sys K W) (etag : string) : Sys K W :=
  MkSys (sy_ctx s) (sy_main s) (sy_d s) (sy_k s) (sy_w s) (sy_metrics s) (sy_runs s) (sy_exited s) (sy_greeted s)
    etag (sy_port s).
Definition with_main (s : Sys K W) (m : Main) (k : K) : Sys K W :=
  MkSys (sy_ctx s) m (sy_d s) k (sy_w s) (sy_metrics s) (sy_runs s) (sy_exited s) (sy_greeted s)
    (sy_etag s) (sy_port s).

(** The state machine of handle [id] with what it shares filled in: its
    snapshot of the peer, the kernel and the metrics. *)
Definition fsm_view (s : Sys K W) (id : nat) (h : Handle) : Run K :=
  let r := default (newPeerFSM (h_deps h) (h_peer h) None (sy_k s)) (sy_runs s !! id) in
  MkRun (h_deps h) (h_peer h) (state r) (winning r) (tunnelUp r) (lastPong r) (punchStart r)
    (punchDeadline r) (sy_k s) (sy_metrics s) (sent r).

Definition set_h (h : Handle) (p : RemotePeer) (q : list fsmEvent) : Handle :=
  {| h_deps := h_deps h; h_peer := p; h_incoming := q; h_done := h_done h |}.

(** Its state after an event that left [q] in its queue. *)
Definition fsm_store (s : Sys K W) (id : nat) (h : Handle) (q : list fsmEvent) (r : Run K) : Sys K W :=
  MkSys (sy_ctx s) (sy_main s)
    (set_handles (sy_d s) (<[id := set_h h (peer r) q]> (handles (sy_d s))))
    (kern r) (sy_w s) (metrics r) (<[id := r]> (sy_runs s)) (sy_exited s) (sy_greeted s) (sy_etag s) (sy_port s).

(** One pass of [metricsUpdateLoop]: the gauge is set to the number of tracked
    peers in each state; a state machine that has not run yet is unknown. *)
Definition set_gauge (s : Sys K W) : Sys K W :=
  let state_at id := default stateUnknown (state <$> sy_runs s !! id) in
  let counts := state_counts (state_at <$> (map_to_list (default ∅ (peers (sy_d s)))).*2) in
  MkSys (sy_ctx s) (sy_main s) (sy_d s) (sy_k s) (sy_w s)
    ((λ m, {| PeersByState := counts; DiscoPingsSent := DiscoPingsSent m;
              DiscoPongsRecv := DiscoPongsRecv m; HolePunchDuration := HolePunchDuration m |})
       <$> sy_metrics s)
    (sy_runs s) (sy_exited s) (sy_greeted s) (sy_etag s) (sy_port s).

Definition fsm_exit (s : Sys K W) (id : nat) : Sys K W :=
  MkSys (sy_ctx s) (sy_main s) (sy_d s) (sy_k s) (sy_w s) (sy_metrics s) (sy_runs s)
    ({[id]} ∪ sy_exited s) (sy_greeted s) (sy_etag s) (sy_port s).

(** [sendCallMeMaybe], the goroutine that [run] starts first: it seals the local
    addresses for the peer and hands them to the coordinator, once. *)
Definition greet (nonce : option nonce24) (now : Z) (ifs : option (list IfAddr)) (id : nat) (h : Handle)
  (s : Sys K W) : Sys K W :=
  let '(to, body) := callMeMaybe (sy_port s) ifs (fsm_view s id h) in
  let w := match BuildEnvelope nonce (self (h_deps h)) to body with
           | Err _ => sy_w s
           | Ok env => (Client.SendSignal do now (client (sy_d s)) to env (sy_w s)).2
           end in
  MkSys (sy_ctx s) (sy_main s) (sy_d s) (sy_k s) w (sy_metrics s) (sy_runs s) (sy_exited s)
    ({[id]} ∪ sy_greeted s) (sy_etag s) (sy_port s).

(** *** The loops *)

Inductive sys_step (s : Sys K W) : Sys K W → Prop :=
| SCancel e :
    sy_ctx s = None →
    sys_step s (MkSys (Some e) (sy_main s) (sy_d s) (sy_k s) (sy_w s) (sy_metrics s) (sy_runs s)
      (sy_exited s) (sy_greeted s) (sy_etag s) (sy_port s))
(** [discoReadLoop]: a datagram, read into 2048 bytes. *)
| SDatagram buf ip port :
    sys_step s (with_d s (onDatagram (take 2048 buf) ip port (sy_d s)))
(** [signalPullLoop]. *)
| SPull now r w :
    Client.PullSignals do now (client (sy_d s)) (sy_w s) = (r, w) →
    sys_step s (with_w (with_d s (match r with Ok envs => onSignals envs (sy_d s) | Err _ => sy_d s end)) w)
(** [peersPollLoop]; a failed poll changes nothing here. *)
| SPoll now ps etag w d :
    Client.Peers do now (client (sy_d s)) (sy_etag s) (sy_w s) = (Ok (ps, etag), w) →
    reconcilePeers ps (sy_d s) = Some d →
    sys_step s (with_etag (with_w (with_d s d) w) etag)
| SPollErr now err w :
    Client.Peers do now (client (sy_d s)) (sy_etag s) (sy_w s) = (Err err, w) →
    sys_step s (with_w s w)
(** [refreshLoop]: nothing is posted when STUN failed. *)
| SRefresh now ifs stun eps :
    collectEndpoints (sy_port s) ifs (stun_addr stun) = (eps, false) →
    sys_step s (with_w s (Client.PostEndpoints do now (client (sy_d s)) eps (sy_w s)).2)
(** [metricsUpdateLoop], which ends at once without metrics. *)
| SMetrics :
    sy_metrics s ≠ None →
    sys_step s (set_gauge s)
(** The state machine [id]: an event, a tick, a keepalive, and its end. *)
| SRecv id h ev q clk ifs :
    handles (sy_d s) !! id = Some h → id ∉ sy_exited s → h_incoming h = ev :: q →
    sys_step s (fsm_store s id h q (handle clk ifs ev (fsm_view s id h)))
| STick id h clk tx :
    handles (sy_d s) !! id = Some h → id ∉ sy_exited s →
    sys_step s (fsm_store s id h (h_incoming h) (tickPunch clk tx (fsm_view s id h)))
| SKeepalive id h clk tx :
    handles (sy_d s) !! id = Some h → id ∉ sy_exited s →
    sys_step s (fsm_store s id h (h_incoming h) (keepalive clk tx (fsm_view s id h)))
| SExit id h :
    handles (sy_d s) !! id = Some h → id ∉ sy_exited s → h_done h = true ∨ sy_ctx s ≠ None →
    sys_step s (fsm_exit (fsm_store s id h (h_incoming h) (teardown (fsm_view s id h))) id)
| SGreet id h nonce now ifs :
    handles (sy_d s) !! id = Some h → id ∉ sy_greeted s →
    sys_step s (greet nonce now ifs id h s)
(** [Run]: the final [select], [shutdown], and the deferred calls. *)
| SStop err :
    sy_main s = MLooping → (err = None → sy_ctx s ≠ None) →
    sys_step s (with_main (with_d s (shutdown (sy_d s))) (MStopped (RErrLoop <$> err)) (sy_k s))
| SReturn err ws k :
    sy_main s = MStopped err → run_cleanup (sy_d s) (sy_k s) = (ws, k) →
    sys_step s (with_main s (MReturned err ws) k).

End Run.

(** ** What a running daemon leaves alone *)
Section Confined.
Context {fv : FmtVerbs} `{Ed25519} `{NaclBox} {K : Type} `{NetlinkerSpec K}.
Context `{MarshalJSON registerBody, MarshalJSON endpointsBody, MarshalJSON signalBody}.
Context `{UnmarshalJSON registerOut, UnmarshalJSON peersOut, UnmarshalJSON signalsOut}.
Context `{MarshalJSON Body, UnmarshalJSON Body}.
Context {W : Type} (do : Transport W).

(** *** State machines touch their own interface only *)

Lemma bringUpTunnel_confined ifs to (r : Run K) :
  confined (ifaceName (deps r)) (kern r) (kern (bringUpTunnel ifs to r)).
Proof.
  unfold bringUpTunnel. destruct (tunnelUp r); [done|]. case_match; [done|].
  pose proof (Create_confined None (tunnel_config (firstGlobalV4 ifs) to r) (kern r)) as Hf.
  destruct (Create _ _ _) as [[[e|] ws] k]; cbn -[AssignIP] in *; [done|]. etrans; [exact Hf|].
  case_match; [apply AssignIP_confined|done].
Qed.

Lemma handle_confined clk ifs ev (r : Run K) :
  confined (ifaceName (deps r)) (kern r) (kern (handle clk ifs ev r)).
Proof.
  assert (∀ clk r, kern (onPeerUpdate (K:=K) clk r) = kern r) as Hup.
  { intros c x. unfold onPeerUpdate. by case_match. }
  assert (∀ from body, confined (ifaceName (deps r)) (kern r) (kern (onDiscoUDP clk ifs from body r))) as Hud.
  { intros from body. unfold onDiscoUDP. case_decide; [done|]. case_decide.
    - case_decide; [|done]. set (r1 := if negb _ then _ else _).
      assert (deps r1 = deps r ∧ kern r1 = kern r) as [E1 E2] by (unfold r1; by case_match).
      rewrite <- E1, <- E2. apply bringUpTunnel_confined.
    - case_decide; [|done]. by rewrite Hup. }
  destruct ev; simpl; [by rewrite Hup|apply Hud|apply Hud].
Qed.

Lemma tickPunch_frame clk tx (r : Run K) : kern (tickPunch clk tx r) = kern r.
Proof.
  unfold tickPunch. case_decide; [done|]. case_match; [done|].
  by destruct (ping_all_fields tx 0 (rp_Endpoints (peer r)) r) as (_ & _ & _ & _ & _ & _ & _ & _ & -> & _).
Qed.

Lemma keepalive_frame clk tx (r : Run K) : kern (keepalive clk tx r) = kern r.
Proof.
  unfold keepalive. case_decide; [done|]. case_match; [done|].
  by destruct (sendPing_fields (tx 0%nat) (winning r) r) as (_ & _ & _ & _ & _ & _ & _ & _ & -> & _).
Qed.

Lemma teardown_confined (r : Run K) : confined (ifaceName (deps r)) (kern r) (kern (teardown r)).
Proof. unfold teardown. case_match; [apply Delete_confined|done]. Qed.

(** *** The daemon's handles keep their names *)

Definition named (pat : string) (hs : gmap nat Handle) : Prop :=
  map_Forall (λ _ h, ∃ n, h_iface h = iface_name pat n) hs.

(** Configuration, ownership and names survive an operation on the daemon. *)
Definition keeps (d d' : Daemon) : Prop :=
  cfg d' = cfg d ∧ fouOwned d' = fouOwned d ∧
  (named (Iface (cfg d)) (handles d) → named (Iface (cfg d)) (handles d')).

#[local] Instance keeps_preorder : PreOrder keeps.
Proof.
  split; [by intros d|]. intros d1 d2 d3 (C1 & F1 & N1) (C2 & F2 & N2).
  split_and!; [congruence..|]. rewrite <- C1 in *. auto.
Qed.

Lemma named_alter pat f id hs : (∀ h, h_iface (f h) = h_iface h) → named pat hs → named pat (alter f id hs).
Proof.
  intros Hf Hn i h. rewrite lookup_alter_Some. intros [(-> & h' & Hl & ->)|[_ Hl]]; [|by apply (Hn i)].
  rewrite Hf. by apply (Hn i).
Qed.

Lemma keeps_alter d f id : (∀ h, h_iface (f h) = h_iface h) → keeps d (set_handles d (alter f id (handles d))).
Proof. intros Hf. split_and!; [done..|]. by apply named_alter. Qed.

Lemma keeps_stop {A} (l : list (A * nat)) d ps :
  keeps d (set_peers (set_handles d (foldr (λ ki hs, alter h_stop ki.2 hs) (handles d) l)) ps).
Proof.
  split_and!; [done..|]. simpl. intros Hn. induction l as [|[a i] l IH]; simpl; [done|]. by apply named_alter.
Qed.

Lemma keeps_deliver sender ev d : keeps d (deliver sender ev d).
Proof. unfold deliver. case_match; [by apply keeps_alter|done]. Qed.

Lemma keeps_onDatagram buf ip port d : keeps d (onDatagram buf ip port d).
Proof. unfold onDatagram. destruct (OpenEnvelope _ _) as [? [?|?]]; [apply keeps_deliver|done]. Qed.

Lemma keeps_onSignals envs d : keeps d (onSignals envs d).
Proof.
  unfold onSignals. revert d. induction envs as [|e envs IH]; intros d; [done|]. simpl.
  etrans; [|apply IH]. destruct (OpenEnvelope _ _) as [? [?|?]]; [apply keeps_deliver|done].
Qed.

Lemma keeps_reconcile_one p d d' : reconcile_one p d = Some d' → keeps d d'.
Proof.
  unfold reconcile_one. case_decide; [by intros [= <-]|].
  destruct (peers d ≫= lookup (rp_DiscoKey p)) as [id|].
  - intros [= <-]. apply keeps_alter. intros h. unfold h_update. by case_match.
  - destruct (peers d); [|done]. intros [= <-]. split_and!; [done..|]. simpl. intros Hn.
    apply map_Forall_insert_2; [|done]. by eexists.
Qed.

Lemma keeps_reconcile l d d' : reconcilePeers l d = Some d' → keeps d d'.
Proof.
  unfold reconcilePeers. intros (d1 & Hl & ->)%fmap_Some. trans d1.
  - revert d Hl. induction l as [|p l IH]; intros d Hl; simpl in Hl; [by simplify_eq|].
    apply bind_Some in Hl as (d2 & Hd2 & Hl). etrans; [by eapply keeps_reconcile_one|by apply IH].
  - unfold drop_unseen. case_match; [|done]. apply keeps_stop.
Qed.

Lemma keeps_shutdown d : keeps d (shutdown d).
Proof. unfold shutdown. case_match; [apply keeps_stop|]. split_and!; done. Qed.

(** *** The invariant of the whole system

    [k0] is the kernel before [Run]. *)
Record sys_inv (c : Daemon.Config) (k0 : K) (s : Sys K W) : Prop := {
  si_cfg : cfg (sy_d s) = c;
  si_named : named (Iface c) (handles (sy_d s));
  si_links n : (∀ i, n ≠ iface_name (Iface c) i) → links (sy_k s) !! n = links k0 !! n;
  si_foreign : foreign_kept k0 (sy_k s);
  si_owned : if fouOwned (sy_d s) then fous k0 !! FOUPort c = None else is_Some (fous k0 !! FOUPort c)
}.

(** A step that changes the daemon by [keeps] and not the kernel. *)
Lemma sys_inv_keeps c k0 (s s' : Sys K W) :
  sys_inv c k0 s → keeps (sy_d s) (sy_d s') → links (sy_k s') = links (sy_k s) → fous (sy_k s') = fous (sy_k s) →
  sys_inv c k0 s'.
Proof.
  intros [Hc Hn Hl Hf Ho] (C & F & N) El Ef. rewrite Hc in *. split.
  - done.
  - by apply N.
  - intros n Hi. rewrite El. by apply Hl.
  - destruct Hf as [H1f H2f]. split; [by rewrite El|by rewrite Ef].
  - by rewrite F.
Qed.

(** A step of the state machine [id]. *)
Lemma sys_inv_fsm c k0 (s : Sys K W) id h q r' :
  sys_inv c k0 s → handles (sy_d s) !! id = Some h →
  confined (h_iface h) (sy_k s) (kern r') → sys_inv c k0 (fsm_store s id h q r').
Proof.
  intros [Hc Hn Hl Hf Ho] Hh [[Fl _] Ff]. destruct (Hn _ _ Hh) as [i Hi]. split; simpl; try done.
  - apply map_Forall_insert_2; [|done]. by exists i.
  - intros n Hne. rewrite Fl by (rewrite Hi; apply Hne). by apply Hl.
  - by etrans.
Qed.

Lemma run_cleanup_view (d : Daemon) (k : K) ws k' :
  run_cleanup d k = (ws, k') →
  links k' = links k ∧
  (fouOwned d = false → fous k' = fous k) ∧
  (fous k' = fous k ∨ fouOwned d = true ∧ fous k' = delete (FOUPort (cfg d)) (fous k)) ∧
  (ws = [] → fouOwned d = true → fous k' = delete (FOUPort (cfg d)) (fous k)).
Proof.
  unfold run_cleanup, RemoveFOU, rollbackFOU. destruct (fouOwned d); [|intros [= <- <-]; naive_solver].
  destruct (FouDel _ k) as [[e|] k1] eqn:Ed; intros [= <- <-].
  - apply FouDel_err in Ed as [-> ->]. naive_solver.
  - apply FouDel_ok in Ed as [-> ->]. naive_solver.
Qed.

Lemma sys_step_inv c k0 s s' : sys_inv c k0 s → sys_step do s s' → sys_inv c k0 s'.
Proof.
  intros Hinv Hs. destruct Hs as [e He|buf ip port|now r w Hr|now ps etag w d Hr Hd|now err w Hr
    |now ifs stun eps He|Hmet|id h ev q clk ifs Hh|id h clk tx Hh|id h clk tx Hh|id h Hh|id h nonce now ifs Hh
    |err Hm|err ws k Hm Hc].
  - by apply (sys_inv_keeps _ _ _ _ Hinv).
  - apply (sys_inv_keeps _ _ _ _ Hinv); [apply keeps_onDatagram|done..].
  - apply (sys_inv_keeps _ _ _ _ Hinv); [|done..]. destruct r; [apply keeps_onSignals|done].
  - apply (sys_inv_keeps _ _ _ _ Hinv); [by eapply keeps_reconcile|done..].
  - by apply (sys_inv_keeps _ _ _ _ Hinv).
  - by apply (sys_inv_keeps _ _ _ _ Hinv).
  - by apply (sys_inv_keeps _ _ _ _ Hinv).
  - apply (sys_inv_fsm _ _ _ _ _ _ _ Hinv Hh). apply (handle_confined clk ifs ev (fsm_view s id h)).
  - apply (sys_inv_fsm _ _ _ _ _ _ _ Hinv Hh). by rewrite tickPunch_frame.
  - apply (sys_inv_fsm _ _ _ _ _ _ _ Hinv Hh). by rewrite keepalive_frame.
  - eapply (sys_inv_keeps c k0 (fsm_store s id h (h_incoming h) (teardown (fsm_view s id h)))); [|done..].
    apply (sys_inv_fsm _ _ _ _ _ _ _ Hinv Hh). apply (teardown_confined (fsm_view s id h)).
  - apply (sys_inv_keeps _ _ _ _ Hinv); unfold greet; by destruct (callMeMaybe _ _ _).
  - apply (sys_inv_keeps _ _ _ _ Hinv); [apply keeps_shutdown|done..].
  - destruct Hinv as [Hcf Hn Hl Hf Ho]. apply run_cleanup_view in Hc as (El & _ & Ef & _). rewrite Hcf in Ef.
    split; simpl; try done; [by rewrite El|]. destruct Hf as [Hf1 Hf2]. split; [by rewrite El|].
    destruct Ef as [-> |[Hown ->]]; [done|]. apply map_subseteq_spec. intros p f Hp. rewrite lookup_delete_ne; [by eapply lookup_weaken|].
    intros Heq. rewrite Hown in Ho. by rewrite <- Heq, Ho in Hp.
Qed.

Lemma EnsureFOU_view port encap (k : K) r k' :
  EnsureFOU port encap k = (r, k') →
  links k' = links k ∧
  match r with
  | Ok true => fous k !! port = None ∧ ∃ f, fous k' = <[port := f]> (fous k)
  | Ok false => fous k' = fous k ∧ is_Some (fous k !! port)
  | Err _ => fous k' = fous k
  end.
Proof.
  unfold EnsureFOU. destruct (FouAdd _ k) as [[e|] k1] eqn:Ef.
  - apply FouAdd_err in Ef as (Hl & Hf & Hex). destruct (IsErrno e EEXIST); intros [= <- <-]; [|done].
    split; [done|]. split; [done|]. by apply Hex.
  - apply FouAdd_ok in Ef as (Hn & Hl & Hf). intros [= <- <-]. split; [done|]. eauto.
Qed.

Lemma run_start_view e ctx c nk dk (k : K) w :
  let c' := cfg (New c nk dk) in
  match run_start do e ctx (New c nk dk) k w with
  | Err (_, ws, k', _) => links k' = links k ∧ fous k ⊆ fous k' ∧ (ws = [] → fous k' = fous k)
  | Ok s => sys_inv c' k s ∧ sy_main s = MLooping
  end.
Proof.
  intros c'. unfold run_start. destruct (rn_listen e _); [|done].
  destruct (EnsureFOU _ _ k) as [[created|err] k1] eqn:Ee; apply EnsureFOU_view in Ee as [El Ef];
    [|by rewrite El, Ef].
  assert (fous k ⊆ fous k1) as Hsub.
  { destruct created; [|by destruct Ef as [-> _]]. destruct Ef as (? & f & ->). by apply insert_subseteq. }
  set (d := set_fou (New c nk dk) created). destruct (Client.Register _ _ _ _) as [[[cidr etag]|err] w1].
  - split; [|done]. set (d1 := match IP.ParsePrefix cidr with Some p => _ | None => _ end).
    assert (cfg d1 = c' ∧ handles d1 = ∅ ∧ fouOwned d1 = created) as (E1 & E2 & E3)
      by (unfold d1; by destruct (IP.ParsePrefix cidr)).
    split; cbn [sy_d sy_k].
    + done.
    + rewrite E2. apply map_Forall_empty.
    + intros n _. by rewrite El.
    + split; [by rewrite El|done].
    + rewrite E3. destruct created; by destruct Ef.
  - destruct (run_cleanup d k1) as [ws k2] eqn:Hc. apply run_cleanup_view in Hc as (El2 & Hno & Hor & Hyes).
    rewrite El2, El. split; [done|]. destruct created; simpl in *.
    + destruct Ef as (Hn & f & Ef). split.
      * destruct Hor as [-> |[_ ->]]; [done|]. rewrite Ef, delete_insert_id by done. done.
      * intros Hw. rewrite (Hyes Hw eq_refl), Ef. by apply delete_insert_id.
    + destruct Ef as [Ef _]. rewrite (Hno eq_refl), Ef. split; [reflexivity|done].
Qed.

Lemma sys_reach_inv c k0 (s0 s : Sys K W) : sys_inv c k0 s0 → rtc (sys_step do) s0 s → sys_inv c k0 s.
Proof. intros Hi Hr. induction Hr as [|a b c' Hs _ IH]; [done|]. apply IH. by eapply sys_step_inv. Qed.

(** The daemon as the command line runs it, until it returns. *)
Lemma run_foreign e ctx c nk dk (k0 : K) (w0 : W) :
  match run_start do e ctx (New c nk dk) k0 w0 with
  | Err (_, _, k, _) => foreign_kept k0 k
  | Ok s0 => ∀ s, rtc (sys_step do) s0 s → foreign_kept k0 (sy_k s)
  end.
Proof.
  pose proof (run_start_view e ctx c nk dk k0 w0) as Hv.
  destruct (run_start do e ctx (New c nk dk) k0 w0) as [s0|[[[err ws] k] w]].
  - destruct Hv as [Hv _]. intros s Hr. by destruct (sys_reach_inv _ _ _ _ Hv Hr).
  - destruct Hv as (El & Hf & _). split; [by rewrite El|done].
Qed.

(** C31. Whatever the coordinator, the peers and the scheduler do, a daemon
    changes only links that carry one of its interface names and are GRE
    tunnels, and it never closes a FOU port that was open before it started;
    when [Run] fails before its loops, everything is as before unless a failed
    clean-up was logged. *)
Theorem daemon_confined (e : RunEnv) (ctx : Ctx) (c : Daemon.Config) (nk : NodeKey) (dk : DiscoKey)
  (k0 : K) (w0 : W) :
  match run_start do e ctx (New c nk dk) k0 w0 with
  | Err (_, ws, k, _) => links k = links k0 ∧ (ws = [] → fous k = fous k0)
  | Ok s0 => ∀ s, rtc (sys_step do) s0 s →
      foreign_kept k0 (sy_k s) ∧
      ∀ n, (∀ i, n ≠ iface_name (Iface (cfg (New c nk dk))) i) → links (sy_k s) !! n = links k0 !! n
  end.
Proof.
  pose proof (run_start_view e ctx c nk dk k0 w0) as Hv.
  destruct (run_start do e ctx (New c nk dk) k0 w0) as [s0|[[[err ws] k] w]].
  - destruct Hv as [Hv _]. intros s Hr. destruct (sys_reach_inv _ _ _ _ Hv Hr) as [_ _ Hl Hf _]. done.
  - destruct Hv as (? & _ & ?). done.
Qed.

Lemma sys_return (s1 s2 : Sys K W) err ws :
  sys_step do s1 s2 → sy_main s1 = MStopped err → sy_main s2 = MReturned err ws →
  links (sy_k s2) = links (sy_k s1) ∧
  (fouOwned (sy_d s1) = false → fous (sy_k s2) = fous (sy_k s1)) ∧
  (ws = [] → fouOwned (sy_d s1) = true →
     fous (sy_k s2) = delete (FOUPort (cfg (sy_d s1))) (fous (sy_k s1))).
Proof.
  intros Hs E1 E2. destruct Hs; simpl in *; try congruence.
  match goal with Hc : run_cleanup _ _ = _ |- _ => apply run_cleanup_view in Hc as (? & ? & _ & ?) end.
  simplify_eq. done.
Qed.

(** On its return path [Run] releases what it acquired itself: the FOU port
    is open afterwards exactly if it was open before [Run], unless a failed
    removal was logged. *)
Theorem run_releases_fou (e : RunEnv) (ctx : Ctx) (c : Daemon.Config) (nk : NodeKey) (dk : DiscoKey)
  (k0 : K) (w0 : W) (s0 s1 s2 : Sys K W) (err : option RunError)
  (Hstart : run_start do e ctx (New c nk dk) k0 w0 = Ok s0)
  (Hrun : rtc (sys_step do) s0 s1) (Hret : sys_step do s1 s2)
  (Hs1 : sy_main s1 = MStopped err) (Hs2 : sy_main s2 = MReturned err []) :
  is_Some (fous (sy_k s2) !! FOUPort (cfg (New c nk dk))) ↔
  is_Some (fous k0 !! FOUPort (cfg (New c nk dk))).
Proof.
  pose proof (run_start_view e ctx c nk dk k0 w0) as Hv. rewrite Hstart in Hv. destruct Hv as [Hv _].
  destruct (sys_reach_inv _ _ _ _ Hv Hrun) as [Hcf _ _ [_ Hf] Ho].
  destruct (sys_return _ _ _ _ Hret Hs1 Hs2) as (_ & Hno & Hyes). specialize (Hyes eq_refl). rewrite Hcf in *.
  destruct (fouOwned (sy_d s1)).
  - rewrite (Hyes eq_refl), lookup_delete_eq, Ho. done.
  - rewrite (Hno eq_refl). split; [done|]. intros _. destruct Ho as [f Hp]. exists f. by eapply lookup_weaken.
Qed.

(** [Run] does not wait for the state machines: when it is interrupted there
    is a way to its return, without an error, on which no link is removed, so
    the tunnels that are up can outlive the daemon. *)
Theorem run_can_leave_tunnels (s : Sys K W) (Hloop : sy_main s = MLooping) :
  ∃ s' ws, rtc (sys_step do) s s' ∧ sy_main s' = MReturned None ws ∧ links (sy_k s') = links (sy_k s).
Proof.
  assert (∃ s1, rtc (sys_step do) s s1 ∧ sy_ctx s1 ≠ None ∧ sy_main s1 = MLooping ∧ sy_k s1 = sy_k s)
    as (s1 & Hr & Hctx & Hm & <-).
  { destruct (sy_ctx s) eqn:E; [exists s; by rewrite E|].
    eexists. split; [apply rtc_once; by apply (SCancel do s Canceled)|]. done. }
  set (s2 := with_main (with_d s1 (shutdown (sy_d s1))) (MStopped (RErrLoop <$> None)) (sy_k s1)).
  destruct (run_cleanup (sy_d s2) (sy_k s2)) as [ws k] eqn:Hc.
  exists (with_main s2 (MReturned None ws) k), ws.
  split_and!; [|done|by destruct (run_cleanup_view _ _ _ _ Hc)].
  etrans; [done|]. eapply rtc_l; [by apply (SStop do s1 None)|]. apply rtc_once. by apply SReturn.
Qed.
End Confined.

(** ** One socket, two readers

    [collectEndpoints] runs again in [refreshLoop] while [discoReadLoop] reads
    the same socket; the kernel hands each datagram to one of the two. *)
Section SharedSocket.
Context `{Stun} `{NaclBox} `{UnmarshalJSON Body}.

Lemma envelope_not_stun buf sender sealed :
  ParseEnvelope buf = Ok (sender, sealed) → IsMessage (take 1500 buf) = false.
Proof.
  intros Hp. apply ParseEnvelope_Ok in Hp as [-> _].
  destruct (IsMessage _) eqn:Hm; [|done]. apply IsMessage_cookie in Hm as [_ Hc]. exfalso.
  apply (f_equal head) in Hc. discriminate Hc.
Qed.

(** A disco message that the STUN reader picks up is skipped and never
    reaches a state machine, and a STUN response that the disco loop picks up
    is dropped, so each loses what the other reads. *)
Theorem shared_socket_loses_datagrams (pending : gmap txid string) (e : ReadEnv) (reads : list ReadEnv)
  (buf msg : bytes) (sender : key32) (sealed : bytes) (ip : IP.t) (port : Z) (d : Daemon)
  (Hset : rv_set e = Ok ()) (Hread : rv_read e = Ok buf) (Hctx : rv_ctx e = None)
  (Hdisco : ParseEnvelope buf = Ok (sender, sealed))
  (Hstun : IsMessage (take 1500 msg) = true) (Hlen : (length msg ≤ 1500)%nat) :
  read_loop pending (e :: reads) = read_loop pending reads ∧
  onDatagram (take 2048 msg) ip port d = d.
Proof.
  split.
  - simpl. rewrite Hset, Hread, Hctx. unfold stun_answer. by rewrite (envelope_not_stun _ _ _ Hdisco).
  - rewrite take_ge by lia. rewrite take_ge in Hstun by done. unfold onDatagram, OpenEnvelope.
    destruct (ParseEnvelope msg) as [[s x]|] eqn:Hp; [|done].
    apply envelope_not_stun in Hp. rewrite take_ge in Hp by done. congruence.
Qed.
End SharedSocket.

(** ** Witnesses *)
Module RunDemo.

#[local] Existing Instances Mock.nl Mock.spec StunDemo.stun DaemonDemo.verbs.
#[local] Instance ed : Ed25519 := toy_ed25519.
#[local] Instance bx : NaclBox := toy_box.
Definition text : bytes := [x7b; x7d].
#[local] Instance m_rb : MarshalJSON registerBody := one_marshal text.
#[local] Instance m_eb : MarshalJSON endpointsBody := one_marshal text.
#[local] Instance m_sb : MarshalJSON signalBody := one_marshal text.
#[local] Instance m_b : MarshalJSON Body := one_marshal text.
#[local] Instance u_b : UnmarshalJSON Body := one_unmarshal text FSMDemo.pong.
#[local] Instance u_ro : UnmarshalJSON registerOut :=
  one_unmarshal text {| ro_TunnelIP := "10.0.0.3/24"; ro_Etag := "" |}.
#[local] Instance u_po : UnmarshalJSON peersOut := one_unmarshal text {| po_Etag := ""; po_Peers := [] |}.
#[local] Instance u_so : UnmarshalJSON signalsOut := one_unmarshal text {| so_Envelopes := [] |}.

(** A coordinator that answers every request alike. *)
Definition do : Transport () := λ _ w, (Some {| StatusCode := 200; resp_Body := text |}, w).
Definition env : RunEnv :=
  {| rn_listen _ := Ok 41641; rn_ifs := FSMDemo.ifs; rn_stun := Err "timeout"; rn_now := Auth.demo_now |}.
Definition conf : Daemon.Config := cfg DaemonDemo.alice.

(** The daemon's port is not open before it starts. *)
Definition s0 : Sys Mock.Kernel () :=
  match run_start do env None (New conf KeysDemo.nk EnvelopeDemo.alice) Mock.healthy () with
  | Ok s => s
  | Err _ => MkSys None MLooping DaemonDemo.alice Mock.healthy () None ∅ ∅ ∅ "" 0
  end.
Lemma started : run_start do env None (New conf KeysDemo.nk EnvelopeDemo.alice) Mock.healthy () = Ok s0.
Proof. vm_compute. reflexivity. Qed.

Definition s1 : Sys Mock.Kernel () :=
  with_main (with_d s0 (shutdown (sy_d s0))) (MStopped (Some (RErrLoop "disco read"))) (sy_k s0).
Definition s2 : Sys Mock.Kernel () :=
  with_main s1 (MReturned (Some (RErrLoop "disco read")) []) (run_cleanup (sy_d s1) (sy_k s1)).2.
Lemma stopped : rtc (sys_step do) s0 s1.
Proof. apply rtc_once, (SStop do s0 (Some "disco read")); [reflexivity|discriminate]. Qed.
Lemma returned : sys_step do s1 s2.
Proof. apply (SReturn do s1 (Some (RErrLoop "disco read"))); [reflexivity|]. vm_compute. reflexivity. Qed.

Lemma daemon_confined_witness : foreign_kept Mock.healthy (sy_k s1).
Proof.
  pose proof (daemon_confined do env None conf KeysDemo.nk EnvelopeDemo.alice Mock.healthy ()) as Hx.
  rewrite started in Hx. exact (proj1 (Hx s1 stopped)).
Defined.

Lemma run_releases_fou_witness :
  is_Some (fous (sy_k s2) !! 7777) ↔ is_Some (fous Mock.healthy !! 7777).
Proof.
  exact (run_releases_fou do env None conf KeysDemo.nk EnvelopeDemo.alice Mock.healthy () s0 s1 s2
    (Some (RErrLoop "disco read")) started stopped returned eq_refl eq_refl).
Defined.

(** A tunnel to Bob is up. *)
Definition up : Sys Mock.Kernel () :=
  MkSys None MLooping DaemonDemo.with_bob (kern FSMDemo.direct) () None ∅ ∅ ∅ "" 41641.
Lemma run_can_leave_tunnels_witness :
  ∃ s' ws, rtc (sys_step do) up s' ∧ sy_main s' = MReturned None ws ∧ is_Some (links (sy_k s') !! "gretun0").
Proof.
  destruct (run_can_leave_tunnels do up eq_refl) as (s' & ws & H1 & H2 & H3).
  refine (ex_intro _ s' (ex_intro _ ws (conj H1 (conj H2 _)))). rewrite H3. vm_compute. eauto.
Defined.

Lemma shared_socket_loses_datagrams_witness :
  read_loop ∅ [{| rv_set := Ok (); rv_read := Ok DaemonDemo.datagram; rv_ctx := None |}] = RWaiting ∧
  onDatagram (take 2048 StunDemo.response) (IP.IPv4 192 0 2 1) 3478 DaemonDemo.alice = DaemonDemo.alice.
Proof.
  destruct (ParseEnvelope DaemonDemo.datagram) as [[sender sealed]|] eqn:E; [|vm_compute in E; discriminate E].
  apply (shared_socket_loses_datagrams ∅
    {| rv_set := Ok (); rv_read := Ok DaemonDemo.datagram; rv_ctx := None |} []
    DaemonDemo.datagram StunDemo.response sender sealed); try reflexivity; [exact E|vm_compute; lia].
Defined.

End RunDemo.
