(* ===== verification/Health.v ===== *)
(** * ICMP probes ([internal/health/probe.go])

    The echo request byte for byte with its checksum, one probe over a socket
    whose calls may fail, repeated probes with a threshold, and the worker pool
    that probes many targets at once, as a step relation of its goroutines.
    The parser of replies ([golang.org/x/net/icmp]) is the interface [Icmp]. *)

From S2P Require Import Prelude.
From S2P Require Import NetIP.
From S2P Require Import GoTime.
From S2P Require Import GoSlice.

Definition icmpIDMask : Z := 0xffff.
Definition defaultMTU : nat := 1500.
Definition probeInterval : Z := 100 * GoTime.Millisecond.
Definition icmpEchoSize : nat := 20.
Definition icmpTypeEchoRequest : Z := 8.
Definition icmpProtocol : Z := 1.
Definition icmpSequence : Z := 1.
Definition probeData : bytes := to_bytes "gretun-probe".

Record ProbeResult := {
  pr_Target : string;
  pr_Success : bool;
  pr_RTT : Z;
  pr_Error : string;
  pr_Timestamp : Z
}.

(** ** The echo request *)

(** The two summing statements: pairs of bytes, then an odd last byte. *)
Fixpoint sum_words (sum : Z) (b : bytes) : Z :=
  match b with
  | hi :: lo :: b => sum_words (wrapu 32 (sum + Z.lor (Z.shiftl (byte_Z hi) 8) (byte_Z lo))) b
  | [hi] => wrapu 32 (sum + Z.shiftl (byte_Z hi) 8)
  | [] => sum
  end.

(** [for sum>>16 != 0]; two rounds are enough for 32 bits, the third unit of
    fuel is for the test that ends the loop. *)
Fixpoint fold_carry (fuel : nat) (sum : Z) : option Z :=
  match fuel with
  | O => None
  | S fuel =>
      if Z.shiftr sum 16 =? 0 then Some sum
      else fold_carry fuel (wrapu 32 (Z.land sum 0xffff + Z.shiftr sum 16))
  end.

Definition icmpChecksum (b : bytes) : Z :=
  0xffff - wrapu 16 (default 0 (fold_carry 3 (sum_words 0 b))).

(** [binary.BigEndian.PutUint16(b[i:i+2], v)] on a buffer that is long enough. *)
Definition PutUint16 (i : nat) (v : Z) (b : bytes) : bytes :=
  <[S i := Z_byte v]> (<[i := Z_byte (Z.shiftr v 8)]> b).

(** [copy(b[i:], src)]. *)
Definition copy_at (i : nat) (src b : bytes) : bytes :=
  take i b ++ take (length b - i) src ++ drop (i + length src) b.

(** [dst] is the buffer from the slice's start up to its capacity, which is what
    [dst[:icmpEchoSize]] may reach.  The result is its contents afterwards; the
    slice returned is its first [icmpEchoSize] bytes.  [None]: the slice
    expression panics. *)
Definition buildEchoRequest (pid : Z) (dst : bytes) : option bytes :=
  if (length dst <? icmpEchoSize)%nat then None
  else
    let b := take icmpEchoSize dst in
    let b := <[0%nat := Z_byte icmpTypeEchoRequest]> b in
    let b := <[1%nat := x00]> b in
    let b := <[2%nat := x00]> b in
    let b := <[3%nat := x00]> b in
    let id := wrapu 16 (Z.land pid icmpIDMask) in
    let b := PutUint16 4 id b in
    let b := PutUint16 6 icmpSequence b in
    let b := copy_at 8 probeData b in
    let b := PutUint16 2 (icmpChecksum b) b in
    Some (b ++ drop icmpEchoSize dst).

(** ** RFC 1071: one's-complement addition of 16-bit words *)

Definition onec_add (x y : Z) : Z := (x + y) mod 2 ^ 16 + (x + y) / 2 ^ 16.

(** The words of a message, an odd last byte padded with zero. *)
Fixpoint be_words (b : bytes) : list Z :=
  match b with
  | hi :: lo :: b => (byte_Z hi * 256 + byte_Z lo) :: be_words b
  | [hi] => [byte_Z hi * 256]
  | [] => []
  end.

Definition onec_sum (b : bytes) : Z := foldl onec_add 0 (be_words b).

(** The representative of [s] modulo [65535] that one's-complement addition
    yields: 0 only for 0. *)
Definition onec_norm (s : Z) : Z := if s =? 0 then 0 else (s - 1) mod 65535 + 1.

Lemma onec_norm_range s : 0 ≤ s → 0 ≤ onec_norm s ≤ 65535.
Proof. unfold onec_norm. case_match; bool_to_prop; [lia|]. pose proof (Z.mod_pos_bound (s - 1) 65535). lia. Qed.

(** One carry round keeps the representative. *)
Lemma onec_norm_carry s : 0 ≤ s → onec_norm (s mod 2 ^ 16 + s / 2 ^ 16) = onec_norm s.
Proof.
  intros Hs. unfold onec_norm. change (2 ^ 16) with 65536.
  pose proof (Z.div_mod s 65536 ltac:(lia)) as E.
  pose proof (Z.mod_pos_bound s 65536 ltac:(lia)). pose proof (Z.div_pos s 65536 Hs ltac:(lia)).
  destruct (Z.eqb_spec s 0) as [->|Hne]; [done|].
  destruct (Z.eqb_spec (s mod 65536 + s / 65536) 0); [lia|]. f_equal.
  replace (s - 1) with (s mod 65536 + s / 65536 - 1 + s / 65536 * 65535) by lia.
  by rewrite Z_mod_plus_full.
Qed.

Lemma onec_norm_id s : 0 ≤ s ≤ 65535 → onec_norm s = s.
Proof. intros ?. unfold onec_norm. case_match; bool_to_prop; [lia|]. rewrite Z.mod_small; lia. Qed.

Lemma onec_norm_add x y : 0 ≤ x → 0 ≤ y → onec_norm (onec_norm x + y) = onec_norm (x + y).
Proof.
  intros Hx Hy. pose proof (onec_norm_range x Hx). unfold onec_norm at 2 in H.
  unfold onec_norm in *. destruct (Z.eqb_spec x 0) as [->|Hne]; [done|].
  pose proof (Z.mod_pos_bound (x - 1) 65535 ltac:(lia)).
  destruct (Z.eqb_spec ((x - 1) mod 65535 + 1 + y) 0); [lia|].
  destruct (Z.eqb_spec (x + y) 0); [lia|]. f_equal.
  replace ((x - 1) mod 65535 + 1 + y - 1) with ((x - 1) mod 65535 + y) by lia.
  rewrite Zplus_mod_idemp_l. f_equal. lia.
Qed.

Lemma onec_add_norm x y : 0 ≤ x ≤ 65535 → 0 ≤ y ≤ 65535 → onec_add x y = onec_norm (x + y).
Proof.
  intros Hx Hy. unfold onec_add. rewrite <- onec_norm_carry by lia.
  symmetry. apply onec_norm_id. change (2 ^ 16) with 65536.
  pose proof (Z.div_mod (x + y) 65536 ltac:(lia)).
  pose proof (Z.mod_pos_bound (x + y) 65536 ltac:(lia)).
  pose proof (Z.div_pos (x + y) 65536 ltac:(lia) ltac:(lia)). lia.
Qed.

Lemma be_words_range b : Forall (λ w, 0 ≤ w ≤ 65535) (be_words b).
Proof.
  induction b as [|x|x y b IH] using list_ind2; simpl; repeat constructor; auto;
    pose proof (byte_Z_range x); try pose proof (byte_Z_range y); lia.
Qed.

Lemma be_words_app a b : Nat.even (length a) = true → be_words (a ++ b) = be_words a ++ be_words b.
Proof. induction a as [|x|x y a IH] using list_ind2; simpl; [done..|]. intros H. by rewrite IH. Qed.

Lemma length_be_words b : (2 * length (be_words b) ≤ S (length b))%nat.
Proof. induction b as [|x|x y b IH] using list_ind2; simpl in *; lia. Qed.

Definition word_sum (b : bytes) : Z := foldr Z.add 0 (be_words b).

Lemma word_sum_range b : 0 ≤ word_sum b ≤ 65535 * Z.of_nat (length (be_words b)).
Proof.
  unfold word_sum. induction (be_words_range b) as [|w l Hw _ IH]; cbn [foldr length]; lia.
Qed.

Lemma word_sum_app a b : Nat.even (length a) = true → word_sum (a ++ b) = word_sum a + word_sum b.
Proof.
  intros H. unfold word_sum. rewrite be_words_app by done. rewrite foldr_app.
  induction (be_words a) as [|w l IH]; simpl; lia.
Qed.

Lemma word_lor hi lo : Z.lor (Z.shiftl (byte_Z hi) 8) (byte_Z lo) = byte_Z hi * 256 + byte_Z lo.
Proof. pose proof (byte_Z_range lo). by apply lor_shiftl_add. Qed.

(** The accumulator is the sum of the words modulo [2 ^ 32]. *)
Lemma sum_words_wrap s b : wrapu 32 s = s → sum_words s b = wrapu 32 (s + word_sum b).
Proof.
  revert s. unfold word_sum. induction b as [|x|x y b IH] using list_ind2; intros s Hs.
  - cbn. by rewrite Z.add_0_r.
  - cbn. by rewrite Z.shiftl_mul_pow2, Z.add_0_r by lia.
  - cbn [sum_words be_words foldr]. rewrite word_lor. rewrite IH by (unfold wrapu; by rewrite Zmod_mod).
    unfold wrapu. rewrite Zplus_mod_idemp_l. f_equal. lia.
Qed.

(** Up to 65537 words it does not wrap. *)
Lemma sum_words_exact s b :
  0 ≤ s → s + word_sum b < 2 ^ 32 → sum_words s b = s + word_sum b.
Proof.
  intros Hs Hb. pose proof (word_sum_range b).
  rewrite sum_words_wrap by (unfold wrapu; rewrite Z.mod_small; lia).
  unfold wrapu. rewrite Z.mod_small; lia.
Qed.

Lemma fold_carry_total s : 0 ≤ s < 2 ^ 32 → fold_carry 3 s = Some (onec_norm s).
Proof.
  assert (∀ n s, 0 ≤ s < 2 ^ 32 → fold_carry (S n) s =
    if s <? 2 ^ 16 then Some s else fold_carry n (s mod 2 ^ 16 + s / 2 ^ 16)) as Hstep.
  { intros n t Ht. cbn [fold_carry]. rewrite Z.shiftr_div_pow2 by lia. change 65535 with (Z.ones 16).
    rewrite Z.land_ones by lia. unfold wrapu. change (2 ^ 16) with 65536 in *.
    pose proof (Z.div_mod t 65536 ltac:(lia)). pose proof (Z.mod_pos_bound t 65536 ltac:(lia)).
    pose proof (Z.div_pos t 65536 ltac:(lia) ltac:(lia)).
    rewrite (Z.mod_small (_ + _)) by lia.
    destruct (Z.ltb_spec t 65536); destruct (Z.eqb_spec (t / 65536) 0); try done; lia. }
  intros Hs. rewrite Hstep by done. destruct (Z.ltb_spec s (2 ^ 16)).
  { rewrite onec_norm_id by lia. done. }
  rewrite <- (onec_norm_carry s) by lia. set (t := s mod 2 ^ 16 + s / 2 ^ 16).
  assert (0 ≤ t ≤ 131070) as Ht.
  { unfold t. change (2 ^ 16) with 65536. pose proof (Z.div_mod s 65536 ltac:(lia)).
    pose proof (Z.mod_pos_bound s 65536 ltac:(lia)). lia. }
  clearbody t. rewrite Hstep by lia. destruct (Z.ltb_spec t (2 ^ 16)).
  { rewrite onec_norm_id by lia. done. }
  rewrite <- (onec_norm_carry t) by lia.
  assert (0 ≤ t mod 2 ^ 16 + t / 2 ^ 16 < 65536).
  { change (2 ^ 16) with 65536. pose proof (Z.div_mod t 65536 ltac:(lia)).
    pose proof (Z.mod_pos_bound t 65536 ltac:(lia)). lia. }
  rewrite Hstep, onec_norm_id by lia. by destruct (Z.ltb_spec (t mod 2 ^ 16 + t / 2 ^ 16) (2 ^ 16)); [|lia].
Qed.

Lemma foldl_onec a l :
  0 ≤ a → Forall (λ w, 0 ≤ w ≤ 65535) l →
  foldl onec_add (onec_norm a) l = onec_norm (a + foldr Z.add 0 l).
Proof.
  intros Ha Hl. revert a Ha. induction Hl as [|w l Hw Hl IH]; intros a Ha; simpl.
  - by rewrite Z.add_0_r.
  - rewrite onec_add_norm, onec_norm_add by (try apply onec_norm_range; lia).
    rewrite IH by lia. f_equal. lia.
Qed.

Lemma onec_sum_norm b : onec_sum b = onec_norm (word_sum b).
Proof. apply (foldl_onec 0); [lia|apply be_words_range]. Qed.

Lemma icmpChecksum_norm b : word_sum b < 2 ^ 32 → icmpChecksum b = 0xffff - onec_norm (word_sum b).
Proof.
  intros Hb. pose proof (word_sum_range b) as [H0 _]. unfold icmpChecksum.
  rewrite sum_words_exact, Z.add_0_l by lia. rewrite fold_carry_total by lia. simpl default.
  pose proof (onec_norm_range (word_sum b) H0). unfold wrapu. rewrite Z.mod_small; lia.
Qed.

Lemma word_sum_fits b : Z.of_nat (length b) ≤ 131074 → word_sum b < 2 ^ 32.
Proof. intros H. pose proof (word_sum_range b). pose proof (length_be_words b). lia. Qed.

(** C35. [icmpChecksum] is the Internet checksum of RFC 1071, the complement of
    the one's-complement sum of the 16-bit words, for every buffer of at most
    131074 bytes; its carry loop ends within two rounds. *)
Theorem icmp_checksum_rfc1071 (b : bytes) (Hlen : Z.of_nat (length b) ≤ 131074) :
  fold_carry 3 (sum_words 0 b) = Some (onec_sum b) ∧
  icmpChecksum b = 0xffff - onec_sum b ∧ 0 ≤ icmpChecksum b ≤ 0xffff.
Proof.
  pose proof (word_sum_fits b Hlen). pose proof (word_sum_range b) as [H0 _].
  pose proof (onec_norm_range _ H0). rewrite onec_sum_norm.
  rewrite icmpChecksum_norm, sum_words_exact, Z.add_0_l, fold_carry_total by lia. split_and!; auto; lia.
Qed.

(** The bound is exact: one word more and the accumulator can wrap. *)
Lemma word_sum_ones n : word_sum (replicate (2 * n) xff) = 65535 * Z.of_nat n.
Proof.
  induction n as [|n IH]; [done|]. replace (2 * S n)%nat with (S (S (2 * n))) by lia.
  unfold word_sum in *. cbn [replicate be_words foldr]. rewrite IH. change (byte_Z xff) with 255. lia.
Qed.

Lemma icmp_checksum_wraps (b := replicate (2 * Z.to_nat 65538) xff) :
  icmpChecksum b = 1 ∧ onec_sum b = 0xffff.
Proof.
  split.
  - unfold icmpChecksum, b. rewrite sum_words_wrap by done. rewrite word_sum_ones, Z2Nat.id by lia. reflexivity.
  - unfold b. rewrite onec_sum_norm, word_sum_ones, Z2Nat.id by lia. reflexivity.
Qed.

Lemma word_sum_pair v : 0 ≤ v < 2 ^ 16 → word_sum [Z_byte (Z.shiftr v 8); Z_byte v] = v.
Proof.
  intros Hv. unfold word_sum. cbn [be_words foldr]. rewrite !byte_Z_byte, Z.shiftr_div_pow2 by lia.
  change (2 ^ 8) with 256. change (2 ^ 16) with 65536 in Hv.
  rewrite (Z.mod_small (v / 256)) by (split; [apply Z.div_pos|apply Z.div_lt_upper_bound]; lia).
  pose proof (Z.div_mod v 256). lia.
Qed.

(** A message that carries the checksum of itself with a zero field sums to all
    ones, which is how a receiver checks it. *)
Lemma checksum_verifies pre post :
  Nat.even (length pre) = true → Z.of_nat (length pre + length post) ≤ 131070 →
  let c := icmpChecksum (pre ++ [x00; x00] ++ post) in
  icmpChecksum (pre ++ [Z_byte (Z.shiftr c 8); Z_byte c] ++ post) = 0.
Proof.
  intros He Hlen c. set (s := word_sum pre + word_sum post).
  pose proof (word_sum_range pre). pose proof (word_sum_range post).
  assert (∀ v, 0 ≤ v < 2 ^ 16 → word_sum (pre ++ [Z_byte (Z.shiftr v 8); Z_byte v] ++ post) = s + v ∧
    word_sum (pre ++ [Z_byte (Z.shiftr v 8); Z_byte v] ++ post) < 2 ^ 32) as Hw.
  { intros v Hv. split.
    - rewrite !word_sum_app, word_sum_pair by done. unfold s. lia.
    - apply word_sum_fits. rewrite !length_app. simpl. lia. }
  destruct (Hw 0 ltac:(lia)) as [E0 L0]. change [Z_byte (Z.shiftr 0 8); Z_byte 0] with [x00; x00] in *.
  assert (c = 65535 - onec_norm s) as Hc.
  { unfold c. rewrite icmpChecksum_norm by done. by rewrite E0, Z.add_0_r. }
  pose proof (onec_norm_range s ltac:(lia)). clearbody c.
  destruct (Hw c ltac:(lia)) as [E L]. rewrite icmpChecksum_norm, E by done.
  rewrite <- onec_norm_add by lia. rewrite Hc. replace (onec_norm s + _) with 65535 by lia. done.
Qed.

(** The identifier and sequence fields of the request. *)
Definition echo_rest (pid : Z) : bytes :=
  [Z_byte (Z.shiftr (wrapu 16 pid) 8); Z_byte (wrapu 16 pid); x00; x01] ++ probeData.

(** C39. Every buffer with room for 20 bytes gets, in its first 20, an echo request
    with the low 16 bits of the process id, sequence number 1, the payload
    and a checksum under which the receiver's check succeeds, whatever was in
    the buffer; the bytes after it are untouched.  A shorter buffer panics. *)
Theorem echo_request_wellformed (pid : Z) (dst : bytes) :
  ((length dst < 20)%nat ∧ buildEchoRequest pid dst = None) ∨
  (∃ c1 c2, buildEchoRequest pid dst = Some ([x08; x00; c1; c2] ++ echo_rest pid ++ drop 20 dst) ∧
     icmpChecksum ([x08; x00; c1; c2] ++ echo_rest pid) = 0).
Proof.
  unfold buildEchoRequest, icmpEchoSize. destruct (Nat.ltb_spec (length dst) 20) as [?|Hlen]; [by left|].
  right. do 20 (destruct dst as [|? dst]; [simpl in Hlen; lia|]). clear Hlen.
  assert (wrapu 16 (Z.land pid icmpIDMask) = wrapu 16 pid) as Hid.
  { unfold wrapu, icmpIDMask. change 65535 with (Z.ones 16). rewrite Z.land_ones by lia. apply Zmod_mod. }
  rewrite Hid. set (c := icmpChecksum ([x08; x00; x00; x00] ++ echo_rest pid)).
  exists (Z_byte (Z.shiftr c 8)), (Z_byte c). split; [reflexivity|].
  apply (checksum_verifies [x08; x00] (echo_rest pid)); [done|]. z_compute.
Qed.

(** ** One probe *)

(** [golang.org/x/net/icmp] and [ipv4]: the message type of a parsed reply and
    its name.  A message whose first byte is 0 and that has a whole ICMP header
    is an echo reply. *)
Definition ICMPTypeEchoReply : Z := 0.

Class Icmp := {
  ParseMessage : Z → bytes → result string Z;
  ICMPType_String : Z → string;
  ParseMessage_echo_reply b :
    (8 ≤ length b)%nat → head b = Some x00 → ParseMessage icmpProtocol b = Ok ICMPTypeEchoReply
}.

(** What one probe meets: the process id, the context at its two checks and its
    deadline, the outcome of every socket call, and the clock readings. *)
Record ProbeEnv := {
  pe_pid : Z;
  pe_ctx : Ctx;
  pe_ctx_read : Ctx;
  pe_deadline : option Z;
  pe_listen : result string ();
  pe_resolve : string → result string IP.t;
  pe_write : bytes → IP.t → result string ();
  pe_set_deadline : Z → result string ();
  (** The datagram received, and its sender. *)
  pe_read : Z → result string (bytes * IP.t);
  pe_now : Z;
  pe_start : Z;
  pe_sent : Z;
  pe_end : Z
}.

(** What the probe does to the socket. *)
Inductive IcmpEvent :=
| EvListen
| EvSend (msg : bytes) (dst : IP.t)
| EvRead (deadline : Z)
| EvClose.

Section Probe.
Context `{Icmp}.

Definition failed (result : ProbeResult) (err : string) : ProbeResult :=
  {| pr_Target := pr_Target result; pr_Success := pr_Success result; pr_RTT := pr_RTT result;
     pr_Error := err; pr_Timestamp := pr_Timestamp result |}.

(** The sooner of the caller's timeout and the context's deadline. *)
Definition read_deadline (e : ProbeEnv) (timeout : Z) : Z :=
  let deadline := GoTime.Add (pe_sent e) timeout in
  match pe_deadline e with
  | Some d => if GoTime.Before d deadline then d else deadline
  | None => deadline
  end.

Definition Probe (e : ProbeEnv) (target : string) (timeout : Z) : ProbeResult * list IcmpEvent :=
  let result := {| pr_Target := target; pr_Success := false; pr_RTT := 0; pr_Error := "";
                   pr_Timestamp := pe_now e |} in
  match pe_ctx e with
  | Some err => (failed result ("cancelled: " +:+ CtxErr_Error err), [])
  | None =>
  match pe_listen e with
  | Err err => (failed result ("failed to listen: " +:+ err), [])
  | Ok _ =>
  match pe_resolve e target with
  | Err err => (failed result ("failed to resolve " +:+ target +:+ ": " +:+ err), [EvListen; EvClose])
  | Ok dst =>
  let msgBytes := default [] (buildEchoRequest (pe_pid e) (replicate icmpEchoSize x00)) in
  match pe_write e msgBytes dst with
  | Err err => (failed result ("failed to send ICMP: " +:+ err), [EvListen; EvSend msgBytes dst; EvClose])
  | Ok _ =>
  let deadline := read_deadline e timeout in
  match pe_set_deadline e deadline with
  | Err err => (failed result ("failed to set deadline: " +:+ err), [EvListen; EvSend msgBytes dst; EvClose])
  | Ok _ =>
  let evs := [EvListen; EvSend msgBytes dst; EvRead deadline; EvClose] in
  match pe_read e deadline with
  | Err err =>
      match pe_ctx_read e with
      | Some cerr => (failed result ("cancelled: " +:+ CtxErr_Error cerr), evs)
      | None => (failed result ("failed to receive reply: " +:+ err), evs)
      end
  | Ok (reply, _) =>
  let rtt := GoTime.Since (pe_end e) (pe_start e) in
  match ParseMessage icmpProtocol (take defaultMTU reply) with
  | Err err => (failed result ("failed to parse reply: " +:+ err), evs)
  | Ok ty =>
      if ty =? ICMPTypeEchoReply then
        ({| pr_Target := target; pr_Success := true; pr_RTT := rtt; pr_Error := "";
            pr_Timestamp := pe_now e |}, evs)
      else (failed result ("unexpected ICMP type: " +:+ ICMPType_String ty), evs)
  end end end end end end end.

(** The request a probe sends. *)
Definition echo_request (pid : Z) : bytes :=
  default [] (buildEchoRequest pid (replicate icmpEchoSize x00)).

(** The probe got as far as reading a reply. *)
Definition received (e : ProbeEnv) (target : string) (timeout : Z) (reply : bytes) (dst from : IP.t) : Prop :=
  pe_ctx e = None ∧ pe_listen e = Ok () ∧ pe_resolve e target = Ok dst ∧
  pe_write e (echo_request (pe_pid e)) dst = Ok () ∧
  pe_set_deadline e (read_deadline e timeout) = Ok () ∧
  pe_read e (read_deadline e timeout) = Ok (reply, from).

(** C36. A probe succeeds exactly when a reply was read that parses as an echo
    reply; then the round-trip time is the time between sending and reading
    and there is no error text, otherwise there is an error text and no time.
    The result names the target, the socket is closed on every path, what is
    sent is the echo request to the resolved address, and the read never waits
    past the context's deadline or the timeout. *)
Theorem probe_outcome (e : ProbeEnv) (target : string) (timeout : Z) :
  let '(r, evs) := Probe e target timeout in
  pr_Target r = target ∧ pr_Timestamp r = pe_now e ∧
  (pr_Success r = true ↔ ∃ reply dst from, received e target timeout reply dst from ∧
     ParseMessage icmpProtocol (take defaultMTU reply) = Ok ICMPTypeEchoReply) ∧
  (if pr_Success r then pr_Error r = "" ∧ pr_RTT r = GoTime.Since (pe_end e) (pe_start e)
   else pr_Error r ≠ "" ∧ pr_RTT r = 0) ∧
  (evs = [] ∨ head evs = Some EvListen ∧ last evs = Some EvClose ∧ pe_listen e = Ok ()) ∧
  (∀ d, EvRead d ∈ evs → d ≤ pe_sent e + timeout ∧ ∀ c, pe_deadline e = Some c → d ≤ c) ∧
  (∀ m d, EvSend m d ∈ evs → m = echo_request (pe_pid e) ∧ pe_resolve e target = Ok d).
Proof.
  assert (read_deadline e timeout ≤ pe_sent e + timeout ∧
    ∀ c, pe_deadline e = Some c → read_deadline e timeout ≤ c) as Hdl.
  { unfold read_deadline, GoTime.Before, GoTime.Add. split; intros; case_match; simplify_eq; try lia;
      case_match; bool_to_prop; lia. }
  unfold Probe, received. fold (echo_request (pe_pid e)).
  repeat case_match; bool_to_prop; repeat match goal with u : () |- _ => destruct u end;
    simplify_eq/=; split_and!; auto; try done.
  all: try (intros; repeat match goal with
    | Hin : _ ∈ _ :: _ |- _ => apply elem_of_cons in Hin as [Hin|Hin]; simplify_eq
    | Hin : _ ∈ [] |- _ => by apply elem_of_nil in Hin end; auto; fail).
  all: split; [try done|]; try (intros (? & ? & ? & Hr & Hp); destruct_and! Hr; congruence).
  intros _. naive_solver.
Qed.

Lemma Probe_target e target timeout : pr_Target (Probe e target timeout).1 = target.
Proof. unfold Probe. by repeat case_match. Qed.

(** The identifier, the sequence number and the sender of a reply are not
    examined: any echo reply that reaches the socket, for another process or
    from another host, makes the probe succeed. *)
Theorem probe_accepts_any_reply (e : ProbeEnv) (target : string) (timeout : Z)
  (reply : bytes) (dst from : IP.t)
  (Hrecv : received e target timeout reply dst from)
  (Hlen : (8 ≤ length reply)%nat) (Htype : head reply = Some x00) :
  pr_Success (Probe e target timeout).1 = true.
Proof.
  destruct Hrecv as (H1 & H2 & H3 & H4 & H5 & H6).
  unfold Probe. fold (echo_request (pe_pid e)). rewrite H1, H2, H3, H4, H5, H6.
  rewrite ParseMessage_echo_reply; [done|rewrite length_take; unfold defaultMTU; lia|].
  by destruct reply.
Qed.

End Probe.

(** ** Repeated probes *)

(** [make([]ProbeResult, 0, n)] panics for a negative capacity and for one that
    exceeds the address space (72 bytes per element, 48 bits of addresses). *)
Definition makeslice_ok (n : Z) : bool := (0 <=? n) && (72 * n <=? 2 ^ 48).

(** One round of the loop: the context at its check, the probe, and how the
    sleep after it ended ([None] when the timer fired). *)
Record Round := { rd_ctx : Ctx; rd_probe : ProbeEnv; rd_sleep : Ctx }.

Section Multiple.
Context `{Icmp}.
Context (target : string) (timeout threshold : Z).

(** The rounds from number [i] on, [n] of them left. *)
Fixpoint probe_rounds (rounds : nat → Round) (n i : nat) (results : list ProbeResult) (successes : Z)
  : bool * list ProbeResult :=
  match n with
  | O => (threshold <=? successes, results)
  | S n =>
      match rd_ctx (rounds i) with
      | Some _ => (false, results)
      | None =>
          let result := (Probe (rd_probe (rounds i)) target timeout).1 in
          let results := results ++ [result] in
          let successes := if pr_Success result then successes + 1 else successes in
          if (0 <? n)%nat then
            match rd_sleep (rounds i) with
            | Some _ => (false, results)
            | None => probe_rounds rounds n (S i) results successes
            end
          else probe_rounds rounds n (S i) results successes
      end
  end.

(** [None] is the panic of [make]. *)
Definition ProbeMultiple (rounds : nat → Round) (count : Z) : option (bool * list ProbeResult) :=
  if makeslice_ok count then Some (probe_rounds rounds (Z.to_nat count) 0 [] 0) else None.

(** The results of the rounds [i], ..., [i + n - 1] when nothing is cancelled. *)
Definition round_results (rounds : nat → Round) (i n : nat) : list ProbeResult :=
  (λ j, (Probe (rd_probe (rounds j)) target timeout).1) <$> seq i n.

Definition successes_of (l : list ProbeResult) : Z := Z.of_nat (length (filter (λ r, pr_Success r = true) l)).

(** Round [j] is reached and does not return early, with [n] rounds in all. *)
Definition uncancelled (rounds : nat → Round) (n j : nat) : Prop :=
  rd_ctx (rounds j) = None ∧ (S j < n → rd_sleep (rounds j) = None)%nat.

Lemma successes_of_snoc l r :
  successes_of (l ++ [r]) = if pr_Success r then successes_of l + 1 else successes_of l.
Proof.
  unfold successes_of. rewrite filter_app, length_app.
  destruct (pr_Success r) eqn:E; [rewrite filter_cons_True by done|rewrite filter_cons_False by congruence];
    simpl; lia.
Qed.

Lemma probe_rounds_spec rounds n i :
  let res := probe_rounds rounds n i (round_results rounds 0 i) (successes_of (round_results rounds 0 i)) in
  ((∀ j, (i ≤ j < i + n)%nat → uncancelled rounds (i + n) j) ∧
   res = (threshold <=? successes_of (round_results rounds 0 (i + n)), round_results rounds 0 (i + n))) ∨
  (∃ k, (i ≤ k ≤ i + n)%nat ∧ (∃ j, (i ≤ j < i + n)%nat ∧ ¬ uncancelled rounds (i + n) j) ∧
   res = (false, round_results rounds 0 k)).
Proof.
  revert i. induction n as [|n IH]; intros i; cbn [probe_rounds].
  { left. rewrite Nat.add_0_r. split; [lia|done]. }
  destruct (rd_ctx (rounds i)) eqn:Ec.
  { right. exists i. split; [lia|]. split; [|done]. exists i. split; [lia|]. intros [Hu _]. congruence. }
  set (r := (Probe (rd_probe (rounds i)) target timeout).1).
  assert (round_results rounds 0 i ++ [r] = round_results rounds 0 (S i)) as ->.
  { unfold round_results. rewrite seq_S, fmap_app. done. }
  assert ((if pr_Success r then successes_of (round_results rounds 0 i) + 1
           else successes_of (round_results rounds 0 i)) = successes_of (round_results rounds 0 (S i))) as ->.
  { unfold round_results. rewrite seq_S, fmap_app. simpl. by rewrite successes_of_snoc. }
  specialize (IH (S i)). replace (S i + n)%nat with (i + S n)%nat in IH by lia. cbv zeta in IH.
  assert (uncancelled rounds (i + S n) i → ((∀ j, (S i ≤ j < i + S n)%nat → uncancelled rounds (i + S n) j) →
    ∀ j, (i ≤ j < i + S n)%nat → uncancelled rounds (i + S n) j)) as Hstep.
  { intros Hi Hj j ?. destruct (decide (j = i)) as [->|]; [done|]. apply Hj. lia. }
  assert (uncancelled rounds (i + S n) i → let res := probe_rounds rounds n (S i)
    (round_results rounds 0 (S i)) (successes_of (round_results rounds 0 (S i))) in
    ((∀ j, (i ≤ j < i + S n)%nat → uncancelled rounds (i + S n) j) ∧
     res = (threshold <=? successes_of (round_results rounds 0 (i + S n)), round_results rounds 0 (i + S n))) ∨
    (∃ k, (i ≤ k ≤ i + S n)%nat ∧ (∃ j, (i ≤ j < i + S n)%nat ∧ ¬ uncancelled rounds (i + S n) j) ∧
     res = (false, round_results rounds 0 k))) as Hgo.
  { intros Hi. destruct IH as [[Hall Hres]|(k & Hk & (j & Hj & Hn) & Hres)]; [left; auto|right].
    exists k. split; [lia|]. split; [|done]. exists j. split; [lia|done]. }
  destruct (Nat.ltb_spec 0 n); [|apply Hgo; split; [done|lia]].
  destruct (rd_sleep (rounds i)) eqn:Es; [|apply Hgo; done].
  right. exists (S i). split; [lia|]. split; [|done]. exists i. split; [lia|].
  intros [_ Hu]. rewrite Hu in Es by lia. done.
Qed.

(** [ProbeMultiple] panics exactly for a count outside what [make] accepts,
    which includes every negative one.  Otherwise, if no check of the context
    fires, it returns the results of [count] probes in order and whether at
    least [threshold] of them succeeded; if one does, it returns false with the
    results of a prefix of the rounds. *)
Theorem probe_multiple_threshold (rounds : nat → Round) (count : Z) :
  let n := Z.to_nat count in
  let all := round_results rounds 0 n in
  (makeslice_ok count = false ∧ ProbeMultiple rounds count = None) ∨
  (0 ≤ count ∧ length all = n ∧ (∀ j, (j < n)%nat → uncancelled rounds n j) ∧
   ProbeMultiple rounds count = Some (threshold <=? successes_of all, all)) ∨
  (0 ≤ count ∧ (∃ j, (j < n)%nat ∧ ¬ uncancelled rounds n j) ∧
   ∃ k, (k ≤ n)%nat ∧ ProbeMultiple rounds count = Some (false, take k all)).
Proof.
  intros n all. unfold ProbeMultiple. destruct (makeslice_ok count) eqn:Hm; [|by left].
  right. unfold makeslice_ok in Hm. bool_to_prop. fold n.
  change (probe_rounds rounds n 0 [] 0) with (probe_rounds rounds n 0 (round_results rounds 0 0)
    (successes_of (round_results rounds 0 0))).
  destruct (probe_rounds_spec rounds n 0) as [[Hall Hres]|(k & Hk & (j & Hj & Hn) & Hres)]; cbv zeta in Hres.
  - left. split_and!; [lia| | |by rewrite Hres].
    + unfold all, round_results. by rewrite length_fmap, length_seq.
    + intros j Hj. apply Hall. lia.
  - right. split; [lia|]. split; [exists j; split; [lia|done]|]. exists k. split; [lia|].
    rewrite Hres. f_equal. f_equal. unfold all, round_results. rewrite <- fmap_take, take_seq. f_equal. f_equal. lia.
Qed.

End Multiple.

(** ** Witnesses *)
Module HealthDemo.

(** A parser of the fixed header: type and length only. *)
Definition parse (proto : Z) (b : bytes) : result string Z :=
  match b with
  | ty :: _ :: _ :: _ :: body =>
      if (byte_Z ty =? 0) && (length body <? 4)%nat then Err "message too short" else Ok (byte_Z ty)
  | _ => Err "message too short"
  end.
#[export] Instance icmp : Icmp.
Proof.
  refine {| ParseMessage := parse; ICMPType_String _ := "type" |}.
  intros b Hlen Hhd. do 8 (destruct b as [|? b]; [simpl in Hlen; lia|]).
  simpl in Hhd. injection Hhd as ->. reflexivity.
Defined.

Definition dst : IP.t := IP.IPv4 10 0 0 2.
(** An echo reply with identifier 0x4242, from another host. *)
Definition foreign : bytes := [x00; x00; x00; x00; x42; x42; x00; x09].
Definition env : ProbeEnv :=
  {| pe_pid := 1; pe_ctx := None; pe_ctx_read := None; pe_deadline := Some 90; pe_listen := Ok ();
     pe_resolve _ := Ok dst; pe_write _ _ := Ok (); pe_set_deadline _ := Ok ();
     pe_read _ := Ok (foreign, IP.IPv4 10 9 9 9); pe_now := 10; pe_start := 11; pe_sent := 12; pe_end := 42 |}.

Lemma icmp_checksum_rfc1071_witness :
  icmpChecksum [x45; x00; xff; xff; x01] = 0xffff - onec_sum [x45; x00; xff; xff; x01].
Proof. apply (icmp_checksum_rfc1071 [x45; x00; xff; xff; x01]). z_compute. Defined.

Lemma probe_accepts_any_reply_witness : pr_Success (Probe env "10.0.0.2" 100).1 = true.
Proof.
  apply (probe_accepts_any_reply env "10.0.0.2" 100 foreign dst (IP.IPv4 10 9 9 9)).
  - repeat split; reflexivity.
  - simpl. lia.
  - reflexivity.
Defined.

End HealthDemo.
