(* ===== verification/ProbePool.v ===== *)
(** * The probe worker pool ([ProbeTargets] of [internal/health/probe.go])

    One goroutine per target, a buffered channel as semaphore, a mutex around
    the result map and a wait group.  A [Pool] is the state they share together
    with where each goroutine stands; one step is one operation that another
    goroutine can observe, in any order.  The context may be cancelled at any
    moment.  [pl_probes] is a history variable: what the probe of each goroutine
    met, so that a result can be traced to the probe it came from. *)

From S2P Require Import Prelude.
From S2P Require Import GoSlice.
From S2P Require Import Health.

(** Where the goroutine of a target stands. *)
Inductive Worker :=
| WAcquire (t : string)                       (* at the select on [sem] and [ctx.Done()] *)
| WProbe (t : string)                         (* holds a slot, runs [Probe] *)
| WStore (t : string) (r : ProbeResult)       (* holds a slot, wants [mu] *)
| WRelease (t : string)                       (* holds a slot, at the deferred [<-sem] *)
| WCancelled (t : string) (r : ProbeResult)   (* gave up, wants [mu] *)
| WExit (t : string)                          (* at the deferred [wg.Done()] *)
| WDone (t : string).

Definition worker_target (w : Worker) : string :=
  match w with
  | WAcquire t | WProbe t | WStore t _ | WRelease t | WCancelled t _ | WExit t | WDone t => t
  end.

Definition holds_slot (w : Worker) : bool :=
  match w with WProbe _ | WStore _ _ | WRelease _ => true | _ => false end.
Definition running (w : Worker) : bool := match w with WDone _ => false | _ => true end.
Definition has_stored (w : Worker) : bool :=
  match w with WRelease _ | WExit _ | WDone _ => true | _ => false end.

Record Pool := MkPool {
  pl_ctx : Ctx;
  pl_pending : list string;       (* targets the loop has not reached *)
  pl_workers : list Worker;
  pl_sem : nat;                   (* elements in the channel [sem] *)
  pl_wg : nat;
  pl_results : gmap string ProbeResult;
  pl_probes : gmap nat ProbeEnv   (* by the number of the goroutine *)
}.

(** The number of slots: [concurrency], or one per target when it is out of
    range. *)
Definition pool_cap (concurrency : Z) (targets : list string) : nat :=
  let n := length targets in
  if (concurrency <=? 0) || (Z.of_nat n <? concurrency) then n else Z.to_nat concurrency.

Definition init_pool (ctx : Ctx) (targets : list string) : Pool :=
  MkPool ctx targets [] 0 0 ∅ ∅.

(** [wg.Wait()] returns and the loop is over. *)
Definition pool_final (c : Pool) : Prop := pl_pending c = [] ∧ pl_wg c = 0%nat.

Definition cancelled_result (t : string) (e : CtxErr) (now : Z) : ProbeResult :=
  {| pr_Target := t; pr_Success := false; pr_RTT := 0;
     pr_Error := "cancelled: " +:+ CtxErr_Error e; pr_Timestamp := now |}.

(** What an earlier look at a context that is now [ctx] can have shown. *)
Definition seen_before (ctx seen : Ctx) : Prop := seen = None ∨ seen = ctx.

Section Pool.
Context `{Icmp}.
Context (timeout : Z) (cap : nat).

(** Goroutine [i] moves to [w]. *)
Definition move (i : nat) (w : Worker) (c : Pool) : list Worker := <[i := w]> (pl_workers c).

Inductive pool_step (c : Pool) : Pool → Prop :=
| PDispatch t ts :
    pl_ctx c = None → pl_pending c = t :: ts →
    pool_step c (MkPool (pl_ctx c) ts (pl_workers c ++ [WAcquire t]) (pl_sem c) (S (pl_wg c))
      (pl_results c) (pl_probes c))
| PSkip e t ts :
    pl_ctx c = Some e → pl_pending c = t :: ts →
    pool_step c (MkPool (pl_ctx c) [] (pl_workers c) (pl_sem c) (pl_wg c) (pl_results c)
      (pl_probes c))
| PAcquire i t :
    pl_workers c !! i = Some (WAcquire t) → (pl_sem c < cap)%nat →
    pool_step c (MkPool (pl_ctx c) (pl_pending c) (move i (WProbe t) c) (S (pl_sem c)) (pl_wg c)
      (pl_results c) (pl_probes c))
| PGiveUp i t e now :
    pl_workers c !! i = Some (WAcquire t) → pl_ctx c = Some e →
    pool_step c (MkPool (pl_ctx c) (pl_pending c) (move i (WCancelled t (cancelled_result t e now)) c)
      (pl_sem c) (pl_wg c) (pl_results c) (pl_probes c))
| PProbe i t env :
    pl_workers c !! i = Some (WProbe t) →
    seen_before (pl_ctx c) (pe_ctx env) → seen_before (pl_ctx c) (pe_ctx_read env) →
    pool_step c (MkPool (pl_ctx c) (pl_pending c) (move i (WStore t (Probe env t timeout).1) c)
      (pl_sem c) (pl_wg c) (pl_results c) (<[i := env]> (pl_probes c)))
| PStore i t r :
    pl_workers c !! i = Some (WStore t r) →
    pool_step c (MkPool (pl_ctx c) (pl_pending c) (move i (WRelease t) c)
      (pl_sem c) (pl_wg c) (<[t := r]> (pl_results c)) (pl_probes c))
| PStoreCancelled i t r :
    pl_workers c !! i = Some (WCancelled t r) →
    pool_step c (MkPool (pl_ctx c) (pl_pending c) (move i (WExit t) c)
      (pl_sem c) (pl_wg c) (<[t := r]> (pl_results c)) (pl_probes c))
| PRelease i t :
    pl_workers c !! i = Some (WRelease t) → (0 < pl_sem c)%nat →
    pool_step c (MkPool (pl_ctx c) (pl_pending c) (move i (WExit t) c)
      (pl_sem c - 1) (pl_wg c) (pl_results c) (pl_probes c))
| PExit i t :
    pl_workers c !! i = Some (WExit t) →
    pool_step c (MkPool (pl_ctx c) (pl_pending c) (move i (WDone t) c)
      (pl_sem c) (pl_wg c - 1) (pl_results c) (pl_probes c)).

(** The goroutines, or the context's owner. *)
Inductive pool_move (c : Pool) : Pool → Prop :=
| PWork c' : pool_step c c' → pool_move c c'
| PCancel e : pl_ctx c = None →
    pool_move c (MkPool (Some e) (pl_pending c) (pl_workers c) (pl_sem c) (pl_wg c) (pl_results c)
      (pl_probes c)).

(** ** Termination: every step uses up work *)

Definition work_left (w : Worker) : nat :=
  match w with
  | WAcquire _ => 5 | WProbe _ => 4 | WStore _ _ => 3
  | WRelease _ => 2 | WCancelled _ _ => 2 | WExit _ => 1 | WDone _ => 0
  end.

Definition pool_work (c : Pool) : nat :=
  6 * length (pl_pending c) + sum_list_with work_left (pl_workers c) +
  match pl_ctx c with Some _ => 0 | None => 1 end.

Lemma sum_list_insert (f : Worker → nat) l i w w' :
  l !! i = Some w → (sum_list_with f (<[i := w']> l) + f w = sum_list_with f l + f w')%nat.
Proof. revert i. induction l as [|x l IH]; intros [|i] Hi; simplify_eq/=; [lia|]. specialize (IH i Hi). lia. Qed.

(** Replaces the sums over moved workers of the goal by what they were. *)
Ltac count_moved f Hi :=
  unfold move; match goal with
  | |- context [sum_list_with f (<[?i := ?w]> ?l)] =>
      pose proof (sum_list_insert f l i _ w Hi); simpl in *
  end.

Lemma pool_move_work c c' : pool_move c c' → (pool_work c' < pool_work c)%nat.
Proof.
  unfold pool_work. destruct 1 as [c' Hs|e He]; [|rewrite He; simpl; lia].
  destruct Hs as [?? Hc Hp|??? Hc Hp|?? Hi|???? Hi|??? Hi|??? Hi|??? Hi|?? Hi|?? Hi]; simpl;
    try (count_moved work_left Hi; lia).
  - rewrite Hp, sum_list_with_app. simpl. lia.
  - rewrite Hp. simpl. lia.
Qed.

(** ** The invariant *)

Definition count_of (p : Worker → bool) (l : list Worker) : nat := sum_list_with (λ w, Nat.b2n (p w)) l.

(** The result [r] of goroutine [i] for its target [t]: what [Probe] makes of what
    its probe met, or the cancellation it saw instead of probing. *)
Definition outcome (ctx : Ctx) (probes : gmap nat ProbeEnv) (i : nat) (t : string) (r : ProbeResult) : Prop :=
  match probes !! i with
  | Some env => r = (Probe env t timeout).1
  | None => ∃ e now, ctx = Some e ∧ r = cancelled_result t e now
  end.

Definition worker_ok (ctx : Ctx) (probes : gmap nat ProbeEnv) (i : nat) (w : Worker) : Prop :=
  match w with
  | WAcquire _ | WProbe _ => probes !! i = None
  | WStore t r | WCancelled t r => outcome ctx probes i t r
  | WRelease _ | WExit _ | WDone _ => ctx = None → is_Some (probes !! i)
  end.

Record pool_wf (targets : list string) (c : Pool) : Prop := {
  pw_sem : pl_sem c = count_of holds_slot (pl_workers c);
  pw_cap : (pl_sem c ≤ cap)%nat;
  pw_wg : pl_wg c = count_of running (pl_workers c);
  pw_order : ∃ skipped, targets = (worker_target <$> pl_workers c) ++ pl_pending c ++ skipped ∧
    (pl_ctx c = None → skipped = []) ∧ (skipped ≠ [] → pl_pending c = []);
  pw_workers i w : pl_workers c !! i = Some w → worker_ok (pl_ctx c) (pl_probes c) i w;
  pw_probes i : is_Some (pl_probes c !! i) → (i < length (pl_workers c))%nat;
  pw_results t r : pl_results c !! t = Some r → ∃ i w, pl_workers c !! i = Some w ∧
    has_stored w = true ∧ worker_target w = t ∧ outcome (pl_ctx c) (pl_probes c) i t r;
  pw_stored i w : pl_workers c !! i = Some w → has_stored w = true → is_Some (pl_results c !! worker_target w)
}.

Lemma init_pool_wf ctx targets : pool_wf targets (init_pool ctx targets).
Proof.
  split; simpl; [done|lia|done| |done|..].
  - exists []. rewrite app_nil_r. naive_solver.
  - intros i []%lookup_empty_is_Some.
  - intros t r. by rewrite lookup_empty.
  - done.
Qed.

Lemma move_targets (l : list Worker) (i : nat) w w' :
  l !! i = Some w → worker_target w' = worker_target w →
  worker_target <$> <[i := w']> l = worker_target <$> l.
Proof.
  intros Hi Ht. rewrite list_fmap_insert, Ht. apply list_insert_id.
  by rewrite list_lookup_fmap, Hi.
Qed.

(** The other goroutines see neither a move of goroutine [i] nor its probe. *)
Lemma outcome_other ctx probes probes' i t r :
  probes' !! i = probes !! i → outcome ctx probes i t r → outcome ctx probes' i t r.
Proof. unfold outcome. by intros ->. Qed.

Lemma worker_ok_other ctx probes probes' i w :
  probes' !! i = probes !! i → worker_ok ctx probes i w → worker_ok ctx probes' i w.
Proof. unfold worker_ok, outcome. by intros ->. Qed.

(** A goroutine moves and the counters follow. *)
Lemma move_wf targets c i w w' sem' wg' res' probes' :
  pool_wf targets c → pl_workers c !! i = Some w → worker_target w' = worker_target w →
  worker_ok (pl_ctx c) probes' i w' →
  (∀ j, j ≠ i ∨ has_stored w = true → probes' !! j = pl_probes c !! j) →
  (sem' + Nat.b2n (holds_slot w) = pl_sem c + Nat.b2n (holds_slot w'))%nat → (sem' ≤ cap)%nat →
  (wg' + Nat.b2n (running w) = pl_wg c + Nat.b2n (running w'))%nat →
  (has_stored w' = has_stored w ∧ res' = pl_results c) ∨
  (has_stored w' = true ∧ ∃ r, outcome (pl_ctx c) probes' i (worker_target w) r ∧
     res' = <[worker_target w := r]> (pl_results c)) →
  pool_wf targets (MkPool (pl_ctx c) (pl_pending c) (move i w' c) sem' wg' res' probes').
Proof.
  intros [Hsem Hcap Hwg Hord Hws Hpr Hres Hst] Hi Ht Hok Hsame Es Ec Ew Hr.
  assert (i < length (pl_workers c))%nat as Hlt by (by apply lookup_lt_is_Some; eauto).
  assert (∀ j v, move i w' c !! j = Some v → j = i ∧ v = w' ∨ j ≠ i ∧ pl_workers c !! j = Some v) as Hmoved.
  { intros j v Hj. unfold move in Hj. destruct (decide (j = i)) as [->|Hne].
    - rewrite list_lookup_insert_eq in Hj by done. simplify_eq. by left.
    - rewrite list_lookup_insert_ne in Hj by done. by right. }
  split; simpl.
  - pose proof (sum_list_insert (λ w, Nat.b2n (holds_slot w)) _ _ _ w' Hi).
    unfold move, count_of in *. lia.
  - done.
  - pose proof (sum_list_insert (λ w, Nat.b2n (running w)) _ _ _ w' Hi). unfold move, count_of in *. lia.
  - destruct Hord as (sk & ? & ? & ?). exists sk. unfold move. by rewrite (move_targets _ _ _ _ Hi Ht).
  - intros j v [[-> ->]|[Hne Hj]]%Hmoved; [done|]. eapply worker_ok_other; [by apply Hsame; left|by apply Hws].
  - intros j. unfold move. rewrite length_insert. destruct (decide (j = i)) as [->|Hne]; [done|].
    rewrite Hsame by (by left). apply Hpr.
  - assert (∀ t r, pl_results c !! t = Some r → has_stored w' = true ∨ has_stored w' = has_stored w →
      ∃ j v, move i w' c !! j = Some v ∧ has_stored v = true ∧ worker_target v = t ∧
        outcome (pl_ctx c) probes' j t r) as Hold.
    { intros t r (j & v & Hj & Hs & E & Ho)%Hres Hstay. unfold move. destruct (decide (j = i)) as [->|Hne].
      - simplify_eq. exists i, w'. rewrite list_lookup_insert_eq by done. split_and!; [done|destruct Hstay; congruence|done|].
        eapply outcome_other; [|done]. apply Hsame. by right.
      - exists j, v. rewrite list_lookup_insert_ne by done. split_and!; try done.
        eapply outcome_other; [|done]. apply Hsame. by left. }
    destruct Hr as [[E ->]|(E & r & Hr & ->)]; intros t r' Hl; [by apply Hold; [|right]|].
    destruct (decide (worker_target w = t)) as [<-|]; [|rewrite lookup_insert_ne in Hl by done; by apply Hold; [|left]].
    rewrite lookup_insert_eq in Hl. injection Hl as <-. exists i, w'. unfold move.
    by rewrite list_lookup_insert_eq by done.
  - intros j v Hj Hs. assert (∀ t, is_Some (pl_results c !! t) → is_Some (res' !! t)) as Hmono.
    { intros t Hsome. destruct Hr as [[_ ->]|(_ & r & _ & ->)]; [done|].
      destruct (decide (worker_target w = t)) as [<-|]; [rewrite lookup_insert_eq|rewrite lookup_insert_ne by done]; eauto. }
    apply Hmoved in Hj as [[-> ->]|[Hne Hj]]; [|by eapply Hmono, Hst].
    rewrite Ht. destruct Hr as [[E _]|(_ & r & _ & ->)]; [by eapply Hmono, Hst; [|congruence]|].
    rewrite lookup_insert_eq. eauto.
Qed.

Lemma count_of_snoc p l w : count_of p (l ++ [w]) = (count_of p l + Nat.b2n (p w))%nat.
Proof. unfold count_of. rewrite sum_list_with_app. simpl. lia. Qed.

Lemma outcome_probed ctx probes i t r : outcome ctx probes i t r → ctx = None → is_Some (probes !! i).
Proof. unfold outcome. destruct (probes !! i); [eauto|]. naive_solver. Qed.

(** The first target is dispatched. *)
Lemma dispatch_wf targets c t ts :
  pool_wf targets c → pl_ctx c = None → pl_pending c = t :: ts →
  pool_wf targets (MkPool (pl_ctx c) ts (pl_workers c ++ [WAcquire t]) (pl_sem c) (S (pl_wg c))
    (pl_results c) (pl_probes c)).
Proof.
  intros [Hsem Hcap Hwg (sk & Ho & Hsk & _) Hws Hpr Hres Hst] Hc Hp.
  assert (∀ i w, (pl_workers c ++ [WAcquire t]) !! i = Some w →
    pl_workers c !! i = Some w ∨ i = length (pl_workers c) ∧ w = WAcquire t) as Hsnoc.
  { intros i w [?|[? Hl]]%lookup_app_Some; [by left|]. apply list_lookup_singleton_Some in Hl as [? <-].
    right. split; [lia|done]. }
  split; simpl; try done.
  - by rewrite count_of_snoc, <- Hsem, Nat.add_0_r.
  - rewrite count_of_snoc, <- Hwg. simpl. lia.
  - exists sk. rewrite Ho, Hp, fmap_app, (Hsk Hc). split_and!; [|done|done]. by rewrite <- !app_assoc.
  - intros i w [Hi|[-> ->]]%Hsnoc; [by apply Hws|]. simpl. apply eq_None_not_Some. intros Hs%Hpr. lia.
  - intros i Hs%Hpr. rewrite length_app. simpl. lia.
  - intros u r (i & w & Hi & Hw)%Hres. exists i, w. split; [by apply lookup_app_l_Some|done].
  - intros i w [Hi|[-> ->]]%Hsnoc Hs; [by eapply Hst|done].
Qed.

Lemma pool_step_wf targets c c' : pool_wf targets c → pool_step c c' → pool_wf targets c'.
Proof.
  intros Hwf Hs. pose proof (pw_cap _ _ Hwf) as Hcap. pose proof (pw_workers _ _ Hwf) as Hok.
  destruct Hs as [t ts Hc Hp|e t ts Hc Hp|i t Hi|i t e now Hi He|i t env Hi|i t r Hi|i t r Hi|i t Hi|i t Hi];
    try (pose proof (Hok _ _ Hi) as Hw; eapply (move_wf _ _ _ _ _ _ _ _ _ Hwf Hi); simpl in *; auto; try lia).
  - by apply dispatch_wf.
  - destruct Hwf as [? _ ? (sk & Ho & Hsk & Hne) ? ? ? ?]. split; simpl; try done.
    exists (pl_pending c ++ sk). rewrite Hc. naive_solver.
  - unfold outcome. rewrite Hw. eauto.
  - unfold outcome. by rewrite lookup_insert_eq.
  - intros j [Hj|?]; [by rewrite lookup_insert_ne|done].
  - by eapply outcome_probed.
  - right. eauto.
  - by eapply outcome_probed.
  - right. eauto.
  - rewrite (pw_wg _ _ Hwf). pose proof (sum_list_insert (λ w, Nat.b2n (running w)) _ _ _ (WDone t) Hi).
    unfold count_of. simpl in *. lia.
Qed.

Lemma pool_reach_wf targets ctx c :
  rtc pool_move (init_pool ctx targets) c → pool_wf targets c.
Proof.
  intros Hr. refine (rtc_ind_r (R := pool_move) (pool_wf targets) (init_pool ctx targets) _ _ _ Hr);
    [apply init_pool_wf|].
  intros a b _ [b' Hs|e He] Ha; [by eapply pool_step_wf|].
  destruct Ha as [? ? ? (sk & Ho & Hsk & ?) Hws ? Hres ?].
  assert (∀ i t r, outcome (pl_ctx a) (pl_probes a) i t r → outcome (Some e) (pl_probes a) i t r) as Hout.
  { unfold outcome. rewrite He. intros i t r. case_match; [done|]. naive_solver. }
  split; simpl; try done.
  - exists sk. split_and!; done.
  - intros i w Hi. specialize (Hws i w Hi). destruct w; simpl in *; eauto; done.
  - intros t r (i & w & ? & ? & ? & ?)%Hres. exists i, w. eauto.
Qed.


Lemma count_of_pos p l : count_of p l ≠ 0%nat → ∃ i w, l !! i = Some w ∧ p w = true.
Proof.
  induction l as [|x l IH]; [done|]. unfold count_of in *. simpl. destruct (p x) eqn:E.
  - intros _. by exists 0%nat, x.
  - intros Hne. destruct IH as (i & w & Hi & Hw); [done|]. by exists (S i), w.
Qed.

(** A goroutine past its select is never blocked. *)
Lemma worker_moves targets c i w :
  pool_wf targets c → pl_workers c !! i = Some w → running w = true → (∀ t, w ≠ WAcquire t) →
  ∃ c', pool_step c c'.
Proof.
  intros Hwf Hi Hrun Hna. destruct w as [t|t|t r|t|t r|t|t]; try done.
  - by destruct (Hna t).
  - eexists. apply (PProbe c i t {| pe_pid := 0; pe_ctx := None; pe_ctx_read := None; pe_deadline := None;
      pe_listen := Ok (); pe_resolve _ := Err ""; pe_write _ _ := Ok (); pe_set_deadline _ := Ok ();
      pe_read _ := Err ""; pe_now := 0; pe_start := 0; pe_sent := 0; pe_end := 0 |}); [done|by left..].
  - eexists. by eapply PStore.
  - eexists. eapply PRelease; [done|]. rewrite (pw_sem _ _ Hwf).
    pose proof (sum_list_insert (λ w, Nat.b2n (holds_slot w)) _ _ _ (WExit t) Hi).
    unfold count_of. simpl in *. lia.
  - eexists. by eapply PStoreCancelled.
  - eexists. by eapply PExit.
Qed.

(** A pool that still has work can do some of it. *)
Lemma pool_progress targets c :
  (0 < cap)%nat → pool_wf targets c → ¬ pool_final c → ∃ c', pool_step c c'.
Proof.
  intros Hcap Hwf Hnf. destruct (pl_pending c) as [|t ts] eqn:Hp.
  2:{ destruct (pl_ctx c) as [e|] eqn:Hc; eexists; [by eapply PSkip|by eapply PDispatch]. }
  destruct (count_of_pos running (pl_workers c)) as (i & w & Hi & Hw).
  { intros E. apply Hnf. split; [done|]. by rewrite (pw_wg _ _ Hwf). }
  destruct w as [t| | | | | |]; try (by eapply worker_moves).
  destruct (decide (pl_sem c < cap)%nat) as [Hlt|Hge]; [eexists; by eapply PAcquire|].
  destruct (count_of_pos holds_slot (pl_workers c)) as (j & v & Hj & Hv).
  { rewrite <- (pw_sem _ _ Hwf). lia. }
  eapply (worker_moves _ _ j v); [done|done|by destruct v|by destruct v].
Qed.

Lemma pool_steps_bounded n c c' : nsteps pool_move n c c' → (n + pool_work c' ≤ pool_work c)%nat.
Proof. induction 1 as [|n a b c' Hm _ IH]; [lia|]. pose proof (pool_move_work _ _ Hm). lia. Qed.

Lemma pool_final_done targets c :
  pool_wf targets c → pool_final c →
  ∀ w, w ∈ pl_workers c → w = WDone (worker_target w).
Proof.
  intros Hwf [_ Hz] w Hw. destruct (running w) eqn:E; [|by destruct w]. exfalso.
  apply list_elem_of_lookup in Hw as [i Hi]. rewrite (pw_wg _ _ Hwf) in Hz.
  pose proof (sum_list_insert (λ w, Nat.b2n (running w)) _ _ _ (WDone "") Hi) as Hs.
  unfold count_of in Hz. cbv beta in Hs. rewrite E in Hs. simpl in Hs. lia.
Qed.
End Pool.

(** ** [ProbeTargets] *)
Section Targets.
Context `{Icmp}.
Context (timeout concurrency : Z) (targets : list string) (ctx : Ctx).

Definition pool_run : relation Pool := pool_move timeout (pool_cap concurrency targets).

Lemma pool_cap_pos : targets ≠ [] → (0 < pool_cap concurrency targets)%nat.
Proof.
  intros Hne. assert (0 < length targets)%nat by (destruct targets; simpl; [done|lia]).
  unfold pool_cap. case_match; [done|]. bool_to_prop. lia.
Qed.

(** C32. [ProbeTargets] always returns: no schedule of its goroutines and of the
    cancellation takes more than six steps per target and one, and no
    reachable state is stuck before every goroutine has finished, whatever
    the concurrency asked for. *)
Theorem probe_targets_terminates (n : nat) (c : Pool)
  (Hrun : nsteps pool_run n (init_pool ctx targets) c) :
  (n ≤ 6 * length targets + 1)%nat ∧
  (pool_final c ∨ ∃ c', pool_step timeout (pool_cap concurrency targets) c c').
Proof.
  split.
  - pose proof (pool_steps_bounded _ _ _ _ _ Hrun) as Hb. unfold pool_work in Hb at 2. simpl in Hb.
    destruct ctx; lia.
  - assert (pool_wf timeout (pool_cap concurrency targets) targets c) as Hwf.
    { eapply pool_reach_wf, rtc_nsteps. eauto. }
    destruct (decide (targets = [])) as [E|Hne].
    + left. destruct (pw_order _ _ _ _ Hwf) as (sk & Ho & _). rewrite E in Ho.
      symmetry in Ho. apply app_nil in Ho as [Ho [Hp _]%app_nil]. split; [done|].
      rewrite (pw_wg _ _ _ _ Hwf). by apply fmap_nil_inv in Ho as ->.
    + destruct (decide (pl_pending c = [] ∧ pl_wg c = 0%nat)) as [?|Hnf]; [by left|].
      right. eapply pool_progress; [by apply pool_cap_pos|done|done].
Qed.

(** The map when [ProbeTargets] returns: [k] targets were dispatched, goroutine [i]
    for the target number [i], and every result is the outcome of one of them. *)
Lemma pool_final_results (c : Pool) : rtc pool_run (init_pool ctx targets) c → pool_final c →
  ∃ k, dom (pl_results c) = list_to_set (take k targets) ∧
     (pl_ctx c = None → take k targets = targets ∧
        ∀ i t, targets !! i = Some t → is_Some (pl_probes c !! i)) ∧
     (∀ i, is_Some (pl_probes c !! i) → is_Some (take k targets !! i)) ∧
     ∀ t r, pl_results c !! t = Some r → pr_Target r = t ∧
       ∃ i, take k targets !! i = Some t ∧ outcome timeout (pl_ctx c) (pl_probes c) i t r.
Proof.
  intros Hrun Hf.
  assert (pool_wf timeout (pool_cap concurrency targets) targets c) as Hwf by (by eapply pool_reach_wf).
  pose proof (pool_final_done _ _ _ _ Hwf Hf) as Hdone. destruct Hf as [Hp _].
  destruct (pw_order _ _ _ _ Hwf) as (sk & Ho & Hsk & _). rewrite Hp in Ho. simpl in Ho.
  exists (length (pl_workers c)).
  assert (take (length (pl_workers c)) targets = worker_target <$> pl_workers c) as Ht.
  { rewrite Ho. rewrite take_app_le by (by rewrite length_fmap).
    apply take_ge. by rewrite length_fmap. }
  rewrite Ht. split_and!.
  - apply set_eq. intros t. rewrite elem_of_dom, elem_of_list_to_set, list_elem_of_fmap. split.
    + intros [r (i & w & Hi & _ & <- & _)%(pw_results _ _ _ _ Hwf)].
      exists w. split; [done|]. by eapply list_elem_of_lookup_2.
    + intros (w & -> & Hw). pose proof (Hdone w Hw) as E. apply list_elem_of_lookup in Hw as [i Hi].
      apply (pw_stored _ _ _ _ Hwf _ _ Hi). by rewrite E.
  - intros Hc. rewrite (Hsk Hc), app_nil_r in Ho. split; [done|]. intros i t Hi. rewrite Ho in Hi.
    rewrite list_lookup_fmap in Hi. apply fmap_Some in Hi as (w & Hi & _).
    pose proof (pw_workers _ _ _ _ Hwf _ _ Hi) as Hok.
    rewrite (Hdone w) in Hok by (by eapply list_elem_of_lookup_2). by apply Hok.
  - intros i Hi%(pw_probes _ _ _ _ Hwf). rewrite list_lookup_fmap. by apply fmap_is_Some, lookup_lt_is_Some.
  - intros t r (i & w & Hi & _ & <- & Hout)%(pw_results _ _ _ _ Hwf). split.
    + unfold outcome in Hout. case_match; [subst r; apply Probe_target|]. by destruct Hout as (e & now & _ & ->).
    + exists i. by rewrite list_lookup_fmap, Hi.
Qed.

(** C33. At every moment at most the permitted number of probes is in flight.
    When [ProbeTargets] returns, the map holds exactly the targets of a prefix
    of the list.  Each has the result of the goroutine started for it (of one of
    them, for a target that is listed twice): what the probe that this goroutine
    ran makes of what it met, or the cancellation if it ran none.  If the context
    was never cancelled, the prefix is the whole list and every goroutine ran
    its probe. *)
Theorem probe_targets_results (c : Pool) (Hrun : rtc pool_run (init_pool ctx targets) c) :
  (count_of holds_slot (pl_workers c) ≤ pool_cap concurrency targets)%nat ∧
  (pool_final c → ∃ k, dom (pl_results c) = list_to_set (take k targets) ∧
     (pl_ctx c = None → take k targets = targets ∧
        ∀ i t, targets !! i = Some t → is_Some (pl_probes c !! i)) ∧
     (∀ i, is_Some (pl_probes c !! i) → is_Some (take k targets !! i)) ∧
     ∀ t r, pl_results c !! t = Some r → pr_Target r = t ∧
       ∃ i, take k targets !! i = Some t ∧ outcome timeout (pl_ctx c) (pl_probes c) i t r).
Proof.
  split; [|by apply pool_final_results].
  assert (pool_wf timeout (pool_cap concurrency targets) targets c) as Hwf by (by eapply pool_reach_wf).
  rewrite <- (pw_sem _ _ _ _ Hwf). apply (pw_cap _ _ _ _ Hwf).
Qed.
End Targets.

(** ** Witnesses: one slot, two targets, cancelled after the first probe *)
Module PoolDemo.
Import HealthDemo.

Definition targets : list string := ["10.0.0.2"; "10.0.0.3"].
Definition r2 : ProbeResult := (Probe env "10.0.0.2" 100).1.
Definition r3 : ProbeResult := cancelled_result "10.0.0.3" Canceled 50.
(** The first goroutine probed. *)
Definition met : gmap nat ProbeEnv := <[0%nat := env]> ∅.
Definition p0 : Pool := init_pool None targets.
Definition p1 : Pool := MkPool None ["10.0.0.3"] [WAcquire "10.0.0.2"] 0 1 ∅ ∅.
Definition p2 : Pool := MkPool None [] [WAcquire "10.0.0.2"; WAcquire "10.0.0.3"] 0 2 ∅ ∅.
Definition p3 : Pool := MkPool None [] [WProbe "10.0.0.2"; WAcquire "10.0.0.3"] 1 2 ∅ ∅.
Definition p4 : Pool := MkPool (Some Canceled) [] [WProbe "10.0.0.2"; WAcquire "10.0.0.3"] 1 2 ∅ ∅.
Definition p5 : Pool := MkPool (Some Canceled) [] [WProbe "10.0.0.2"; WCancelled "10.0.0.3" r3] 1 2 ∅ ∅.
Definition p6 : Pool := MkPool (Some Canceled) [] [WStore "10.0.0.2" r2; WCancelled "10.0.0.3" r3] 1 2 ∅ met.
Definition p7 : Pool :=
  MkPool (Some Canceled) [] [WRelease "10.0.0.2"; WCancelled "10.0.0.3" r3] 1 2 (<["10.0.0.2" := r2]> ∅) met.
Definition p8 : Pool :=
  MkPool (Some Canceled) [] [WRelease "10.0.0.2"; WExit "10.0.0.3"] 1 2
    (<["10.0.0.3" := r3]> (<["10.0.0.2" := r2]> ∅)) met.
Definition p9 : Pool :=
  MkPool (Some Canceled) [] [WExit "10.0.0.2"; WExit "10.0.0.3"] 0 2 (pl_results p8) met.
Definition p10 : Pool :=
  MkPool (Some Canceled) [] [WDone "10.0.0.2"; WExit "10.0.0.3"] 0 1 (pl_results p8) met.
Definition p11 : Pool :=
  MkPool (Some Canceled) [] [WDone "10.0.0.2"; WDone "10.0.0.3"] 0 0 (pl_results p8) met.

Lemma demo_run : nsteps (pool_run 100 1 targets) 11 p0 p11.
Proof.
  apply (nsteps_l _ _ _ p1), (nsteps_l _ _ _ p2), (nsteps_l _ _ _ p3), (nsteps_l _ _ _ p4),
    (nsteps_l _ _ _ p5), (nsteps_l _ _ _ p6), (nsteps_l _ _ _ p7), (nsteps_l _ _ _ p8),
    (nsteps_l _ _ _ p9), (nsteps_l _ _ _ p10), (nsteps_l _ _ _ p11), nsteps_O.
  - apply PWork, (PDispatch _ _ p0 "10.0.0.2" ["10.0.0.3"]); reflexivity.
  - apply PWork, (PDispatch _ _ p1 "10.0.0.3" []); reflexivity.
  - apply PWork, (PAcquire _ _ p2 0 "10.0.0.2"); [reflexivity|vm_compute; lia].
  - apply (PCancel _ _ p3 Canceled). reflexivity.
  - apply PWork, (PGiveUp _ _ p4 1 "10.0.0.3" Canceled 50); reflexivity.
  - apply PWork, (PProbe _ _ p5 0 "10.0.0.2" env); [reflexivity|left; reflexivity..].
  - apply PWork, (PStore _ _ p6 0 "10.0.0.2" r2); reflexivity.
  - apply PWork, (PStoreCancelled _ _ p7 1 "10.0.0.3" r3); reflexivity.
  - apply PWork, (PRelease _ _ p8 0 "10.0.0.2"); [reflexivity|vm_compute; lia].
  - apply PWork, (PExit _ _ p9 0 "10.0.0.2"); reflexivity.
  - apply PWork, (PExit _ _ p10 1 "10.0.0.3"); reflexivity.
Qed.

Lemma probe_targets_terminates_witness : (11 ≤ 6 * length targets + 1)%nat.
Proof. apply (probe_targets_terminates 100 1 targets None 11 p11 demo_run). Defined.

Lemma probe_targets_results_witness :
  ∃ k, dom (pl_results p11) = list_to_set (take k targets) ∧
    ∀ t r, pl_results p11 !! t = Some r → ∃ i, take k targets !! i = Some t ∧ outcome 100 (Some Canceled) met i t r.
Proof.
  destruct (probe_targets_results 100 1 targets None p11) as [_ H].
  - apply rtc_nsteps. exists 11%nat. exact demo_run.
  - destruct H as (k & H1 & _ & _ & H2); [split; reflexivity|].
    exists k. split; [exact H1|]. intros t r Hr. apply (H2 t r Hr).
Defined.

End PoolDemo.
