(* ===== verification/CmdTunnel.v ===== *)
(** * The tunnel commands ([cmd/gretun/commands/create.go], [delete.go], [list.go], [status.go])

    A command is a function from its flags, as cobra hands them over, and the
    kernel to an [Outcome]: the error it returns, what it printed, what it
    logged, and the kernel afterwards. *)

From S2P Require Import Prelude.
From S2P Require Import Encoding.
From S2P Require Import NetIP.
From S2P Require Import GoSlice.
From S2P Require Import Json.
From S2P Require Import GoFmt.
From S2P Require Import TunnelErrors.
From S2P Require Import TunnelValidate.
From S2P Require Import TunnelGre.

(** ** Outcomes *)

Inductive CmdError :=
| CErrLocalIP (s : string)
| CErrRemoteIP (s : string)
| CErrEncap (s : string)
| CErrTunnel (e : error)
| CErrAssign (e : error)
| CErrProbe (successes count threshold : Z).

(** [slog] at warning level: the advice of [ValidateEncap], and what the tunnel
    operations log. *)
Inductive Log :=
| LogAdvice (s : string)
| LogTunnel (w : Warn).

Record Outcome (K : Type) := MkOutcome {
  oc_err : option CmdError;
  oc_out : string;
  oc_log : list Log;
  oc_k : K
}.
Arguments MkOutcome {K}.
Arguments oc_err {K} o. Arguments oc_out {K} o. Arguments oc_log {K} o. Arguments oc_k {K} o.

Definition fail {K} (e : CmdError) (k : K) : Outcome K := MkOutcome (Some e) "" [] k.
Definition printed {K} (s : string) (k : K) : Outcome K := MkOutcome None s [] k.

(** [fmt.Println]. *)
Definition line (s : string) : string := s +:+ newline.

(** ** JSON output *)

Definition jstr (s : string) : json := JStr (to_bytes s).
Definition jint (n : Z) : json := JNum (to_bytes (pretty n)).
Definition jfield (k : string) (v : json) : list (bytes * json) := [(to_bytes k, v)].

(** A field tagged [omitempty] that is printed when [present]. *)
Definition jfield_if (present : bool) (k : string) (v : json) : list (bytes * json) :=
  if present then jfield k v else [].
Definition jstr_if (k s : string) : list (bytes * json) := jfield_if (bool_decide (s ≠ "")) k (jstr s).
Definition jint_if (k : string) (n : Z) : list (bytes * json) := jfield_if (negb (n =? 0)) k (jint n).

(** [enc.SetIndent("", "  "); enc.Encode(v)]. *)
Definition encode_indent (v : json) : string := line (of_bytes (print_indent 0 v)).

Definition status_json (s : Status) : json :=
  JObj (jfield "name" (jstr (st_Name s)) ++ jfield "local_ip" (jstr (st_LocalIP s)) ++
        jfield "remote_ip" (jstr (st_RemoteIP s)) ++ jint_if "key" (st_Key s) ++
        jfield "ttl" (jint (st_TTL s)) ++ jfield "up" (JBool (st_Up s)) ++
        jstr_if "tunnel_ip" (st_TunnelIP s) ++ jstr_if "encap" (st_Encap s) ++
        jint_if "encap_sport" (st_EncapSport s) ++ jint_if "encap_dport" (st_EncapDport s) ++
        jint_if "mtu" (st_MTU s)).

(** ** [net.ParseIP] *)

(** The 16-byte form; an address with a zone is refused. *)
Definition ParseIP (s : string) : IP.t :=
  match ParseAddr s with
  | Some a => if decide (Zone a ≠ "") then None else Some (IP.As16 a)
  | None => None
  end.

(** ** [create] *)

Record CreateFlags := {
  cf_name : string;
  cf_local : string;
  cf_remote : string;
  cf_key : Z;
  cf_ttl : Z;
  cf_tunnel_ip : string;
  cf_encap : string;
  cf_encap_sport : Z;
  cf_encap_dport : Z;
  cf_encap_csum : bool;
  cf_mtu : Z
}.

(** The flags' default values; the three required ones are given. *)
Definition create_defaults (name local remote : string) : CreateFlags :=
  {| cf_name := name; cf_local := local; cf_remote := remote; cf_key := 0; cf_ttl := 64;
     cf_tunnel_ip := ""; cf_encap := "none"; cf_encap_sport := 0; cf_encap_dport := 0;
     cf_encap_csum := true; cf_mtu := 0 |}.

Definition parseEncap (s : string) : result CmdError EncapType :=
  if decide (s = "none" ∨ s = "") then Ok EncapNone
  else if decide (s = "fou") then Ok EncapFOU
  else if decide (s = "gue") then Ok EncapGUE
  else Err (CErrEncap s).

Definition create_config (f : CreateFlags) (localIP remoteIP : IP.t) (encap : EncapType) : Config :=
  {| cfg_Name := cf_name f; cfg_LocalIP := localIP; cfg_RemoteIP := remoteIP; cfg_Key := cf_key f;
     cfg_TTL := cf_ttl f; cfg_MTU := cf_mtu f; cfg_Encap := encap; cfg_EncapSport := cf_encap_sport f;
     cfg_EncapDport := cf_encap_dport f; cfg_EncapChecksum := cf_encap_csum f |}.

Definition created_text (f : CreateFlags) (encap : EncapType) : string :=
  line ("created tunnel " +:+ cf_name f +:+ " (" +:+ cf_local f +:+ " -> " +:+ cf_remote f +:+ ")" +:+
        if negb (encap =? EncapNone)
        then " encap=" +:+ cf_encap f +:+ " dport=" +:+ pretty (cf_encap_dport f) else "").

Definition assigned_text (f : CreateFlags) : string :=
  line ("assigned " +:+ cf_tunnel_ip f +:+ " to " +:+ cf_name f).

Section Commands.
Context {K : Type} `{Netlinker K}.

Definition runCreate (f : CreateFlags) (k : K) : Outcome K :=
  match ParseIP (cf_local f) with
  | None => fail (CErrLocalIP (cf_local f)) k
  | localIP =>
  match ParseIP (cf_remote f) with
  | None => fail (CErrRemoteIP (cf_remote f)) k
  | remoteIP =>
  match parseEncap (cf_encap f) with
  | Err e => fail e k
  | Ok encap =>
  let cfg := create_config f localIP remoteIP encap in
  match ValidateEncap cfg with
  | (_, Some v) => fail (CErrTunnel (InvalidError v)) k
  | (warn, None) =>
  let advice := if decide (warn ≠ "") then [LogAdvice warn] else [] in
  match Create None cfg k with
  | (Some err, ws, k) => MkOutcome (Some (CErrTunnel err)) "" (advice ++ (LogTunnel <$> ws)) k
  | (None, ws, k) =>
      let log := advice ++ (LogTunnel <$> ws) in
      let out := created_text f encap in
      if decide (cf_tunnel_ip f ≠ "") then
        match AssignIP None (cf_name f) (cf_tunnel_ip f) k with
        | (Some err, k) => MkOutcome (Some (CErrAssign err)) out log k
        | (None, k) => MkOutcome None (out +:+ assigned_text f) log k
        end
      else MkOutcome None out log k
  end end end end end.

(** ** [delete] *)

Definition runDelete (name : string) (k : K) : Outcome K :=
  match Delete None name k with
  | (Some err, k) => fail (CErrTunnel err) k
  | (None, k) => printed (line ("deleted tunnel " +:+ name)) k
  end.

(** ** [list] *)

Definition up_text (up : bool) : string := if up then "up" else "down".

Definition tab_line (cells : list string) : string :=
  match cells with
  | [] => newline
  | c :: cells => foldl (λ a b, a +:+ tab +:+ b) c cells +:+ newline
  end.

Definition list_row (t : Status) : string :=
  let key := if negb (st_Key t =? 0) then pretty (st_Key t) else "-" in
  let tunnelIP := if decide (st_TunnelIP t ≠ "") then st_TunnelIP t else "-" in
  tab_line [st_Name t; st_LocalIP t; st_RemoteIP t; key; tunnelIP; up_text (st_Up t)].

Definition list_table (tunnels : list Status) : string :=
  of_bytes (tabwriter (to_bytes (
    tab_line ["NAME"; "LOCAL"; "REMOTE"; "KEY"; "TUNNEL IP"; "STATUS"] +:+
    foldr (λ t s, list_row t +:+ s) "" tunnels))).

Definition no_tunnels_text : string := line "no GRE tunnels found".

Definition runList (jsonOutput : bool) (k : K) : Outcome K :=
  match List None k with
  | Err err => fail (CErrTunnel err) k
  | Ok tunnels =>
      if decide (tunnels = []) then printed no_tunnels_text k
      else if jsonOutput then printed (encode_indent (JArr (status_json <$> tunnels))) k
      else printed (list_table tunnels) k
  end.

(** ** [status] *)

Definition status_text (s : Status) : string :=
  line ("Tunnel: " +:+ st_Name s) +:+
  line ("  Status:    " +:+ up_text (st_Up s)) +:+
  line ("  Local:     " +:+ st_LocalIP s) +:+
  line ("  Remote:    " +:+ st_RemoteIP s) +:+
  (if negb (st_Key s =? 0) then line ("  Key:       " +:+ pretty (st_Key s)) else "") +:+
  line ("  TTL:       " +:+ pretty (st_TTL s)) +:+
  (if decide (st_TunnelIP s ≠ "") then line ("  Tunnel IP: " +:+ st_TunnelIP s) else "").

Definition runStatus (jsonOutput : bool) (name : string) (k : K) : Outcome K :=
  match Get None name k with
  | Err err => fail (CErrTunnel err) k
  | Ok s => printed (if jsonOutput then encode_indent (status_json s) else status_text s) k
  end.

End Commands.

(** ** What the commands do *)

Definition no_cleanup_failed (log : list Log) : Prop := ∀ w, LogTunnel w ∉ log.

Section Claims.
Context {K : Type} `{NetlinkerSpec K}.

Lemma runCreate_foreign f k : foreign_kept k (oc_k (runCreate f k)).
Proof.
  unfold runCreate. repeat case_match; simpl; try done.
  all: match goal with Hc : Create ?x ?c ?k = _ |- _ => pose proof (Create_foreign x c k) as Hf; rewrite Hc in Hf end.
  all: try done.
  all: match goal with Ha : AssignIP ?x ?n ?c ?k = _ |- _ => pose proof (AssignIP_foreign x n c k) as Hg; rewrite Ha in Hg end.
  all: by etrans.
Qed.

Lemma runDelete_foreign name k : foreign_kept k (oc_k (runDelete name k)).
Proof. pose proof (Delete_foreign None name k). unfold runDelete. by destruct (Delete _ _ _) as [[]]. Qed.

Lemma runList_kernel j k : oc_k (runList j k) = k.
Proof. unfold runList. by repeat case_match. Qed.
Lemma runStatus_kernel j n k : oc_k (runStatus j n k) = k.
Proof. unfold runStatus. by repeat case_match. Qed.

(** The tunnel that the flags ask for exists and nothing else has changed. *)
Definition tunnel_created (f : CreateFlags) (k k' : K) : Prop :=
  ∃ a b encap, ParseIP (cf_local f) = Some a ∧ ParseIP (cf_remote f) = Some b ∧
    parseEncap (cf_encap f) = Ok encap ∧
    let cfg := create_config f (Some a) (Some b) encap in
    ValidateConfig cfg = None ∧ created_state cfg k k'.

Lemma created_state_after cfg k k1 k2 :
  created_state cfg k k1 → links k2 = links k1 → fous k2 = fous k1 → created_state cfg k k2.
Proof. unfold created_state. by intros ? -> ->. Qed.

(** C38. The [create] command.  When it returns no error, the tunnel that the
    flags describe is up, nothing else has changed, and the address, if one was
    asked for, was assigned.  When only the assignment fails it reports an error
    and yet leaves the tunnel in place, as its message says.  After every other
    error nothing was printed, and links and FOU ports are as before unless a
    failed clean-up was logged. *)
Theorem create_command_outcome (f : CreateFlags) (k : K) :
  let o := runCreate f k in
  match oc_err o with
  | None =>
      tunnel_created f k (oc_k o) ∧
      (cf_tunnel_ip f ≠ "" → ∃ k1, AssignIP None (cf_name f) (cf_tunnel_ip f) k1 = (None, oc_k o))
  | Some (CErrAssign e) =>
      tunnel_created f k (oc_k o) ∧ cf_tunnel_ip f ≠ "" ∧ oc_out o ≠ "" ∧
      ∃ k1, AssignIP None (cf_name f) (cf_tunnel_ip f) k1 = (Some e, oc_k o)
  | Some _ =>
      oc_out o = "" ∧
      (no_cleanup_failed (oc_log o) → links (oc_k o) = links k ∧ fous (oc_k o) = fous k)
  end.
Proof.
  unfold runCreate. destruct (ParseIP (cf_local f)) as [a|] eqn:Ea; [|done].
  destruct (ParseIP (cf_remote f)) as [b|] eqn:Eb; [|done].
  destruct (parseEncap (cf_encap f)) as [encap|e] eqn:Ee.
  2: { unfold parseEncap in Ee. repeat case_decide; by simplify_eq. }
  set (cfg := create_config f (Some a) (Some b) encap). cbv zeta.
  destruct (ValidateEncap cfg) as [warn [v|]]; [done|].
  destruct (Create None cfg k) as [[r ws] k1] eqn:Ec. apply Create_spec in Ec. destruct r as [err|].
  - simpl. split; [done|]. intros Hno. apply Ec. destruct ws as [|w ws]; [done|].
    destruct (Hno w). apply elem_of_app. right. simpl. left.
  - destruct Ec as (-> & Hv & Hst).
    assert (∀ k2, links k2 = links k1 → fous k2 = fous k1 → tunnel_created f k k2) as Hmk.
    { intros k2 El Ef. exists a, b, encap. do 3 (split; [done|]). split; [done|].
      by apply (created_state_after _ _ k1). }
    destruct (decide (cf_tunnel_ip f ≠ "")) as [Ht|Ht]; [|by split; [apply Hmk|]].
    pose proof (AssignIP_view None (cf_name f) (cf_tunnel_ip f) k1) as [Hl Hf].
    destruct (AssignIP _ _ _ k1) as [[err|] k2] eqn:Eas; simpl in *; split_and!; eauto.
Qed.

(** [list --json] does not print JSON when there are no tunnels: the text is
    the one for people, and it does not parse. *)
Theorem list_json_empty (jsonOutput : bool) (k : K) (Hnone : List None k = Ok []) :
  oc_err (runList jsonOutput k) = None ∧ oc_out (runList jsonOutput k) = no_tunnels_text ∧
  unmarshal_value (to_bytes (oc_out (runList jsonOutput k))) = None.
Proof. unfold runList. by rewrite Hnone. Qed.

End Claims.

Module CmdTunnelDemo.
#[local] Existing Instances Mock.nl Mock.spec.

Definition flags : CreateFlags :=
  let f := create_defaults "tun0" "10.0.0.1" "10.0.0.2" in
  {| cf_name := cf_name f; cf_local := cf_local f; cf_remote := cf_remote f; cf_key := 7; cf_ttl := cf_ttl f;
     cf_tunnel_ip := "192.168.1.1/30"; cf_encap := "fou"; cf_encap_sport := 0; cf_encap_dport := 7777;
     cf_encap_csum := true; cf_mtu := 0 |}.

(** On a kernel that refuses addresses the tunnel stays. *)
Lemma create_command_outcome_witness :
  let o := runCreate flags (Mock.faulty "AddrAdd") in
  oc_err o ≠ None ∧ tunnel_created flags (Mock.faulty "AddrAdd") (oc_k o).
Proof.
  pose proof (create_command_outcome flags (Mock.faulty "AddrAdd")) as Hc. cbv zeta in *.
  assert (∃ e, oc_err (runCreate flags (Mock.faulty "AddrAdd")) = Some (CErrAssign e)) as [e He]
    by (eexists; vm_compute; reflexivity).
  rewrite He in Hc |- *. split; [done|]. exact (proj1 Hc).
Defined.

Lemma list_json_empty_witness : oc_out (runList true Mock.healthy) = no_tunnels_text.
Proof. by apply list_json_empty. Defined.

Definition after_create : Mock.Kernel := oc_k (runCreate flags Mock.healthy).

Example create_prints : oc_out (runCreate flags Mock.healthy) =
  line "created tunnel tun0 (10.0.0.1 -> 10.0.0.2) encap=fou dport=7777" +:+ line "assigned 192.168.1.1/30 to tun0".
Proof. vm_compute. reflexivity. Qed.

Example list_prints : oc_out (runList false after_create) =
  line "NAME  LOCAL     REMOTE    KEY  TUNNEL IP       STATUS" +:+
  line "tun0  10.0.0.1  10.0.0.2  7    192.168.1.1/30  up".
Proof. vm_compute. reflexivity. Qed.

End CmdTunnelDemo.
