(* ===== verification/CmdHealth.v ===== *)
(** * The probing commands ([cmd/gretun/commands/health.go], [probe.go])

    [probe] is a function of what its probes meet.  [health] runs the worker
    pool of [ProbePool], whose schedule is open, so one pass of it is a relation,
    and so is the watch loop around it. *)

From S2P Require Import Prelude.
From S2P Require Import GoTime.
From S2P Require Import GoSlice.
From S2P Require Import Json.
From S2P Require Import GoFmt.
From S2P Require Import Health.
From S2P Require Import ProbePool.
From S2P Require Import TunnelErrors.
From S2P Require Import TunnelValidate.
From S2P Require Import TunnelGre.
From S2P Require Import CmdTunnel.

(** ** [probe] *)

Record ProbeFlags := { pf_target : string; pf_count : Z; pf_timeout : Z; pf_threshold : Z }.

(** [json:"rtt_ms,omitempty"] on a [time.Duration]: an integer of nanoseconds.
    [stamp] prints a time in the local time zone. *)
Definition result_json (stamp : Z → string) (r : ProbeResult) : json :=
  JObj (jfield "target" (jstr (pr_Target r)) ++ jfield "success" (JBool (pr_Success r)) ++
        jint_if "rtt_ms" (pr_RTT r) ++ jstr_if "error" (pr_Error r) ++
        jfield "timestamp" (jstr (stamp (pr_Timestamp r)))).

Definition probe_json (stamp : Z → string) (f : ProbeFlags) (healthy : bool) (results : list ProbeResult) : json :=
  JObj (jfield "target" (jstr (pf_target f)) ++ jfield "healthy" (JBool healthy) ++
        jfield "threshold" (jint (pf_threshold f)) ++
        jfield "results" (JArr (result_json stamp <$> results))).

Definition probe_line (target : string) (i : nat) (r : ProbeResult) : string :=
  line ("probe " +:+ pretty (Z.of_nat i + 1) +:+ ": " +:+ target +:+
        if pr_Success r then " rtt=" +:+ Duration_String (Duration_Round (pr_RTT r) Microsecond)
        else " error=" +:+ pr_Error r).

(** The loop over the results: what it prints and the number of successes. *)
Fixpoint probe_lines (target : string) (i : nat) (results : list ProbeResult) (successes : Z) : string * Z :=
  match results with
  | [] => ("", successes)
  | r :: results =>
      let '(out, n) :=
        probe_lines target (S i) results (if pr_Success r then successes + 1 else successes) in
      (probe_line target i r +:+ out, n)
  end.

Section Probe.
Context `{Icmp}.

(** [None] is the panic of [ProbeMultiple]. *)
Definition runProbe (stamp : Z → string) (jsonOutput : bool) (f : ProbeFlags) (rounds : nat → Round)
  : option (option CmdError * string) :=
  '(healthy, results) ← ProbeMultiple (pf_target f) (pf_timeout f) (pf_threshold f) rounds (pf_count f);
  Some
    (if jsonOutput then (None, encode_indent (probe_json stamp f healthy results))
     else
       let '(out, successes) := probe_lines (pf_target f) 0 results 0 in
       let out := out +:+ newline +:+
         line (pretty successes +:+ "/" +:+ pretty (pf_count f) +:+ " probes successful") in
       if healthy then (None, out +:+ line "status: healthy")
       else (Some (CErrProbe successes (pf_count f) (pf_threshold f)), out +:+ line "status: unhealthy")).

End Probe.

(** ** [health] *)

Record healthRow := { hr_Name : string; hr_Remote : string; hr_Healthy : bool; hr_RTTMS : float64 }.

Definition float_zero : float64 := {| f_neg := false; f_m := 0; f_e := 0 |}.

Definition health_targets (tunnels : list Status) : list string :=
  filter (λ s, s ≠ "") (st_RemoteIP <$> tunnels).

(** [float64(r.RTT) / float64(time.Millisecond)]. *)
Definition rtt_ms (rtt : Z) : float64 := fdiv (of_int rtt) (of_int GoTime.Millisecond).

Definition health_row (results : gmap string ProbeResult) (t : Status) : healthRow :=
  match results !! st_RemoteIP t with
  | Some r => {| hr_Name := st_Name t; hr_Remote := st_RemoteIP t; hr_Healthy := pr_Success r;
                 hr_RTTMS := if pr_Success r then rtt_ms (pr_RTT r) else float_zero |}
  | None => {| hr_Name := st_Name t; hr_Remote := st_RemoteIP t; hr_Healthy := false;
               hr_RTTMS := float_zero |}
  end.

Definition rtt_cell (row : healthRow) : string :=
  if hr_Healthy row then sprintf_2f (hr_RTTMS row) +:+ "ms" else "-".

(** [printTable]. *)
Definition health_line (row : healthRow) : string :=
  tab_line [hr_Name row; hr_Remote row; if hr_Healthy row then "healthy" else "unhealthy"; rtt_cell row].
Definition health_table (rows : list healthRow) : string :=
  of_bytes (tabwriter (to_bytes (
    tab_line ["NAME"; "REMOTE"; "STATUS"; "RTT"] +:+ foldr (λ r s, health_line r +:+ s) "" rows))).

Definition row_json (r : healthRow) : json :=
  JObj (jfield "name" (jstr (hr_Name r)) ++ jfield "remote" (jstr (hr_Remote r)) ++
        jfield "healthy" (JBool (hr_Healthy r)) ++ jfield "rtt_ms" (JNum (to_bytes (json_float (hr_RTTMS r))))).

(** [printTable] or [printJSON]. *)
Definition health_output (jsonOutput : bool) (rows : list healthRow) : string :=
  if jsonOutput then encode_indent (JArr (row_json <$> rows)) else health_table rows.

(** ["\033[H\033[2J"]. *)
Definition clear_screen : string := of_bytes ([x1b] ++ to_bytes "[H" ++ [x1b] ++ to_bytes "[2J").

Record HealthFlags := { hf_watch : bool; hf_interval : Z; hf_concurrency : Z; hf_timeout : Z }.

(** A context never leaves the state of being done. *)
Definition later (ctx ctx' : Ctx) : Prop := ctx = None ∨ ctx' = ctx.

Section Health.
Context `{Icmp} {K : Type} `{Netlinker K}.
Context (f : HealthFlags) (jsonOutput : bool).

(** The closure [probe], called when the context is [ctx]; it is [ctx'] when the
    call returns, and [probes] is what the probes met, by the number of the
    target. *)
Inductive health_probe (ctx : Ctx) (k : K)
  : gmap nat ProbeEnv → Ctx → result error (list healthRow) → Prop :=
| HpErr ctx' e :
    List ctx k = Err e → later ctx ctx' →
    health_probe ctx k ∅ ctx' (Err e)
| HpRows tunnels c :
    List ctx k = Ok tunnels →
    rtc (pool_run (hf_timeout f) (hf_concurrency f) (health_targets tunnels))
      (init_pool ctx (health_targets tunnels)) c →
    pool_final c →
    health_probe ctx k (pl_probes c) (pl_ctx c) (Ok (health_row (pl_results c) <$> tunnels)).

(** The [for] loop of watch mode: it may start when the context is [ctx], print
    [out] and return [err].  Every tick sees the kernel of its own moment. *)
Inductive watch_loop (ctx : Ctx) : string → option CmdError → Prop :=
| WInterrupt e :
    later ctx (Some e) →
    watch_loop ctx (line "interrupted") None
| WTick k ctx1 ctx2 probes rows out err :
    later ctx ctx1 → health_probe ctx1 k probes ctx2 (Ok rows) → watch_loop ctx2 out err →
    watch_loop ctx (clear_screen +:+ health_output jsonOutput rows +:+ out) err
| WTickErr k ctx1 probes e :
    later ctx ctx1 → health_probe ctx1 k probes None (Err e) →
    watch_loop ctx "" (Some (CErrTunnel e))
| WTickInterrupted k ctx1 probes c e :
    later ctx ctx1 → health_probe ctx1 k probes (Some c) (Err e) →
    watch_loop ctx (line "interrupted") None.

(** How the command ends; [time.NewTicker] panics unless the interval is
    positive. *)
Inductive HealthEnd :=
| HPanic
| HReturn (out : string) (err : option CmdError).

(** The command on the kernel [k] of its start. *)
Inductive runHealth (k : K) : HealthEnd → Prop :=
| RunOnce ctx probes rows :
    hf_watch f = false → health_probe None k probes ctx (Ok rows) →
    runHealth k (HReturn (health_output jsonOutput rows) None)
| RunPanic :
    hf_watch f = true → hf_interval f ≤ 0 →
    runHealth k HPanic
| RunErr ctx ctx' probes e :
    (hf_watch f = true → 0 < hf_interval f) → health_probe ctx k probes ctx' (Err e) →
    runHealth k (HReturn "" (Some (CErrTunnel e)))
| RunWatch ctx probes rows out err :
    hf_watch f = true → 0 < hf_interval f →
    health_probe None k probes ctx (Ok rows) → watch_loop ctx out err →
    runHealth k (HReturn (clear_screen +:+ health_output jsonOutput rows +:+ out) err).

End Health.

(** ** What the commands show *)

Lemma successes_of_app l1 l2 : successes_of (l1 ++ l2) = successes_of l1 + successes_of l2.
Proof. unfold successes_of. rewrite filter_app, length_app. lia. Qed.

Lemma probe_lines_count target i results n :
  (probe_lines target i results n).2 = n + successes_of results.
Proof.
  revert i n. induction results as [|r results IH]; intros i n; [unfold successes_of; simpl; lia|].
  cbn [probe_lines]. destruct (probe_lines _ _ _ _) as [out m] eqn:E. apply (f_equal snd) in E. simpl in E |- *.
  rewrite IH in E. rewrite <- E. change (r :: results) with ([] ++ [r] ++ results). rewrite (assoc_L (++)), successes_of_app. destruct (pr_Success r) eqn:Hs.
  - rewrite (successes_of_snoc []), Hs. unfold successes_of at 2. simpl. lia.
  - rewrite (successes_of_snoc []), Hs. unfold successes_of at 2. simpl. lia.
Qed.

Section Claims.
Context `{Icmp} {K : Type} `{Netlinker K}.

(** The exit status of [probe].  It panics exactly for a count that [make]
    refuses.  In text mode it fails exactly when [ProbeMultiple] finds the target
    unhealthy, and counts the successes among the results; with [--json] it
    reports success even for an unhealthy target. *)
Theorem probe_exit_status (stamp : Z → string) (jsonOutput : bool) (f : ProbeFlags) (rounds : nat → Round) :
  match runProbe stamp jsonOutput f rounds with
  | None => makeslice_ok (pf_count f) = false
  | Some (err, _) =>
      ∃ healthy results,
        ProbeMultiple (pf_target f) (pf_timeout f) (pf_threshold f) rounds (pf_count f) = Some (healthy, results) ∧
        err = (if jsonOutput || healthy then None
               else Some (CErrProbe (successes_of results) (pf_count f) (pf_threshold f)))
  end.
Proof.
  unfold runProbe. destruct (ProbeMultiple _ _ _ _ _) as [[healthy results]|] eqn:E; simpl.
  - pose proof (probe_lines_count (pf_target f) 0 results 0) as Hn.
    destruct jsonOutput; [by exists healthy, results|].
    destruct (probe_lines _ _ _ _) as [out n]. simpl in Hn. subst n. rewrite Z.add_0_l.
    destruct healthy; [by exists true, results|by exists false, results].
  - unfold ProbeMultiple in E. by destruct (makeslice_ok _).
Qed.

(** C40. The round-trip time that the health table shows, in hundredths of a
    millisecond, is off by at most 5 microseconds for every time below [2^53]
    nanoseconds (104 days): converting to [float64], dividing and rounding to two
    decimals lose no more than one correct rounding would. *)
Theorem health_rtt_display (results : gmap string ProbeResult) (t : Status) (r : ProbeResult)
  (Hr : results !! st_RemoteIP t = Some r) (Hok : pr_Success r = true) (Hrange : 0 ≤ pr_RTT r < 2 ^ 53) :
  ∃ hundredths, rtt_cell (health_row results t) = decimal_string 2 hundredths +:+ "ms" ∧
    Z.abs (10000 * hundredths - pr_RTT r) ≤ 5000.
Proof.
  pose proof (fixed2_ms (pr_RTT r) Hrange) as [Hneg Hacc].
  unfold health_row, rtt_cell. rewrite Hr. cbn [hr_Healthy hr_RTTMS]. rewrite Hok.
  unfold sprintf_2f, rtt_ms, GoTime.Millisecond. exists (fixed 2 (fdiv (of_int (pr_RTT r)) (of_int 1000000))).
  split; [|done]. by rewrite Hneg.
Qed.

(** What a row shows of the probes of its remote address: the success and the time
    of one that was run for it, or nothing, if there is no address or the command
    was interrupted before a probe of it. *)
Definition row_shows (f : HealthFlags) (targets : list string) (probes : gmap nat ProbeEnv) (ctx' : Ctx)
  (row : healthRow) : Prop :=
  (∃ i env, targets !! i = Some (hr_Remote row) ∧ probes !! i = Some env ∧
     let r := (Probe env (hr_Remote row) (hf_timeout f)).1 in
     hr_Healthy row = pr_Success r ∧ hr_RTTMS row = if pr_Success r then rtt_ms (pr_RTT r) else float_zero) ∨
  (hr_Remote row = "" ∨ ctx' ≠ None ∧ ∃ i, targets !! i = Some (hr_Remote row) ∧ probes !! i = None) ∧
  hr_Healthy row = false ∧ hr_RTTMS row = float_zero.

(** C34. The rows of one pass of [health] are the tunnels, in the order of the
    listing and under their names and remote addresses.  Every row shows the
    outcome, healthy exactly if it succeeded and then with its time, of a probe of
    its address that this pass ran; a row without an address is unhealthy, and so
    is one whose probe an interrupt prevented.  Unless it was interrupted, the
    pass ran a probe for every tunnel with an address. *)
Theorem health_rows_faithful (f : HealthFlags) (ctx ctx' : Ctx) (k : K) (probes : gmap nat ProbeEnv)
  (rows : list healthRow) (Hrun : health_probe f ctx k probes ctx' (Ok rows)) :
  ∃ tunnels, List ctx k = Ok tunnels ∧
    hr_Name <$> rows = st_Name <$> tunnels ∧ hr_Remote <$> rows = st_RemoteIP <$> tunnels ∧
    (ctx' = None → ∀ i t, health_targets tunnels !! i = Some t → is_Some (probes !! i)) ∧
    ∀ row, row ∈ rows → row_shows f (health_targets tunnels) probes ctx' row.
Proof.
  inversion_clear Hrun as [|tunnels c Hl Hpool Hfin]. exists tunnels. split; [done|].
  pose proof (pool_final_results _ _ _ _ _ Hpool Hfin) as (n & Hdom & Hall & Hran & Hres).
  assert (∀ t, hr_Name (health_row (pl_results c) t) = st_Name t ∧
               hr_Remote (health_row (pl_results c) t) = st_RemoteIP t) as Hrow
    by (intros t; unfold health_row; by case_match).
  split_and!.
  - rewrite <- list_fmap_compose. apply list_fmap_ext. intros ? t _. apply Hrow.
  - rewrite <- list_fmap_compose. apply list_fmap_ext. intros ? t _. apply Hrow.
  - intros Hc. by destruct (Hall Hc).
  - intros row (t & -> & Ht)%list_elem_of_fmap. unfold row_shows. destruct (Hrow t) as [_ ->].
    unfold health_row. destruct (pl_results c !! st_RemoteIP t) as [r|] eqn:Hr; simpl.
    + destruct (Hres _ _ Hr) as (_ & i & Hi%lookup_take_Some & Hout). destruct Hi as [Hi _].
      unfold outcome in Hout. destruct (pl_probes c !! i) as [env|] eqn:He.
      * subst r. left. by exists i, env.
      * destruct Hout as (e & now & Hc & ->). right. split; [|done]. right.
        split; [congruence|]. by exists i.
    + right. split; [|done]. destruct (decide (st_RemoteIP t = "")) as [|Hne]; [by left|]. right.
      assert (st_RemoteIP t ∈ health_targets tunnels) as [i Hi]%list_elem_of_lookup.
      { apply list_elem_of_filter. split; [done|]. by apply list_elem_of_fmap_2. }
      assert (take n (health_targets tunnels) !! i = None) as Hn.
      { apply eq_None_not_Some. intros [u Hu]. pose proof Hu as [Hu' _]%lookup_take_Some.
        rewrite Hi in Hu'. injection Hu' as <-. apply list_elem_of_lookup_2, (elem_of_list_to_set (C:=gset string)) in Hu.
        rewrite <- Hdom in Hu. apply elem_of_dom in Hu. rewrite Hr in Hu. by destruct Hu. }
      assert (pl_probes c !! i = None) as Hp
        by (apply eq_None_not_Some; intros Hs%Hran; rewrite Hn in Hs; by destruct Hs).
      split; [|by exists i]. intros Hc. destruct (Hall Hc) as [_ Hpr]. destruct (Hpr _ _ Hi) as [? Hx]. congruence.
Qed.

(** Watch mode ends without an error only after an interrupt, which it
    announces last; the only error it returns is a failing listing of the
    kernel's links, never the interruption itself. *)
Theorem watch_ends_on_interrupt (f : HealthFlags) (jsonOutput : bool) (ctx : Ctx) (out : string) (err : option CmdError)
  (Hrun : watch_loop (K:=K) f jsonOutput ctx out err) :
  match err with
  | None => ∃ shown, out = shown +:+ line "interrupted"
  | Some e => ∃ k le, e = CErrTunnel le ∧ LinkList k = Err le
  end.
Proof.
  induction Hrun as [ctx e _|ctx k ctx1 ctx2 probes rows out err _ _ _ IH|ctx k ctx1 probes e _ Hp|ctx k ctx1 probes c e _ _].
  - by exists "".
  - destruct err; [done|]. destruct IH as [shown ->].
    exists (clear_screen +:+ health_output jsonOutput rows +:+ shown).
    by rewrite !string_app_assoc.
  - inversion_clear Hp as [? ? Hl Hlater|]. destruct Hlater as [->|<-]; simpl in Hl.
    all: destruct (LinkList k) as [ls|le] eqn:E; simplify_eq; eauto.
  - by exists "".
Qed.

End Claims.

(** ** Witnesses: one tunnel whose remote answers *)
Module CmdHealthDemo.
Import HealthDemo.
#[local] Existing Instances Mock.nl Mock.spec.

Definition tunnels : list Status :=
  match List None CmdTunnelDemo.after_create with Ok l => l | Err _ => [] end.
Definition targets : list string := ["10.0.0.2"].
Definition r : ProbeResult := (Probe env "10.0.0.2" 100).1.
Definition flags : HealthFlags := {| hf_watch := false; hf_interval := 5; hf_concurrency := 5; hf_timeout := 100 |}.
Definition results : gmap string ProbeResult := {["10.0.0.2" := r]}.
Definition met : gmap nat ProbeEnv := <[0%nat := env]> ∅.
Definition final : Pool := MkPool None [] [WDone "10.0.0.2"] 0 0 results met.

Lemma targets_ok : health_targets tunnels = targets.
Proof. vm_compute. reflexivity. Qed.

Lemma demo_pool : rtc (pool_run 100 5 targets) (init_pool None targets) final.
Proof.
  apply (rtc_l _ _ (MkPool None [] [WAcquire "10.0.0.2"] 0 1 ∅ ∅)).
  { apply PWork, (PDispatch _ _ (init_pool None targets) "10.0.0.2" []); reflexivity. }
  apply (rtc_l _ _ (MkPool None [] [WProbe "10.0.0.2"] 1 1 ∅ ∅)).
  { apply PWork, (PAcquire _ _ (MkPool None [] [WAcquire "10.0.0.2"] 0 1 ∅ ∅) 0 "10.0.0.2");
      [reflexivity|vm_compute; lia]. }
  apply (rtc_l _ _ (MkPool None [] [WStore "10.0.0.2" r] 1 1 ∅ met)).
  { apply PWork, (PProbe _ _ (MkPool None [] [WProbe "10.0.0.2"] 1 1 ∅ ∅) 0 "10.0.0.2" env);
      [reflexivity|left; reflexivity..]. }
  apply (rtc_l _ _ (MkPool None [] [WRelease "10.0.0.2"] 1 1 results met)).
  { apply PWork, (PStore _ _ (MkPool None [] [WStore "10.0.0.2" r] 1 1 ∅ met) 0 "10.0.0.2" r); reflexivity. }
  apply (rtc_l _ _ (MkPool None [] [WExit "10.0.0.2"] 0 1 results met)).
  { apply PWork, (PRelease _ _ (MkPool None [] [WRelease "10.0.0.2"] 1 1 results met) 0 "10.0.0.2");
      [reflexivity|vm_compute; lia]. }
  apply rtc_once. apply PWork, (PExit _ _ (MkPool None [] [WExit "10.0.0.2"] 0 1 results met) 0 "10.0.0.2"); reflexivity.
Qed.

Lemma demo_probe :
  health_probe flags None CmdTunnelDemo.after_create met None (Ok (health_row results <$> tunnels)).
Proof.
  apply (HpRows flags None CmdTunnelDemo.after_create tunnels final); [vm_compute; reflexivity| |done].
  rewrite targets_ok. exact demo_pool.
Qed.

(** The one row is healthy because the probe that was run succeeded. *)
Lemma health_rows_faithful_witness :
  ∃ ts, List None CmdTunnelDemo.after_create = Ok ts ∧
    hr_Name <$> (health_row results <$> tunnels) = st_Name <$> ts ∧
    ∀ row, row ∈ health_row results <$> tunnels → row_shows flags (health_targets ts) met None row.
Proof.
  destruct (health_rows_faithful flags None None CmdTunnelDemo.after_create met _ demo_probe)
    as (ts & Hl & Hn & _ & _ & Hs).
  exists ts. split; [exact Hl|]. split; [exact Hn|exact Hs].
Defined.

Definition status : Status :=
  {| st_Name := "tun0"; st_LocalIP := "10.0.0.1"; st_RemoteIP := "10.0.0.2"; st_Key := 0; st_TTL := 64;
     st_Up := true; st_TunnelIP := ""; st_Encap := ""; st_EncapSport := 0; st_EncapDport := 0; st_MTU := 0 |}.
Definition answered : ProbeResult :=
  {| pr_Target := "10.0.0.2"; pr_Success := true; pr_RTT := 1234567; pr_Error := ""; pr_Timestamp := 0 |}.

Lemma health_rtt_display_witness :
  ∃ n, rtt_cell (health_row {["10.0.0.2" := answered]} status) = decimal_string 2 n +:+ "ms" ∧
    Z.abs (10000 * n - 1234567) ≤ 5000.
Proof.
  apply (health_rtt_display {["10.0.0.2" := answered]} status answered);
    [apply lookup_singleton_eq|reflexivity|vm_compute; split; [intros Hc; discriminate Hc|reflexivity]].
Defined.

Lemma watch_ends_on_interrupt_witness : ∃ shown, line "interrupted" = shown +:+ line "interrupted".
Proof.
  apply (watch_ends_on_interrupt (K:=Mock.Kernel) flags false None (line "interrupted") None).
  apply (WInterrupt _ _ _ Canceled). by left.
Defined.

Example table_prints : health_table (health_row {["10.0.0.2" := answered]} <$> [status]) =
  line "NAME  REMOTE    STATUS   RTT" +:+ line "tun0  10.0.0.2  healthy  1.23ms".
Proof. vm_compute. reflexivity. Qed.

End CmdHealthDemo.
