(* ===== verification/CmdMain.v ===== *)
(** * The programs ([cmd/gretun], [cmd/gretun-coord], [internal/capabilities], [internal/version])

    The remaining commands, the check that runs before a command, and one
    relation [cli_run] for an invocation of [gretun] on a host; then the start
    of the coordinator. *)

From S2P Require Import Prelude.
From S2P Require Import NetIP.
From S2P Require Import GoTime.
From S2P Require Import GoSlice.
From S2P Require Import GoHttp.
From S2P Require Import GoJson.
From S2P Require Import Json.
From S2P Require Import GoFmt.
From S2P Require Import CoordStore.
From S2P Require Import CoordAuth.
From S2P Require Import DiscoKeys.
From S2P Require Import DiscoEnvelope.
From S2P Require Import DiscoClient.
From S2P Require Import JsonWire.
From S2P Require Import Stun.
From S2P Require Import TunnelErrors.
From S2P Require Import TunnelGre.
From S2P Require Import PeerFSM.
From S2P Require Import Daemon.
From S2P Require Import DaemonRun.
From S2P Require Import Health.
From S2P Require Import ProbePool.
From S2P Require Import CmdTunnel.
From S2P Require Import CmdHealth.

(** ** Errors of an invocation *)

Inductive CliError :=
| CliCapability (text : string)
| CliNetlink (e : error)
| CliCommand (e : CmdError)
| CliListen (text : string)
| CliStun (text : string)
| CliKeys (e : KeyError)
| CliDaemon (e : RunError).

(** ** Privileges ([internal/capabilities]) *)

Definition netadmin_text : string :=
  "requires root privileges or CAP_NET_ADMIN capability" +:+ newline +:+ newline +:+
  "GRE tunnel operations require network administration capabilities." +:+ newline +:+
  "Please run with sudo:" +:+ newline +:+
  "  sudo gretun [command]" +:+ newline +:+ newline +:+
  "Alternatively, grant CAP_NET_ADMIN to the binary:" +:+ newline +:+
  "  sudo setcap cap_net_admin+ep $(which gretun)".

(** What the kernel knows about the process; [cr_netadmin] is the capability. *)
Record Creds := { cr_euid : Z; cr_netadmin : bool }.

(** On Linux. *)
Definition CheckNetAdmin (c : Creds) : option string :=
  if negb (cr_euid c =? 0) then Some netadmin_text else None.

(** On other systems. *)
Definition CheckNetAdmin_stub (c : Creds) : option string :=
  Some "GRE tunnels are only supported on Linux".

(** ** [version] *)

Record BuildInfo := { Version : string; Commit : string; BuildTime : string }.
Definition unlinked_build : BuildInfo := {| Version := "dev"; Commit := "none"; BuildTime := "unknown" |}.

Definition version_text (b : BuildInfo) : string :=
  line ("gretun " +:+ Version b +:+ " (commit: " +:+ Commit b +:+ ", built: " +:+ BuildTime b +:+ ")").

(** ** [stun] *)

Definition stun_json (ep : PublicEndpoint) : json :=
  JObj (jfield "addr" (jstr (AddrPort_String (pub_Addr ep))) ++ jfield "via" (jstr (pub_Via ep))).

(** [listen] is the outcome of [net.ListenPacket]; [None] while it waits. *)
Definition runStun `{Stun} (listen : result string ()) (e : SendEnv) (reads : list ReadEnv) (sel : Ctx)
  (jsonOutput : bool) (servers : list string) : option (result CliError string) :=
  match listen with
  | Err err => Some (Err (CliListen err))
  | Ok _ =>
      r ← DiscoverPublic e reads sel servers;
      Some (match r with
            | Err err => Err (CliStun err)
            | Ok ep =>
                Ok (if jsonOutput then line (of_bytes (print (stun_json ep)))
                    else line (AddrPort_String (pub_Addr ep) +:+ "  (via " +:+ pub_Via ep +:+ ")"))
            end)
  end.

(** ** [up] *)

Record UpFlags := {
  uf_coordinator : string;
  uf_iface : string;
  uf_fou_port : Z;
  uf_node_name : string;
  uf_state_dir : string;
  uf_aggressive : bool;
  uf_stun_servers : list string;
  uf_metrics_addr : string
}.

Definition up_config (f : UpFlags) : Daemon.Config :=
  {| Coordinator := uf_coordinator f; NodeName := uf_node_name f; StateDir := uf_state_dir f;
     Iface := uf_iface f; FOUPort := uf_fou_port f; DiscoAddr := "";
     STUNServers := uf_stun_servers f; Aggressive := uf_aggressive f; MetricsAddr := uf_metrics_addr f |}.

(** What [up] meets besides the kernel and the coordinator: the path of the key
    file in a state directory, the random sources, and the daemon's start. *)
Record UpEnv := {
  ue_path : string → string;
  ue_gen : option (bytes * bytes);
  ue_rnd : option key32;
  ue_run : RunEnv
}.

(** ** Commands *)

Inductive Command :=
| CmdVersion
| CmdStun (servers : list string)
| CmdCreate (f : CreateFlags)
| CmdDelete (name : string)
| CmdList
| CmdStatus (name : string)
| CmdHealth (f : HealthFlags)
| CmdProbe (f : ProbeFlags)
| CmdUp (f : UpFlags).

Definition cmd_Name (c : Command) : string :=
  match c with
  | CmdVersion => "version" | CmdStun _ => "stun" | CmdCreate _ => "create" | CmdDelete _ => "delete"
  | CmdList => "list" | CmdStatus _ => "status" | CmdHealth _ => "health" | CmdProbe _ => "probe"
  | CmdUp _ => "up"
  end.

(** How an invocation ends. *)
Inductive CliEnd :=
| CliReturn (out : string) (err : option CliError)
| CliPanic.

(** [main]: 1 when [Execute] returns an error; the runtime exits a panicking
    program with 2. *)
Definition exit_code (e : CliEnd) : Z :=
  match e with
  | CliReturn _ None => 0
  | CliReturn _ (Some _) => 1
  | CliPanic => 2
  end.

Definition cli_outcome {K} (o : Outcome K) : CliEnd := CliReturn (oc_out o) (CliCommand <$> oc_err o).

Section Cli.
Context {fv : FmtVerbs} `{Ed25519} `{NaclBox} `{Icmp} `{Stun} {K : Type} `{Netlinker K}.
Context `{MarshalJSON registerBody, MarshalJSON endpointsBody, MarshalJSON signalBody}.
Context `{UnmarshalJSON registerOut, UnmarshalJSON peersOut, UnmarshalJSON signalsOut}.
Context `{MarshalJSON Body, UnmarshalJSON Body, MarshalJSON persisted, UnmarshalJSON persisted}.
Context {W : Type} (do : Transport W).

(** The root command's [PersistentPreRunE]; [stun] replaces it by one that does
    nothing.  [handle] is the outcome of [NewDefaultNetlinker]. *)
Definition preRun (c : Command) (creds : Creds) (handle : result error ()) : option CliError :=
  match c with
  | CmdStun _ => None
  | _ =>
      if decide (cmd_Name c = "version") then None
      else match CheckNetAdmin creds with
      | Some text => Some (CliCapability text)
      | None => match handle with Err err => Some (CliNetlink err) | Ok _ => None end
      end
  end.

(** A host, with the coordinator it can reach. *)
Record Host := MkHost { ho_k : K; ho_os : OS; ho_w : W }.

Definition with_k (h : Host) (k : K) : Host := MkHost k (ho_os h) (ho_w h).

(** [runUp]: the daemon runs until [Run] returns, or until the polling goroutine
    panics on a peer list that meets the map [shutdown] left. *)
Inductive runUp (f : UpFlags) (e : UpEnv) (h : Host) : CliEnd → Host → Prop :=
| UpKeysFail err os :
    LoadOrCreateKeys (ue_path e (uf_state_dir f)) (ue_gen e) (ue_rnd e) (ho_os h) = (Err err, os) →
    runUp f e h (CliReturn "" (Some (CliKeys err))) (MkHost (ho_k h) os (ho_w h))
| UpStartFail nk dk os err ws k w :
    LoadOrCreateKeys (ue_path e (uf_state_dir f)) (ue_gen e) (ue_rnd e) (ho_os h) = (Ok (nk, dk), os) →
    run_start do (ue_run e) None (New (up_config f) nk dk) (ho_k h) (ho_w h) = Err (err, ws, k, w) →
    runUp f e h (CliReturn "" (Some (CliDaemon err))) (MkHost k os w)
| UpReturned nk dk os s0 s err ws :
    LoadOrCreateKeys (ue_path e (uf_state_dir f)) (ue_gen e) (ue_rnd e) (ho_os h) = (Ok (nk, dk), os) →
    run_start do (ue_run e) None (New (up_config f) nk dk) (ho_k h) (ho_w h) = Ok s0 →
    rtc (sys_step do) s0 s → sy_main s = MReturned err ws →
    runUp f e h (CliReturn "" (CliDaemon <$> err)) (MkHost (sy_k s) os (sy_w s))
| UpPanicked nk dk os s0 s now ps etag w :
    LoadOrCreateKeys (ue_path e (uf_state_dir f)) (ue_gen e) (ue_rnd e) (ho_os h) = (Ok (nk, dk), os) →
    run_start do (ue_run e) None (New (up_config f) nk dk) (ho_k h) (ho_w h) = Ok s0 →
    rtc (sys_step do) s0 s →
    Client.Peers do now (client (sy_d s)) (sy_etag s) (sy_w s) = (Ok (ps, etag), w) →
    reconcilePeers ps (sy_d s) = None →
    runUp f e h CliPanic (MkHost (sy_k s) os w).

(** [Execute] for one command line. *)
Inductive cli_run (creds : Creds) (jsonOutput : bool) (b : BuildInfo) (h : Host)
  : Command → CliEnd → Host → Prop :=
| RunRefused c handle err :
    preRun c creds handle = Some err →
    cli_run creds jsonOutput b h c (CliReturn "" (Some err)) h
| RunVersion :
    cli_run creds jsonOutput b h CmdVersion (CliReturn (version_text b) None) h
| RunStun listen e reads sel servers r :
    runStun listen e reads sel jsonOutput servers = Some r →
    cli_run creds jsonOutput b h (CmdStun servers)
      (match r with Ok out => CliReturn out None | Err err => CliReturn "" (Some err) end) h
| RunCreate f :
    preRun (CmdCreate f) creds (Ok ()) = None →
    let o := runCreate f (ho_k h) in
    cli_run creds jsonOutput b h (CmdCreate f) (cli_outcome o) (with_k h (oc_k o))
| RunDelete name :
    preRun (CmdDelete name) creds (Ok ()) = None →
    let o := runDelete name (ho_k h) in
    cli_run creds jsonOutput b h (CmdDelete name) (cli_outcome o) (with_k h (oc_k o))
| RunList :
    preRun CmdList creds (Ok ()) = None →
    let o := runList jsonOutput (ho_k h) in
    cli_run creds jsonOutput b h CmdList (cli_outcome o) (with_k h (oc_k o))
| RunStatus name :
    preRun (CmdStatus name) creds (Ok ()) = None →
    let o := runStatus jsonOutput name (ho_k h) in
    cli_run creds jsonOutput b h (CmdStatus name) (cli_outcome o) (with_k h (oc_k o))
| RunHealthPanic f :
    preRun (CmdHealth f) creds (Ok ()) = None →
    runHealth f jsonOutput (ho_k h) HPanic →
    cli_run creds jsonOutput b h (CmdHealth f) CliPanic h
| RunHealth f out err :
    preRun (CmdHealth f) creds (Ok ()) = None →
    runHealth f jsonOutput (ho_k h) (HReturn out err) →
    cli_run creds jsonOutput b h (CmdHealth f) (CliReturn out (CliCommand <$> err)) h
| RunProbe f stamp rounds :
    preRun (CmdProbe f) creds (Ok ()) = None →
    cli_run creds jsonOutput b h (CmdProbe f)
      (match runProbe stamp jsonOutput f rounds with
       | Some (err, out) => CliReturn out (CliCommand <$> err)
       | None => CliPanic
       end) h
| RunUp f e end_ h' :
    preRun (CmdUp f) creds (Ok ()) = None →
    runUp f e h end_ h' →
    cli_run creds jsonOutput b h (CmdUp f) end_ h'.

(** One invocation by anyone, with any flags. *)
Definition invocation (h h' : Host) : Prop :=
  ∃ creds jsonOutput b c e, cli_run creds jsonOutput b h c e h'.

End Cli.

(** ** What an invocation may do *)
Section Claims.
Context {fv : FmtVerbs} `{Ed25519} `{NaclBox} `{Icmp} `{Stun} {K : Type} `{NetlinkerSpec K}.
Context `{MarshalJSON registerBody, MarshalJSON endpointsBody, MarshalJSON signalBody}.
Context `{UnmarshalJSON registerOut, UnmarshalJSON peersOut, UnmarshalJSON signalsOut}.
Context `{MarshalJSON Body, UnmarshalJSON Body, MarshalJSON persisted, UnmarshalJSON persisted}.
Context {W : Type} (do : Transport W).

Lemma runUp_foreign f e (h : Host) end_ h' : runUp do f e h end_ h' → foreign_kept (ho_k h) (ho_k h').
Proof.
  pose proof (λ nk dk, run_foreign do (ue_run e) None (up_config f) nk dk (ho_k h) (ho_w h)) as Hf.
  destruct 1 as [|nk dk os err ws k w _ Hs|nk dk os s0 s err ws _ Hs Hr _|nk dk os s0 s now ps etag w _ Hs Hr _ _];
    simpl; [done|specialize (Hf nk dk); rewrite Hs in Hf; auto..].
Qed.

Lemma cli_run_foreign creds j b (h : Host) c e h' :
  cli_run do creds j b h c e h' → foreign_kept (ho_k h) (ho_k h').
Proof.
  destruct 1; simpl; try done.
  - apply runCreate_foreign.
  - apply runDelete_foreign.
  - unfold o. by rewrite runList_kernel.
  - unfold o. by rewrite runStatus_kernel.
  - by eapply runUp_foreign.
Qed.

(** C30. No sequence of invocations of [gretun], by whomever and with whatever
    flags, the daemon included, ever changes or removes a link that is not a GRE
    tunnel, or closes a FOU port that was open at the start. *)
Theorem cli_spares_foreign_links (h h' : Host) (Hruns : rtc (invocation do) h h') :
  (∀ n l, links (ho_k h) !! n = Some l → l_Type l ≠ "gre" → links (ho_k h') !! n = Some l) ∧
  fous (ho_k h) ⊆ fous (ho_k h').
Proof.
  change (foreign_kept (ho_k h) (ho_k h')).
  induction Hruns as [h|h1 h2 h3 (creds & j & b & c & e & Hr) _ IH]; [done|].
  etrans; [by eapply cli_run_foreign|done].
Qed.

(** Without an effective user id of 0 every command but [version] and [stun]
    ends with the capability error, exit status 1, and no effect, whether or not
    the process holds CAP_NET_ADMIN. *)
Theorem cli_requires_root (creds : Creds) (jsonOutput : bool) (b : BuildInfo) (h h' : Host) (c : Command)
  (e : CliEnd) (Hrun : cli_run do creds jsonOutput b h c e h')
  (Huser : cr_euid creds ≠ 0) (Hcmd : cmd_Name c ≠ "version" ∧ cmd_Name c ≠ "stun") :
  h' = h ∧ e = CliReturn "" (Some (CliCapability netadmin_text)) ∧ exit_code e = 1.
Proof.
  assert (∀ handle, preRun c creds handle = Some (CliCapability netadmin_text)) as Hpre.
  { intros handle. unfold preRun, CheckNetAdmin. destruct (Z.eqb_spec (cr_euid creds) 0); [done|].
    destruct c; [by destruct Hcmd|by destruct Hcmd|..]; done. }
  destruct Hrun; try (rewrite Hpre in *; simplify_eq; done); by destruct Hcmd.
Qed.

End Claims.

(** ** The coordinator ([cmd/gretun-coord/main.go]) *)

Record CoordFlags := { fl_listen : string; fl_pool : string; fl_cert : string; fl_key : string }.

Definition coord_defaults : CoordFlags :=
  {| fl_listen := ":8443"; fl_pool := "100.64.0.0/24"; fl_cert := ""; fl_key := "" |}.

Definition ReadTimeout : Z := 30 * GoTime.Second.
Definition WriteTimeout : Z := 35 * GoTime.Second.
Definition IdleTimeout : Z := 90 * GoTime.Second.

(** Why [ListenAndServe] returned. *)
Inductive ServeError := ErrServerClosed | ServeFailed (text : string).

Inductive CoordMain :=
| Fatal (text : string)
| Serving (addr : string) (tls : bool) (store : MemStore).

(** [main] up to the call that serves; the text of [Fatal] is the message up to
    the parser's own. *)
Definition coord_start (f : CoordFlags) (now : Z) : CoordMain :=
  match IP.ParsePrefix (fl_pool f) with
  | None => Fatal "invalid --pool: "
  | Some pool =>
      Serving (fl_listen f) (bool_decide (fl_cert f ≠ "") && bool_decide (fl_key f ≠ ""))
        (NewMemStore pool now)
  end.

(** The exit status, once serving has ended with [runErr]. *)
Definition coord_exit (m : CoordMain) (runErr : option ServeError) : Z :=
  match m with
  | Fatal _ => 1
  | Serving _ _ _ => match runErr with Some (ServeFailed _) => 1 | _ => 0 end
  end.

(** ** Witnesses: a host with an Ethernet interface *)
Module CmdMainDemo.
#[local] Existing Instances Mock.nl Mock.spec StunDemo.stun HealthDemo.icmp DaemonDemo.verbs.
#[local] Instance ed : Ed25519 := toy_ed25519.
#[local] Instance bx : NaclBox := toy_box.
#[local] Existing Instance WireDemo.wire.

Definition eth0 : Mock.Attrs := {| Mock.a_type := "device"; Mock.a_up := true; Mock.a_mtu := 1500; Mock.a_gre := None |}.
Definition host : Host := MkHost (Mock.set_links Mock.healthy {["eth0" := eth0]}) KeysDemo.os ().
Definition root : Creds := {| cr_euid := 0; cr_netadmin := true |}.
Definition user : Creds := {| cr_euid := 1000; cr_netadmin := true |}.
Definition no_network : Transport () := λ _ w, (None, w).

Definition created : Host := with_k host (oc_k (runCreate CmdTunnelDemo.flags (ho_k host))).
Definition deleted : Host := with_k created (oc_k (runDelete "eth0" (ho_k created))).

(** A tunnel is created, and the deletion of the interface is tried. *)
Lemma demo_runs : rtc (invocation no_network) host deleted.
Proof.
  apply (rtc_l _ _ created).
  { eexists root, false, unlinked_build, _, _. by apply (RunCreate no_network root false unlinked_build host CmdTunnelDemo.flags). }
  apply rtc_once. eexists root, false, unlinked_build, _, _.
  by apply (RunDelete no_network root false unlinked_build created "eth0").
Qed.

Lemma cli_spares_foreign_links_witness :
  is_Some (links (ho_k deleted) !! "tun0") ∧
  links (ho_k deleted) !! "eth0" = Some (Mock.link "eth0" eth0).
Proof.
  split; [vm_compute; eauto|].
  apply (proj1 (cli_spares_foreign_links no_network host deleted demo_runs));
    [vm_compute; reflexivity|discriminate].
Defined.

Lemma refused_run : cli_run no_network user true unlinked_build host CmdList
  (CliReturn "" (Some (CliCapability netadmin_text))) host.
Proof. by apply (RunRefused _ _ _ _ _ _ (Ok ())). Qed.

Lemma cli_requires_root_witness :
  exit_code (CliReturn "" (Some (CliCapability netadmin_text))) = 1.
Proof.
  apply (cli_requires_root no_network user true unlinked_build host host CmdList _ refused_run);
    [discriminate|split; discriminate].
Defined.

Example default_coordinator : ∃ store, coord_start coord_defaults 0 = Serving ":8443" false store.
Proof. eexists. vm_compute. reflexivity. Qed.

End CmdMainDemo.
